(** * evolution-sim: a shallow embedding of the simulation core

    The TypeScript sources are embedded module by module, one Rocq module per
    source file, keeping the names of the source.

    - A JavaScript [number] is read as a real number ([R]); the integer
      counters of the program (ids, populations, birth and death totals) are
      [nat] or [Z].  [Math.max], [Math.min], [Math.sqrt], [Math.abs],
      [Math.floor] and [Math.ceil] are [Rmax], [Rmin], [sqrt], [Rabs],
      [Zfloor] and [Zceil].
    - [Math.random()] reads the next sample of an explicit random source.
    - [CONFIG] is a value the functions are parameterised by;
      [config.DEFAULT_CONFIG] holds the values of the source.
    - Objects that are mutated through several references (creatures) live in
      an object store indexed by their id; collections hold ids. *)

From Stdlib Require Import Reals Lra Lia ZArith List Bool.
From stdpp Require Import gmap list.

(** ** JavaScript comparisons on numbers *)

Definition Rltb (a b : R) : bool := if Rlt_dec a b then true else false.
Definition Rleb (a b : R) : bool := if Rle_dec a b then true else false.

Notation "a <? b" := (Rltb a b) : R_scope.
Notation "a <=? b" := (Rleb a b) : R_scope.
Notation "a >? b" := (Rltb b a) (at level 70, no associativity) : R_scope.
Notation "a >=? b" := (Rleb b a) (at level 70, no associativity) : R_scope.

(** [a === b] on numbers *)
Definition Reqb (a b : R) : bool := if Req_dec_T a b then true else false.

(** ** A state monad for the mutable parts of the program *)

Definition State (S A : Type) : Type := S -> A * S.

Definition ret {S A : Type} (a : A) : State S A := fun s => (a, s).

Definition bind {S A B : Type} (m : State S A) (k : A -> State S B) : State S B :=
  fun s => let r := m s in k (fst r) (snd r).

Definition get {S : Type} : State S S := fun s => (s, s).
Definition put {S : Type} (s : S) : State S unit := fun _ => (tt, s).
Definition modify {S : Type} (f : S -> S) : State S unit := fun s => (tt, f s).

Notation "x <- m ;; k" := (bind m (fun x => k))
  (at level 100, m at next level, right associativity).
Notation "m ;;; k" := (bind m (fun _ => k))
  (at level 100, right associativity).

(** [for (const x of l) body(x)] *)
Fixpoint forEach {S A : Type} (l : list A) (body : A -> State S unit) : State S unit :=
  match l with
  | [] => ret tt
  | x :: l' => body x ;;; forEach l' body
  end.

(** [for (let i = 0; i < n; i++) body()] with a body that ignores [i] *)
Fixpoint repeatM {S : Type} (n : nat) (body : State S unit) : State S unit :=
  match n with
  | O => ret tt
  | S n' => body ;;; repeatM n' body
  end.

(** ** [Math.random()] *)

Record RandomSource : Type := {
  samples : nat -> R;   (* the successive results of Math.random() *)
  consumed : nat        (* how many have been read *)
}.

Definition Math_random : State RandomSource R :=
  fun s => (samples s (consumed s),
            {| samples := samples s; consumed := S (consumed s) |}).

(** ** simulation/config.ts *)

Module config.

Record Config : Type := {
  WORLD_WIDTH : R;
  WORLD_HEIGHT : R;
  SPATIAL_CELL_SIZE : R;
  INITIAL_CREATURE_COUNT : nat;
  MAX_CREATURES : nat;
  INITIAL_FOOD_COUNT : nat;
  MAX_FOOD : nat;
  CREATURE_BASE_SPEED : R;
  CREATURE_BASE_SIZE : R;
  CREATURE_MAX_SIZE : R;
  CREATURE_MIN_SIZE : R;
  CREATURE_BASE_ENERGY : R;
  CREATURE_MAX_ENERGY : R;
  CREATURE_ENERGY_DRAIN_BASE : R;
  CREATURE_VISION_BASE : R;
  CREATURE_VISION_MAX : R;
  REPRODUCTION_ENERGY_THRESHOLD : R;
  REPRODUCTION_ENERGY_COST : R;
  REPRODUCTION_COOLDOWN : R;
  OFFSPRING_MAX_SMALL : R;
  OFFSPRING_MAX_MEDIUM : R;
  OFFSPRING_MAX_LARGE : R;
  ASEXUAL_SIZE_THRESHOLD : R;
  MUTATION_RATE : R;
  MUTATION_LARGE_CHANCE : R;
  MUTATION_LARGE_AMOUNT : R;
  TEMPERATURE_MIN : R;
  TEMPERATURE_MAX : R;
  TEMPERATURE_DEFAULT : R;
  EMIGRATION_EDGE_DISTANCE : R;
  EMIGRATION_ENERGY_THRESHOLD : R;
  EMIGRATION_CROWDING_THRESHOLD : nat;
  EMIGRATION_BASE_CHANCE : R;
  HERBIVORE_LIFESPAN_MULT : R;
  HERBIVORE_REPRO_COOLDOWN_MULT : R;
  HERBIVORE_REPRO_THRESHOLD_OFFSET : R;
  HERBIVORE_OFFSPRING_BONUS : R;
  HERBIVORE_SPEED_SIZE_PENALTY : R;
  HERBIVORE_BIG_ENERGY_PENALTY : R;
  HERBIVORE_TINY_REPRO_MULT : R;
  HERBIVORE_SMALL_REPRO_MULT : R;
  HERBIVORE_LARGE_REPRO_MULT : R;
  CARNIVORE_LIFESPAN_MULT : R;
  CARNIVORE_REPRO_COOLDOWN_MULT : R;
  CARNIVORE_REPRO_THRESHOLD_OFFSET : R;
  CARNIVORE_OFFSPRING_BONUS : R;
  CARNIVORE_SPEED_SIZE_PENALTY : R;
  OMNIVORE_LIFESPAN_MULT : R;
  OMNIVORE_REPRO_COOLDOWN_MULT : R;
  OMNIVORE_REPRO_THRESHOLD_OFFSET : R;
  OMNIVORE_SPEED_SIZE_PENALTY : R;
  OMNIVORE_ENERGY_DRAIN_MULT : R;
  OMNIVORE_BIG_ENERGY_PENALTY : R
}.

Local Open Scope R_scope.

Definition DEFAULT_CONFIG : Config := {|
  WORLD_WIDTH := 2400;
  WORLD_HEIGHT := 1350;
  SPATIAL_CELL_SIZE := 50;
  INITIAL_CREATURE_COUNT := 300;
  MAX_CREATURES := 1500;
  INITIAL_FOOD_COUNT := 1200;
  MAX_FOOD := 2000;
  CREATURE_BASE_SPEED := 100;
  CREATURE_BASE_SIZE := 10;
  CREATURE_MAX_SIZE := 32;
  CREATURE_MIN_SIZE := 3;
  CREATURE_BASE_ENERGY := 100;
  CREATURE_MAX_ENERGY := 150;
  CREATURE_ENERGY_DRAIN_BASE := 2;
  CREATURE_VISION_BASE := 80;
  CREATURE_VISION_MAX := 200;
  REPRODUCTION_ENERGY_THRESHOLD := 0.8;
  REPRODUCTION_ENERGY_COST := 0.35;
  REPRODUCTION_COOLDOWN := 4;
  OFFSPRING_MAX_SMALL := 6;
  OFFSPRING_MAX_MEDIUM := 4;
  OFFSPRING_MAX_LARGE := 2;
  ASEXUAL_SIZE_THRESHOLD := 0.5;
  MUTATION_RATE := 0.001;
  MUTATION_LARGE_CHANCE := 0.005;
  MUTATION_LARGE_AMOUNT := 0.01;
  TEMPERATURE_MIN := -20;
  TEMPERATURE_MAX := 50;
  TEMPERATURE_DEFAULT := 20;
  EMIGRATION_EDGE_DISTANCE := 30;
  EMIGRATION_ENERGY_THRESHOLD := 0.35;
  EMIGRATION_CROWDING_THRESHOLD := 8;
  EMIGRATION_BASE_CHANCE := 0.02;
  HERBIVORE_LIFESPAN_MULT := 0.9;
  HERBIVORE_REPRO_COOLDOWN_MULT := 0.15;
  HERBIVORE_REPRO_THRESHOLD_OFFSET := -0.3;
  HERBIVORE_OFFSPRING_BONUS := 4;
  HERBIVORE_SPEED_SIZE_PENALTY := 0.8;
  HERBIVORE_BIG_ENERGY_PENALTY := 1.0;
  HERBIVORE_TINY_REPRO_MULT := 0.1;
  HERBIVORE_SMALL_REPRO_MULT := 0.2;
  HERBIVORE_LARGE_REPRO_MULT := 0.5;
  CARNIVORE_LIFESPAN_MULT := 1.5;
  CARNIVORE_REPRO_COOLDOWN_MULT := 2.5;
  CARNIVORE_REPRO_THRESHOLD_OFFSET := 0.1;
  CARNIVORE_OFFSPRING_BONUS := 2;
  CARNIVORE_SPEED_SIZE_PENALTY := 0.0;
  OMNIVORE_LIFESPAN_MULT := 1.0;
  OMNIVORE_REPRO_COOLDOWN_MULT := 2.5;
  OMNIVORE_REPRO_THRESHOLD_OFFSET := 0.05;
  OMNIVORE_SPEED_SIZE_PENALTY := 0.3;
  OMNIVORE_ENERGY_DRAIN_MULT := 1.5;
  OMNIVORE_BIG_ENERGY_PENALTY := 1.5
|}.

(** [TraitName = keyof typeof TRAIT_RANGES] *)
Inductive TraitName : Type :=
  | k_speed | k_size | k_visionRange | k_metabolism | k_heatTolerance
  | k_coldTolerance | k_aggression | k_camouflage | k_lifespan
  | k_reproductionRate | k_socialBehavior | k_dietPreference | k_strength
  | k_stamina.

Record TraitRange : Type := { range_min : R; range_max : R; range_default : R }.

Definition TRAIT_RANGES (traitName : TraitName) : TraitRange :=
  match traitName with
  | k_speed => {| range_min := 0.0; range_max := 1.0; range_default := 0.3 |}
  | k_size => {| range_min := 0.0; range_max := 1.0; range_default := 0.15 |}
  | k_visionRange => {| range_min := 0.0; range_max := 1.0; range_default := 0.3 |}
  | k_metabolism => {| range_min := 0.0; range_max := 1.0; range_default := 0.4 |}
  | k_heatTolerance => {| range_min := 0.0; range_max := 1.0; range_default := 0.5 |}
  | k_coldTolerance => {| range_min := 0.0; range_max := 1.0; range_default := 0.5 |}
  | k_aggression => {| range_min := 0.0; range_max := 1.0; range_default := 0.1 |}
  | k_camouflage => {| range_min := 0.0; range_max := 1.0; range_default := 0.2 |}
  | k_lifespan => {| range_min := 0.0; range_max := 1.0; range_default := 0.3 |}
  | k_reproductionRate => {| range_min := 0.0; range_max := 1.0; range_default := 0.4 |}
  | k_socialBehavior => {| range_min := 0.0; range_max := 1.0; range_default := 0.2 |}
  | k_dietPreference => {| range_min := 0.0; range_max := 1.0; range_default := 0.15 |}
  | k_strength => {| range_min := 0.0; range_max := 1.0; range_default := 0.2 |}
  | k_stamina => {| range_min := 0.0; range_max := 1.0; range_default := 0.3 |}
  end.

End config.

(** ** utils/math.ts *)

Module math.

Local Open Scope R_scope.

Record Vector2 : Type := { x : R; y : R }.

Definition magnitude (v : Vector2) : R := sqrt (x v ^ 2 + y v ^ 2).

Definition distance (x1 y1 x2 y2 : R) : R :=
  let dx := x2 - x1 in
  let dy := y2 - y1 in
  sqrt (dx * dx + dy * dy).

Definition clampVelocity (v : Vector2) (maxSpeed : R) : Vector2 :=
  let speed := magnitude v in
  if speed <=? maxSpeed then v
  else
    let scale := maxSpeed / speed in
    {| x := x v * scale; y := y v * scale |}.

Definition distanceVec (a b : Vector2) : R :=
  let dx := x b - x a in
  let dy := y b - y a in
  sqrt (dx * dx + dy * dy).

Definition normalize (v : Vector2) : Vector2 :=
  let mag := magnitude v in
  if Reqb mag 0 then {| x := 0; y := 0 |}
  else {| x := x v / mag; y := y v / mag |}.

End math.

(** ** entities/genetics.ts *)

Module genetics.

Import config.
Local Open Scope R_scope.

Record Traits : Type := {
  speed : R;
  size : R;
  visionRange : R;
  metabolism : R;
  heatTolerance : R;
  coldTolerance : R;
  aggression : R;
  camouflage : R;
  lifespan : R;
  reproductionRate : R;
  socialBehavior : R;
  dietPreference : R;
  strength : R;
  stamina : R
}.

(** [traits[key]] *)
Definition getTrait (key : TraitName) (t : Traits) : R :=
  match key with
  | k_speed => speed t
  | k_size => size t
  | k_visionRange => visionRange t
  | k_metabolism => metabolism t
  | k_heatTolerance => heatTolerance t
  | k_coldTolerance => coldTolerance t
  | k_aggression => aggression t
  | k_camouflage => camouflage t
  | k_lifespan => lifespan t
  | k_reproductionRate => reproductionRate t
  | k_socialBehavior => socialBehavior t
  | k_dietPreference => dietPreference t
  | k_strength => strength t
  | k_stamina => stamina t
  end.

(** [traits[key] = v] *)
Definition setTrait (key : TraitName) (v : R) (t : Traits) : Traits :=
  {| speed := match key with k_speed => v | _ => speed t end;
     size := match key with k_size => v | _ => size t end;
     visionRange := match key with k_visionRange => v | _ => visionRange t end;
     metabolism := match key with k_metabolism => v | _ => metabolism t end;
     heatTolerance := match key with k_heatTolerance => v | _ => heatTolerance t end;
     coldTolerance := match key with k_coldTolerance => v | _ => coldTolerance t end;
     aggression := match key with k_aggression => v | _ => aggression t end;
     camouflage := match key with k_camouflage => v | _ => camouflage t end;
     lifespan := match key with k_lifespan => v | _ => lifespan t end;
     reproductionRate := match key with k_reproductionRate => v | _ => reproductionRate t end;
     socialBehavior := match key with k_socialBehavior => v | _ => socialBehavior t end;
     dietPreference := match key with k_dietPreference => v | _ => dietPreference t end;
     strength := match key with k_strength => v | _ => strength t end;
     stamina := match key with k_stamina => v | _ => stamina t end |}.

(** [Object.keys(traits)], in the order the fields are written *)
Definition traitKeys : list TraitName :=
  [k_speed; k_size; k_visionRange; k_metabolism; k_heatTolerance;
   k_coldTolerance; k_aggression; k_camouflage; k_lifespan;
   k_reproductionRate; k_socialBehavior; k_dietPreference; k_strength;
   k_stamina].

Definition clamp01 (value : R) : R := Rmax 0 (Rmin 1 value).

Definition randomTrait (traitName : TraitName) : State RandomSource R :=
  let range := TRAIT_RANGES traitName in
  r <- Math_random ;;
  ret (range_min range + r * (range_max range - range_min range)).

Definition generateRandomTraits : State RandomSource Traits :=
  v_speed <- randomTrait k_speed ;;
  v_size <- randomTrait k_size ;;
  v_visionRange <- randomTrait k_visionRange ;;
  v_metabolism <- randomTrait k_metabolism ;;
  v_heatTolerance <- randomTrait k_heatTolerance ;;
  v_coldTolerance <- randomTrait k_coldTolerance ;;
  v_aggression <- randomTrait k_aggression ;;
  v_camouflage <- randomTrait k_camouflage ;;
  v_lifespan <- randomTrait k_lifespan ;;
  v_reproductionRate <- randomTrait k_reproductionRate ;;
  v_socialBehavior <- randomTrait k_socialBehavior ;;
  v_dietPreference <- randomTrait k_dietPreference ;;
  v_strength <- randomTrait k_strength ;;
  v_stamina <- randomTrait k_stamina ;;
  ret {| speed := v_speed; size := v_size; visionRange := v_visionRange;
         metabolism := v_metabolism; heatTolerance := v_heatTolerance;
         coldTolerance := v_coldTolerance; aggression := v_aggression;
         camouflage := v_camouflage; lifespan := v_lifespan;
         reproductionRate := v_reproductionRate;
         socialBehavior := v_socialBehavior;
         dietPreference := v_dietPreference; strength := v_strength;
         stamina := v_stamina |}.

Definition generateHerbivoreTraits : State RandomSource Traits :=
  traits <- generateRandomTraits ;;
  r1 <- Math_random ;;
  let traits := setTrait k_dietPreference (r1 * 0.3) traits in
  r2 <- Math_random ;;
  let traits := setTrait k_aggression (r2 * 0.3) traits in
  r3 <- Math_random ;;
  let traits := setTrait k_socialBehavior (0.5 + r3 * 0.5) traits in
  r4 <- Math_random ;;
  let traits := setTrait k_camouflage (0.3 + r4 * 0.5) traits in
  ret traits.

Definition generateCarnivoreTraits : State RandomSource Traits :=
  traits <- generateRandomTraits ;;
  r1 <- Math_random ;;
  let traits := setTrait k_dietPreference (0.7 + r1 * 0.3) traits in
  r2 <- Math_random ;;
  let traits := setTrait k_aggression (0.5 + r2 * 0.5) traits in
  r3 <- Math_random ;;
  let traits := setTrait k_strength (0.5 + r3 * 0.5) traits in
  r4 <- Math_random ;;
  let traits := setTrait k_stamina (0.5 + r4 * 0.5) traits in
  r5 <- Math_random ;;
  let traits := setTrait k_speed (0.5 + r5 * 0.5) traits in
  r6 <- Math_random ;;
  let traits := setTrait k_visionRange (0.5 + r6 * 0.5) traits in
  r7 <- Math_random ;;
  let traits := setTrait k_socialBehavior (r7 * 0.4) traits in
  ret traits.

Definition generateOmnivoreTraits : State RandomSource Traits :=
  traits <- generateRandomTraits ;;
  r1 <- Math_random ;;
  let traits := setTrait k_dietPreference (0.4 + r1 * 0.2) traits in
  r2 <- Math_random ;;
  let traits := setTrait k_aggression (0.3 + r2 * 0.3) traits in
  r3 <- Math_random ;;
  let traits := setTrait k_strength (0.35 + r3 * 0.3) traits in
  r4 <- Math_random ;;
  let traits := setTrait k_metabolism (0.5 + r4 * 0.3) traits in
  r5 <- Math_random ;;
  let traits := setTrait k_stamina (0.4 + r5 * 0.3) traits in
  r6 <- Math_random ;;
  let traits := setTrait k_visionRange (0.4 + r6 * 0.3) traits in
  r7 <- Math_random ;;
  let traits := setTrait k_socialBehavior (0.3 + r7 * 0.4) traits in
  r8 <- Math_random ;;
  let traits := setTrait k_reproductionRate (0.5 + r8 * 0.3) traits in
  ret traits.

Section WithConfig.

Variable CONFIG : Config.

(** [mutationRate] is an optional argument: [None] is [undefined], which
    takes the default [CONFIG.MUTATION_RATE]. *)
Definition mutateTrait (value : R) (mutationRate : option R) : State RandomSource R :=
  let mutationRate := default (MUTATION_RATE CONFIG) mutationRate in
  roll <- Math_random ;;
  if roll <? MUTATION_LARGE_CHANCE CONFIG then
    coin <- Math_random ;;
    let direction := if coin <? 0.5 then -1 else 1 in
    amount <- Math_random ;;
    ret (clamp01 (value + direction * MUTATION_LARGE_AMOUNT CONFIG * amount))
  else
    r <- Math_random ;;
    let deviation := (r - 0.5) * 2 * mutationRate in
    ret (clamp01 (value + deviation)).

Definition mutateTraits (traits : Traits) (mutationRate : option R) : State RandomSource Traits :=
  v_speed <- mutateTrait (speed traits) mutationRate ;;
  v_size <- mutateTrait (size traits) mutationRate ;;
  v_visionRange <- mutateTrait (visionRange traits) mutationRate ;;
  v_metabolism <- mutateTrait (metabolism traits) mutationRate ;;
  v_heatTolerance <- mutateTrait (heatTolerance traits) mutationRate ;;
  v_coldTolerance <- mutateTrait (coldTolerance traits) mutationRate ;;
  v_aggression <- mutateTrait (aggression traits) mutationRate ;;
  v_camouflage <- mutateTrait (camouflage traits) mutationRate ;;
  v_lifespan <- mutateTrait (lifespan traits) mutationRate ;;
  v_reproductionRate <- mutateTrait (reproductionRate traits) mutationRate ;;
  v_socialBehavior <- mutateTrait (socialBehavior traits) mutationRate ;;
  v_dietPreference <- mutateTrait (dietPreference traits) mutationRate ;;
  v_strength <- mutateTrait (strength traits) mutationRate ;;
  v_stamina <- mutateTrait (stamina traits) mutationRate ;;
  ret {| speed := v_speed; size := v_size; visionRange := v_visionRange;
         metabolism := v_metabolism; heatTolerance := v_heatTolerance;
         coldTolerance := v_coldTolerance; aggression := v_aggression;
         camouflage := v_camouflage; lifespan := v_lifespan;
         reproductionRate := v_reproductionRate;
         socialBehavior := v_socialBehavior;
         dietPreference := v_dietPreference; strength := v_strength;
         stamina := v_stamina |}.

Definition mutateTraitsWithStress (traits : Traits) (hungerStress : R)
    (mutationRate : option R) : State RandomSource Traits :=
  let baseRate := default (MUTATION_RATE CONFIG) mutationRate in
  let dietMutationBoost := 1 + hungerStress * 4 in
  let dietRate := baseRate * dietMutationBoost in
  v_speed <- mutateTrait (speed traits) (Some baseRate) ;;
  v_size <- mutateTrait (size traits) (Some baseRate) ;;
  v_visionRange <- mutateTrait (visionRange traits) (Some baseRate) ;;
  v_metabolism <- mutateTrait (metabolism traits) (Some (baseRate * (1 + hungerStress))) ;;
  v_heatTolerance <- mutateTrait (heatTolerance traits) (Some baseRate) ;;
  v_coldTolerance <- mutateTrait (coldTolerance traits) (Some baseRate) ;;
  v_aggression <- mutateTrait (aggression traits) (Some dietRate) ;;
  v_camouflage <- mutateTrait (camouflage traits) (Some baseRate) ;;
  v_lifespan <- mutateTrait (lifespan traits) (Some baseRate) ;;
  v_reproductionRate <- mutateTrait (reproductionRate traits) (Some baseRate) ;;
  v_socialBehavior <- mutateTrait (socialBehavior traits) (Some baseRate) ;;
  v_dietPreference <- mutateTrait (dietPreference traits) (Some dietRate) ;;
  v_strength <- mutateTrait (strength traits) (Some dietRate) ;;
  v_stamina <- mutateTrait (stamina traits) (Some dietRate) ;;
  ret {| speed := v_speed; size := v_size; visionRange := v_visionRange;
         metabolism := v_metabolism; heatTolerance := v_heatTolerance;
         coldTolerance := v_coldTolerance; aggression := v_aggression;
         camouflage := v_camouflage; lifespan := v_lifespan;
         reproductionRate := v_reproductionRate;
         socialBehavior := v_socialBehavior;
         dietPreference := v_dietPreference; strength := v_strength;
         stamina := v_stamina |}.

(** The all-zero [child] the crossover starts from. *)
Definition zeroTraits : Traits :=
  {| speed := 0; size := 0; visionRange := 0; metabolism := 0;
     heatTolerance := 0; coldTolerance := 0; aggression := 0; camouflage := 0;
     lifespan := 0; reproductionRate := 0; socialBehavior := 0;
     dietPreference := 0; strength := 0; stamina := 0 |}.

(** The body of the loop [for (const trait of traitNames)] of the crossover,
    with [child] as the accumulator. *)
Fixpoint crossoverLoop (parent1 parent2 : Traits) (traitNames : list TraitName)
    (child : Traits) : State RandomSource Traits :=
  match traitNames with
  | [] => ret child
  | trait :: rest =>
      blendChance <- Math_random ;;
      let child :=
        if blendChance <? 0.4 then setTrait trait (getTrait trait parent1) child
        else if blendChance <? 0.8 then setTrait trait (getTrait trait parent2) child
        else setTrait trait ((getTrait trait parent1 + getTrait trait parent2) / 2) child in
      crossoverLoop parent1 parent2 rest child
  end.

Definition crossoverTraits (parent1 parent2 : Traits) (mutationRate : option R)
    : State RandomSource Traits :=
  child <- crossoverLoop parent1 parent2 traitKeys zeroTraits ;;
  mutateTraits child mutationRate.

Definition getAttackDamage (traits : Traits) : R :=
  let baseDamage := 15 in
  baseDamage + strength traits * 35 + size traits * 10.

Definition getCreatureSize (traits : Traits) : R :=
  CREATURE_MIN_SIZE CONFIG
  + size traits * (CREATURE_MAX_SIZE CONFIG - CREATURE_MIN_SIZE CONFIG).

Definition getCreatureSpeed (traits : Traits) : R :=
  let baseSpeed := CREATURE_BASE_SPEED CONFIG * (0.5 + speed traits) in
  let sizeModifier :=
    if dietPreference traits >? 0.65 then
      1.0 - size traits * CARNIVORE_SPEED_SIZE_PENALTY CONFIG
    else if dietPreference traits <? 0.35 then
      1.3 - size traits * HERBIVORE_SPEED_SIZE_PENALTY CONFIG
    else
      1.1 - size traits * OMNIVORE_SPEED_SIZE_PENALTY CONFIG in
  baseSpeed * sizeModifier.

Definition getVisionRange (traits : Traits) : R :=
  CREATURE_VISION_BASE CONFIG + visionRange traits * CREATURE_VISION_MAX CONFIG.

Definition getEnergyDrain (traits : Traits) : R :=
  let sizeModifier := 0.3 + size traits * 1.5 in
  let metabolismModifier := 1.5 - metabolism traits in
  let dietModifier :=
    if (dietPreference traits <? 0.35) && (size traits >? 0.5) then
      1 + (size traits - 0.5) * HERBIVORE_BIG_ENERGY_PENALTY CONFIG
    else if (dietPreference traits >=? 0.35) && (dietPreference traits <=? 0.65) then
      let dietModifier := OMNIVORE_ENERGY_DRAIN_MULT CONFIG in
      if size traits >? 0.4 then
        dietModifier * (1 + (size traits - 0.4) * OMNIVORE_BIG_ENERGY_PENALTY CONFIG)
      else dietModifier
    else 1.0 in
  CREATURE_ENERGY_DRAIN_BASE CONFIG * sizeModifier * metabolismModifier * dietModifier.

Definition getMaxLifespan (traits : Traits) : R :=
  let baseLifespan := 30 + lifespan traits * 60 in
  let sizeModifier := 0.7 + size traits * 0.6 in
  let baseLifespan := baseLifespan * sizeModifier in
  if dietPreference traits >? 0.65 then
    baseLifespan * CARNIVORE_LIFESPAN_MULT CONFIG
  else if dietPreference traits <? 0.35 then
    baseLifespan * HERBIVORE_LIFESPAN_MULT CONFIG
  else
    baseLifespan * OMNIVORE_LIFESPAN_MULT CONFIG.

Definition prefersAsexual (traits : Traits) : bool :=
  if size traits >? ASEXUAL_SIZE_THRESHOLD CONFIG then false
  else (dietPreference traits >? 0.6) || (socialBehavior traits <? 0.3).

Definition getReproductionThreshold (traits : Traits) : R :=
  let threshold := REPRODUCTION_ENERGY_THRESHOLD CONFIG - reproductionRate traits * 0.2 in
  let threshold :=
    if dietPreference traits >? 0.65 then
      threshold + CARNIVORE_REPRO_THRESHOLD_OFFSET CONFIG
    else if dietPreference traits <? 0.35 then
      threshold + HERBIVORE_REPRO_THRESHOLD_OFFSET CONFIG
    else
      threshold + OMNIVORE_REPRO_THRESHOLD_OFFSET CONFIG in
  Rmin 0.95 (Rmax 0.5 threshold).

Definition getMaxOffspringCount (traits : Traits) : R :=
  if size traits <? 0.3 then OFFSPRING_MAX_SMALL CONFIG
  else if size traits <? 0.6 then OFFSPRING_MAX_MEDIUM CONFIG
  else OFFSPRING_MAX_LARGE CONFIG.

End WithConfig.

End genetics.

(** ** The genetics source with the continuous diet scaling helpers
    (src/unnamed/part_000): the helpers the speed derivation goes through *)

Module diet_scaling.

Import config genetics.
Local Open Scope R_scope.

Definition interpolateDietValue (dietPreference herbValue omniValue carnValue : R) : R :=
  if dietPreference <=? 0.5 then
    let t := dietPreference / 0.5 in
    herbValue + (omniValue - herbValue) * t
  else
    let t := (dietPreference - 0.5) / 0.5 in
    omniValue + (carnValue - omniValue) * t.



Definition getHuntingCost (dietPreference : R) : R :=
  if dietPreference <? 0.35 then 0
  else
    let huntingDiet := (dietPreference - 0.35) / 0.65 in
    0.5 + huntingDiet * 0.3.

Section WithConfig.

Variable CONFIG : Config.

Definition getSpeedSizePenalty (dietPreference : R) : R :=
  interpolateDietValue dietPreference
    (HERBIVORE_SPEED_SIZE_PENALTY CONFIG)
    (OMNIVORE_SPEED_SIZE_PENALTY CONFIG)
    (CARNIVORE_SPEED_SIZE_PENALTY CONFIG).

Definition getCreatureSpeed (traits : Traits) : R :=
  let baseSpeed := CREATURE_BASE_SPEED CONFIG * (0.5 + speed traits) in
  let sizePenalty := getSpeedSizePenalty (dietPreference traits) in
  let baseModifier := interpolateDietValue (dietPreference traits) 1.3 1.1 1.0 in
  let sizeModifier := baseModifier - size traits * sizePenalty in
  baseSpeed * sizeModifier.

Definition getLifespanMultiplier (dietPreference : R) : R :=
  interpolateDietValue dietPreference
    (HERBIVORE_LIFESPAN_MULT CONFIG)
    (OMNIVORE_LIFESPAN_MULT CONFIG)
    (CARNIVORE_LIFESPAN_MULT CONFIG).

Definition getReproThresholdOffset (dietPreference : R) : R :=
  interpolateDietValue dietPreference
    (HERBIVORE_REPRO_THRESHOLD_OFFSET CONFIG)
    (OMNIVORE_REPRO_THRESHOLD_OFFSET CONFIG)
    (CARNIVORE_REPRO_THRESHOLD_OFFSET CONFIG).

Definition getReproCooldownMultiplier (dietPreference : R) : R :=
  interpolateDietValue dietPreference
    (HERBIVORE_REPRO_COOLDOWN_MULT CONFIG)
    (OMNIVORE_REPRO_COOLDOWN_MULT CONFIG)
    (CARNIVORE_REPRO_COOLDOWN_MULT CONFIG).

End WithConfig.

End diet_scaling.

(** ** entities/species.ts *)

Module species.

Import config genetics.
Local Open Scope R_scope.

(** [name] and [color], strings made for display, are left out. *)
Record Species : Type := {
  id : nat;
  prototypeTraits : Traits;
  population : Z;
  totalBirths : Z;
  totalDeaths : Z;
  generation : nat;
  createdAt : R
}.

Definition geneticDistance (traits1 traits2 : Traits) : R :=
  let traitKeys := genetics.traitKeys in
  let sumSquared :=
    fold_left (fun sumSquared key =>
                 let diff := getTrait key traits1 - getTrait key traits2 in
                 sumSquared + diff * diff)
              traitKeys 0 in
  sqrt (sumSquared / INR (length traitKeys)).

Definition SPECIES_THRESHOLD : R := 0.15.

(** [species] is the [Map<number, Species>] as the list of its values in
    insertion order, the order [values()] iterates in; [nextSpeciesId] is the
    counter of the module, which only the registry reads and writes. *)
Record SpeciesRegistry : Type := {
  species : list Species;
  creatureSpecies : gmap nat nat;
  nextSpeciesId : nat
}.

Definition initialRegistry : SpeciesRegistry :=
  {| species := []; creatureSpecies := ∅; nextSpeciesId := 1 |}.

(** [this.species.get(id)] *)
Definition speciesGet (key : nat) (m : list Species) : option Species :=
  find (fun s => Nat.eqb (id s) key) m.

(** [this.species.set(id, s)]: an existing key keeps its place *)
Fixpoint speciesSet (key : nat) (s : Species) (m : list Species) : list Species :=
  match m with
  | [] => [s]
  | s0 :: m' => if Nat.eqb (id s0) key then s :: m' else s0 :: speciesSet key s m'
  end.

(** The loop of [findMatchingSpecies]; [None] stands for
    [bestMatch = null] with [bestDistance = Infinity]. *)
Definition findMatchingStep (traits : Traits) (best : option (Species * R))
    (s : Species) : option (Species * R) :=
  if Z.eqb (population s) 0 then best
  else
    let distance := geneticDistance traits (prototypeTraits s) in
    if (distance <? SPECIES_THRESHOLD)
       && (match best with None => true | Some (_, bestDistance) => distance <? bestDistance end)
    then Some (s, distance)
    else best.

Definition findMatchingSpecies (traits : Traits) (reg : SpeciesRegistry) : option Species :=
  fst <$> fold_left (findMatchingStep traits) (species reg) None.

Definition createSpecies (traits : Traits) (createdAt : R) : State SpeciesRegistry Species :=
  fun reg =>
    let id := nextSpeciesId reg in
    let sp := {| id := id; prototypeTraits := traits; population := 0;
                 totalBirths := 0; totalDeaths := 0; generation := 0;
                 createdAt := createdAt |} in
    (sp, {| species := speciesSet id sp (species reg);
            creatureSpecies := creatureSpecies reg;
            nextSpeciesId := S id |}).

Definition assignSpecies (creatureId : nat) (traits : Traits) (generation : nat)
    (currentTime : R) : State SpeciesRegistry Species :=
  fun reg =>
    let found :=
      match findMatchingSpecies traits reg with
      | Some sp => (sp, reg)
      | None => createSpecies traits currentTime reg
      end in
    let sp := fst found in
    let reg := snd found in
    let population' := (population sp + 1)%Z in
    let weight := 1 / IZR population' in
    let prototype' :=
      fold_left (fun proto key =>
                   setTrait key (getTrait key proto * (1 - weight)
                                 + getTrait key traits * weight) proto)
                traitKeys (prototypeTraits sp) in
    let sp' := {| id := id sp; prototypeTraits := prototype';
                  population := population';
                  totalBirths := (totalBirths sp + 1)%Z;
                  totalDeaths := totalDeaths sp;
                  generation := if (species.generation sp <? generation)%nat
                                then generation else species.generation sp;
                  createdAt := createdAt sp |} in
    (sp', {| species := speciesSet (id sp) sp' (species reg);
             creatureSpecies := <[creatureId := id sp]> (creatureSpecies reg);
             nextSpeciesId := nextSpeciesId reg |}).

Definition getCreatureSpecies (creatureId : nat) (reg : SpeciesRegistry) : option Species :=
  match creatureSpecies reg !! creatureId with
  | None => None
  | Some speciesId => speciesGet speciesId (species reg)
  end.

Definition areSameSpecies (creatureId1 creatureId2 : nat) (reg : SpeciesRegistry) : bool :=
  match creatureSpecies reg !! creatureId1, creatureSpecies reg !! creatureId2 with
  | Some species1, Some species2 => Nat.eqb species1 species2
  | _, _ => false
  end.

Definition recordDeath (creatureId : nat) : State SpeciesRegistry unit :=
  fun reg =>
    match creatureSpecies reg !! creatureId with
    | None => (tt, reg)
    | Some speciesId =>
        let species' :=
          match speciesGet speciesId (species reg) with
          | Some sp =>
              speciesSet speciesId
                {| id := id sp; prototypeTraits := prototypeTraits sp;
                   population := (population sp - 1)%Z;
                   totalBirths := totalBirths sp;
                   totalDeaths := (totalDeaths sp + 1)%Z;
                   generation := generation sp;
                   createdAt := createdAt sp |}
                (species reg)
          | None => species reg
          end in
        (tt, {| species := species';
                creatureSpecies := delete creatureId (creatureSpecies reg);
                nextSpeciesId := nextSpeciesId reg |})
    end.

Definition getActiveSpecies (reg : SpeciesRegistry) : list Species :=
  filter (fun s => (0 <? population s)%Z = true) (species reg).

Definition getAllSpecies (reg : SpeciesRegistry) : list Species := species reg.

Definition reset : State SpeciesRegistry unit :=
  fun _ => (tt, {| species := []; creatureSpecies := ∅; nextSpeciesId := 1 |}).

End species.

(** ** entities/creature.ts *)

Module creature.

Import config math genetics.
Local Open Scope R_scope.

Inductive BehaviorState : Type :=
  | wandering | seeking_food | seeking_mate | hunting | fleeing.

Definition isHunting (s : BehaviorState) : bool :=
  match s with hunting => true | _ => false end.

Definition isFleeing (s : BehaviorState) : bool :=
  match s with fleeing => true | _ => false end.

(** The fields of the class; [_color], a display string, is left out. *)
Record Creature : Type := {
  id : nat;
  position : Vector2;
  velocity : Vector2;
  traits : Traits;
  energy : R;
  age : R;
  generation : nat;
  lastReproduction : R;
  _size : R;
  _speed : R;
  _visionRange : R;
  _energyDrain : R;
  _maxLifespan : R;
  _attackDamage : R;
  isAlive : bool;
  target : option Vector2;
  state : BehaviorState;
  hungerStress : R;
  speciesId : option nat
}.

(** Assignments to one field *)

Definition set_position (v : Vector2) (c : Creature) : Creature :=
  {| id := id c; position := v; velocity := velocity c; traits := traits c;
     energy := energy c; age := age c; generation := generation c;
     lastReproduction := lastReproduction c; _size := _size c;
     _speed := _speed c; _visionRange := _visionRange c;
     _energyDrain := _energyDrain c; _maxLifespan := _maxLifespan c;
     _attackDamage := _attackDamage c; isAlive := isAlive c;
     target := target c; state := state c; hungerStress := hungerStress c;
     speciesId := speciesId c |}.

Definition set_velocity (v : Vector2) (c : Creature) : Creature :=
  {| id := id c; position := position c; velocity := v; traits := traits c;
     energy := energy c; age := age c; generation := generation c;
     lastReproduction := lastReproduction c; _size := _size c;
     _speed := _speed c; _visionRange := _visionRange c;
     _energyDrain := _energyDrain c; _maxLifespan := _maxLifespan c;
     _attackDamage := _attackDamage c; isAlive := isAlive c;
     target := target c; state := state c; hungerStress := hungerStress c;
     speciesId := speciesId c |}.

Definition set_energy (e : R) (c : Creature) : Creature :=
  {| id := id c; position := position c; velocity := velocity c;
     traits := traits c; energy := e; age := age c;
     generation := generation c; lastReproduction := lastReproduction c;
     _size := _size c; _speed := _speed c; _visionRange := _visionRange c;
     _energyDrain := _energyDrain c; _maxLifespan := _maxLifespan c;
     _attackDamage := _attackDamage c; isAlive := isAlive c;
     target := target c; state := state c; hungerStress := hungerStress c;
     speciesId := speciesId c |}.

Definition set_age (a : R) (c : Creature) : Creature :=
  {| id := id c; position := position c; velocity := velocity c;
     traits := traits c; energy := energy c; age := a;
     generation := generation c; lastReproduction := lastReproduction c;
     _size := _size c; _speed := _speed c; _visionRange := _visionRange c;
     _energyDrain := _energyDrain c; _maxLifespan := _maxLifespan c;
     _attackDamage := _attackDamage c; isAlive := isAlive c;
     target := target c; state := state c; hungerStress := hungerStress c;
     speciesId := speciesId c |}.

Definition set_lastReproduction (t : R) (c : Creature) : Creature :=
  {| id := id c; position := position c; velocity := velocity c;
     traits := traits c; energy := energy c; age := age c;
     generation := generation c; lastReproduction := t;
     _size := _size c; _speed := _speed c; _visionRange := _visionRange c;
     _energyDrain := _energyDrain c; _maxLifespan := _maxLifespan c;
     _attackDamage := _attackDamage c; isAlive := isAlive c;
     target := target c; state := state c; hungerStress := hungerStress c;
     speciesId := speciesId c |}.

Definition set_isAlive (b : bool) (c : Creature) : Creature :=
  {| id := id c; position := position c; velocity := velocity c;
     traits := traits c; energy := energy c; age := age c;
     generation := generation c; lastReproduction := lastReproduction c;
     _size := _size c; _speed := _speed c; _visionRange := _visionRange c;
     _energyDrain := _energyDrain c; _maxLifespan := _maxLifespan c;
     _attackDamage := _attackDamage c; isAlive := b;
     target := target c; state := state c; hungerStress := hungerStress c;
     speciesId := speciesId c |}.

Definition set_state (s : BehaviorState) (c : Creature) : Creature :=
  {| id := id c; position := position c; velocity := velocity c;
     traits := traits c; energy := energy c; age := age c;
     generation := generation c; lastReproduction := lastReproduction c;
     _size := _size c; _speed := _speed c; _visionRange := _visionRange c;
     _energyDrain := _energyDrain c; _maxLifespan := _maxLifespan c;
     _attackDamage := _attackDamage c; isAlive := isAlive c;
     target := target c; state := s; hungerStress := hungerStress c;
     speciesId := speciesId c |}.

Definition set_hungerStress (h : R) (c : Creature) : Creature :=
  {| id := id c; position := position c; velocity := velocity c;
     traits := traits c; energy := energy c; age := age c;
     generation := generation c; lastReproduction := lastReproduction c;
     _size := _size c; _speed := _speed c; _visionRange := _visionRange c;
     _energyDrain := _energyDrain c; _maxLifespan := _maxLifespan c;
     _attackDamage := _attackDamage c; isAlive := isAlive c;
     target := target c; state := state c; hungerStress := h;
     speciesId := speciesId c |}.

Definition set_speciesId (s : option nat) (c : Creature) : Creature :=
  {| id := id c; position := position c; velocity := velocity c;
     traits := traits c; energy := energy c; age := age c;
     generation := generation c; lastReproduction := lastReproduction c;
     _size := _size c; _speed := _speed c; _visionRange := _visionRange c;
     _energyDrain := _energyDrain c; _maxLifespan := _maxLifespan c;
     _attackDamage := _attackDamage c; isAlive := isAlive c;
     target := target c; state := state c; hungerStress := hungerStress c;
     speciesId := s |}.

(** The state of the modules: the id counters of creature.ts, food.ts and
    corpse.ts, the [speciesRegistry] singleton of species.ts, the random
    source, and the store of the [Creature] objects made so far, indexed by
    their id (the id identifies the object: it is given once, by the
    constructor, from [nextCreatureId]). *)
Record Globals : Type := {
  random : RandomSource;
  nextCreatureId : nat;
  nextFoodId : nat;
  nextCorpseId : nat;
  speciesRegistry : species.SpeciesRegistry;
  objects : gmap nat Creature
}.

Definition set_random (r : RandomSource) (g : Globals) : Globals :=
  {| random := r; nextCreatureId := nextCreatureId g;
     nextFoodId := nextFoodId g; nextCorpseId := nextCorpseId g;
     speciesRegistry := speciesRegistry g; objects := objects g |}.

Definition set_nextCreatureId (n : nat) (g : Globals) : Globals :=
  {| random := random g; nextCreatureId := n;
     nextFoodId := nextFoodId g; nextCorpseId := nextCorpseId g;
     speciesRegistry := speciesRegistry g; objects := objects g |}.

Definition set_nextFoodId (n : nat) (g : Globals) : Globals :=
  {| random := random g; nextCreatureId := nextCreatureId g;
     nextFoodId := n; nextCorpseId := nextCorpseId g;
     speciesRegistry := speciesRegistry g; objects := objects g |}.

Definition set_nextCorpseId (n : nat) (g : Globals) : Globals :=
  {| random := random g; nextCreatureId := nextCreatureId g;
     nextFoodId := nextFoodId g; nextCorpseId := n;
     speciesRegistry := speciesRegistry g; objects := objects g |}.

Definition set_speciesRegistry (r : species.SpeciesRegistry) (g : Globals) : Globals :=
  {| random := random g; nextCreatureId := nextCreatureId g;
     nextFoodId := nextFoodId g; nextCorpseId := nextCorpseId g;
     speciesRegistry := r; objects := objects g |}.

Definition set_objects (o : gmap nat Creature) (g : Globals) : Globals :=
  {| random := random g; nextCreatureId := nextCreatureId g;
     nextFoodId := nextFoodId g; nextCorpseId := nextCorpseId g;
     speciesRegistry := speciesRegistry g; objects := o |}.

(** The state at program start, for a given run of [Math.random()] *)
Definition initialGlobals (rnd : nat -> R) : Globals :=
  {| random := {| samples := rnd; consumed := 0 |};
     nextCreatureId := 0; nextFoodId := 0; nextCorpseId := 0;
     speciesRegistry := species.initialRegistry; objects := ∅ |}.

(** Running a computation on one component of the state *)

Definition withRandom {A : Type} (m : State RandomSource A) : State Globals A :=
  fun g => let r := m (random g) in (fst r, set_random (snd r) g).

Definition withRegistry {A : Type} (m : State species.SpeciesRegistry A) : State Globals A :=
  fun g => let r := m (speciesRegistry g) in (fst r, set_speciesRegistry (snd r) g).

(** A method call [this.m(...)] whose body reads and writes the fields of
    [this] and the species registry only. *)
Definition call (this : nat) (body : Creature -> State species.SpeciesRegistry Creature)
    : State Globals unit :=
  fun g =>
    match objects g !! this with
    | Some c =>
        let r := body c (speciesRegistry g) in
        (tt, set_objects (<[this := fst r]> (objects g)) (set_speciesRegistry (snd r) g))
    | None => (tt, g)
    end.

(** An assignment to fields of the object [this] *)
Definition assign (this : nat) (f : Creature -> Creature) : State Globals unit :=
  fun g =>
    match objects g !! this with
    | Some c => (tt, set_objects (<[this := f c]> (objects g)) g)
    | None => (tt, g)
    end.

Section WithConfig.

Variable CONFIG : Config.

(** The constructor, once the id and the random angle are drawn *)
Definition construct (id : nat) (x y : R) (traits : Traits) (generation : nat)
    (angle : R) : Creature :=
  let speed := getCreatureSpeed CONFIG traits in
  {| id := id;
     position := {| math.x := x; math.y := y |};
     velocity := {| math.x := cos angle * speed * 0.5;
                    math.y := sin angle * speed * 0.5 |};
     traits := traits;
     energy := CREATURE_BASE_ENERGY CONFIG;
     age := 0;
     generation := generation;
     lastReproduction := 0;
     _size := getCreatureSize CONFIG traits;
     _speed := speed;
     _visionRange := getVisionRange CONFIG traits;
     _energyDrain := getEnergyDrain CONFIG traits;
     _maxLifespan := getMaxLifespan CONFIG traits;
     _attackDamage := getAttackDamage traits;
     isAlive := true;
     target := None;
     state := wandering;
     hungerStress := 0;
     speciesId := None |}.

(** [new Creature(x, y, traits?, generation = 0)]; the result is the
    reference to the new object. *)
Definition new_Creature (x y : R) (traits : option Traits) (generation : nat)
    : State Globals nat :=
  g <- get ;;
  let id := nextCreatureId g in
  modify (set_nextCreatureId (S id)) ;;;
  traits <- match traits with
            | Some t => ret t
            | None => withRandom generateRandomTraits
            end ;;
  r <- withRandom Math_random ;;
  let angle := r * PI * 2 in
  modify (fun g => set_objects (<[id := construct id x y traits generation angle]> (objects g)) g) ;;;
  ret id.

Definition size (c : Creature) : R := _size c.
Definition speed (c : Creature) : R := _speed c.
Definition visionRange (c : Creature) : R := _visionRange c.
Definition energyDrain (c : Creature) : R := _energyDrain c.
Definition maxLifespan (c : Creature) : R := _maxLifespan c.
Definition attackDamage (c : Creature) : R := _attackDamage c.

Definition maxEnergy (c : Creature) : R :=
  CREATURE_MAX_ENERGY CONFIG * (0.7 + genetics.size (traits c) * 0.6).

Definition energyPercent (c : Creature) : R := energy c / maxEnergy c.

Definition isHerbivore (c : Creature) : bool := dietPreference (traits c) <? 0.35.
Definition isCarnivore (c : Creature) : bool := dietPreference (traits c) >? 0.65.
Definition isOmnivore (c : Creature) : bool := negb (isHerbivore c) && negb (isCarnivore c).

Definition die (c : Creature) : State species.SpeciesRegistry Creature :=
  let c := set_isAlive false c in
  let c := set_energy 0 c in
  species.recordDeath (id c) ;;;
  ret c.

(** The part of [update] between the [isAlive] guard and the death check:
    ageing, energy drain and hunger stress *)
Definition updateVitals (deltaTime : R) (c : Creature) : Creature :=
  let c := set_age (age c + deltaTime) c in
  let metabolismEfficiency :=
    if isHerbivore c then 0.8
    else if isCarnivore c then 0.85
    else 1.0 in
  let c := set_energy (energy c - _energyDrain c * deltaTime * metabolismEfficiency) c in
  let speedRatio := magnitude (velocity c) / _speed c in
  let movementCost :=
    if isCarnivore c then 0.3
    else if isHerbivore c then 0.35
    else 0.4 in
  let c := set_energy (energy c - speedRatio * deltaTime * movementCost) c in
  let c :=
    if isHunting (state c) && (isCarnivore c || isOmnivore c) then
      let huntingCost := if isCarnivore c then 0.8 else 0.5 in
      set_energy (energy c - deltaTime * huntingCost) c
    else c in
  if energyPercent c <? 0.5 then
    let stressIncrease := (0.5 - energyPercent c) * 2 * deltaTime * 0.1 in
    set_hungerStress (Rmin 1 (hungerStress c + stressIncrease)) c
  else if energyPercent c >? 0.7 then
    set_hungerStress (Rmax 0 (hungerStress c - deltaTime * 0.02)) c
  else c.

(** The part of [update] after the death check: the position update and the
    bounce off the walls *)
Definition updatePosition (deltaTime : R) (c : Creature) : Creature :=
  let c := set_position {| x := x (position c) + x (velocity c) * deltaTime;
                           y := y (position c) + y (velocity c) * deltaTime |} c in
  let c :=
    if x (position c) <? _size c then
      set_velocity {| x := x (velocity c) * -1; y := y (velocity c) |}
        (set_position {| x := _size c; y := y (position c) |} c)
    else if x (position c) >? WORLD_WIDTH CONFIG - _size c then
      set_velocity {| x := x (velocity c) * -1; y := y (velocity c) |}
        (set_position {| x := WORLD_WIDTH CONFIG - _size c; y := y (position c) |} c)
    else c in
  if y (position c) <? _size c then
    set_velocity {| x := x (velocity c); y := y (velocity c) * -1 |}
      (set_position {| x := x (position c); y := _size c |} c)
  else if y (position c) >? WORLD_HEIGHT CONFIG - _size c then
    set_velocity {| x := x (velocity c); y := y (velocity c) * -1 |}
      (set_position {| x := x (position c); y := WORLD_HEIGHT CONFIG - _size c |} c)
  else c.

Definition update (deltaTime currentTime : R) (c : Creature)
    : State species.SpeciesRegistry Creature :=
  if negb (isAlive c) then ret c
  else
    let c := updateVitals deltaTime c in
    if (energy c <=? 0) || (age c >=? _maxLifespan c) then die c
    else ret (updatePosition deltaTime c).

(** A method call [this.m(...)] whose body reads and writes the fields of
    [this] and draws random numbers *)
Definition callRandom (this : nat) (body : Creature -> State RandomSource Creature)
    : State Globals unit :=
  fun g =>
    match objects g !! this with
    | Some c =>
        let r := body c (random g) in
        (tt, set_objects (<[this := fst r]> (objects g)) (set_random (snd r) g))
    | None => (tt, g)
    end.

Definition seekTarget (target : Vector2) (deltaTime : R) (c : Creature) : Creature :=
  let dx := x target - x (position c) in
  let dy := y target - y (position c) in
  let dist := distance (x (position c)) (y (position c)) (x target) (y target) in
  if dist >? 1 then
    let dirX := dx / dist in
    let dirY := dy / dist in
    let acceleration := _speed c * 2 in
    let c := set_velocity {| x := x (velocity c) + dirX * acceleration * deltaTime;
                             y := y (velocity c) + dirY * acceleration * deltaTime |} c in
    set_velocity (clampVelocity (velocity c) (_speed c)) c
  else c.

Definition huntTarget (target : Vector2) (deltaTime : R) (c : Creature) : Creature :=
  let dx := x target - x (position c) in
  let dy := y target - y (position c) in
  let dist := distance (x (position c)) (y (position c)) (x target) (y target) in
  if dist >? 1 then
    let dirX := dx / dist in
    let dirY := dy / dist in
    let acceleration := _speed c * 3 in
    let c := set_velocity {| x := x (velocity c) + dirX * acceleration * deltaTime;
                             y := y (velocity c) + dirY * acceleration * deltaTime |} c in
    let huntSpeedMultiplier := 1.3 + stamina (traits c) * 0.4 in
    let huntSpeed := _speed c * huntSpeedMultiplier in
    set_velocity (clampVelocity (velocity c) huntSpeed) c
  else c.

Definition wander (deltaTime : R) (c : Creature) : State RandomSource Creature :=
  roll <- Math_random ;;
  c <- (if roll <? 0.02 then
          r <- Math_random ;;
          let angle := r * PI * 2 in
          let wanderSpeed := _speed c * 0.4 in
          ret (set_velocity {| x := x (velocity c) + cos angle * wanderSpeed * 0.3;
                               y := y (velocity c) + sin angle * wanderSpeed * 0.3 |} c)
        else ret c) ;;
  let maxWanderSpeed := _speed c * 0.5 in
  let c := set_velocity (clampVelocity (velocity c) maxWanderSpeed) c in
  ret (set_velocity {| x := x (velocity c) * 0.99; y := y (velocity c) * 0.99 |} c).

Definition fleeFrom (threat : Vector2) (deltaTime : R) (c : Creature) : Creature :=
  let dx := x (position c) - x threat in
  let dy := y (position c) - y threat in
  let dist := distance (x threat) (y threat) (x (position c)) (y (position c)) in
  if dist >? 0 then
    let dirX := dx / dist in
    let dirY := dy / dist in
    let acceleration := _speed c * 3 in
    let c := set_velocity {| x := x (velocity c) + dirX * acceleration * deltaTime;
                             y := y (velocity c) + dirY * acceleration * deltaTime |} c in
    let fleeSpeed := _speed c * 1.2 in
    set_velocity (clampVelocity (velocity c) fleeSpeed) c
  else c.

Definition eat (foodEnergy : R) (c : Creature) : Creature :=
  set_energy (Rmin (maxEnergy c) (energy c + foodEnergy)) c.

Definition takeDamage (amount : R) (c : Creature) : State species.SpeciesRegistry Creature :=
  let c := set_energy (energy c - amount) c in
  if energy c <=? 0 then die c else ret c.

Definition getReproductionCooldown (c : Creature) : R :=
  let cooldownMultiplier :=
    if isCarnivore c then CARNIVORE_REPRO_COOLDOWN_MULT CONFIG
    else if isOmnivore c then OMNIVORE_REPRO_COOLDOWN_MULT CONFIG
    else HERBIVORE_REPRO_COOLDOWN_MULT CONFIG in
  let sizeModifier := 0.5 + genetics.size (traits c) in
  let herbivoreReproModifier :=
    if isHerbivore c then
      if genetics.size (traits c) <? 0.3 then HERBIVORE_TINY_REPRO_MULT CONFIG
      else if genetics.size (traits c) <? 0.5 then HERBIVORE_SMALL_REPRO_MULT CONFIG
      else HERBIVORE_LARGE_REPRO_MULT CONFIG
    else 1.0 in
  REPRODUCTION_COOLDOWN CONFIG * cooldownMultiplier * sizeModifier * herbivoreReproModifier.

Definition canReproduce (currentTime : R) (c : Creature) : bool :=
  if negb (isAlive c) then false
  else
    let threshold := getReproductionThreshold CONFIG (traits c) in
    let cooldown := getReproductionCooldown c in
    let cooldownPassed := currentTime - lastReproduction c >? cooldown in
    (energyPercent c >=? threshold) && cooldownPassed.

Definition canHunt (this target : Creature) : bool :=
  if negb (isCarnivore this) && negb (isOmnivore this) then false
  else if Nat.eqb (id target) (id this) then false
  else
    let minWorthwhileSize := if energyPercent this <? 0.4 then 0.15 else 0.25 in
    if size target <? _size this * minWorthwhileSize then false
    else if isCarnivore target
            && (let isNearDeath := energyPercent this <? 0.2 in
                let isMuchStronger := strength (traits this) >? strength (traits target) * 1.5 in
                let isMuchBigger := _size this >? size target * 1.5 in
                negb isNearDeath || (negb isMuchStronger && negb isMuchBigger))
    then false
    else if isOmnivore target
            && (let isHungry := energyPercent this <? 0.5 in
                let isStronger := strength (traits this) >? strength (traits target) * 1.2 in
                let isBigger := _size this >? size target * 1.1 in
                negb isHungry || (negb isStronger && negb isBigger))
    then false
    else if size target >? _size this * 1.5 then
      (aggression (traits this) >? 0.8) && (strength (traits this) >? 0.7)
    else
      let sizeAdvantage := _size this >? size target * 0.8 in
      let aggressionAdvantage := aggression (traits this) >? 0.6 in
      let strengthAdvantage := strength (traits this) >? strength (traits target) * 1.2 in
      sizeAdvantage || aggressionAdvantage || strengthAdvantage.

(** [reproduceAsexual]: [this] is a reference; the result is the reference to
    the offspring, or [None] for [null]. *)
Definition reproduceAsexual (this : nat) (currentTime : R) (mutationRate : option R)
    : State Globals (option nat) :=
  g <- get ;;
  match objects g !! this with
  | None => ret None
  | Some c =>
      if negb (canReproduce currentTime c) then ret None
      else
        let cost := energy c * REPRODUCTION_ENERGY_COST CONFIG in
        assign this (fun c => set_energy (energy c - cost) c) ;;;
        assign this (set_lastReproduction currentTime) ;;;
        offspringTraits <-
          withRandom (if hungerStress c >? 0.1
                      then mutateTraitsWithStress CONFIG (traits c) (hungerStress c) mutationRate
                      else mutateTraits CONFIG (traits c) mutationRate) ;;
        assign this (fun c => set_hungerStress (hungerStress c * 0.5) c) ;;;
        let offset := _size c * 2 in
        r <- withRandom Math_random ;;
        let angle := r * PI * 2 in
        offspring <- new_Creature (x (position c) + cos angle * offset)
                                  (y (position c) + sin angle * offset)
                                  (Some offspringTraits) (S (generation c)) ;;
        assign offspring (set_lastReproduction currentTime) ;;;
        ret (Some offspring)
  end.

(** The loop [for (let i = 0; i < offspringCount; i++)] of [reproduceSexual],
    from index [i], with [remaining] iterations to go. *)
Fixpoint offspringLoop (this partner : Creature) (currentTime : R)
    (mutationRate : option R) (combinedStress midX midY : R)
    (nextGeneration : nat) (offspringCount : R) (remaining : nat) (i : R)
    (offspring : list nat) : State Globals (list nat) :=
  match remaining with
  | O => ret offspring
  | S remaining' =>
      offspringTraits <-
        withRandom (if combinedStress >? 0.1 then
                      crossedTraits <- crossoverTraits CONFIG (traits this) (traits partner) (Some 0) ;;
                      mutateTraitsWithStress CONFIG crossedTraits combinedStress mutationRate
                    else crossoverTraits CONFIG (traits this) (traits partner) mutationRate) ;;
      r <- withRandom Math_random ;;
      let angle := (PI * 2 * i) / offspringCount + r * 0.5 in
      let offset := _size this * 2 in
      child <- new_Creature (midX + cos angle * offset) (midY + sin angle * offset)
                            (Some offspringTraits) nextGeneration ;;
      assign child (set_lastReproduction currentTime) ;;;
      offspringLoop this partner currentTime mutationRate combinedStress midX midY
        nextGeneration offspringCount remaining' (i + 1) (offspring ++ [child])
  end.

Definition reproduceSexual (this partner : nat) (currentTime : R)
    (mutationRate : option R) : State Globals (list nat) :=
  g <- get ;;
  match objects g !! this, objects g !! partner with
  | Some c, Some p =>
      if negb (canReproduce currentTime c) || negb (canReproduce currentTime p) then ret []
      else
        let avgSize := (genetics.size (traits c) + genetics.size (traits p)) / 2 in
        let baseMaxOffspring :=
          getMaxOffspringCount CONFIG (setTrait k_size avgSize (traits c)) in
        let herbivoreBonus :=
          if isHerbivore c && isHerbivore p then HERBIVORE_OFFSPRING_BONUS CONFIG else 0 in
        let carnivoreBonus :=
          if isCarnivore c && isCarnivore p then CARNIVORE_OFFSPRING_BONUS CONFIG else 0 in
        let maxOffspring := baseMaxOffspring + herbivoreBonus + carnivoreBonus in
        r <- withRandom Math_random ;;
        let offspringCount := (Zfloor (r * maxOffspring) + 1)%Z in
        let baseCost := REPRODUCTION_ENERGY_COST CONFIG * 0.6 in
        let costMultiplier := 1 + (IZR offspringCount - 1) * 0.3 in
        let cost1 := energy c * baseCost * costMultiplier in
        let cost2 := energy p * baseCost * costMultiplier in
        assign this (fun c => set_energy (energy c - cost1) c) ;;;
        assign partner (fun p => set_energy (energy p - cost2) p) ;;;
        assign this (set_lastReproduction currentTime) ;;;
        assign partner (set_lastReproduction currentTime) ;;;
        let combinedStress := Rmax (hungerStress c) (hungerStress p) in
        assign this (fun c => set_hungerStress (hungerStress c * 0.5) c) ;;;
        assign partner (fun p => set_hungerStress (hungerStress p * 0.5) p) ;;;
        let midX := (x (position c) + x (position p)) / 2 in
        let midY := (y (position c) + y (position p)) / 2 in
        let nextGeneration := S (Nat.max (generation c) (generation p)) in
        offspringLoop c p currentTime mutationRate combinedStress midX midY
          nextGeneration (IZR offspringCount) (Z.to_nat offspringCount) 0 []
  | _, _ => ret []
  end.

Definition getReproductionReadiness (currentTime : R) (c : Creature) : R :=
  if negb (isAlive c) then 0
  else
    let cooldown := getReproductionCooldown c in
    let timeSinceLastRepro := currentTime - lastReproduction c in
    let cooldownProgress := Rmin 1 (timeSinceLastRepro / cooldown) in
    let threshold := getReproductionThreshold CONFIG (traits c) in
    let energyProgress := Rmin 1 (energyPercent c / threshold) in
    Rmin cooldownProgress energyProgress.

Definition shouldSeekMate (currentTime : R) (c : Creature) : bool :=
  if negb (isAlive c) then false
  else if genetics.prefersAsexual CONFIG (traits c) then false
  else
    let readiness := getReproductionReadiness currentTime c in
    readiness >=? 0.7.

Definition getReproductionChance (nearbyCount : R) (c : Creature) : R :=
  let crowdingThreshold := if isOmnivore c then 8 else 5 in
  let crowdingPenalty := if isOmnivore c then 0.1 else 0.15 in
  if nearbyCount <=? crowdingThreshold then 1.0
  else
    let excessNeighbors := nearbyCount - crowdingThreshold in
    let chance := Rmax 0.1 (1.0 - excessNeighbors * crowdingPenalty) in
    chance.

(** [isCompatibleMate] reads the species registry. *)
Definition isCompatibleMate (this other : Creature) (reg : species.SpeciesRegistry) : bool :=
  if Nat.eqb (id other) (id this) then false
  else if negb (isAlive other) then false
  else
    match speciesId this, speciesId other with
    | Some _, Some _ => species.areSameSpecies (id this) (id other) reg
    | _, _ =>
        let dietDiff := Rabs (dietPreference (traits this) - dietPreference (traits other)) in
        if dietDiff >? 0.4 then false
        else
          let socialDiff :=
            Rabs (socialBehavior (traits this) - socialBehavior (traits other)) in
          socialDiff <? 0.5
    end.

(** [distanceTo(other)], [other] being anything with a [position] *)
Definition distanceTo (c : Creature) (otherPosition : Vector2) : R :=
  distance (x (position c)) (y (position c)) (x otherPosition) (y otherPosition).

Definition canSee (point : Vector2) (c : Creature) : bool :=
  let dx := x point - x (position c) in
  let dy := y point - y (position c) in
  dx * dx + dy * dy <=? _visionRange c * _visionRange c.

End WithConfig.

End creature.

(** ** entities/food.ts *)

Module food.

Import config math creature.
Local Open Scope R_scope.

Inductive FoodSize : Type := small | medium | large.

Record FoodSizeData : Type := { data_energy : R; visualSize : R; weight : R }.

Definition FOOD_SIZE_DATA (s : FoodSize) : FoodSizeData :=
  match s with
  | small => {| data_energy := 15; visualSize := 4; weight := 0.6 |}
  | medium => {| data_energy := 40; visualSize := 8; weight := 0.35 |}
  | large => {| data_energy := 120; visualSize := 20; weight := 0.05 |}
  end.

Record Food : Type := {
  id : nat;
  position : Vector2;
  maxEnergy : R;
  energy : R;
  size : R;
  foodSize : FoodSize;
  isConsumed : bool
}.

Definition getRandomFoodSize : State RandomSource FoodSize :=
  roll <- Math_random ;;
  if roll <? weight (FOOD_SIZE_DATA small) then ret small
  else if roll <? weight (FOOD_SIZE_DATA small) + weight (FOOD_SIZE_DATA medium) then ret medium
  else ret large.

(** [new Food(x, y, foodSize?)] *)
Definition new_Food (x y : R) (foodSize : option FoodSize) : State Globals Food :=
  g <- get ;;
  let id := nextFoodId g in
  modify (set_nextFoodId (S id)) ;;;
  foodSize <- match foodSize with
              | Some s => ret s
              | None => withRandom getRandomFoodSize
              end ;;
  let sizeData := FOOD_SIZE_DATA foodSize in
  ret {| id := id; position := {| math.x := x; math.y := y |};
         maxEnergy := data_energy sizeData; energy := data_energy sizeData;
         size := visualSize sizeData; foodSize := foodSize;
         isConsumed := false |}.

Definition spawnRandomFood (CONFIG : Config) : State Globals Food :=
  let padding := 10 in
  r1 <- withRandom Math_random ;;
  let x := padding + r1 * (WORLD_WIDTH CONFIG - padding * 2) in
  r2 <- withRandom Math_random ;;
  let y := padding + r2 * (WORLD_HEIGHT CONFIG - padding * 2) in
  new_Food x y None.

Definition set_energy (e : R) (f : Food) : Food :=
  {| id := id f; position := position f; maxEnergy := maxEnergy f; energy := e;
     size := size f; foodSize := foodSize f; isConsumed := isConsumed f |}.

Definition set_isConsumed (b : bool) (f : Food) : Food :=
  {| id := id f; position := position f; maxEnergy := maxEnergy f; energy := energy f;
     size := size f; foodSize := foodSize f; isConsumed := b |}.

Definition getFoodSizeMultiplier (normalizedCreatureSize : R) (f : Food) : R :=
  match foodSize f with
  | small => 1
  | medium => 0.5 + normalizedCreatureSize * 0.5
  | large => 0.2 + normalizedCreatureSize * 0.8
  end.

(** [consume(creatureSize = 1)]: the energy consumed, and the food after the bite *)
Definition consume (CONFIG : Config) (creatureSize : option R) : State Food R :=
  fun f =>
    let creatureSize := default 1 creatureSize in
    if isConsumed f || (energy f <=? 0) then (0, f)
    else
      let normalizedCreatureSize :=
        (creatureSize - CREATURE_MIN_SIZE CONFIG)
        / (CREATURE_MAX_SIZE CONFIG - CREATURE_MIN_SIZE CONFIG) in
      let baseBiteSize := 5 + normalizedCreatureSize * 20 in
      let foodSizeMultiplier := getFoodSizeMultiplier normalizedCreatureSize f in
      let biteSize := baseBiteSize * foodSizeMultiplier in
      let consumed := Rmin (energy f) biteSize in
      let f := set_energy (energy f - consumed) f in
      let f := if energy f <=? 0 then set_isConsumed true f else f in
      (consumed, f).

Definition isCollidingWith (creaturePos : Vector2) (creatureSize : R) (f : Food) : bool :=
  let dist := distance (x (position f)) (y (position f)) (x creaturePos) (y creaturePos) in
  dist <? size f + creatureSize.

End food.

(** ** entities/corpse.ts *)

Module corpse.

Import config math creature.
Local Open Scope R_scope.

Definition CORPSE_DECAY_TIME : R := 30.

Record Corpse : Type := {
  id : nat;
  position : Vector2;
  energy : R;
  maxEnergy : R;
  size : R;
  createdAt : R;
  isConsumed : bool
}.

(** [new Corpse(x, y, energy, size, createdAt)] *)
Definition new_Corpse (x y energy size createdAt : R) : State Globals Corpse :=
  g <- get ;;
  let id := nextCorpseId g in
  modify (set_nextCorpseId (S id)) ;;;
  ret {| id := id; position := {| math.x := x; math.y := y |};
         energy := energy; maxEnergy := energy; size := size;
         createdAt := createdAt; isConsumed := false |}.

Definition isDecayed (currentTime : R) (c : Corpse) : bool :=
  currentTime - createdAt c >? CORPSE_DECAY_TIME.

Definition createCorpse (x y creatureEnergy creatureSize currentTime : R)
    : State Globals Corpse :=
  let corpseEnergy := creatureEnergy * 0.6 in
  new_Corpse x y corpseEnergy creatureSize currentTime.

Definition set_energy (e : R) (c : Corpse) : Corpse :=
  {| id := id c; position := position c; energy := e; maxEnergy := maxEnergy c;
     size := size c; createdAt := createdAt c; isConsumed := isConsumed c |}.

Definition set_isConsumed (b : bool) (c : Corpse) : Corpse :=
  {| id := id c; position := position c; energy := energy c; maxEnergy := maxEnergy c;
     size := size c; createdAt := createdAt c; isConsumed := b |}.

Definition getDecayProgress (currentTime : R) (c : Corpse) : R :=
  Rmin 1 ((currentTime - createdAt c) / CORPSE_DECAY_TIME).

(** [consume(creatureSize)]: the energy consumed, and the corpse after the bite *)
Definition consume (CONFIG : Config) (creatureSize : R) : State Corpse R :=
  fun c =>
    if isConsumed c || (energy c <=? 0) then (0, c)
    else
      let normalizedSize :=
        (creatureSize - CREATURE_MIN_SIZE CONFIG)
        / (CREATURE_MAX_SIZE CONFIG - CREATURE_MIN_SIZE CONFIG) in
      let biteSize := 8 + normalizedSize * 22 in
      let consumed := Rmin (energy c) biteSize in
      let c := set_energy (energy c - consumed) c in
      let c := if energy c <=? 0 then set_isConsumed true c else c in
      (consumed, c).

Definition isCollidingWith (creaturePos : Vector2) (creatureSize : R) (c : Corpse) : bool :=
  let dist := distance (x (position c)) (y (position c)) (x creaturePos) (y creaturePos) in
  dist <? size c + creatureSize.

End corpse.

(** ** simulation/world.ts *)

Module world.

Import config math genetics creature.
Local Open Scope R_scope.

(** *** class SpatialHash *)

Section SpatialHash.

Variable T : Type.
(** [entity.position]: for an object held by value its field, for a
    reference the field of the object it points to when [insert] runs *)
Variable position : T -> Vector2.

(** The grid is the [Map<string, T[]>]; the key [`${col},${row}`] is the
    pair of the two integers it spells. *)
Record SpatialHash : Type := {
  cellSize : R;
  grid : gmap (Z * Z) (list T)
}.

Definition new_SpatialHash (cellSize : R) : SpatialHash :=
  {| cellSize := cellSize; grid := ∅ |}.

Definition getKey (h : SpatialHash) (x y : R) : Z * Z :=
  let col := Zfloor (x / cellSize h) in
  let row := Zfloor (y / cellSize h) in
  (col, row).

Definition clear (h : SpatialHash) : SpatialHash :=
  {| cellSize := cellSize h; grid := ∅ |}.

Definition insert (entity : T) (h : SpatialHash) : SpatialHash :=
  let key := getKey h (x (position entity)) (y (position entity)) in
  match grid h !! key with
  | Some cell => {| cellSize := cellSize h; grid := <[key := cell ++ [entity]]> (grid h) |}
  | None => {| cellSize := cellSize h; grid := <[key := [entity]]> (grid h) |}
  end.

(** The body of the two nested loops, at offsets [dc] and [dr]: what it
    pushes onto [nearby] *)
Definition nearbyCell (h : SpatialHash) (centerCol centerRow dc dr : Z) : list T :=
  let col := (centerCol + dc)%Z in
  let row := (centerRow + dr)%Z in
  if (col <? 0)%Z || (row <? 0)%Z then []
  else
    match grid h !! (col, row) with
    | Some cell => cell
    | None => []
    end.

Definition getNearby (h : SpatialHash) (x y radius : R) : list T :=
  let cellRadius := (Zceil (radius / cellSize h) + 1)%Z in
  let centerCol := Zfloor (x / cellSize h) in
  let centerRow := Zfloor (y / cellSize h) in
  let offsets := seqZ (- cellRadius) (2 * cellRadius + 1) in
  flat_map (fun dc =>
              flat_map (fun dr => nearbyCell h centerCol centerRow dc dr) offsets)
           offsets.

End SpatialHash.

Arguments cellSize {T} _.
Arguments grid {T} _.
Arguments new_SpatialHash {T} _.
Arguments getKey {T} _ _ _.
Arguments clear {T} _.
Arguments insert {T} _ _ _.
Arguments nearbyCell {T} _ _ _ _ _.
Arguments getNearby {T} _ _ _ _.

Record TemperatureZone : Type := {
  zone_x : R;
  zone_y : R;
  radius : R;
  temperature : R;
  createdAt : R;
  isRandom : bool
}.

(** *** class World

    [creatures] holds references into the object store; food and corpses are
    held by value, and so are the entries of their hashes. *)
Record World : Type := {
  creatures : list nat;
  food : list food.Food;
  corpses : list corpse.Corpse;
  creatureHash : SpatialHash nat;
  foodHash : SpatialHash food.Food;
  corpseHash : SpatialHash corpse.Corpse;
  globalTemperature : R;
  temperatureZones : list TemperatureZone;
  foodAbundance : R;
  mutationRate : R;
  randomZonesEnabled : bool;
  foodSpawnAccumulator : R;
  zoneSpawnAccumulator : R;
  migrationAccumulator : R;
  simulationTime : R;
  totalBirths : Z;
  totalDeaths : Z;
  generationMax : nat
}.

Definition set_creatures (l : list nat) (w : World) : World :=
  {| creatures := l; food := food w; corpses := corpses w;
     creatureHash := creatureHash w; foodHash := foodHash w;
     corpseHash := corpseHash w; globalTemperature := globalTemperature w;
     temperatureZones := temperatureZones w; foodAbundance := foodAbundance w;
     mutationRate := mutationRate w; randomZonesEnabled := randomZonesEnabled w;
     foodSpawnAccumulator := foodSpawnAccumulator w;
     zoneSpawnAccumulator := zoneSpawnAccumulator w;
     migrationAccumulator := migrationAccumulator w;
     simulationTime := simulationTime w; totalBirths := totalBirths w;
     totalDeaths := totalDeaths w; generationMax := generationMax w |}.

Definition set_food (l : list food.Food) (w : World) : World :=
  {| creatures := creatures w; food := l; corpses := corpses w;
     creatureHash := creatureHash w; foodHash := foodHash w;
     corpseHash := corpseHash w; globalTemperature := globalTemperature w;
     temperatureZones := temperatureZones w; foodAbundance := foodAbundance w;
     mutationRate := mutationRate w; randomZonesEnabled := randomZonesEnabled w;
     foodSpawnAccumulator := foodSpawnAccumulator w;
     zoneSpawnAccumulator := zoneSpawnAccumulator w;
     migrationAccumulator := migrationAccumulator w;
     simulationTime := simulationTime w; totalBirths := totalBirths w;
     totalDeaths := totalDeaths w; generationMax := generationMax w |}.

Definition set_corpses (l : list corpse.Corpse) (w : World) : World :=
  {| creatures := creatures w; food := food w; corpses := l;
     creatureHash := creatureHash w; foodHash := foodHash w;
     corpseHash := corpseHash w; globalTemperature := globalTemperature w;
     temperatureZones := temperatureZones w; foodAbundance := foodAbundance w;
     mutationRate := mutationRate w; randomZonesEnabled := randomZonesEnabled w;
     foodSpawnAccumulator := foodSpawnAccumulator w;
     zoneSpawnAccumulator := zoneSpawnAccumulator w;
     migrationAccumulator := migrationAccumulator w;
     simulationTime := simulationTime w; totalBirths := totalBirths w;
     totalDeaths := totalDeaths w; generationMax := generationMax w |}.

Definition set_hashes (ch : SpatialHash nat) (fh : SpatialHash food.Food)
    (kh : SpatialHash corpse.Corpse) (w : World) : World :=
  {| creatures := creatures w; food := food w; corpses := corpses w;
     creatureHash := ch; foodHash := fh; corpseHash := kh;
     globalTemperature := globalTemperature w;
     temperatureZones := temperatureZones w; foodAbundance := foodAbundance w;
     mutationRate := mutationRate w; randomZonesEnabled := randomZonesEnabled w;
     foodSpawnAccumulator := foodSpawnAccumulator w;
     zoneSpawnAccumulator := zoneSpawnAccumulator w;
     migrationAccumulator := migrationAccumulator w;
     simulationTime := simulationTime w; totalBirths := totalBirths w;
     totalDeaths := totalDeaths w; generationMax := generationMax w |}.

Definition set_globalTemperature (t : R) (w : World) : World :=
  {| creatures := creatures w; food := food w; corpses := corpses w;
     creatureHash := creatureHash w; foodHash := foodHash w;
     corpseHash := corpseHash w; globalTemperature := t;
     temperatureZones := temperatureZones w; foodAbundance := foodAbundance w;
     mutationRate := mutationRate w; randomZonesEnabled := randomZonesEnabled w;
     foodSpawnAccumulator := foodSpawnAccumulator w;
     zoneSpawnAccumulator := zoneSpawnAccumulator w;
     migrationAccumulator := migrationAccumulator w;
     simulationTime := simulationTime w; totalBirths := totalBirths w;
     totalDeaths := totalDeaths w; generationMax := generationMax w |}.

Definition set_temperatureZones (z : list TemperatureZone) (w : World) : World :=
  {| creatures := creatures w; food := food w; corpses := corpses w;
     creatureHash := creatureHash w; foodHash := foodHash w;
     corpseHash := corpseHash w; globalTemperature := globalTemperature w;
     temperatureZones := z; foodAbundance := foodAbundance w;
     mutationRate := mutationRate w; randomZonesEnabled := randomZonesEnabled w;
     foodSpawnAccumulator := foodSpawnAccumulator w;
     zoneSpawnAccumulator := zoneSpawnAccumulator w;
     migrationAccumulator := migrationAccumulator w;
     simulationTime := simulationTime w; totalBirths := totalBirths w;
     totalDeaths := totalDeaths w; generationMax := generationMax w |}.

Definition set_foodAbundance (a : R) (w : World) : World :=
  {| creatures := creatures w; food := food w; corpses := corpses w;
     creatureHash := creatureHash w; foodHash := foodHash w;
     corpseHash := corpseHash w; globalTemperature := globalTemperature w;
     temperatureZones := temperatureZones w; foodAbundance := a;
     mutationRate := mutationRate w; randomZonesEnabled := randomZonesEnabled w;
     foodSpawnAccumulator := foodSpawnAccumulator w;
     zoneSpawnAccumulator := zoneSpawnAccumulator w;
     migrationAccumulator := migrationAccumulator w;
     simulationTime := simulationTime w; totalBirths := totalBirths w;
     totalDeaths := totalDeaths w; generationMax := generationMax w |}.

Definition set_mutationRate (m : R) (w : World) : World :=
  {| creatures := creatures w; food := food w; corpses := corpses w;
     creatureHash := creatureHash w; foodHash := foodHash w;
     corpseHash := corpseHash w; globalTemperature := globalTemperature w;
     temperatureZones := temperatureZones w; foodAbundance := foodAbundance w;
     mutationRate := m; randomZonesEnabled := randomZonesEnabled w;
     foodSpawnAccumulator := foodSpawnAccumulator w;
     zoneSpawnAccumulator := zoneSpawnAccumulator w;
     migrationAccumulator := migrationAccumulator w;
     simulationTime := simulationTime w; totalBirths := totalBirths w;
     totalDeaths := totalDeaths w; generationMax := generationMax w |}.

Definition set_simulationTime (t : R) (w : World) : World :=
  {| creatures := creatures w; food := food w; corpses := corpses w;
     creatureHash := creatureHash w; foodHash := foodHash w;
     corpseHash := corpseHash w; globalTemperature := globalTemperature w;
     temperatureZones := temperatureZones w; foodAbundance := foodAbundance w;
     mutationRate := mutationRate w; randomZonesEnabled := randomZonesEnabled w;
     foodSpawnAccumulator := foodSpawnAccumulator w;
     zoneSpawnAccumulator := zoneSpawnAccumulator w;
     migrationAccumulator := migrationAccumulator w;
     simulationTime := t; totalBirths := totalBirths w;
     totalDeaths := totalDeaths w; generationMax := generationMax w |}.

Definition set_totalBirths (n : Z) (w : World) : World :=
  {| creatures := creatures w; food := food w; corpses := corpses w;
     creatureHash := creatureHash w; foodHash := foodHash w;
     corpseHash := corpseHash w; globalTemperature := globalTemperature w;
     temperatureZones := temperatureZones w; foodAbundance := foodAbundance w;
     mutationRate := mutationRate w; randomZonesEnabled := randomZonesEnabled w;
     foodSpawnAccumulator := foodSpawnAccumulator w;
     zoneSpawnAccumulator := zoneSpawnAccumulator w;
     migrationAccumulator := migrationAccumulator w;
     simulationTime := simulationTime w; totalBirths := n;
     totalDeaths := totalDeaths w; generationMax := generationMax w |}.

Definition set_totalDeaths (n : Z) (w : World) : World :=
  {| creatures := creatures w; food := food w; corpses := corpses w;
     creatureHash := creatureHash w; foodHash := foodHash w;
     corpseHash := corpseHash w; globalTemperature := globalTemperature w;
     temperatureZones := temperatureZones w; foodAbundance := foodAbundance w;
     mutationRate := mutationRate w; randomZonesEnabled := randomZonesEnabled w;
     foodSpawnAccumulator := foodSpawnAccumulator w;
     zoneSpawnAccumulator := zoneSpawnAccumulator w;
     migrationAccumulator := migrationAccumulator w;
     simulationTime := simulationTime w; totalBirths := totalBirths w;
     totalDeaths := n; generationMax := generationMax w |}.

Definition set_generationMax (n : nat) (w : World) : World :=
  {| creatures := creatures w; food := food w; corpses := corpses w;
     creatureHash := creatureHash w; foodHash := foodHash w;
     corpseHash := corpseHash w; globalTemperature := globalTemperature w;
     temperatureZones := temperatureZones w; foodAbundance := foodAbundance w;
     mutationRate := mutationRate w; randomZonesEnabled := randomZonesEnabled w;
     foodSpawnAccumulator := foodSpawnAccumulator w;
     zoneSpawnAccumulator := zoneSpawnAccumulator w;
     migrationAccumulator := migrationAccumulator w;
     simulationTime := simulationTime w; totalBirths := totalBirths w;
     totalDeaths := totalDeaths w; generationMax := n |}.

(** Reading a creature through its reference *)

Definition alive (g : Globals) (ref : nat) : bool :=
  match objects g !! ref with
  | Some c => isAlive c
  | None => false
  end.

Definition positionOf (g : Globals) (ref : nat) : Vector2 :=
  match objects g !! ref with
  | Some c => creature.position c
  | None => {| x := 0; y := 0 |}
  end.

Section WithConfig.

Variable CONFIG : Config.

(** [new World()] *)
Definition new_World : World :=
  {| creatures := []; food := []; corpses := [];
     creatureHash := new_SpatialHash (SPATIAL_CELL_SIZE CONFIG);
     foodHash := new_SpatialHash (SPATIAL_CELL_SIZE CONFIG);
     corpseHash := new_SpatialHash (SPATIAL_CELL_SIZE CONFIG);
     globalTemperature := TEMPERATURE_DEFAULT CONFIG;
     temperatureZones := [];
     foodAbundance := 1;
     mutationRate := MUTATION_RATE CONFIG;
     randomZonesEnabled := false;
     foodSpawnAccumulator := 0;
     zoneSpawnAccumulator := 0;
     migrationAccumulator := 0;
     simulationTime := 0;
     totalBirths := 0;
     totalDeaths := 0;
     generationMax := 0 |}.

(** The founder loop of [initialize]: the jitter over [Object.keys(traits)] *)
Fixpoint founderJitter (keys : list TraitName) (traits : Traits) : State RandomSource Traits :=
  match keys with
  | [] => ret traits
  | key :: rest =>
      r <- Math_random ;;
      founderJitter rest
        (setTrait key (Rmax 0 (Rmin 1 (getTrait key traits + (r - 0.5) * 0.15))) traits)
  end.

(** One iteration of [for (let i = 0; i < creatureCount; i++)] *)
Definition spawnFounder (w : World) : State Globals World :=
  r1 <- withRandom Math_random ;;
  let x := CREATURE_BASE_SIZE CONFIG
           + r1 * (WORLD_WIDTH CONFIG - CREATURE_BASE_SIZE CONFIG * 2) in
  r2 <- withRandom Math_random ;;
  let y := CREATURE_BASE_SIZE CONFIG
           + r2 * (WORLD_HEIGHT CONFIG - CREATURE_BASE_SIZE CONFIG * 2) in
  traits <- withRandom generateHerbivoreTraits ;;
  traits <- withRandom (founderJitter traitKeys traits) ;;
  let traits := setTrait k_dietPreference (Rmin (dietPreference traits) 0.34) traits in
  r3 <- withRandom Math_random ;;
  let traits := setTrait k_size (0.05 + r3 * 0.2) traits in
  ref <- new_Creature CONFIG x y (Some traits) 0 ;;
  g <- get ;;
  match objects g !! ref with
  | None => ret w
  | Some c =>
      sp <- withRegistry (species.assignSpecies (creature.id c) (creature.traits c)
                            (creature.generation c) (simulationTime w)) ;;
      assign ref (set_speciesId (Some (species.id sp))) ;;;
      ret (set_creatures (creatures w ++ [ref]) w)
  end.

Fixpoint spawnFounders (creatureCount : nat) (w : World) : State Globals World :=
  match creatureCount with
  | O => ret w
  | S n => w <- spawnFounder w ;; spawnFounders n w
  end.

Fixpoint spawnInitialFood (count : nat) (w : World) : State Globals World :=
  match count with
  | O => ret w
  | S n =>
      f <- food.spawnRandomFood CONFIG ;;
      spawnInitialFood n (set_food (food w ++ [f]) w)
  end.

(** [creatureCount] defaults to [CONFIG.INITIAL_CREATURE_COUNT]. *)
Definition initialize (creatureCount : option nat) (w : World) : State Globals World :=
  let creatureCount := default (INITIAL_CREATURE_COUNT CONFIG) creatureCount in
  let w := set_creatures [] w in
  let w := set_food [] w in
  let w := set_corpses [] w in
  let w := set_totalBirths 0 w in
  let w := set_totalDeaths 0 w in
  let w := set_generationMax 0 w in
  let w := set_simulationTime 0 w in
  withRegistry species.reset ;;;
  w <- spawnFounders creatureCount w ;;
  spawnInitialFood (INITIAL_FOOD_COUNT CONFIG) w.

Definition updateSpatialHashes (w : World) : State Globals World :=
  g <- get ;;
  let creatureHash :=
    fold_left (fun h ref => if alive g ref then insert (positionOf g) ref h else h)
              (creatures w) (clear (creatureHash w)) in
  let foodHash :=
    fold_left (fun h f => if negb (food.isConsumed f) then insert food.position f h else h)
              (food w) (clear (foodHash w)) in
  let corpseHash :=
    fold_left (fun h k => if negb (corpse.isConsumed k) then insert corpse.position k h else h)
              (corpses w) (clear (corpseHash w)) in
  ret (set_hashes creatureHash foodHash corpseHash w).

Definition getCreaturesNear (w : World) (g : Globals) (x y radius : R) : list nat :=
  filter (fun ref => alive g ref = true) (getNearby (creatureHash w) x y radius).

Definition getCorpsesNear (w : World) (x y radius : R) : list corpse.Corpse :=
  filter (fun k => corpse.isConsumed k = false) (getNearby (corpseHash w) x y radius).

Definition getFoodNear (w : World) (x y radius : R) : list food.Food :=
  filter (fun f => food.isConsumed f = false) (getNearby (foodHash w) x y radius).

Definition getTemperatureAt (w : World) (x y : R) : R :=
  fold_left (fun temp zone =>
               let dist := distance x y (zone_x zone) (zone_y zone) in
               if dist <? radius zone then
                 let influence := 1 - dist / radius zone in
                 temp + temperature zone * influence
               else temp)
            (temperatureZones w) (globalTemperature w).

Definition getTemperatureDamage (w : World) (c : Creature) : R :=
  let temp := getTemperatureAt w (x (creature.position c)) (y (creature.position c)) in
  if temp >? 30 then
    let excess := temp - 30 in
    let tolerance := heatTolerance (creature.traits c) in
    Rmax 0 (excess * (1 - tolerance) * 0.5)
  else if temp <? 10 then
    let deficit := 10 - temp in
    let tolerance := coldTolerance (creature.traits c) in
    Rmax 0 (deficit * (1 - tolerance) * 0.5)
  else 0.

(** [addCreature(creature)], [creature] a reference *)
Definition addCreature (ref : nat) (w : World) : State Globals World :=
  if (length (creatures w) <? MAX_CREATURES CONFIG)%nat then
    g <- get ;;
    match objects g !! ref with
    | None => ret w
    | Some c =>
        sp <- withRegistry (species.assignSpecies (creature.id c) (creature.traits c)
                              (creature.generation c) (simulationTime w)) ;;
        assign ref (set_speciesId (Some (species.id sp))) ;;;
        let w := set_creatures (creatures w ++ [ref]) w in
        let w := set_totalBirths (totalBirths w + 1)%Z w in
        let w := if (generationMax w <? creature.generation c)%nat
                 then set_generationMax (creature.generation c) w else w in
        ret w
    end
  else ret w.

Definition updateTime (deltaTime : R) (w : World) : World :=
  set_simulationTime (simulationTime w + deltaTime) w.

(** The first loop of [cleanup]: corpses of the dead creatures *)
Fixpoint createCorpses (refs : list nat) (w : World) : State Globals World :=
  match refs with
  | [] => ret w
  | ref :: rest =>
      g <- get ;;
      match objects g !! ref with
      | None => createCorpses rest w
      | Some c =>
          if negb (isAlive c) && (creature.energy c >? 5) then
            if (length (corpses w) <? 500)%nat then
              k <- corpse.createCorpse (x (creature.position c)) (y (creature.position c))
                     (creature.energy c) (creature.size c) (simulationTime w) ;;
              createCorpses rest (set_corpses (corpses w ++ [k]) w)
            else createCorpses rest w
          else createCorpses rest w
      end
  end.

Definition cleanup (w : World) : State Globals World :=
  w <- createCorpses (creatures w) w ;;
  g <- get ;;
  let deadCreatures := length (filter (fun ref => alive g ref = false) (creatures w)) in
  let w := set_totalDeaths (totalDeaths w + Z.of_nat deadCreatures)%Z w in
  let w := set_creatures (filter (fun ref => alive g ref = true) (creatures w)) w in
  let w := set_food (filter (fun f => food.isConsumed f = false) (food w)) w in
  let w := set_corpses
             (filter (fun k => corpse.isConsumed k = false
                               ∧ corpse.isDecayed (simulationTime w) k = false)
                     (corpses w)) w in
  ret w.

Definition addTemperatureZone (x y radius temperature : R) (w : World) : World :=
  set_temperatureZones
    (temperatureZones w ++
       [{| zone_x := x; zone_y := y; radius := radius; temperature := temperature;
           createdAt := simulationTime w; isRandom := false |}]) w.

Definition clearTemperatureZones (includeRandom : bool) (w : World) : World :=
  if includeRandom then set_temperatureZones [] w
  else set_temperatureZones (filter (fun z => isRandom z = true) (temperatureZones w)) w.

(** The body of the loop of [processEmigration] for one creature *)
Definition emigrate (deltaTime : R) (ref : nat) (w : World) : State Globals World :=
  g <- get ;;
  match objects g !! ref with
  | None => ret w
  | Some c =>
      if negb (isAlive c) then ret w
      else
        let nearLeft := x (creature.position c) <? EMIGRATION_EDGE_DISTANCE CONFIG in
        let nearRight := x (creature.position c) >? WORLD_WIDTH CONFIG - EMIGRATION_EDGE_DISTANCE CONFIG in
        let nearTop := y (creature.position c) <? EMIGRATION_EDGE_DISTANCE CONFIG in
        let nearBottom := y (creature.position c) >? WORLD_HEIGHT CONFIG - EMIGRATION_EDGE_DISTANCE CONFIG in
        if negb nearLeft && negb nearRight && negb nearTop && negb nearBottom then ret w
        else
          let isLowEnergy := energyPercent CONFIG c <? EMIGRATION_ENERGY_THRESHOLD CONFIG in
          let isFleeing := creature.isFleeing (creature.state c) in
          let isStarving := energyPercent CONFIG c <? 0.2 in
          let nearby := getCreaturesNear w g (x (creature.position c))
                          (y (creature.position c)) (creature.visionRange c) in
          let isCrowded := (EMIGRATION_CROWDING_THRESHOLD CONFIG <? length nearby)%nat in
          if (isCarnivore c || isOmnivore c)
             && existsb (fun otherRef =>
                           match objects g !! otherRef with
                           | None => false
                           | Some other =>
                               isAlive other
                               && negb (Nat.eqb (creature.id other) (creature.id c))
                               && negb (isCarnivore other)
                               && canHunt CONFIG c other
                           end) nearby
          then ret w
          else
            let emigrationChance :=
              if isStarving then EMIGRATION_BASE_CHANCE CONFIG * 5
              else if isFleeing then EMIGRATION_BASE_CHANCE CONFIG * 3
              else if isLowEnergy && isCrowded then EMIGRATION_BASE_CHANCE CONFIG * 2
              else if isLowEnergy then EMIGRATION_BASE_CHANCE CONFIG
              else 0 in
            if emigrationChance >? 0 then
              r <- withRandom Math_random ;;
              if r <? emigrationChance * deltaTime then
                call ref die ;;;
                ret (set_totalDeaths (Z.max 0 (totalDeaths w - 1)) w)
              else ret w
            else ret w
  end.

Fixpoint emigrateAll (deltaTime : R) (refs : list nat) (w : World) : State Globals World :=
  match refs with
  | [] => ret w
  | ref :: rest => w <- emigrate deltaTime ref w ;; emigrateAll deltaTime rest w
  end.

Definition processEmigration (deltaTime : R) (w : World) : State Globals World :=
  emigrateAll deltaTime (creatures w) w.

Definition set_randomZonesEnabled (b : bool) (w : World) : World :=
  {| creatures := creatures w; food := food w; corpses := corpses w;
     creatureHash := creatureHash w; foodHash := foodHash w;
     corpseHash := corpseHash w; globalTemperature := globalTemperature w;
     temperatureZones := temperatureZones w; foodAbundance := foodAbundance w;
     mutationRate := mutationRate w; randomZonesEnabled := b;
     foodSpawnAccumulator := foodSpawnAccumulator w;
     zoneSpawnAccumulator := zoneSpawnAccumulator w;
     migrationAccumulator := migrationAccumulator w;
     simulationTime := simulationTime w; totalBirths := totalBirths w;
     totalDeaths := totalDeaths w; generationMax := generationMax w |}.

Definition setRandomZonesEnabled (enabled : bool) (w : World) : World :=
  let w := set_randomZonesEnabled enabled w in
  if negb enabled then
    set_temperatureZones (filter (fun z => isRandom z = false) (temperatureZones w)) w
  else w.

End WithConfig.

End world.

(** ** simulation/physics.ts: the helper functions *)

Module physics.

Import config math creature.
Local Open Scope R_scope.

(** One iteration of the loops of [findNearestFood] and [findNearestCorpse];
    [None] stands for [nearest = null] with [nearestDist = Infinity]. *)
Definition nearestStep {T : Type} (isConsumed : T -> bool) (position : T -> Vector2)
    (creature : Creature) (nearest : option (T * R)) (item : T) : option (T * R) :=
  if isConsumed item then nearest
  else
    let dist := distanceTo creature (position item) in
    if match nearest with
       | None => true
       | Some (_, nearestDist) => dist <? nearestDist
       end
    then Some (item, dist)
    else nearest.

Definition findNearestFood (creature : Creature) (foods : list food.Food)
    : option food.Food :=
  fst <$> fold_left (nearestStep food.isConsumed food.position creature) foods None.

Definition findNearestCorpse (creature : Creature) (corpses : list corpse.Corpse)
    : option corpse.Corpse :=
  fst <$> fold_left (nearestStep corpse.isConsumed corpse.position creature) corpses None.

End physics.

(** ** simulation/engine.ts *)

Module engine.

Import config world.
Local Open Scope R_scope.

Inductive SimulationState : Type := stopped | running | paused.

(** The animation frame, the timers and the callbacks are left out. *)
Record SimulationEngine : Type := {
  world : World;
  state : SimulationState;
  speed : R
}.

Section WithConfig.

Variable CONFIG : Config.

Definition new_SimulationEngine : SimulationEngine :=
  {| world := new_World CONFIG; state := stopped; speed := 1 |}.

Definition setTemperature (temp : R) (e : SimulationEngine) : SimulationEngine :=
  {| world := set_globalTemperature
                (Rmax (TEMPERATURE_MIN CONFIG) (Rmin (TEMPERATURE_MAX CONFIG) temp))
                (world e);
     state := state e; speed := speed e |}.

Definition setFoodAbundance (multiplier : R) (e : SimulationEngine) : SimulationEngine :=
  {| world := set_foodAbundance (Rmax 0 (Rmin 3 multiplier)) (world e);
     state := state e; speed := speed e |}.

Definition setMutationRate (rate : R) (e : SimulationEngine) : SimulationEngine :=
  {| world := set_mutationRate (Rmax 0 (Rmin 0.3 rate)) (world e);
     state := state e; speed := speed e |}.

Definition setSpeed (speed : R) (e : SimulationEngine) : SimulationEngine :=
  {| world := world e; state := state e;
     speed := Rmax 0.1 (Rmin 10 speed) |}.

Definition addHeatZone (x y : R) (radius : option R) (e : SimulationEngine) : SimulationEngine :=
  {| world := addTemperatureZone x y (default 100 radius) 30 (world e);
     state := state e; speed := engine.speed e |}.

Definition addColdZone (x y : R) (radius : option R) (e : SimulationEngine) : SimulationEngine :=
  {| world := addTemperatureZone x y (default 100 radius) (-30) (world e);
     state := state e; speed := engine.speed e |}.

End WithConfig.

End engine.

(** * The vocabulary of the properties

    The predicates, relations and concrete scenarios that the statements
    below are written with.  Nothing here belongs to the program; the three
    definitions that name an expression of a source function
    ([squaredDifferences], [maxOffspring], [temperatureFrom]) are there for
    the statements and proofs to refer to it. *)

Section BoundsVocabulary.

Local Open Scope R_scope.

Import config genetics.

(** Every field of a trait vector lies in [0,1]. *)
Definition validTraits (t : Traits) : Prop :=
  forall key : TraitName, 0 <= getTrait key t <= 1.

(** A herbivore with every other trait at 0.5 *)
Definition sampleTraits : Traits :=
  {| speed := 0.5; size := 0.5; visionRange := 0.5; metabolism := 0.5;
     heatTolerance := 0.5; coldTolerance := 0.5; aggression := 0.5;
     camouflage := 0.5; lifespan := 0.5; reproductionRate := 0.5;
     socialBehavior := 0.5; dietPreference := 0.1; strength := 0.5;
     stamina := 0.5 |}.

(** The random source that always draws 0 *)
Definition zeroSource : RandomSource := {| samples := fun _ => 0; consumed := 0 |}.

Import creature.

(** [new Creature(100, 100, sampleTraits)] when [Math.random()] draws 0:
    its energy is [CREATURE_BASE_ENERGY], 100. *)
Definition sampleCreature : Creature :=
  construct DEFAULT_CONFIG 0 100 100 sampleTraits 0 0.

Import world engine.

(** [r] is [v] clamped to [lo, hi]: in the range, [v] itself when [v] is in
    the range, and else the bound nearest to [v]. *)
Definition clampedTo (lo hi v r : R) : Prop :=
  lo <= r <= hi
  /\ (lo <= v <= hi -> r = v)
  /\ (v < lo -> r = lo)
  /\ (hi < v -> r = hi).

Import math.

(** A world at 20 degrees with one heat zone of +30 and radius 50 around (100, 100) *)
Definition heatZone : TemperatureZone :=
  {| zone_x := 100; zone_y := 100; radius := 50; temperature := 30;
     createdAt := 0; isRandom := false |}.

Definition heatedWorld : World :=
  addTemperatureZone 100 100 50 30 (new_World DEFAULT_CONFIG).

End BoundsVocabulary.

Section SpeedVocabulary.

Local Open Scope R_scope.

Import config genetics.

(** [f] is Lipschitz with constant [K]. *)
Definition lipschitz (K : R) (f : R -> R) : Prop :=
  forall x y : R, Rabs (f x - f y) <= K * Rabs (x - y).

Import diet_scaling.

(** The trait vector [t] with its diet preference replaced *)
Definition withDiet (t : Traits) (d : R) : Traits := setTrait k_dietPreference d t.

End SpeedVocabulary.

Section SpatialVocabulary.

Local Open Scope R_scope.

Import config math world.

Section InsertAll.

Context {T : Type} (position : T -> Vector2).

(** [insertAll]: a hash of cell size [cs] after [insert] of each entity *)
Definition insertAll (cs : R) (entities : list T) : SpatialHash T :=
  fold_left (fun h e => insert position e h) entities (new_SpatialHash cs).

End InsertAll.

End SpatialVocabulary.

Section LifeVocabulary.

Local Open Scope R_scope.

Import config math genetics creature world.

(** Hoare triples over the state monad *)
Definition hoare {S A : Type} (P : S -> Prop) (m : State S A) (Q : A -> S -> Prop) : Prop :=
  forall s, P s -> Q (fst (m s)) (snd (m s)).

(** Every object of the store is filed under its own id, below the counter. *)
Definition storeWellFormed (g : Globals) : Prop :=
  forall ref c, objects g !! ref = Some c -> (ref < nextCreatureId g)%nat /\ creature.id c = ref.

(** [g'] comes from [g] by writes that leave the registry, and the identity,
    life and species of every object alone, that do not touch the dead, and
    that may have constructed new creatures. *)
Record extends (g g' : Globals) : Prop := {
  ext_registry : speciesRegistry g' = speciesRegistry g;
  ext_counter : (nextCreatureId g <= nextCreatureId g')%nat;
  ext_old : forall ref c, objects g !! ref = Some c ->
            exists c', objects g' !! ref = Some c'
                       /\ creature.id c' = creature.id c
                       /\ isAlive c' = isAlive c
                       /\ speciesId c' = speciesId c
                       /\ (isAlive c = false -> c' = c);
  ext_new : forall ref c', objects g' !! ref = Some c' -> objects g !! ref = None ->
            (nextCreatureId g <= ref)%nat /\ isAlive c' = true /\ speciesId c' = None;
  ext_wf : storeWellFormed g'
}.

(** A field update that keeps identity, life and species *)
Definition benign (f : Creature -> Creature) : Prop :=
  forall c, creature.id (f c) = creature.id c
            /\ isAlive (f c) = isAlive c
            /\ speciesId (f c) = speciesId c.

(** From a state that extends [g0], [m] leads to a state that extends [g0]. *)
Definition keeps (g0 : Globals) {A : Type} (m : State Globals A) : Prop :=
  hoare (extends g0) m (fun _ => extends g0).

(** [P] holds of every object of the store. *)
Definition objectsAll (P : Creature -> Prop) (g : Globals) : Prop :=
  forall ref c, objects g !! ref = Some c -> P c.

(** A dead creature has no energy left. *)
Definition spent (c : Creature) : Prop := isAlive c = false -> energy c = 0.

(** How the operations are called: without restriction, or the way the
    simulation calls them. *)
Inductive Usage : Type :=
  | anyCall        (* every operation, with any argument, on any creature *)
  | asSimulated.   (* the operations as the simulation calls them *)

(** The simulation feeds living creatures only. *)
Definition mayEat (u : Usage) (g : Globals) (ref : nat) : Prop :=
  match u with anyCall => True | asSimulated => alive g ref = true end.

(** The simulation deals damage that is not negative. *)
Definition mayDamage (u : Usage) (amount : R) : Prop :=
  match u with anyCall => True | asSimulated => 0 <= amount end.

(** One call of the constructor or of a method of a creature, from the store
    [g] to the store it leaves *)
Inductive creatureCall (CONFIG : Config) (u : Usage) (g : Globals) : Globals -> Prop :=
  | call_new x y traits generation :
      creatureCall CONFIG u g (snd (new_Creature CONFIG x y traits generation g))
  | call_update this deltaTime currentTime :
      creatureCall CONFIG u g (snd (call this (update CONFIG deltaTime currentTime) g))
  | call_seekTarget this target deltaTime :
      creatureCall CONFIG u g (snd (assign this (seekTarget target deltaTime) g))
  | call_huntTarget this target deltaTime :
      creatureCall CONFIG u g (snd (assign this (huntTarget target deltaTime) g))
  | call_wander this deltaTime :
      creatureCall CONFIG u g (snd (callRandom this (wander deltaTime) g))
  | call_fleeFrom this threat deltaTime :
      creatureCall CONFIG u g (snd (assign this (fleeFrom threat deltaTime) g))
  | call_eat this foodEnergy :
      mayEat u g this ->
      creatureCall CONFIG u g (snd (assign this (eat CONFIG foodEnergy) g))
  | call_takeDamage this amount :
      mayDamage u amount ->
      creatureCall CONFIG u g (snd (call this (takeDamage amount) g))
  | call_reproduceAsexual this currentTime mutationRate :
      creatureCall CONFIG u g
        (snd (reproduceAsexual CONFIG this currentTime mutationRate g))
  | call_reproduceSexual this partner currentTime mutationRate :
      creatureCall CONFIG u g
        (snd (reproduceSexual CONFIG this partner currentTime mutationRate g))
  | call_die this :
      creatureCall CONFIG u g (snd (call this die g)).

(** The stores reached from the start of the program by calls on creatures *)
Inductive reachableBy (CONFIG : Config) (u : Usage) : Globals -> Prop :=
  | reach_start rnd : reachableBy CONFIG u (initialGlobals rnd)
  | reach_call g g' :
      reachableBy CONFIG u g -> creatureCall CONFIG u g g' -> reachableBy CONFIG u g'.

(** The store after [new Creature(x, y, sampleTraits)] at program start,
    with a random source that always draws 0 *)
Definition hatched (x y : R) : Globals :=
  snd (new_Creature DEFAULT_CONFIG x y (Some sampleTraits) 0 (initialGlobals (fun _ => 0))).

(** The object that constructor call makes *)
Definition newborn (x y : R) : Creature :=
  construct DEFAULT_CONFIG 0 x y sampleTraits 0 (0 * PI * 2).

(** The store with one creature, constructed at (100, 100) *)
Definition oneCreature : Globals := hatched 100 100.

(** The world once that creature is added to it *)
Definition settled (x y : R) : World * Globals :=
  addCreature DEFAULT_CONFIG 0 (new_World DEFAULT_CONFIG) (hatched x y).

(** The same creature later in life, 200 s old and with 80 of energy *)
Definition elder : Globals :=
  snd (assign 0 (fun c => set_energy 80 (set_age 200 c)) (snd (settled 100 100))).

(** That creature hatched 10 px from the left edge and down to 10 of energy *)
Definition starving : Globals :=
  snd (assign 0 (set_energy 10) (snd (settled 10 100))).

(** One tick's emigration and cleanup of the world of the starving creature,
    [priorDeaths] being the deaths the world counted so far *)
Definition emigrationTick (priorDeaths : Z) : World * Globals :=
  let w := set_totalDeaths priorDeaths (fst (settled 10 100)) in
  let r := processEmigration DEFAULT_CONFIG 1 w starving in
  cleanup (fst r) (snd r).

End LifeVocabulary.

Section AccountsVocabulary.

Import config math genetics creature world.

Import species.

(** The creatures of [l] that the registry maps to the species [sid] *)
Definition countIn (cs : gmap nat nat) (sid : nat) (l : list nat) : nat :=
  length (filter (fun ref => cs !! ref = Some sid) l).

(** The accounts are in order for the creatures [l] of a world: the registry
    maps exactly the living creatures of [l], each to a species of the
    registry that the creature names in [speciesId], and the population of
    every species is the number of creatures mapped to it. *)
Record accounted (l : list nat) (g : Globals) : Prop := {
  acc_wf : storeWellFormed g;
  acc_nodup : NoDup l;
  acc_stored : forall ref, ref ∈ l -> is_Some (objects g !! ref);
  acc_mapped : forall ref sid,
      creatureSpecies (speciesRegistry g) !! ref = Some sid ->
      ref ∈ l
      /\ (exists c, objects g !! ref = Some c /\ isAlive c = true /\ speciesId c = Some sid)
      /\ sid ∈ map species.id (species (speciesRegistry g));
  acc_alive : forall ref c,
      ref ∈ l -> objects g !! ref = Some c -> isAlive c = true ->
      is_Some (creatureSpecies (speciesRegistry g) !! ref);
  acc_ids : NoDup (map species.id (species (speciesRegistry g)));
  acc_fresh : forall s, s ∈ species (speciesRegistry g) ->
                        (species.id s < nextSpeciesId (speciesRegistry g))%nat;
  acc_population : forall s, s ∈ species (speciesRegistry g) ->
      population s
      = Z.of_nat (countIn (creatureSpecies (speciesRegistry g)) (species.id s) l)
}.

(** [g'] differs from [g] in fields other than the life and the species of
    the objects, and in objects made since; the registry is the same. *)
Record sameLives (g g' : Globals) : Prop := {
  sl_registry : speciesRegistry g' = speciesRegistry g;
  sl_old : forall ref c, objects g !! ref = Some c ->
           exists c', objects g' !! ref = Some c'
                      /\ isAlive c' = isAlive c /\ speciesId c' = speciesId c;
  sl_wf : storeWellFormed g'
}.

(** [c'] has the identity, the life and the species of [c]. *)
Definition keepsLife (c c' : Creature) : Prop :=
  creature.id c' = creature.id c /\ isAlive c' = isAlive c /\ speciesId c' = speciesId c.

(** A result that keeps the creatures of the world, the objects, the id
    counter and the registry *)
Definition framed (w : World) (g : Globals) (r : World * Globals) : Prop :=
  creatures (fst r) = creatures w
  /\ objects (snd r) = objects g
  /\ nextCreatureId (snd r) = nextCreatureId g
  /\ speciesRegistry (snd r) = speciesRegistry g.

(** A result that keeps the creatures of the world and the accounts of [l] *)
Definition keepsAccounts (l : list nat) (w : World) (r : World * Globals) : Prop :=
  creatures (fst r) = creatures w /\ accounted l (snd r).

(** A result whose world has its accounts in order *)
Definition accountedWorld (r : World * Globals) : Prop :=
  accounted (creatures (fst r)) (snd r).

(** The simulation adds living creatures that are not in the world yet
    (founders and offspring). *)
Definition mayAdd (u : Usage) (w : World) (g : Globals) (ref : nat) : Prop :=
  match u with
  | anyCall => True
  | asSimulated => alive g ref = true /\ ref ∉ creatures w
  end.

(** One operation on a world and the store: [initialize], [addCreature], a
    call on a creature, [processEmigration], [cleanup], [updateSpatialHashes]
    or [updateTime] *)
Inductive worldStep (CONFIG : Config) (u : Usage) (w : World) (g : Globals)
    : World -> Globals -> Prop :=
  | step_initialize creatureCount :
      worldStep CONFIG u w g (fst (initialize CONFIG creatureCount w g))
                             (snd (initialize CONFIG creatureCount w g))
  | step_addCreature ref :
      mayAdd u w g ref ->
      worldStep CONFIG u w g (fst (addCreature CONFIG ref w g))
                             (snd (addCreature CONFIG ref w g))
  | step_creature g' :
      creatureCall CONFIG anyCall g g' -> worldStep CONFIG u w g w g'
  | step_processEmigration deltaTime :
      worldStep CONFIG u w g (fst (processEmigration CONFIG deltaTime w g))
                             (snd (processEmigration CONFIG deltaTime w g))
  | step_cleanup :
      worldStep CONFIG u w g (fst (cleanup w g)) (snd (cleanup w g))
  | step_updateSpatialHashes :
      worldStep CONFIG u w g (fst (updateSpatialHashes w g)) (snd (updateSpatialHashes w g))
  | step_updateTime deltaTime :
      worldStep CONFIG u w g (updateTime deltaTime w) g.

(** The states reached from [new World()] at the start of the program *)
Inductive worldReachable (CONFIG : Config) (u : Usage) : World -> Globals -> Prop :=
  | world_start rnd : worldReachable CONFIG u (new_World CONFIG) (initialGlobals rnd)
  | world_step w g w' g' :
      worldReachable CONFIG u w g -> worldStep CONFIG u w g w' g' ->
      worldReachable CONFIG u w' g'.

(** [getActiveSpecies().reduce((n, s) => n + s.population, 0)] *)
Definition totalPopulation (l : list Species) : Z :=
  fold_left (fun n s => (n + population s)%Z) l 0%Z.

(** [c.isAlive && c.speciesId !== null] for the creature behind [ref] *)
Definition livingWithSpecies (g : Globals) (ref : nat) : bool :=
  match objects g !! ref with
  | Some c => isAlive c && match speciesId c with Some _ => true | None => false end
  | None => false
  end.

(** [creatures.filter(c => c.isAlive && c.speciesId !== null).length] *)
Definition countLiving (w : World) (g : Globals) : nat :=
  length (filter (fun ref => livingWithSpecies g ref = true) (creatures w)).

(** The creatures of [l] that the registry maps to a species *)
Definition mappedCount (cs : gmap nat nat) (l : list nat) : nat :=
  length (filter (fun ref => is_Some (cs !! ref)) l).


End AccountsVocabulary.

Section TraitsVocabulary.

Local Open Scope R_scope.

Import config math genetics.

(** [Math.random()] returns a number of [0, 1). *)
Definition unitSource (s : RandomSource) : Prop :=
  forall n, 0 <= samples s n < 1.

(** The random source whose every draw is [r] *)
Definition constantSource (r : R) : RandomSource :=
  {| samples := fun _ => r; consumed := 0 |}.

(** The largest step of one mutation *)
Definition mutationReach (CONFIG : Config) (mutationRate : option R) : R :=
  Rmax (default (MUTATION_RATE CONFIG) mutationRate) (MUTATION_LARGE_AMOUNT CONFIG).

End TraitsVocabulary.

Section CrossoverVocabulary.

Local Open Scope R_scope.

Import config math genetics.

(** The trait [key] of [child] lies between those of the two parents. *)
Definition between (parent1 parent2 : Traits) (key : TraitName) (child : Traits) : Prop :=
  Rmin (getTrait key parent1) (getTrait key parent2)
  <= getTrait key child
  <= Rmax (getTrait key parent1) (getTrait key parent2).

End CrossoverVocabulary.

Section RegistryVocabulary.

Local Open Scope R_scope.

Import config genetics species.

(** [sumSquared] after the loop of [geneticDistance] *)
Definition squaredDifferences (t1 t2 : Traits) : R :=
  fold_left (fun sumSquared key =>
               let diff := getTrait key t1 - getTrait key t2 in
               sumSquared + diff * diff) traitKeys 0.

(** A species a creature of these traits may join: not extinct and within
    the threshold *)
Definition candidate (traits : Traits) (s : Species) : Prop :=
  population s <> 0%Z /\ geneticDistance traits (prototypeTraits s) < SPECIES_THRESHOLD.

(** What the loop of [findMatchingSpecies] has found among the species [seen] *)
Definition bestAmong (traits : Traits) (seen : list Species)
    (best : option (Species * R)) : Prop :=
  match best with
  | None => forall s, s ∈ seen -> ~ candidate traits s
  | Some (sp, d) =>
      sp ∈ seen /\ candidate traits sp
      /\ d = geneticDistance traits (prototypeTraits sp)
      /\ forall s, s ∈ seen -> candidate traits s ->
                   d <= geneticDistance traits (prototypeTraits s)
  end.

(** The keys of the species map are unique, and below the id counter. *)
Definition registryWellFormed (reg : SpeciesRegistry) : Prop :=
  NoDup (map species.id (species reg))
  /\ forall s, s ∈ species reg -> (species.id s < nextSpeciesId reg)%nat.

(** The registry with one species, of one creature *)
Definition oneSpecies : SpeciesRegistry :=
  snd (assignSpecies 0 sampleTraits 0 0 initialRegistry).

End RegistryVocabulary.

Section CreatureVocabulary.

Local Open Scope R_scope.

Import config math genetics creature.



End CreatureVocabulary.

Section ReproductionVocabulary.

Local Open Scope R_scope.

Import config math genetics creature.





(** The local [maxOffspring] of [reproduceSexual] *)
Definition maxOffspring (CONFIG : Config) (c p : Creature) : R :=
  getMaxOffspringCount CONFIG
    (setTrait k_size ((genetics.size (traits c) + genetics.size (traits p)) / 2) (traits c))
  + (if isHerbivore c && isHerbivore p then HERBIVORE_OFFSPRING_BONUS CONFIG else 0)
  + (if isCarnivore c && isCarnivore p then CARNIVORE_OFFSPRING_BONUS CONFIG else 0).






End ReproductionVocabulary.

Section EncountersVocabulary.

Local Open Scope R_scope.

Import config math genetics creature.

(** A carnivore of the same build as [sampleCreature] *)
Definition sampleHunter : Creature :=
  construct DEFAULT_CONFIG 1 120 100 (setTrait k_dietPreference 0.9 sampleTraits) 0 0.

End EncountersVocabulary.

Section BitesVocabulary.

Local Open Scope R_scope.

Import config math creature.

(** A medium food at (110, 100), not bitten yet *)
Definition sampleFood : food.Food :=
  {| food.id := 0; food.position := {| x := 110; y := 100 |}; food.maxEnergy := 40;
     food.energy := 40; food.size := 8; food.foodSize := food.medium;
     food.isConsumed := false |}.

(** A corpse at (110, 100) with 60 of energy, made at time 0 *)
Definition sampleCorpse : corpse.Corpse :=
  {| corpse.id := 0; corpse.position := {| x := 110; y := 100 |}; corpse.energy := 60;
     corpse.maxEnergy := 60; corpse.size := 17.5; corpse.createdAt := 0;
     corpse.isConsumed := false |}.

End BitesVocabulary.

Section CleanupVocabulary.

Local Open Scope R_scope.

Import config math creature world.

(** A corpse as [cleanup] makes it at time [t] *)
Definition freshCorpse (t : R) (k : corpse.Corpse) : Prop :=
  corpse.isConsumed k = false
  /\ corpse.createdAt k = t
  /\ 3 < corpse.energy k
  /\ corpse.maxEnergy k = corpse.energy k.

(** What the corpse loop of [cleanup] does to the world *)
Definition corpsesAdded (w : World) (r : World * Globals) : Prop :=
  food (fst r) = food w
  /\ totalDeaths (fst r) = totalDeaths w
  /\ simulationTime (fst r) = simulationTime w
  /\ exists new,
       corpses (fst r) = corpses w ++ new
       /\ Forall (freshCorpse (simulationTime w)) new
       /\ (length (corpses w ++ new) <= Nat.max (length (corpses w)) 500)%nat.

(** What [cleanup] leaves behind *)
Definition cleaned (w : World) (g : Globals) (r : World * Globals) : Prop :=
  creatures (fst r) = filter (fun ref => alive g ref = true) (creatures w)
  /\ (totalDeaths (fst r)
      = totalDeaths w + Z.of_nat (length (creatures w) - length (creatures (fst r))))%Z
  /\ (forall f, f ∈ food (fst r) <-> f ∈ food w /\ food.isConsumed f = false)
  /\ (forall k, k ∈ corpses (fst r) ->
                corpse.isConsumed k = false
                /\ corpse.isDecayed (simulationTime w) k = false)
  /\ (forall k, k ∈ corpses w -> corpse.isConsumed k = false ->
                corpse.isDecayed (simulationTime w) k = false -> k ∈ corpses (fst r))
  /\ (length (corpses (fst r)) <= Nat.max (length (corpses w)) 500)%nat
  /\ objects (snd r) = objects g
  /\ speciesRegistry (snd r) = speciesRegistry g
  /\ simulationTime (fst r) = simulationTime w.

End CleanupVocabulary.

Section FoundingVocabulary.

Local Open Scope R_scope.

Import config math genetics creature world.

(** A creature as the founder loop of [initialize] leaves it *)
Definition founder (CONFIG : Config) (ref : nat) (c : Creature) : Prop :=
  creature.id c = ref
  /\ isAlive c = true
  /\ isHerbivore c = true
  /\ generation c = 0%nat
  /\ energy c = CREATURE_BASE_ENERGY CONFIG
  /\ is_Some (speciesId c).

(** The fields of the world that the two loops of [initialize] leave alone *)
Definition sameCounters (w w' : World) : Prop :=
  corpses w' = corpses w
  /\ totalBirths w' = totalBirths w
  /\ totalDeaths w' = totalDeaths w
  /\ generationMax w' = generationMax w
  /\ simulationTime w' = simulationTime w.

(** What [count] iterations of the founder loop leave behind *)
Definition founded (CONFIG : Config) (count : nat) (w : World) (g : Globals)
    (r : World * Globals) : Prop :=
  creatures (fst r) = creatures w ++ seq (nextCreatureId g) count
  /\ food (fst r) = food w
  /\ sameCounters w (fst r)
  /\ nextCreatureId (snd r) = (nextCreatureId g + count)%nat
  /\ (forall ref, (ref < nextCreatureId g)%nat -> objects (snd r) !! ref = objects g !! ref)
  /\ (forall ref, (nextCreatureId g <= ref < nextCreatureId g + count)%nat ->
        exists c, objects (snd r) !! ref = Some c /\ founder CONFIG ref c).

(** What the food loop of [initialize] leaves behind *)
Definition fed (count : nat) (w : World) (g : Globals) (r : World * Globals) : Prop :=
  creatures (fst r) = creatures w
  /\ sameCounters w (fst r)
  /\ objects (snd r) = objects g
  /\ nextCreatureId (snd r) = nextCreatureId g
  /\ speciesRegistry (snd r) = speciesRegistry g
  /\ exists new,
       food (fst r) = food w ++ new
       /\ length new = count
       /\ Forall (fun f => food.isConsumed f = false /\ food.energy f = food.maxEnergy f) new.

End FoundingVocabulary.

Section TemperatureVocabulary.

Local Open Scope R_scope.

Import config math genetics creature world.

(** The loop of [getTemperatureAt], from a running temperature *)
Definition temperatureFrom (x y : R) (zones : list TemperatureZone) (temp : R) : R :=
  fold_left (fun temp zone =>
               let dist := distance x y (zone_x zone) (zone_y zone) in
               if dist <? radius zone then
                 let influence := 1 - dist / radius zone in
                 temp + temperature zone * influence
               else temp)
            zones temp.

End TemperatureVocabulary.

Section CellsVocabulary.

Local Open Scope R_scope.

Import config math genetics creature world.

(** The cell of a point in a grid of cell size [cs] *)
Definition cellOf (cs : R) (p : Vector2) : Z * Z :=
  (Zfloor (x p / cs), Zfloor (y p / cs)).

(** The content of the cell [key], empty when the grid has no such key *)
Definition cellAt {T : Type} (h : SpatialHash T) (key : Z * Z) : list T :=
  default [] (grid h !! key).

(** The cells that [getNearby] visits around the cell of the query point *)
Definition visited (cs : R) (qx qy r : R) (key : Z * Z) : Prop :=
  (0 <= fst key)%Z /\ (0 <= snd key)%Z
  /\ (Z.abs (fst key - Zfloor (qx / cs)) <= Zceil (r / cs) + 1)%Z
  /\ (Z.abs (snd key - Zfloor (qy / cs)) <= Zceil (r / cs) + 1)%Z.

End CellsVocabulary.

Section NearestVocabulary.

Local Open Scope R_scope.

Import config math genetics creature world physics.

(** The loop variable [nearest], with its distance, after the items [seen] *)
Definition nearestOf {T : Type} (isConsumed : T -> bool) (position : T -> Vector2)
    (c : Creature) (seen : list T) (nearest : option (T * R)) : Prop :=
  match nearest with
  | None => forall item, item ∈ seen -> isConsumed item = true
  | Some (best, dist) =>
      dist = distanceTo c (position best)
      /\ best ∈ seen
      /\ isConsumed best = false
      /\ forall item, item ∈ seen -> isConsumed item = false ->
                      dist <= distanceTo c (position item)
  end.

End NearestVocabulary.

(** * Properties of the program *)

Section Comparisons.

Local Open Scope R_scope.

Lemma Rltb_true (a b : R) : (a <? b) = true <-> a < b.
Proof. unfold Rltb. destruct (Rlt_dec a b); split; intros; try lra; congruence. Qed.

Lemma Rltb_false (a b : R) : (a <? b) = false <-> b <= a.
Proof. unfold Rltb. destruct (Rlt_dec a b); split; intros; try lra; congruence. Qed.

Lemma Rleb_true (a b : R) : (a <=? b) = true <-> a <= b.
Proof. unfold Rleb. destruct (Rle_dec a b); split; intros; try lra; congruence. Qed.

Lemma Rleb_false (a b : R) : (a <=? b) = false <-> b < a.
Proof. unfold Rleb. destruct (Rle_dec a b); split; intros; try lra; congruence. Qed.

End Comparisons.

Ltac Rcases :=
  unfold Rltb, Rleb in *;
  repeat match goal with
         | |- context [Rlt_dec ?a ?b] => destruct (Rlt_dec a b)
         | |- context [Rle_dec ?a ?b] => destruct (Rle_dec a b)
         | H : context [Rlt_dec ?a ?b] |- _ => destruct (Rlt_dec a b)
         | H : context [Rle_dec ?a ?b] |- _ => destruct (Rle_dec a b)
         end.

(** Case analysis on every condition of the goal *)
Ltac case_ifs :=
  repeat match goal with
         | |- context [if ?b then _ else _] => destruct b
         end.

Ltac Rdecide :=
  repeat match goal with
         | |- context [Rltb ?a ?b] =>
             first [ rewrite (proj2 (Rltb_true a b)) by lra
                   | rewrite (proj2 (Rltb_false a b)) by lra ]
         | |- context [Rleb ?a ?b] =>
             first [ rewrite (proj2 (Rleb_true a b)) by lra
                   | rewrite (proj2 (Rleb_false a b)) by lra ]
         end.

(** ** Traits, energy, engine setters and temperature *)

Section BoundsFacts.

Local Open Scope R_scope.

Import config genetics.

Lemma clamp01_range (v : R) : 0 <= clamp01 v <= 1.
Proof.
  unfold clamp01, Rmax, Rmin.
  destruct (Rle_dec 1 v); destruct (Rle_dec 0 _); lra.
Qed.

Lemma mutateTrait_range (CONFIG : Config) (v : R) (rate : option R) (s : RandomSource) :
  0 <= fst (mutateTrait CONFIG v rate s) <= 1.
Proof.
  unfold mutateTrait, bind, ret. cbn.
  destruct (_ <? _); cbn; apply clamp01_range.
Qed.

Lemma mutateTraits_valid (CONFIG : Config) (t : Traits) (rate : option R) (s : RandomSource) :
  validTraits (fst (mutateTraits CONFIG t rate s)).
Proof.
  intros key. unfold mutateTraits, bind, ret.
  destruct key; cbn [fst snd getTrait speed size visionRange metabolism heatTolerance
                       coldTolerance aggression camouflage lifespan reproductionRate
                       socialBehavior dietPreference strength stamina];
    apply mutateTrait_range.
Qed.

Lemma mutateTraitsWithStress_valid (CONFIG : Config) (t : Traits) (stress : R)
    (rate : option R) (s : RandomSource) :
  validTraits (fst (mutateTraitsWithStress CONFIG t stress rate s)).
Proof.
  intros key. unfold mutateTraitsWithStress, bind, ret.
  destruct key; cbn [fst snd getTrait speed size visionRange metabolism heatTolerance
                       coldTolerance aggression camouflage lifespan reproductionRate
                       socialBehavior dietPreference strength stamina];
    apply mutateTrait_range.
Qed.

Lemma crossoverTraits_valid (CONFIG : Config) (p1 p2 : Traits) (rate : option R)
    (s : RandomSource) :
  validTraits (fst (crossoverTraits CONFIG p1 p2 rate s)).
Proof.
  unfold crossoverTraits, bind. apply mutateTraits_valid.
Qed.

(** C7.  Trait closure: for trait vectors whose 14 fields lie in [0,1], every
    mutation rate (the default included), every stress value and every random
    source, each field of the vector returned by [mutateTraits],
    [mutateTraitsWithStress] and [crossoverTraits] lies in [0,1]. *)
Theorem trait_closure (CONFIG : Config) (T parent2 : Traits) (mutationRate : option R)
    (hungerStress : R) (s : RandomSource) :
  validTraits T -> validTraits parent2 ->
  validTraits (fst (mutateTraits CONFIG T mutationRate s))
  /\ validTraits (fst (mutateTraitsWithStress CONFIG T hungerStress mutationRate s))
  /\ validTraits (fst (crossoverTraits CONFIG T parent2 mutationRate s)).
Proof.
  intros _ _. repeat split;
    try apply mutateTraits_valid; try apply mutateTraitsWithStress_valid;
    try apply crossoverTraits_valid.
Qed.

Lemma sampleTraits_valid : validTraits sampleTraits.
Proof. intros []; cbn; lra. Qed.

(** The closure at the sample vector, with the default mutation rate *)
Lemma trait_closure_witness :
  validTraits (fst (mutateTraits DEFAULT_CONFIG sampleTraits None zeroSource))
  /\ validTraits (fst (mutateTraitsWithStress DEFAULT_CONFIG sampleTraits 1 None zeroSource))
  /\ validTraits (fst (crossoverTraits DEFAULT_CONFIG sampleTraits sampleTraits None zeroSource)).
Proof.
  apply (trait_closure DEFAULT_CONFIG sampleTraits sampleTraits None 1 zeroSource);
    apply sampleTraits_valid.
Defined.

Import creature.

Lemma eat_energy (CONFIG : Config) (x : R) (c : Creature) :
  energy (eat CONFIG x c) = Rmin (maxEnergy CONFIG c) (energy c + x).
Proof. reflexivity. Qed.

Lemma eat_maxEnergy (CONFIG : Config) (x : R) (c : Creature) :
  maxEnergy CONFIG (eat CONFIG x c) = maxEnergy CONFIG c.
Proof. reflexivity. Qed.

Lemma die_result (c : Creature) (reg : species.SpeciesRegistry) :
  isAlive (fst (die c reg)) = false /\ energy (fst (die c reg)) = 0.
Proof. unfold die, bind, ret. cbn. auto. Qed.

Lemma takeDamage_lethal (x : R) (c : Creature) (reg : species.SpeciesRegistry) :
  energy c <= x ->
  takeDamage x c reg = die (set_energy (energy c - x) c) reg.
Proof.
  intros H. unfold takeDamage. cbn [energy set_energy].
  destruct (Rleb_true (energy c - x) 0) as [_ E]. rewrite E by lra. reflexivity.
Qed.

(** C6.  Energy bound: for every creature and every amount [x >= 0],
    [eat(x)] leaves [energy <= maxEnergy]; a creature with energy 100 and
    maxEnergy 150 that is fed [eat(70)] ends at exactly 150; and
    [takeDamage(x)] with [x >= energy] leaves the creature with
    [isAlive = false] and [energy = 0]. *)
Theorem energy_bound (CONFIG : Config) (c : Creature) (x : R)
    (reg : species.SpeciesRegistry) :
  0 <= x ->
  energy (eat CONFIG x c) <= maxEnergy CONFIG (eat CONFIG x c)
  /\ (energy c = 100 -> maxEnergy CONFIG c = 150 -> energy (eat CONFIG 70 c) = 150)
  /\ (energy c <= x ->
      isAlive (fst (takeDamage x c reg)) = false
      /\ energy (fst (takeDamage x c reg)) = 0).
Proof.
  intros _. repeat split.
  - rewrite eat_maxEnergy, eat_energy. apply Rmin_l.
  - intros He Hm. rewrite eat_energy, He, Hm.
    unfold Rmin. destruct (Rle_dec _ _); lra.
  - rewrite takeDamage_lethal by assumption. apply die_result.
  - rewrite takeDamage_lethal by assumption. apply die_result.
Qed.

(** The bound at a newborn creature, whose energy is 100 and whose
    maxEnergy is 150 *)
Lemma energy_bound_witness :
  energy (eat DEFAULT_CONFIG 100 sampleCreature)
    <= maxEnergy DEFAULT_CONFIG (eat DEFAULT_CONFIG 100 sampleCreature)
  /\ energy (eat DEFAULT_CONFIG 70 sampleCreature) = 150
  /\ isAlive (fst (takeDamage 100 sampleCreature species.initialRegistry)) = false
  /\ energy (fst (takeDamage 100 sampleCreature species.initialRegistry)) = 0.
Proof.
  destruct (energy_bound DEFAULT_CONFIG sampleCreature 100 species.initialRegistry)
    as (H1 & H2 & H3); [lra|].
  split; [exact H1|]. split.
  - apply H2; [reflexivity | unfold maxEnergy; cbn; lra].
  - apply H3. cbn. lra.
Defined.

Import world engine.

Lemma clamp_clampedTo (lo hi v : R) :
  lo <= hi -> clampedTo lo hi v (Rmax lo (Rmin hi v)).
Proof.
  intros H. unfold clampedTo, Rmax, Rmin.
  destruct (Rle_dec hi v); destruct (Rle_dec lo _); repeat split; intros; lra.
Qed.

(** C9.  The engine setters clamp: for every input [v], [setSpeed] stores a
    value of [0.1, 10], [setTemperature] one of
    [TEMPERATURE_MIN, TEMPERATURE_MAX], [setFoodAbundance] one of [0, 3] and
    [setMutationRate] one of [0, 0.3]; an input in the range is stored
    unchanged, one below it is replaced by the lower bound and one above it
    by the upper bound.  The setters are total functions: none raises. *)
Theorem setters_clamp (CONFIG : Config) (e : SimulationEngine) (v : R) :
  TEMPERATURE_MIN CONFIG <= TEMPERATURE_MAX CONFIG ->
  clampedTo 0.1 10 v (engine.speed (setSpeed v e))
  /\ clampedTo (TEMPERATURE_MIN CONFIG) (TEMPERATURE_MAX CONFIG) v
       (globalTemperature (engine.world (setTemperature CONFIG v e)))
  /\ clampedTo 0 3 v (foodAbundance (engine.world (setFoodAbundance v e)))
  /\ clampedTo 0 0.3 v (mutationRate (engine.world (setMutationRate v e))).
Proof.
  intros H. cbn. repeat split; try (apply clamp_clampedTo; lra).
Qed.

(** The setters of a new engine at the input 70 *)
Lemma setters_clamp_witness :
  clampedTo 0.1 10 70 (engine.speed (setSpeed 70 (new_SimulationEngine DEFAULT_CONFIG)))
  /\ clampedTo (-20) 50 70
       (globalTemperature (engine.world (setTemperature DEFAULT_CONFIG 70 (new_SimulationEngine DEFAULT_CONFIG))))
  /\ clampedTo 0 3 70 (foodAbundance (engine.world (setFoodAbundance 70 (new_SimulationEngine DEFAULT_CONFIG))))
  /\ clampedTo 0 0.3 70 (mutationRate (engine.world (setMutationRate 70 (new_SimulationEngine DEFAULT_CONFIG)))).
Proof.
  apply (setters_clamp DEFAULT_CONFIG (new_SimulationEngine DEFAULT_CONFIG) 70).
  cbn. lra.
Defined.

Import math.

Lemma distance_self (x y : R) : distance x y x y = 0.
Proof.
  unfold distance. cbn.
  replace ((x - x) * (x - x) + (y - y) * (y - y)) with 0 by ring.
  apply sqrt_0.
Qed.

(** C8.  With global temperature 20 and a single zone of +30,
    [getTemperatureAt] is 50 at the centre of the zone and 20 at every point
    whose distance to the centre is the radius; at distance [dist] below the
    radius it is [20 + 30 * (1 - dist / radius)], and 20 from the radius on. *)
Theorem getTemperatureAt_single_zone (w : World) (zone : TemperatureZone) :
  globalTemperature w = 20 ->
  temperatureZones w = [zone] ->
  temperature zone = 30 ->
  0 < radius zone ->
  getTemperatureAt w (zone_x zone) (zone_y zone) = 50
  /\ (forall px py,
        distance px py (zone_x zone) (zone_y zone) = radius zone ->
        getTemperatureAt w px py = 20)
  /\ (forall px py,
        let dist := distance px py (zone_x zone) (zone_y zone) in
        (dist < radius zone ->
         getTemperatureAt w px py = 20 + 30 * (1 - dist / radius zone))
        /\ (radius zone <= dist -> getTemperatureAt w px py = 20)).
Proof.
  intros Hg Hz Ht Hr. unfold getTemperatureAt. rewrite Hz, Hg. cbn. rewrite Ht.
  repeat split.
  - rewrite distance_self.
    destruct (Rltb_true 0 (radius zone)) as [_ E]. rewrite E by lra.
    field. lra.
  - intros px py Hd. rewrite Hd.
    destruct (Rltb_false (radius zone) (radius zone)) as [_ E]. rewrite E by lra.
    reflexivity.
  - intros Hd. destruct (Rltb_true (distance px py (zone_x zone) (zone_y zone)) (radius zone)) as [_ E].
    rewrite E by lra. reflexivity.
  - intros Hd. destruct (Rltb_false (distance px py (zone_x zone) (zone_y zone)) (radius zone)) as [_ E].
    rewrite E by lra. reflexivity.
Qed.

Lemma distance_horizontal (x1 x2 y : R) : x1 <= x2 -> distance x1 y x2 y = x2 - x1.
Proof.
  intros H. unfold distance. cbn.
  replace ((x2 - x1) * (x2 - x1) + (y - y) * (y - y)) with (Rsqr (x2 - x1))
    by (unfold Rsqr; ring).
  apply sqrt_Rsqr. lra.
Qed.

(** The heated world at the centre of its zone, on its border and half way *)
Lemma getTemperatureAt_single_zone_witness :
  getTemperatureAt heatedWorld 100 100 = 50
  /\ getTemperatureAt heatedWorld 50 100 = 20
  /\ getTemperatureAt heatedWorld 75 100 = 35.
Proof.
  destruct (getTemperatureAt_single_zone heatedWorld heatZone) as (H1 & H2 & H3);
    [reflexivity | reflexivity | reflexivity | cbn; lra |].
  split; [exact H1|]. split.
  - apply H2. cbn [zone_x zone_y radius heatZone]. rewrite distance_horizontal; lra.
  - destruct (H3 75 100) as [H _]. cbn [zone_x zone_y radius heatZone] in H.
    rewrite distance_horizontal in H by lra. rewrite H; lra.
Defined.

End BoundsFacts.

(** ** The speed of a creature as a function of its diet *)

Section SpeedFacts.

Local Open Scope R_scope.

Import config genetics.

Lemma lipschitz_continuity (K : R) (f : R -> R) :
  0 <= K -> lipschitz K f -> continuity f.
Proof.
  intros HK HL x.
  unfold continuity_pt, continue_in, limit1_in, limit_in, D_x, no_cond.
  intros eps Heps. exists (eps / (K + 1)). split.
  - apply Rdiv_lt_0_compat; lra.
  - intros y [_ Hy]. cbn in *. unfold Rdist in *.
    apply Rle_lt_trans with (K * Rabs (y - x)); [apply HL|].
    assert (Hpos : 0 < K + 1) by lra.
    assert (E : eps = (eps / (K + 1)) * (K + 1)) by (field; lra).
    pose proof (Rabs_pos (y - x)).
    rewrite E. 
    apply Rle_lt_trans with ((K + 1) * Rabs (y - x)); [nra|].
    rewrite (Rmult_comm (eps / (K + 1))). apply Rmult_lt_compat_l; lra.
Qed.

Import diet_scaling.

Lemma interpolateDietValue_le (d h o c : R) :
  d <= 0.5 -> interpolateDietValue d h o c = h + (o - h) * (d / 0.5).
Proof.
  intros H. unfold interpolateDietValue.
  destruct (Rleb_true d 0.5) as [_ E]. rewrite E by assumption. reflexivity.
Qed.

Lemma interpolateDietValue_gt (d h o c : R) :
  0.5 < d -> interpolateDietValue d h o c = o + (c - o) * ((d - 0.5) / 0.5).
Proof.
  intros H. unfold interpolateDietValue.
  destruct (Rleb_false d 0.5) as [_ E]. rewrite E by assumption. reflexivity.
Qed.

Lemma interpolateDietValue_lipschitz (h o c : R) :
  lipschitz (2 * Rabs (o - h) + 2 * Rabs (c - o))
            (fun d => interpolateDietValue d h o c).
Proof.
  intros x y.
  destruct (Rle_lt_dec x 0.5) as [Hx|Hx]; destruct (Rle_lt_dec y 0.5) as [Hy|Hy];
    rewrite ?(interpolateDietValue_le x) by assumption;
    rewrite ?(interpolateDietValue_gt x) by assumption;
    rewrite ?(interpolateDietValue_le y) by assumption;
    rewrite ?(interpolateDietValue_gt y) by assumption;
    unfold Rabs; repeat destruct (Rcase_abs _); nra.
Qed.

Lemma Rabs_minus_scaled (a b s : R) :
  Rabs (a - s * b) <= Rabs a + Rabs s * Rabs b.
Proof.
  rewrite <- Rabs_mult. unfold Rminus.
  eapply Rle_trans; [apply Rabs_triang|]. rewrite Rabs_Ropp. lra.
Qed.

Lemma continuous_getCreatureSpeed_lipschitz (CONFIG : Config) (t : Traits) :
  lipschitz
    (Rabs (CREATURE_BASE_SPEED CONFIG * (0.5 + speed t))
     * ((2 * Rabs (1.1 - 1.3) + 2 * Rabs (1.0 - 1.1))
        + Rabs (size t)
          * (2 * Rabs (OMNIVORE_SPEED_SIZE_PENALTY CONFIG - HERBIVORE_SPEED_SIZE_PENALTY CONFIG)
             + 2 * Rabs (CARNIVORE_SPEED_SIZE_PENALTY CONFIG - OMNIVORE_SPEED_SIZE_PENALTY CONFIG))))
    (fun d => diet_scaling.getCreatureSpeed CONFIG (withDiet t d)).
Proof.
  intros x y. unfold diet_scaling.getCreatureSpeed, getSpeedSizePenalty, withDiet.
  cbn [setTrait speed size dietPreference].
  pose proof (interpolateDietValue_lipschitz 1.3 1.1 1.0 x y) as H1.
  pose proof (interpolateDietValue_lipschitz
                (HERBIVORE_SPEED_SIZE_PENALTY CONFIG)
                (OMNIVORE_SPEED_SIZE_PENALTY CONFIG)
                (CARNIVORE_SPEED_SIZE_PENALTY CONFIG) x y) as H2.
  cbv beta in H1, H2.
  set (b := CREATURE_BASE_SPEED CONFIG * (0.5 + speed t)) in *.
  set (mx := interpolateDietValue x 1.3 1.1 1.0) in *.
  set (my := interpolateDietValue y 1.3 1.1 1.0) in *.
  set (px := interpolateDietValue x (HERBIVORE_SPEED_SIZE_PENALTY CONFIG) _ _) in *.
  set (py := interpolateDietValue y (HERBIVORE_SPEED_SIZE_PENALTY CONFIG) _ _) in *.
  set (K1 := 2 * Rabs (1.1 - 1.3) + 2 * Rabs (1.0 - 1.1)) in *.
  set (K2 := 2 * Rabs _ + 2 * Rabs _) in H2 |- *.
  replace (b * (mx - size t * px) - b * (my - size t * py))
    with (b * ((mx - my) - size t * (px - py))) by ring.
  rewrite Rabs_mult, Rmult_assoc.
  apply Rmult_le_compat_l; [apply Rabs_pos|].
  eapply Rle_trans; [apply Rabs_minus_scaled|].
  rewrite Rmult_plus_distr_r, (Rmult_assoc (Rabs (size t))).
  apply Rplus_le_compat; [exact H1|].
  apply Rmult_le_compat_l; [apply Rabs_pos | exact H2].
Qed.

(** The sibling [getCreatureSpeed], which interpolates with
    [interpolateDietValue], is continuous in [dietPreference] for every
    configuration and all other traits. *)
Theorem continuous_getCreatureSpeed_continuity (CONFIG : Config) (t : Traits) :
  continuity (fun d => diet_scaling.getCreatureSpeed CONFIG (withDiet t d)).
Proof.
  eapply lipschitz_continuity; [|apply continuous_getCreatureSpeed_lipschitz].
  pose proof (Rabs_pos (CREATURE_BASE_SPEED CONFIG * (0.5 + speed t))).
  pose proof (Rabs_pos (size t)).
  pose proof (Rabs_pos (1.1 - 1.3)). pose proof (Rabs_pos (1.0 - 1.1)).
  pose proof (Rabs_pos (OMNIVORE_SPEED_SIZE_PENALTY CONFIG - HERBIVORE_SPEED_SIZE_PENALTY CONFIG)).
  pose proof (Rabs_pos (CARNIVORE_SPEED_SIZE_PENALTY CONFIG - OMNIVORE_SPEED_SIZE_PENALTY CONFIG)).
  apply Rmult_le_pos; [assumption|].
  apply Rplus_le_le_0_compat; [lra|].
  apply Rmult_le_pos; [assumption | lra].
Qed.

Lemma getCreatureSpeed_herbivore (t : Traits) (d : R) :
  d < 0.35 ->
  genetics.getCreatureSpeed DEFAULT_CONFIG (withDiet t d)
  = 100 * (0.5 + speed t) * (1.3 - size t * 0.8).
Proof.
  intros H. unfold genetics.getCreatureSpeed, withDiet.
  cbn [setTrait speed size dietPreference DEFAULT_CONFIG CREATURE_BASE_SPEED
         CARNIVORE_SPEED_SIZE_PENALTY HERBIVORE_SPEED_SIZE_PENALTY OMNIVORE_SPEED_SIZE_PENALTY].
  destruct (Rltb_false 0.65 d) as [_ E1]. rewrite E1 by lra.
  destruct (Rltb_true d 0.35) as [_ E2]. rewrite E2 by lra. reflexivity.
Qed.

Lemma getCreatureSpeed_omnivore (t : Traits) (d : R) :
  0.35 <= d <= 0.65 ->
  genetics.getCreatureSpeed DEFAULT_CONFIG (withDiet t d)
  = 100 * (0.5 + speed t) * (1.1 - size t * 0.3).
Proof.
  intros H. unfold genetics.getCreatureSpeed, withDiet.
  cbn [setTrait speed size dietPreference DEFAULT_CONFIG CREATURE_BASE_SPEED
         CARNIVORE_SPEED_SIZE_PENALTY HERBIVORE_SPEED_SIZE_PENALTY OMNIVORE_SPEED_SIZE_PENALTY].
  destruct (Rltb_false 0.65 d) as [_ E1]. rewrite E1 by lra.
  destruct (Rltb_false d 0.35) as [_ E2]. rewrite E2 by lra. reflexivity.
Qed.

(** C2.  [getCreatureSpeed] of genetics.ts at the diet boundary 0.35, with
    the configured constants and speed and size traits of 0.5: the speed is
    90 for every [dietPreference] below 0.35 and 95 at 0.35, so the function
    is not continuous there. *)
Theorem getCreatureSpeed_jump :
  (forall d, d < 0.35 ->
     genetics.getCreatureSpeed DEFAULT_CONFIG (withDiet sampleTraits d) = 90)
  /\ genetics.getCreatureSpeed DEFAULT_CONFIG (withDiet sampleTraits 0.35) = 95
  /\ ~ continuity_pt
         (fun d => genetics.getCreatureSpeed DEFAULT_CONFIG (withDiet sampleTraits d))
         0.35.
Proof.
  assert (Hl : forall d, d < 0.35 ->
     genetics.getCreatureSpeed DEFAULT_CONFIG (withDiet sampleTraits d) = 90).
  { intros d Hd. rewrite getCreatureSpeed_herbivore by assumption. cbn. lra. }
  assert (Hr : genetics.getCreatureSpeed DEFAULT_CONFIG (withDiet sampleTraits 0.35) = 95).
  { rewrite getCreatureSpeed_omnivore by lra. cbn. lra. }
  split; [exact Hl|]. split; [exact Hr|].
  intros Hc.
  unfold continuity_pt, continue_in, limit1_in, limit_in, D_x, no_cond in Hc.
  destruct (Hc 1) as (alp & Halp & H); [lra|].
  cbn in H. unfold Rdist in H.
  specialize (H (0.35 - alp / 2)).
  rewrite Hr, Hl in H by lra.
  assert (Hd : Rabs (0.35 - alp / 2 - 0.35) < alp).
  { unfold Rabs. destruct (Rcase_abs _); lra. }
  assert (Hne : 0.35 <> 0.35 - alp / 2) by lra.
  specialize (H (conj (conj I Hne) Hd)).
  unfold Rabs in H. destruct (Rcase_abs _) in H; lra.
Qed.

End SpeedFacts.

(** ** The spatial hash *)

Section SpatialFacts.

Local Open Scope R_scope.

Import config math world.

Section SpatialHashFacts.

Context {T : Type} (position : T -> Vector2).

Lemma insert_cellSize (e : T) (h : SpatialHash T) :
  cellSize (insert position e h) = cellSize h.
Proof. unfold insert. destruct (grid h !! _); reflexivity. Qed.

Lemma insert_own_cell (e : T) (h : SpatialHash T) :
  exists cell,
    grid (insert position e h) !! getKey h (x (position e)) (y (position e)) = Some cell
    /\ In e cell.
Proof.
  unfold insert. destruct (grid h !! _) as [cell|] eqn:E; cbn.
  - exists (cell ++ [e]). rewrite lookup_insert_eq. split; [reflexivity|].
    apply in_or_app. right. left. reflexivity.
  - exists [e]. rewrite lookup_insert_eq. split; [reflexivity|]. left. reflexivity.
Qed.

Lemma insert_keeps (e e' : T) (h : SpatialHash T) (key : Z * Z) (cell : list T) :
  grid h !! key = Some cell -> In e cell ->
  exists cell', grid (insert position e' h) !! key = Some cell' /\ In e cell'.
Proof.
  intros Hk Hin. unfold insert.
  set (key' := getKey h _ _).
  destruct (decide (key' = key)) as [->|Hne].
  - rewrite Hk. cbn. exists (cell ++ [e']). rewrite lookup_insert_eq.
    split; [reflexivity|]. apply in_or_app. left. assumption.
  - destruct (grid h !! key'); cbn; exists cell;
      rewrite lookup_insert_ne by assumption; auto.
Qed.

Lemma fold_insert_cellSize (entities : list T) (h : SpatialHash T) :
  cellSize (fold_left (fun h e => insert position e h) entities h) = cellSize h.
Proof.
  revert h. induction entities as [|e' l IH]; intros h; cbn; [reflexivity|].
  rewrite IH. apply insert_cellSize.
Qed.

Lemma fold_insert_keeps (entities : list T) (h : SpatialHash T) (e : T)
    (key : Z * Z) (cell : list T) :
  grid h !! key = Some cell -> In e cell ->
  exists cell',
    grid (fold_left (fun h e => insert position e h) entities h) !! key = Some cell'
    /\ In e cell'.
Proof.
  revert h cell. induction entities as [|e' l IH]; intros h cell Hk Hin; cbn.
  - eauto.
  - destruct (insert_keeps e e' h key cell Hk Hin) as (cell' & Hk' & Hin').
    eapply IH; eassumption.
Qed.

Lemma fold_insert_member (entities : list T) (h : SpatialHash T) (e : T) :
  In e entities ->
  exists cell,
    grid (fold_left (fun h e => insert position e h) entities h)
      !! getKey h (x (position e)) (y (position e)) = Some cell
    /\ In e cell.
Proof.
  revert h. induction entities as [|e' l IH]; intros h Hin; [destruct Hin|].
  cbn. destruct Hin as [->|Hin].
  - destruct (insert_own_cell e h) as (cell & Hk & Hc).
    eapply fold_insert_keeps; eassumption.
  - destruct (IH (insert position e' h) Hin) as (cell & Hk & Hc).
    exists cell. split; [|assumption].
    unfold getKey in *. rewrite insert_cellSize in Hk. exact Hk.
Qed.

Lemma insertAll_member (cs : R) (entities : list T) (e : T) :
  In e entities ->
  exists cell,
    grid (insertAll position cs entities)
      !! (Zfloor (x (position e) / cs), Zfloor (y (position e) / cs)) = Some cell
    /\ In e cell.
Proof.
  intros Hin. unfold insertAll.
  apply (fold_insert_member entities (new_SpatialHash cs) e Hin).
Qed.

Lemma insertAll_cellSize (cs : R) (entities : list T) :
  cellSize (insertAll position cs entities) = cs.
Proof. unfold insertAll. rewrite fold_insert_cellSize. reflexivity. Qed.

End SpatialHashFacts.

Lemma In_seqZ (k m n : Z) : In k (seqZ m n) <-> (m <= k < m + n)%Z.
Proof. rewrite <- list_elem_of_In. apply elem_of_seqZ. Qed.

Lemma getNearby_visits {T : Type} (h : SpatialHash T) (x y radius : R)
    (col row : Z) (cell : list T) (e : T) :
  grid h !! (col, row) = Some cell -> In e cell ->
  (0 <= col)%Z -> (0 <= row)%Z ->
  (Z.abs (col - Zfloor (x / cellSize h)) <= Zceil (radius / cellSize h) + 1)%Z ->
  (Z.abs (row - Zfloor (y / cellSize h)) <= Zceil (radius / cellSize h) + 1)%Z ->
  In e (getNearby h x y radius).
Proof.
  intros Hk Hin Hc Hr Hdc Hdr. unfold getNearby.
  apply in_flat_map. exists (col - Zfloor (x / cellSize h))%Z. split.
  { apply In_seqZ. lia. }
  apply in_flat_map. exists (row - Zfloor (y / cellSize h))%Z. split.
  { apply In_seqZ. lia. }
  unfold nearbyCell.
  replace (Zfloor (x / cellSize h) + (col - Zfloor (x / cellSize h)))%Z with col by lia.
  replace (Zfloor (y / cellSize h) + (row - Zfloor (y / cellSize h)))%Z with row by lia.
  destruct (Z.ltb_spec col 0); [lia|]. destruct (Z.ltb_spec row 0); [lia|].
  cbn. rewrite Hk. assumption.
Qed.

Lemma getNearby_only_nonnegative {T : Type} (h : SpatialHash T) (x y radius : R) (e : T) :
  In e (getNearby h x y radius) ->
  exists col row cell,
    (0 <= col)%Z /\ (0 <= row)%Z /\ grid h !! (col, row) = Some cell /\ In e cell.
Proof.
  unfold getNearby. intros H.
  apply in_flat_map in H. destruct H as (dc & _ & H).
  apply in_flat_map in H. destruct H as (dr & _ & H).
  unfold nearbyCell in H.
  destruct (Z.ltb_spec (Zfloor (x / cellSize h) + dc) 0); [destruct H|].
  destruct (Z.ltb_spec (Zfloor (y / cellSize h) + dr) 0); [destruct H|].
  cbn in H. destruct (grid h !! _) as [cell|] eqn:E; [|destruct H].
  eauto 10.
Qed.

Lemma floor_difference (a b d : R) :
  Rabs (a - b) <= d ->
  (Z.abs (Zfloor a - Zfloor b) <= Zceil d + 1)%Z.
Proof.
  intros H.
  pose proof (Zfloor_bound a) as [Ha1 Ha2].
  pose proof (Zfloor_bound b) as [Hb1 Hb2].
  pose proof (Zceil_bound d) as [Hd1 Hd2].
  assert (Hab : a - b <= d /\ b - a <= d).
  { unfold Rabs in H. destruct (Rcase_abs _); lra. }
  destruct Hab as [H1 H2].
  assert (L1 : (Zfloor a - Zfloor b < Zceil d + 1)%Z).
  { apply lt_IZR. rewrite minus_IZR, plus_IZR. lra. }
  assert (L2 : (Zfloor b - Zfloor a < Zceil d + 1)%Z).
  { apply lt_IZR. rewrite minus_IZR, plus_IZR. lra. }
  lia.
Qed.

Lemma distance_bounds (x1 y1 x2 y2 r : R) :
  distance x1 y1 x2 y2 <= r -> Rabs (x1 - x2) <= r /\ Rabs (y1 - y2) <= r.
Proof.
  unfold distance. cbv zeta. intros H.
  set (dx := x2 - x1) in *. set (dy := y2 - y1) in *.
  assert (Hx : Rabs dx <= sqrt (dx * dx + dy * dy)).
  { rewrite <- sqrt_Rsqr_abs. apply sqrt_le_1_alt. unfold Rsqr. nra. }
  assert (Hy : Rabs dy <= sqrt (dx * dx + dy * dy)).
  { rewrite <- sqrt_Rsqr_abs. apply sqrt_le_1_alt. unfold Rsqr. nra. }
  rewrite (Rabs_minus_sym x1), (Rabs_minus_sym y1). fold dx dy. lra.
Qed.

(** C4, amended.  For a hash of positive cell size, every list of inserted
    entities, every query point and every radius [r >= 0], [getNearby]
    returns each inserted entity whose coordinates are not negative and whose
    distance to the query point is at most [r]. *)
Theorem getNearby_sound {T : Type} (position : T -> Vector2) (cellSize : R)
    (entities : list T) (e : T) (qx qy r : R) :
  0 < cellSize -> 0 <= r ->
  In e entities ->
  0 <= x (position e) -> 0 <= y (position e) ->
  distance (x (position e)) (y (position e)) qx qy <= r ->
  In e (getNearby (insertAll position cellSize entities) qx qy r).
Proof.
  intros Hcs Hr Hin Hx Hy Hd.
  destruct (insertAll_member position cellSize entities e Hin) as (cell & Hk & Hc).
  destruct (distance_bounds _ _ _ _ _ Hd) as [Dx Dy].
  assert (Hdiv : forall a b, Rabs (a - b) <= r ->
                             Rabs (a / cellSize - b / cellSize) <= r / cellSize).
  { intros a b H. replace (a / cellSize - b / cellSize) with ((a - b) * / cellSize) by (field; lra).
    rewrite Rabs_mult, (Rabs_pos_eq (/ cellSize)).
    - apply Rmult_le_compat_r; [|exact H]. apply Rlt_le, Rinv_0_lt_compat, Hcs.
    - apply Rlt_le, Rinv_0_lt_compat, Hcs. }
  eapply getNearby_visits; try eassumption.
  - apply Zfloor_lub. cbn. apply Rmult_le_pos; [assumption|]. apply Rlt_le, Rinv_0_lt_compat, Hcs.
  - apply Zfloor_lub. cbn. apply Rmult_le_pos; [assumption|]. apply Rlt_le, Rinv_0_lt_compat, Hcs.
  - rewrite insertAll_cellSize. apply floor_difference, Hdiv, Dx.
  - rewrite insertAll_cellSize. apply floor_difference, Hdiv, Dy.
Qed.

Lemma Zfloor_m10_50 : Zfloor (-10 / 50) = (-1)%Z.
Proof. apply Zfloor_eq. cbn. lra. Qed.

Lemma Zfloor_10_50 : Zfloor (10 / 50) = 0%Z.
Proof. apply Zfloor_eq. cbn. lra. Qed.

(** C4 as stated fails: an entity at (-10, 10) lies 15 from the query point
    (5, 10), within the radius 20, and [getNearby] does not return it, since
    its cell has column -1 and cells of negative index are skipped. *)
Lemma getNearby_skips_negative_cells :
  let e := {| x := -10; y := 10 |} in
  let h := insertAll (fun v : Vector2 => v) 50 [e] in
  0 <= 20
  /\ In e [e]
  /\ distance (x e) (y e) 5 10 <= 20
  /\ ~ In e (getNearby h 5 10 20).
Proof.
  cbv zeta. split; [lra|]. split; [left; reflexivity|]. split.
  - cbn [x y]. rewrite distance_horizontal by lra. lra.
  - intros H. apply getNearby_only_nonnegative in H.
    destruct H as (col & row & cell & Hc & Hr & Hk & _).
    unfold insertAll, insert, getKey in Hk. cbn in Hk.
    rewrite lookup_empty in Hk. cbn in Hk.
    rewrite Zfloor_m10_50, Zfloor_10_50 in Hk.
    apply lookup_insert_Some in Hk. destruct Hk as [[Hk _]|[_ Hk]].
    + inversion Hk. lia.
    + rewrite lookup_empty in Hk. discriminate.
Qed.

(** An entity at (10, 10) is found from (5, 10) with radius 20. *)
Lemma getNearby_sound_witness :
  let e := {| x := 10; y := 10 |} in
  In e (getNearby (insertAll (fun v : Vector2 => v) 50 [e]) 5 10 20).
Proof.
  cbv zeta.
  apply (getNearby_sound (fun v : Vector2 => v) 50 [ {| x := 10; y := 10 |} ]
           {| x := 10; y := 10 |} 5 10 20).
  - lra.
  - lra.
  - left. reflexivity.
  - cbn. lra.
  - cbn. lra.
  - cbn [x y]. unfold distance. cbv zeta.
    replace ((5 - 10) * (5 - 10) + (10 - 10) * (10 - 10)) with (5 * 5) by ring.
    rewrite sqrt_square; lra.
Defined.

End SpatialFacts.

(** ** Life, death and corpses *)

Section LifeFacts.

Local Open Scope R_scope.

Import config math genetics creature world.

Lemma hoare_bind {S A B : Type} (P : S -> Prop) (m : State S A) (Q : A -> S -> Prop)
    (k : A -> State S B) (R : B -> S -> Prop) :
  hoare P m Q -> (forall a, hoare (Q a) (k a) R) -> hoare P (bind m k) R.
Proof. intros Hm Hk s Hs. unfold bind. apply Hk, Hm, Hs. Qed.

Lemma hoare_ret {S A : Type} (P : S -> Prop) (a : A) (Q : A -> S -> Prop) :
  (forall s, P s -> Q a s) -> hoare P (ret a) Q.
Proof. intros H s Hs. apply H, Hs. Qed.

Lemma hoare_get {S : Type} (P : S -> Prop) :
  hoare P get (fun a s => a = s /\ P s).
Proof. intros s Hs. cbn. auto. Qed.

Lemma hoare_modify {S : Type} (P : S -> Prop) (f : S -> S) (Q : unit -> S -> Prop) :
  (forall s, P s -> Q tt (f s)) -> hoare P (modify f) Q.
Proof. intros H s Hs. apply H, Hs. Qed.

Lemma hoare_weaken {S A : Type} (P P' : S -> Prop) (m : State S A) (Q Q' : A -> S -> Prop) :
  hoare P' m Q' -> (forall s, P s -> P' s) -> (forall a s, Q' a s -> Q a s) -> hoare P m Q.
Proof. intros H HP HQ s Hs. apply HQ, H, HP, Hs. Qed.

Lemma extends_refl (g : Globals) : storeWellFormed g -> extends g g.
Proof.
  intros Hwf. split; auto.
  - intros ref c H. exists c. auto.
  - intros ref c' H1 H2. congruence.
Qed.

Lemma extends_trans (g1 g2 g3 : Globals) :
  storeWellFormed g1 -> extends g1 g2 -> extends g2 g3 -> extends g1 g3.
Proof.
  intros Hwf [R1 C1 O1 N1 W1] [R2 C2 O2 N2 W2]. split.
  - congruence.
  - lia.
  - intros ref c H. destruct (O1 ref c H) as (c' & H' & I1 & A1 & S1 & D1).
    destruct (O2 ref c' H') as (c'' & H'' & I2 & A2 & S2 & D2).
    exists c''. repeat split; try congruence.
    intros Hd. rewrite D2 by congruence. auto.
  - intros ref c'' H3 H1.
    destruct (objects g2 !! ref) as [c'|] eqn:E2.
    + destruct (N1 ref c' E2 H1) as (L & A & Sp).
      destruct (O2 ref c' E2) as (c3 & H3' & I2 & A2 & S2 & D2).
      rewrite H3 in H3'. inversion H3'; subst c3. repeat split; congruence.
    + destruct (N2 ref c'' H3 E2) as (L & A & Sp). repeat split; auto. lia.
  - assumption.
Qed.

Lemma assign_objects (this : nat) (f : Creature -> Creature) (g : Globals) (c : Creature) :
  objects g !! this = Some c ->
  snd (assign this f g) = set_objects (<[this := f c]> (objects g)) g.
Proof. intros H. unfold assign. rewrite H. reflexivity. Qed.

Lemma assign_missing (this : nat) (f : Creature -> Creature) (g : Globals) :
  objects g !! this = None -> snd (assign this f g) = g.
Proof. intros H. unfold assign. rewrite H. reflexivity. Qed.

Lemma assign_extends (this : nat) (f : Creature -> Creature) (g : Globals) :
  storeWellFormed g -> benign f ->
  (forall c, objects g !! this = Some c -> isAlive c = false -> f c = c) ->
  extends g (snd (assign this f g)).
Proof.
  intros Hwf Hf Hdead.
  destruct (objects g !! this) as [c|] eqn:E.
  2:{ rewrite assign_missing by assumption. apply extends_refl, Hwf. }
  rewrite (assign_objects this f g c E).
  destruct (Hf c) as (Fi & Fa & Fs).
  split; cbn.
  - reflexivity.
  - lia.
  - intros ref c0 H. destruct (decide (this = ref)) as [->|Hne].
    + rewrite lookup_insert_eq. rewrite E in H. inversion H; subst c0.
      exists (f c). repeat split; auto.
    + rewrite lookup_insert_ne by assumption. exists c0. auto.
  - intros ref c' H1 H2. destruct (decide (this = ref)) as [->|Hne].
    + congruence.
    + rewrite lookup_insert_ne in H1 by assumption. congruence.
  - unfold storeWellFormed. cbn. intros ref c' H. destruct (decide (this = ref)) as [->|Hne].
    + rewrite lookup_insert_eq in H. inversion H; subst c'.
      destruct (Hwf ref c E). split; [assumption | congruence].
    + rewrite lookup_insert_ne in H by assumption. apply (Hwf ref c' H).
Qed.

Lemma withRandom_extends {A : Type} (m : State RandomSource A) (g : Globals) :
  storeWellFormed g -> extends g (snd (withRandom m g)).
Proof.
  intros Hwf. unfold withRandom. cbn. split; cbn; auto.
  - intros ref c H. exists c. auto.
  - intros ref c' H1 H2. congruence.
Qed.

Lemma new_Creature_result (CONFIG : Config) (x y : R) (traits : option Traits)
    (generation : nat) (g : Globals) :
  exists c r,
    fst (new_Creature CONFIG x y traits generation g) = nextCreatureId g
    /\ snd (new_Creature CONFIG x y traits generation g)
       = set_objects (<[nextCreatureId g := c]> (objects g))
           (set_random r (set_nextCreatureId (S (nextCreatureId g)) g))
    /\ creature.id c = nextCreatureId g
    /\ isAlive c = true
    /\ speciesId c = None
    /\ creature.energy c = CREATURE_BASE_ENERGY CONFIG
    /\ creature.generation c = generation
    /\ (forall t, traits = Some t -> creature.traits c = t).
Proof.
  unfold new_Creature, bind, get, modify, ret. cbn.
  destruct traits as [t|]; cbn.
  - eexists _, _. repeat split. intros t0 Ht. inversion Ht. reflexivity.
  - eexists _, _. repeat split. intros t0 Ht. discriminate.
Qed.

Lemma new_Creature_extends (CONFIG : Config) (x y : R) (traits : option Traits)
    (generation : nat) (g : Globals) :
  storeWellFormed g ->
  extends g (snd (new_Creature CONFIG x y traits generation g)).
Proof.
  intros Hwf.
  destruct (new_Creature_result CONFIG x y traits generation g)
    as (c & r & _ & -> & Hid & Ha & Hs & _).
  assert (Hfresh : objects g !! nextCreatureId g = None).
  { destruct (objects g !! nextCreatureId g) eqn:E; [|reflexivity].
    destruct (Hwf _ _ E). lia. }
  split; cbn.
  - reflexivity.
  - lia.
  - intros ref c0 H. exists c0.
    rewrite lookup_insert_ne by congruence. auto.
  - intros ref c' H1 H2. destruct (decide (nextCreatureId g = ref)) as [<-|Hne].
    + rewrite lookup_insert_eq in H1. inversion H1; subst c'. auto.
    + rewrite lookup_insert_ne in H1 by assumption. congruence.
  - unfold storeWellFormed. cbn. intros ref c' H. destruct (decide (nextCreatureId g = ref)) as [<-|Hne].
    + rewrite lookup_insert_eq in H. inversion H; subst c'. split; [lia|assumption].
    + rewrite lookup_insert_ne in H by assumption. destruct (Hwf ref c' H). split; [lia|assumption].
Qed.

Lemma extends_alive (g g' : Globals) (ref : nat) :
  extends g g' -> alive g ref = true -> alive g' ref = true.
Proof.
  intros E H. unfold alive in *.
  destruct (objects g !! ref) as [c|] eqn:Hc; [|discriminate].
  destruct (ext_old _ _ E ref c Hc) as (c' & -> & _ & A & _). congruence.
Qed.

Lemma keeps_bind (g0 : Globals) {A B : Type} (m : State Globals A) (k : A -> State Globals B) :
  keeps g0 m -> (forall a, keeps g0 (k a)) -> keeps g0 (bind m k).
Proof. intros Hm Hk. eapply hoare_bind; [exact Hm|]. intros a. apply Hk. Qed.

Lemma keeps_ret (g0 : Globals) {A : Type} (a : A) : keeps g0 (ret a).
Proof. apply hoare_ret. auto. Qed.

Lemma keeps_withRandom (g0 : Globals) {A : Type} (m : State RandomSource A) :
  storeWellFormed g0 -> keeps g0 (withRandom m).
Proof.
  intros Hwf g E. eapply extends_trans; [assumption | exact E|].
  apply withRandom_extends, (ext_wf _ _ E).
Qed.

Lemma keeps_assign_alive (g0 : Globals) (this : nat) (f : Creature -> Creature) :
  storeWellFormed g0 -> alive g0 this = true -> benign f -> keeps g0 (assign this f).
Proof.
  intros Hwf Ha Hf g E. eapply extends_trans; [assumption | exact E|].
  apply assign_extends; [apply (ext_wf _ _ E) | assumption|].
  intros c Hc Hd. pose proof (extends_alive _ _ _ E Ha) as Ha'.
  unfold alive in Ha'. rewrite Hc in Ha'. congruence.
Qed.

Lemma keeps_new_Creature_then (g0 : Globals) (CONFIG : Config) (x y : R)
    (traits : option Traits) (generation : nat) (f : Creature -> Creature)
    {A : Type} (k : nat -> State Globals A) :
  storeWellFormed g0 -> benign f ->
  (forall child, keeps g0 (k child)) ->
  keeps g0 (child <- new_Creature CONFIG x y traits generation ;;
            assign child f ;;; k child).
Proof.
  intros Hwf Hf Hk g E. unfold bind at 1.
  pose proof (new_Creature_extends CONFIG x y traits generation g (ext_wf _ _ E)) as E1.
  destruct (new_Creature_result CONFIG x y traits generation g)
    as (c & r & Hfst & Hsnd & Hid & Ha & _).
  set (g1 := snd (new_Creature CONFIG x y traits generation g)) in *.
  set (child := fst (new_Creature CONFIG x y traits generation g)) in *.
  assert (Hc : objects g1 !! child = Some c).
  { rewrite Hsnd, Hfst. cbn. apply lookup_insert_eq. }
  unfold bind.
  apply Hk.
  eapply extends_trans; [assumption | exact E|].
  eapply extends_trans; [apply (ext_wf _ _ E) | exact E1|].
  apply assign_extends; [apply (ext_wf _ _ E1) | assumption|].
  intros c0 Hc0 Hd. congruence.
Qed.

Lemma benign_set_energy (e : Creature -> R) : benign (fun c => set_energy (e c) c).
Proof. intros c. auto. Qed.

Lemma benign_set_lastReproduction (t : R) : benign (set_lastReproduction t).
Proof. intros c. auto. Qed.

Lemma benign_set_hungerStress (h : Creature -> R) : benign (fun c => set_hungerStress (h c) c).
Proof. intros c. auto. Qed.

Lemma canReproduce_alive (CONFIG : Config) (t : R) (c : Creature) :
  canReproduce CONFIG t c = true -> isAlive c = true.
Proof. unfold canReproduce. destruct (isAlive c); [auto | discriminate]. Qed.

Lemma reproduceAsexual_keeps (CONFIG : Config) (g0 : Globals) (this : nat)
    (currentTime : R) (mutationRate : option R) :
  storeWellFormed g0 ->
  extends g0 (snd (reproduceAsexual CONFIG this currentTime mutationRate g0)).
Proof.
  intros Hwf. unfold reproduceAsexual. unfold bind at 1. cbn [get fst snd].
  destruct (objects g0 !! this) as [c|] eqn:Hc; [|apply extends_refl, Hwf].
  destruct (canReproduce CONFIG currentTime c) eqn:Hcan; cbn [negb];
    [|apply extends_refl, Hwf].
  assert (Ha : alive g0 this = true).
  { unfold alive. rewrite Hc. eapply canReproduce_alive, Hcan. }
  revert g0 Hwf Hc Ha.
  enough (H : forall g0, storeWellFormed g0 -> alive g0 this = true ->
            keeps g0
              (assign this (fun c0 => set_energy (energy c0 - energy c * REPRODUCTION_ENERGY_COST CONFIG) c0) ;;;
               assign this (set_lastReproduction currentTime) ;;;
               offspringTraits <-
                 withRandom (if hungerStress c >? 0.1
                             then mutateTraitsWithStress CONFIG (traits c) (hungerStress c) mutationRate
                             else mutateTraits CONFIG (traits c) mutationRate) ;;
               assign this (fun c0 => set_hungerStress (hungerStress c0 * 0.5) c0) ;;;
               r <- withRandom Math_random ;;
               offspring <- new_Creature CONFIG
                              (x (position c) + cos (r * PI * 2) * (_size c * 2))
                              (y (position c) + sin (r * PI * 2) * (_size c * 2))
                              (Some offspringTraits) (S (generation c)) ;;
               assign offspring (set_lastReproduction currentTime) ;;;
               ret (Some offspring))).
  { intros g0 Hwf Hc Ha. apply (H g0 Hwf Ha g0), extends_refl, Hwf. }
  intros g0 Hwf Ha.
  apply keeps_bind; [apply keeps_assign_alive; auto; apply (benign_set_energy (fun c0 => _))|intros _].
  apply keeps_bind; [apply keeps_assign_alive; auto; apply benign_set_lastReproduction|intros _].
  apply keeps_bind; [apply keeps_withRandom; auto|intros offspringTraits].
  apply keeps_bind; [apply keeps_assign_alive; auto; apply (benign_set_hungerStress (fun c0 => _))|intros _].
  apply keeps_bind; [apply keeps_withRandom; auto|intros r].
  apply keeps_new_Creature_then; auto using benign_set_lastReproduction.
  intros child. apply keeps_ret.
Qed.

Lemma offspringLoop_keeps (CONFIG : Config) (g0 : Globals) (c p : Creature)
    (currentTime : R) (mutationRate : option R) (combinedStress midX midY : R)
    (nextGeneration : nat) (offspringCount : R) (remaining : nat) (i : R)
    (offspring : list nat) :
  storeWellFormed g0 ->
  keeps g0 (offspringLoop CONFIG c p currentTime mutationRate combinedStress midX midY
              nextGeneration offspringCount remaining i offspring).
Proof.
  intros Hwf. revert i offspring.
  induction remaining as [|n IH]; intros i offspring; cbn [offspringLoop].
  - apply keeps_ret.
  - apply keeps_bind; [apply keeps_withRandom; auto|intros offspringTraits].
    apply keeps_bind; [apply keeps_withRandom; auto|intros r].
    apply keeps_new_Creature_then; auto using benign_set_lastReproduction.
Qed.

Lemma reproduceSexual_keeps (CONFIG : Config) (g0 : Globals) (this partner : nat)
    (currentTime : R) (mutationRate : option R) :
  storeWellFormed g0 ->
  extends g0 (snd (reproduceSexual CONFIG this partner currentTime mutationRate g0)).
Proof.
  intros Hwf. unfold reproduceSexual. unfold bind at 1. cbn [get fst snd].
  destruct (objects g0 !! this) as [c|] eqn:Hc; [|apply extends_refl, Hwf].
  destruct (objects g0 !! partner) as [p|] eqn:Hp; [|apply extends_refl, Hwf].
  destruct (canReproduce CONFIG currentTime c) eqn:Hcan1; cbn [negb orb];
    [|apply extends_refl, Hwf].
  destruct (canReproduce CONFIG currentTime p) eqn:Hcan2; cbn [negb orb];
    [|apply extends_refl, Hwf].
  assert (Ha : alive g0 this = true).
  { unfold alive. rewrite Hc. eapply canReproduce_alive, Hcan1. }
  assert (Hb : alive g0 partner = true).
  { unfold alive. rewrite Hp. eapply canReproduce_alive, Hcan2. }
  match goal with |- extends g0 (snd (?m g0)) => enough (H : keeps g0 m) end.
  { apply (H g0), extends_refl, Hwf. }
  apply keeps_bind; [apply keeps_withRandom; auto|intros r].
  apply keeps_bind; [apply keeps_assign_alive; auto; apply (benign_set_energy (fun c0 => _))|intros _].
  apply keeps_bind; [apply keeps_assign_alive; auto; apply (benign_set_energy (fun c0 => _))|intros _].
  apply keeps_bind; [apply keeps_assign_alive; auto; apply benign_set_lastReproduction|intros _].
  apply keeps_bind; [apply keeps_assign_alive; auto; apply benign_set_lastReproduction|intros _].
  apply keeps_bind; [apply keeps_assign_alive; auto; apply (benign_set_hungerStress (fun c0 => _))|intros _].
  apply keeps_bind; [apply keeps_assign_alive; auto; apply (benign_set_hungerStress (fun c0 => _))|intros _].
  apply offspringLoop_keeps, Hwf.
Qed.

Lemma call_objects (this : nat) (body : Creature -> State species.SpeciesRegistry Creature)
    (g : Globals) (c : Creature) :
  objects g !! this = Some c ->
  snd (call this body g)
  = set_objects (<[this := fst (body c (speciesRegistry g))]> (objects g))
      (set_speciesRegistry (snd (body c (speciesRegistry g))) g).
Proof. intros H. unfold call. rewrite H. reflexivity. Qed.

Lemma call_missing (this : nat) (body : Creature -> State species.SpeciesRegistry Creature)
    (g : Globals) :
  objects g !! this = None -> snd (call this body g) = g.
Proof. intros H. unfold call. rewrite H. reflexivity. Qed.

Lemma callRandom_objects (this : nat) (body : Creature -> State RandomSource Creature)
    (g : Globals) (c : Creature) :
  objects g !! this = Some c ->
  snd (callRandom this body g)
  = set_objects (<[this := fst (body c (random g))]> (objects g))
      (set_random (snd (body c (random g))) g).
Proof. intros H. unfold callRandom. rewrite H. reflexivity. Qed.

Lemma callRandom_missing (this : nat) (body : Creature -> State RandomSource Creature)
    (g : Globals) :
  objects g !! this = None -> snd (callRandom this body g) = g.
Proof. intros H. unfold callRandom. rewrite H. reflexivity. Qed.

Lemma insert_objectsAll (P : Creature -> Prop) (g g' : Globals) (this : nat) (c' : Creature) :
  objects g' = <[this := c']> (objects g) ->
  objectsAll P g -> P c' -> objectsAll P g'.
Proof.
  intros Ho HP Hc ref c H. rewrite Ho in H.
  destruct (decide (this = ref)) as [->|Hne].
  - rewrite lookup_insert_eq in H. congruence.
  - rewrite lookup_insert_ne in H by assumption. eapply HP, H.
Qed.

Lemma insert_storeWellFormed (g g' : Globals) (this : nat) (c c' : Creature) :
  objects g' = <[this := c']> (objects g) ->
  nextCreatureId g' = nextCreatureId g ->
  objects g !! this = Some c -> creature.id c' = creature.id c ->
  storeWellFormed g -> storeWellFormed g'.
Proof.
  intros Ho Hn Hc Hid Hwf ref c0 H. rewrite Ho in H. rewrite Hn.
  destruct (decide (this = ref)) as [->|Hne].
  - rewrite lookup_insert_eq in H. inversion H; subst c0.
    destruct (Hwf ref c Hc). split; [assumption | congruence].
  - rewrite lookup_insert_ne in H by assumption. apply (Hwf ref c0 H).
Qed.

Lemma call_objectsAll (P : Creature -> Prop) (this : nat)
    (body : Creature -> State species.SpeciesRegistry Creature) (g : Globals) :
  (forall c reg, P c -> P (fst (body c reg))) ->
  objectsAll P g -> objectsAll P (snd (call this body g)).
Proof.
  intros Hb HP. destruct (objects g !! this) as [c|] eqn:E.
  - rewrite (call_objects this body g c E).
    eapply insert_objectsAll; [reflexivity | exact HP|]. apply Hb. eapply HP, E.
  - rewrite call_missing by assumption. exact HP.
Qed.

Lemma assign_objectsAll (P : Creature -> Prop) (this : nat)
    (f : Creature -> Creature) (g : Globals) :
  (forall c, objects g !! this = Some c -> P c -> P (f c)) ->
  objectsAll P g -> objectsAll P (snd (assign this f g)).
Proof.
  intros Hb HP. destruct (objects g !! this) as [c|] eqn:E.
  - rewrite (assign_objects this f g c E).
    eapply insert_objectsAll; [reflexivity | exact HP|]. apply Hb; [reflexivity|]. eapply HP, E.
  - rewrite assign_missing by assumption. exact HP.
Qed.

Lemma callRandom_objectsAll (P : Creature -> Prop) (this : nat)
    (body : Creature -> State RandomSource Creature) (g : Globals) :
  (forall c r, P c -> P (fst (body c r))) ->
  objectsAll P g -> objectsAll P (snd (callRandom this body g)).
Proof.
  intros Hb HP. destruct (objects g !! this) as [c|] eqn:E.
  - rewrite (callRandom_objects this body g c E).
    eapply insert_objectsAll; [reflexivity | exact HP|]. apply Hb. eapply HP, E.
  - rewrite callRandom_missing by assumption. exact HP.
Qed.

Lemma call_storeWellFormed (this : nat)
    (body : Creature -> State species.SpeciesRegistry Creature) (g : Globals) :
  (forall c reg, creature.id (fst (body c reg)) = creature.id c) ->
  storeWellFormed g -> storeWellFormed (snd (call this body g)).
Proof.
  intros Hb Hwf. destruct (objects g !! this) as [c|] eqn:E.
  - rewrite (call_objects this body g c E).
    eapply insert_storeWellFormed; [reflexivity | reflexivity | exact E | apply Hb | exact Hwf].
  - rewrite call_missing by assumption. exact Hwf.
Qed.

Lemma assign_storeWellFormed (this : nat) (f : Creature -> Creature) (g : Globals) :
  (forall c, creature.id (f c) = creature.id c) ->
  storeWellFormed g -> storeWellFormed (snd (assign this f g)).
Proof.
  intros Hb Hwf. destruct (objects g !! this) as [c|] eqn:E.
  - rewrite (assign_objects this f g c E).
    eapply insert_storeWellFormed; [reflexivity | reflexivity | exact E | apply Hb | exact Hwf].
  - rewrite assign_missing by assumption. exact Hwf.
Qed.

Lemma callRandom_storeWellFormed (this : nat)
    (body : Creature -> State RandomSource Creature) (g : Globals) :
  (forall c r, creature.id (fst (body c r)) = creature.id c) ->
  storeWellFormed g -> storeWellFormed (snd (callRandom this body g)).
Proof.
  intros Hb Hwf. destruct (objects g !! this) as [c|] eqn:E.
  - rewrite (callRandom_objects this body g c E).
    eapply insert_storeWellFormed; [reflexivity | reflexivity | exact E | apply Hb | exact Hwf].
  - rewrite callRandom_missing by assumption. exact Hwf.
Qed.

Lemma die_fields (c : Creature) (reg : species.SpeciesRegistry) :
  fst (die c reg) = set_energy 0 (set_isAlive false c)
  /\ snd (die c reg) = snd (species.recordDeath (creature.id c) reg).
Proof. unfold die, bind, ret. cbn. auto. Qed.

Lemma updateVitals_fields (CONFIG : Config) (dt : R) (c : Creature) :
  creature.id (updateVitals CONFIG dt c) = creature.id c
  /\ isAlive (updateVitals CONFIG dt c) = isAlive c
  /\ speciesId (updateVitals CONFIG dt c) = speciesId c.
Proof. unfold updateVitals. cbv zeta. case_ifs; auto. Qed.

Lemma updatePosition_fields (CONFIG : Config) (dt : R) (c : Creature) :
  creature.id (updatePosition CONFIG dt c) = creature.id c
  /\ isAlive (updatePosition CONFIG dt c) = isAlive c
  /\ speciesId (updatePosition CONFIG dt c) = speciesId c
  /\ energy (updatePosition CONFIG dt c) = energy c.
Proof. unfold updatePosition. cbv zeta. case_ifs; auto. Qed.

(** [update] leaves a dead creature alone, kills through [die], or keeps the
    creature alive. *)
Lemma update_cases (CONFIG : Config) (dt t : R) (c : Creature) (reg : species.SpeciesRegistry) :
  (isAlive c = false /\ update CONFIG dt t c reg = (c, reg))
  \/ (isAlive c = true
      /\ update CONFIG dt t c reg = die (updateVitals CONFIG dt c) reg)
  \/ (isAlive c = true
      /\ update CONFIG dt t c reg
         = (updatePosition CONFIG dt (updateVitals CONFIG dt c), reg)).
Proof.
  unfold update. destruct (isAlive c); cbn [negb].
  - right. destruct (_ || _); [left | right]; auto.
  - left. auto.
Qed.

Lemma takeDamage_cases (amount : R) (c : Creature) (reg : species.SpeciesRegistry) :
  (energy c - amount <= 0
   /\ takeDamage amount c reg = die (set_energy (energy c - amount) c) reg)
  \/ (0 < energy c - amount
      /\ takeDamage amount c reg = (set_energy (energy c - amount) c, reg)).
Proof.
  unfold takeDamage. cbn [energy set_energy].
  unfold Rleb. destruct (Rle_dec (energy c - amount) 0); [left | right]; split; auto; lra.
Qed.

Lemma update_id (CONFIG : Config) (dt t : R) (c : Creature) (reg : species.SpeciesRegistry) :
  creature.id (fst (update CONFIG dt t c reg)) = creature.id c.
Proof.
  destruct (update_cases CONFIG dt t c reg) as [[_ ->]|[[_ ->]|[_ ->]]]; cbn [fst].
  - reflexivity.
  - destruct (die_fields (updateVitals CONFIG dt c) reg) as [-> _]. cbn.
    apply updateVitals_fields.
  - destruct (updatePosition_fields CONFIG dt (updateVitals CONFIG dt c)) as (-> & _).
    apply updateVitals_fields.
Qed.

Lemma takeDamage_id (amount : R) (c : Creature) (reg : species.SpeciesRegistry) :
  creature.id (fst (takeDamage amount c reg)) = creature.id c.
Proof.
  destruct (takeDamage_cases amount c reg) as [[_ ->]|[_ ->]]; reflexivity.
Qed.

Lemma die_id (c : Creature) (reg : species.SpeciesRegistry) :
  creature.id (fst (die c reg)) = creature.id c.
Proof. reflexivity. Qed.

Lemma die_spent (c : Creature) (reg : species.SpeciesRegistry) : spent (fst (die c reg)).
Proof. intros _. reflexivity. Qed.

Lemma update_spent (CONFIG : Config) (dt t : R) (c : Creature) (reg : species.SpeciesRegistry) :
  spent c -> spent (fst (update CONFIG dt t c reg)).
Proof.
  intros Hc.
  destruct (update_cases CONFIG dt t c reg) as [[_ ->]|[[_ ->]|[Ha ->]]]; cbn [fst].
  - exact Hc.
  - apply die_spent.
  - intros Hd. destruct (updatePosition_fields CONFIG dt (updateVitals CONFIG dt c)) as (_ & A & _).
    destruct (updateVitals_fields CONFIG dt c) as (_ & B & _). congruence.
Qed.

Lemma takeDamage_spent (amount : R) (c : Creature) (reg : species.SpeciesRegistry) :
  0 <= amount -> spent c -> spent (fst (takeDamage amount c reg)).
Proof.
  intros Hamount Hc.
  destruct (takeDamage_cases amount c reg) as [[_ ->]|[Hpos ->]].
  - apply die_spent.
  - cbn [fst]. intros Hd. cbn in Hd. specialize (Hc Hd). lra.
Qed.

Lemma seekTarget_fields (target : Vector2) (dt : R) (c : Creature) :
  creature.id (seekTarget target dt c) = creature.id c
  /\ isAlive (seekTarget target dt c) = isAlive c
  /\ energy (seekTarget target dt c) = energy c.
Proof. unfold seekTarget. cbv zeta. case_ifs; auto. Qed.

Lemma huntTarget_fields (target : Vector2) (dt : R) (c : Creature) :
  creature.id (huntTarget target dt c) = creature.id c
  /\ isAlive (huntTarget target dt c) = isAlive c
  /\ energy (huntTarget target dt c) = energy c.
Proof. unfold huntTarget. cbv zeta. case_ifs; auto. Qed.

Lemma fleeFrom_fields (threat : Vector2) (dt : R) (c : Creature) :
  creature.id (fleeFrom threat dt c) = creature.id c
  /\ isAlive (fleeFrom threat dt c) = isAlive c
  /\ energy (fleeFrom threat dt c) = energy c.
Proof. unfold fleeFrom. cbv zeta. case_ifs; auto. Qed.

Lemma wander_fields (dt : R) (c : Creature) (r : RandomSource) :
  creature.id (fst (wander dt c r)) = creature.id c
  /\ isAlive (fst (wander dt c r)) = isAlive c
  /\ energy (fst (wander dt c r)) = energy c.
Proof. unfold wander, bind, ret. cbn. case_ifs; auto. Qed.

Lemma spent_of_fields (c c' : Creature) :
  isAlive c' = isAlive c -> energy c' = energy c -> spent c -> spent c'.
Proof. unfold spent. intros -> ->. auto. Qed.

Lemma extends_spent (g g' : Globals) :
  extends g g' -> objectsAll spent g -> objectsAll spent g'.
Proof.
  intros E H ref c' Hc'.
  destruct (objects g !! ref) as [c|] eqn:Hc.
  - destruct (ext_old _ _ E ref c Hc) as (c2 & Hc2 & _ & A & _ & D).
    rewrite Hc' in Hc2. inversion Hc2; subst c2.
    intros Hd. rewrite D by congruence. apply (H ref c Hc). congruence.
  - destruct (ext_new _ _ E ref c' Hc' Hc) as (_ & A & _). intros Hd. congruence.
Qed.

Lemma initialGlobals_wf (rnd : nat -> R) : storeWellFormed (initialGlobals rnd).
Proof. intros ref c H. cbn in H. rewrite lookup_empty in H. discriminate. Qed.

Lemma creatureCall_invariant (CONFIG : Config) (g g' : Globals) :
  creatureCall CONFIG asSimulated g g' ->
  storeWellFormed g /\ objectsAll spent g ->
  storeWellFormed g' /\ objectsAll spent g'.
Proof.
  intros Hcall [Hwf Hsp].
  destruct Hcall as [px py traits generation|this dt t|this target dt|this target dt
                    |this dt|this threat dt|this amount H|this amount H
                    |this currentTime mutationRate|this partner currentTime mutationRate
                    |this].
  - pose proof (new_Creature_extends CONFIG px py traits generation g Hwf) as E.
    split; [apply (ext_wf _ _ E) | eapply extends_spent; eassumption].
  - split.
    + apply call_storeWellFormed; [apply update_id | assumption].
    + apply call_objectsAll; [intros; apply update_spent; assumption | assumption].
  - split.
    + apply assign_storeWellFormed; [apply seekTarget_fields | assumption].
    + apply assign_objectsAll; [|assumption]. intros c _.
      apply spent_of_fields; apply seekTarget_fields.
  - split.
    + apply assign_storeWellFormed; [apply huntTarget_fields | assumption].
    + apply assign_objectsAll; [|assumption]. intros c _.
      apply spent_of_fields; apply huntTarget_fields.
  - split.
    + apply callRandom_storeWellFormed; [apply wander_fields | assumption].
    + apply callRandom_objectsAll; [|assumption]. intros c r.
      apply spent_of_fields; apply wander_fields.
  - split.
    + apply assign_storeWellFormed; [apply fleeFrom_fields | assumption].
    + apply assign_objectsAll; [|assumption]. intros c _.
      apply spent_of_fields; apply fleeFrom_fields.
  - split.
    + apply assign_storeWellFormed; [reflexivity | assumption].
    + apply assign_objectsAll; [|assumption]. intros c Hc _ Hd.
      cbn in H. unfold alive in H. rewrite Hc in H. cbn in Hd. congruence.
  - split.
    + apply call_storeWellFormed; [apply takeDamage_id | assumption].
    + apply call_objectsAll; [intros; apply takeDamage_spent; assumption | assumption].
  - pose proof (reproduceAsexual_keeps CONFIG g this currentTime mutationRate Hwf) as E.
    split; [apply (ext_wf _ _ E) | eapply extends_spent; eassumption].
  - pose proof (reproduceSexual_keeps CONFIG g this partner currentTime mutationRate Hwf) as E.
    split; [apply (ext_wf _ _ E) | eapply extends_spent; eassumption].
  - split.
    + apply call_storeWellFormed; [apply die_id | assumption].
    + apply call_objectsAll; [intros; apply die_spent | assumption].
Qed.

Lemma reachable_invariant (CONFIG : Config) (g : Globals) :
  reachableBy CONFIG asSimulated g -> storeWellFormed g /\ objectsAll spent g.
Proof.
  induction 1 as [rnd|g g' _ IH Hcall].
  - split; [apply initialGlobals_wf|].
    intros ref c H. cbn in H. rewrite lookup_empty in H. discriminate.
  - eapply creatureCall_invariant; eassumption.
Qed.

(** With no energy on the dead, the corpse loop of [cleanup] adds nothing. *)
Lemma createCorpses_spent (refs : list nat) (w : World) (g : Globals) :
  objectsAll spent g -> createCorpses refs w g = (w, g).
Proof.
  intros Hsp. revert w. induction refs as [|ref rest IH]; intros w; cbn [createCorpses].
  - reflexivity.
  - unfold bind at 1. cbn [get fst snd].
    destruct (objects g !! ref) as [c|] eqn:Hc; [|apply IH].
    destruct (isAlive c) eqn:Ha; cbn [negb andb]; [apply IH|].
    destruct (Rltb_false 5 (energy c)) as [_ E].
    rewrite E; [apply IH|]. rewrite (Hsp ref c Hc Ha). lra.
Qed.

(** C10, amended.  In every state reached from the start of the program by
    the operations of creatures as the simulation calls them ([eat] on a
    living creature, [takeDamage] of an amount that is not negative), every
    dead creature has energy 0; so the corpse condition of [cleanup] (dead and
    [energy > 5]) holds for no creature and the corpse loop leaves the world
    as it is. *)
Theorem dead_creatures_have_no_energy (CONFIG : Config) (g : Globals) :
  reachableBy CONFIG asSimulated g ->
  (forall ref c, objects g !! ref = Some c -> isAlive c = false -> energy c = 0)
  /\ (forall ref c, objects g !! ref = Some c ->
        negb (isAlive c) && (energy c >? 5) = false)
  /\ (forall w, createCorpses (creatures w) w g = (w, g)).
Proof.
  intros Hr. destruct (reachable_invariant CONFIG g Hr) as [_ Hsp].
  split; [exact Hsp|]. split.
  - intros ref c Hc. destruct (isAlive c) eqn:Ha; [reflexivity|]. cbn.
    apply Rltb_false. rewrite (Hsp ref c Hc Ha). lra.
  - intros w. apply createCorpses_spent, Hsp.
Qed.

Lemma new_Creature_given (CONFIG : Config) (x y : R) (t : Traits) (generation : nat)
    (g : Globals) :
  new_Creature CONFIG x y (Some t) generation g
  = (nextCreatureId g,
     set_objects
       (<[nextCreatureId g :=
            construct CONFIG (nextCreatureId g) x y t generation
              (samples (random g) (consumed (random g)) * PI * 2)]> (objects g))
       (set_random {| samples := samples (random g); consumed := S (consumed (random g)) |}
          (set_nextCreatureId (S (nextCreatureId g)) g))).
Proof. reflexivity. Qed.

Lemma hatched_object (x y : R) : objects (hatched x y) !! 0%nat = Some (newborn x y).
Proof. unfold hatched. rewrite new_Creature_given. cbn. apply lookup_insert_eq. Qed.

Lemma oneCreature_object : objects oneCreature !! 0%nat = Some (newborn 100 100).
Proof. apply hatched_object. Qed.

Lemma oneCreature_reachable (u : Usage) : reachableBy DEFAULT_CONFIG u oneCreature.
Proof. eapply reach_call; [apply reach_start | apply call_new]. Qed.

(** The state after a creature is constructed and dies *)
Lemma dead_creatures_have_no_energy_witness :
  let g := snd (call 0 die oneCreature) in
  (forall ref c, objects g !! ref = Some c -> isAlive c = false -> energy c = 0)
  /\ (forall ref c, objects g !! ref = Some c ->
        negb (isAlive c) && (energy c >? 5) = false)
  /\ (forall w, createCorpses (creatures w) w g = (w, g)).
Proof.
  apply (dead_creatures_have_no_energy DEFAULT_CONFIG (snd (call 0 die oneCreature))).
  eapply reach_call; [apply oneCreature_reachable | apply call_die].
Defined.

(** C10 as stated fails: a creature that is fed [eat(10)] after [die()] is
    dead and has energy 10. *)
Lemma dead_creature_fed :
  let g1 := snd (call 0 die oneCreature) in
  let g2 := snd (assign 0 (eat DEFAULT_CONFIG 10) g1) in
  reachableBy DEFAULT_CONFIG anyCall g2
  /\ exists c, objects g2 !! 0%nat = Some c /\ isAlive c = false /\ energy c = 10
               /\ energy c <> 0.
Proof.
  cbv zeta. split.
  - eapply reach_call; [eapply reach_call; [apply oneCreature_reachable | apply call_die]|].
    apply call_eat. exact I.
  - set (c0 := newborn 100 100).
    set (dead := fst (die c0 (speciesRegistry oneCreature))).
    assert (H1 : objects (snd (call 0 die oneCreature)) !! 0%nat = Some dead).
    { rewrite (call_objects 0 die oneCreature c0 oneCreature_object).
      cbn [objects set_objects]. apply lookup_insert_eq. }
    exists (eat DEFAULT_CONFIG 10 dead). split.
    { rewrite (assign_objects 0 _ _ dead H1). cbn [objects set_objects].
      apply lookup_insert_eq. }
    assert (E : energy (eat DEFAULT_CONFIG 10 dead) = 10).
    { rewrite eat_energy. unfold maxEnergy. cbn. unfold Rmin.
      destruct (Rle_dec _ _); lra. }
    split; [reflexivity|]. split; [exact E | lra].
Qed.

Lemma addCreature_run (CONFIG : Config) (ref : nat) (w : World) (g : Globals) (c : Creature) :
  (length (creatures w) < MAX_CREATURES CONFIG)%nat ->
  objects g !! ref = Some c ->
  addCreature CONFIG ref w g
  = (let w1 := set_totalBirths (totalBirths w + 1)%Z (set_creatures (creatures w ++ [ref]) w) in
     if (generationMax w <? creature.generation c)%nat
     then set_generationMax (creature.generation c) w1 else w1,
     let r := species.assignSpecies (creature.id c) (creature.traits c)
                (creature.generation c) (simulationTime w) (speciesRegistry g) in
     set_objects (<[ref := set_speciesId (Some (species.id (fst r))) c]> (objects g))
       (set_speciesRegistry (snd r) g)).
Proof.
  intros Hlen Hc. unfold addCreature.
  destruct (Nat.ltb_spec (length (creatures w)) (MAX_CREATURES CONFIG)); [|lia].
  unfold bind at 1. cbn [get fst snd]. rewrite Hc.
  unfold bind, withRegistry, assign, ret. cbn. rewrite Hc. reflexivity.
Qed.

Lemma addCreature_full (CONFIG : Config) (ref : nat) (w : World) (g : Globals) :
  (MAX_CREATURES CONFIG <= length (creatures w))%nat ->
  addCreature CONFIG ref w g = (w, g).
Proof.
  intros H. unfold addCreature.
  destruct (Nat.ltb_spec (length (creatures w)) (MAX_CREATURES CONFIG)); [lia|]. reflexivity.
Qed.

Lemma updateVitals_age (CONFIG : Config) (dt : R) (c : Creature) :
  age (updateVitals CONFIG dt c) = age c + dt
  /\ _maxLifespan (updateVitals CONFIG dt c) = _maxLifespan c.
Proof. unfold updateVitals. cbv zeta. case_ifs; auto. Qed.

Lemma update_old_age (CONFIG : Config) (dt t : R) (c : Creature) (reg : species.SpeciesRegistry) :
  isAlive c = true -> _maxLifespan c <= age c + dt ->
  update CONFIG dt t c reg = die (updateVitals CONFIG dt c) reg.
Proof.
  intros Ha Hold. unfold update. rewrite Ha. cbn [negb].
  destruct (updateVitals_age CONFIG dt c) as [-> ->].
  rewrite (proj2 (Rleb_true (_maxLifespan c) (age c + dt))) by assumption.
  rewrite orb_true_r. reflexivity.
Qed.

Lemma sample_speed : getCreatureSpeed DEFAULT_CONFIG sampleTraits = 90.
Proof. unfold getCreatureSpeed. cbn. Rdecide. lra. Qed.

Lemma sample_lifespan : getMaxLifespan DEFAULT_CONFIG sampleTraits = 54.
Proof. unfold getMaxLifespan. cbn. Rdecide. lra. Qed.

Lemma sample_drain : getEnergyDrain DEFAULT_CONFIG sampleTraits = 2.1.
Proof. unfold getEnergyDrain. cbn. Rdecide. cbn. Rdecide. lra. Qed.

Lemma settled_run (x y : R) :
  exists sid,
    creatures (fst (settled x y)) = [0%nat]
    /\ corpses (fst (settled x y)) = []
    /\ totalDeaths (fst (settled x y)) = 0%Z
    /\ grid (creatureHash (fst (settled x y))) = ∅
    /\ objects (snd (settled x y)) !! 0%nat = Some (set_speciesId (Some sid) (newborn x y)).
Proof.
  unfold settled. rewrite (addCreature_run DEFAULT_CONFIG 0 _ (hatched x y) (newborn x y)).
  - eexists. cbn - [species.assignSpecies]. repeat split.
  - cbn. lia.
  - apply hatched_object.
Qed.

Lemma elder_object :
  exists sid,
    objects elder !! 0%nat
    = Some (set_energy 80 (set_age 200 (set_speciesId (Some sid) (newborn 100 100)))).
Proof.
  destruct (settled_run 100 100) as (sid & _ & _ & _ & _ & Ho). exists sid.
  unfold elder. rewrite (assign_objects 0 _ _ _ Ho). cbn [objects set_objects].
  apply lookup_insert_eq.
Qed.

Lemma magnitude_horizontal (a : R) : 0 <= a -> magnitude {| x := a; y := 0 |} = a.
Proof.
  intros H. unfold magnitude. cbn [x y].
  replace (a ^ 2 + 0 ^ 2) with (a * a) by ring. apply sqrt_square, H.
Qed.

Lemma newborn_velocity (px py : R) : velocity (newborn px py) = {| x := 45; y := 0 |}.
Proof.
  unfold newborn, construct. cbn [velocity]. rewrite sample_speed.
  replace (0 * PI * 2) with 0 by ring. rewrite cos_0, sin_0. f_equal; lra.
Qed.

Lemma elder_energy_at_death (sid : nat) :
  5 < energy (updateVitals DEFAULT_CONFIG 0.1
                (set_energy 80 (set_age 200 (set_speciesId (Some sid) (newborn 100 100))))).
Proof.
  unfold updateVitals. cbv zeta.
  cbn [set_energy set_age set_speciesId velocity _speed _energyDrain energy age traits
       state isHunting andb isHerbivore isCarnivore isOmnivore energyPercent maxEnergy
       hungerStress].
  rewrite newborn_velocity, magnitude_horizontal by lra.
  unfold newborn, construct.
  cbn [_speed _energyDrain traits state isHunting andb].
  rewrite sample_speed, sample_drain.
  unfold isHerbivore, isCarnivore. cbn [traits dietPreference sampleTraits].
  Rdecide. cbn [isHunting state andb].
  case_ifs; cbn [energy set_hungerStress set_energy]; lra.
Qed.

Lemma alive_lookup (g : Globals) (ref : nat) (c : Creature) :
  objects g !! ref = Some c -> alive g ref = isAlive c.
Proof. intros H. unfold alive. rewrite H. reflexivity. Qed.

(** [cleanup] of a world whose only creature is dead and without energy *)
Lemma cleanup_single_spent (w : World) (g : Globals) (ref : nat) (c : Creature) :
  creatures w = [ref] -> corpses w = [] ->
  objects g !! ref = Some c -> isAlive c = false -> energy c = 0 ->
  corpses (fst (cleanup w g)) = []
  /\ creatures (fst (cleanup w g)) = []
  /\ totalDeaths (fst (cleanup w g)) = (totalDeaths w + 1)%Z.
Proof.
  intros Hw Hk Hc Ha He.
  assert (E : createCorpses (creatures w) w g = (w, g)).
  { rewrite Hw. cbn [createCorpses]. unfold bind at 1. cbn [get fst snd].
    rewrite Hc, Ha, He. cbn [negb andb].
    rewrite (proj2 (Rltb_false 5 0)) by lra. reflexivity. }
  assert (Hal : alive g ref = false) by (rewrite (alive_lookup g ref c Hc); exact Ha).
  unfold cleanup, bind. rewrite E. cbn [fst snd get ret].
  cbn [corpses creatures totalDeaths set_corpses set_food set_creatures set_totalDeaths
       simulationTime].
  rewrite Hw, Hk.
  rewrite filter_cons_False by congruence.
  rewrite filter_cons_True by assumption.
  repeat split.
Qed.

(** C1.  A creature 200 s old, past its lifespan, with 80 of energy is alive
    before [update(0.1, 200)] and has more than 5 of energy after the drain of
    that tick; the update lets it die of old age, and the next [cleanup()]
    removes it and creates no corpse: [die()] has set its energy to 0 before
    [cleanup] tests [energy > 5]. *)
Theorem old_age_death_leaves_no_corpse :
  let w := fst (settled 100 100) in
  let g := elder in
  let g' := snd (call 0 (update DEFAULT_CONFIG 0.1 200) g) in
  (exists c, objects g !! 0%nat = Some c
             /\ isAlive c = true
             /\ 5 < energy (updateVitals DEFAULT_CONFIG 0.1 c))
  /\ creatures w = [0%nat]
  /\ alive g' 0 = false
  /\ corpses (fst (cleanup w g')) = []
  /\ creatures (fst (cleanup w g')) = [].
Proof.
  cbv zeta.
  destruct (settled_run 100 100) as (sid0 & Hw & Hk & Htd & _ & _).
  destruct elder_object as (sid & Ho).
  set (e := set_energy 80 (set_age 200 (set_speciesId (Some sid) (newborn 100 100)))) in *.
  assert (Hdie : update DEFAULT_CONFIG 0.1 200 e (speciesRegistry elder)
                 = die (updateVitals DEFAULT_CONFIG 0.1 e) (speciesRegistry elder)).
  { apply update_old_age; [reflexivity|]. cbn [e _maxLifespan age set_energy set_age set_speciesId].
    unfold newborn, construct. cbn [_maxLifespan]. rewrite sample_lifespan. lra. }
  assert (Ho' : objects (snd (call 0 (update DEFAULT_CONFIG 0.1 200) elder)) !! 0%nat
                = Some (fst (die (updateVitals DEFAULT_CONFIG 0.1 e) (speciesRegistry elder)))).
  { rewrite (call_objects 0 _ elder e Ho), Hdie. cbn [objects set_objects].
    apply lookup_insert_eq. }
  split.
  { exists e. split; [exact Ho|]. split; [reflexivity | apply elder_energy_at_death]. }
  split; [exact Hw|]. split.
  { rewrite (alive_lookup _ _ _ Ho'). reflexivity. }
  destruct (cleanup_single_spent (fst (settled 100 100)) _ 0%nat _ Hw Hk Ho' eq_refl eq_refl)
    as (H1 & H2 & _).
  split; assumption.
Qed.

Lemma flat_map_nil {A B : Type} (f : A -> list B) (l : list A) :
  (forall a, f a = []) -> flat_map f l = [].
Proof. intros H. induction l as [|a l IH]; cbn; [reflexivity|]. rewrite H, IH. reflexivity. Qed.

Lemma getNearby_empty {T : Type} (h : SpatialHash T) (x y radius : R) :
  grid h = ∅ -> getNearby h x y radius = [].
Proof.
  intros H. unfold getNearby. apply flat_map_nil. intros dc.
  apply flat_map_nil. intros dr. unfold nearbyCell. rewrite H, lookup_empty.
  destruct (_ || _); reflexivity.
Qed.

Lemma emigrate_starving_at_left_edge (CONFIG : Config) (dt : R) (ref : nat) (w : World)
    (g : Globals) (c : Creature) :
  objects g !! ref = Some c -> isAlive c = true ->
  x (creature.position c) < EMIGRATION_EDGE_DISTANCE CONFIG ->
  grid (creatureHash w) = ∅ ->
  energyPercent CONFIG c < 0.2 ->
  0 < EMIGRATION_BASE_CHANCE CONFIG ->
  samples (random g) (consumed (random g)) < EMIGRATION_BASE_CHANCE CONFIG * 5 * dt ->
  emigrate CONFIG dt ref w g
  = (set_totalDeaths (Z.max 0 (totalDeaths w - 1)) w,
     snd (call ref die (snd (withRandom Math_random g)))).
Proof.
  intros Hc Ha Hx Hgrid Hstarve Hbase Hdraw.
  unfold emigrate. unfold bind at 1. cbn [get fst snd]. rewrite Hc, Ha. cbn [negb].
  rewrite (proj2 (Rltb_true _ _) Hx). cbn [negb andb].
  unfold getCreaturesNear. rewrite getNearby_empty by assumption.
  rewrite filter_nil. cbn [existsb].
  rewrite andb_false_r.
  rewrite (proj2 (Rltb_true _ _) Hstarve).
  rewrite (proj2 (Rltb_true 0 (EMIGRATION_BASE_CHANCE CONFIG * 5))) by lra.
  unfold bind at 1.
  replace (fst (withRandom Math_random g)) with (samples (random g) (consumed (random g)))
    by reflexivity.
  rewrite (proj2 (Rltb_true _ _) Hdraw).
  unfold bind, ret. reflexivity.
Qed.

Lemma starving_object :
  exists sid,
    objects starving !! 0%nat
    = Some (set_energy 10 (set_speciesId (Some sid) (newborn 10 100))).
Proof.
  destruct (settled_run 10 100) as (sid & _ & _ & _ & _ & Ho). exists sid.
  unfold starving. rewrite (assign_objects 0 _ _ _ Ho). cbn [objects set_objects].
  apply lookup_insert_eq.
Qed.

Lemma starving_random : random starving = {| samples := fun _ => 0; consumed := 1 |}.
Proof.
  unfold starving.
  destruct (settled_run 10 100) as (sid & _ & _ & _ & _ & Ho).
  rewrite (assign_objects 0 _ _ _ Ho). cbn [random set_objects].
  unfold settled. rewrite (addCreature_run DEFAULT_CONFIG 0 _ (hatched 10 100) (newborn 10 100)).
  - reflexivity.
  - cbn. lia.
  - apply hatched_object.
Qed.

Lemma starving_emigrates (priorDeaths : Z) :
  let w := set_totalDeaths priorDeaths (fst (settled 10 100)) in
  processEmigration DEFAULT_CONFIG 1 w starving
  = (set_totalDeaths (Z.max 0 (priorDeaths - 1)) w,
     snd (call 0 die (snd (withRandom Math_random starving)))).
Proof.
  cbv zeta. destruct (settled_run 10 100) as (sid0 & Hw & Hk & Htd & Hgrid & _).
  destruct starving_object as (sid & Ho).
  unfold processEmigration. cbn [creatures set_totalDeaths]. rewrite Hw.
  cbn [emigrateAll]. unfold bind.
  rewrite (emigrate_starving_at_left_edge DEFAULT_CONFIG 1 0 _ starving _ Ho).
  - reflexivity.
  - reflexivity.
  - cbn. lra.
  - exact Hgrid.
  - unfold energyPercent, maxEnergy. cbn. lra.
  - cbn. lra.
  - rewrite starving_random. cbn. lra.
Qed.

Lemma emigrationTick_totalDeaths (priorDeaths : Z) :
  totalDeaths (fst (emigrationTick priorDeaths)) = (Z.max 0 (priorDeaths - 1) + 1)%Z
  /\ creatures (fst (emigrationTick priorDeaths)) = [].
Proof.
  unfold emigrationTick. cbv zeta. rewrite starving_emigrates. cbn [fst snd].
  destruct (settled_run 10 100) as (sid0 & Hw & Hk & Htd & Hgrid & _).
  destruct starving_object as (sid & Ho).
  set (e := set_energy 10 (set_speciesId (Some sid) (newborn 10 100))) in *.
  set (g1 := snd (withRandom Math_random starving)).
  assert (Ho1 : objects g1 !! 0%nat = Some e) by exact Ho.
  assert (Ho2 : objects (snd (call 0 die g1)) !! 0%nat
                = Some (fst (die e (speciesRegistry g1)))).
  { rewrite (call_objects 0 die g1 e Ho1). cbn [objects set_objects].
    apply lookup_insert_eq. }
  destruct (cleanup_single_spent
              (set_totalDeaths (Z.max 0 (priorDeaths - 1))
                 (set_totalDeaths priorDeaths (fst (settled 10 100))))
              _ 0%nat _ Hw Hk Ho2 eq_refl eq_refl) as (_ & H2 & H3).
  split; [exact H3 | exact H2].
Qed.

(** C3.  A starving creature at the left edge of a world that has counted no
    death: it is alive before [processEmigration(1)] and dead after it, and
    after the [cleanup()] that follows [totalDeaths] is 1, not 0.  With 3
    deaths counted before, [totalDeaths] is 3 again. *)
Theorem emigrant_counted_when_no_prior_death :
  alive starving 0 = true
  /\ alive (snd (processEmigration DEFAULT_CONFIG 1 (fst (settled 10 100)) starving)) 0 = false
  /\ totalDeaths (fst (settled 10 100)) = 0%Z
  /\ totalDeaths (fst (emigrationTick 0)) = 1%Z
  /\ totalDeaths (fst (emigrationTick 3)) = 3%Z.
Proof.
  destruct (settled_run 10 100) as (sid0 & Hw & Hk & Htd & Hgrid & _).
  destruct starving_object as (sid & Ho).
  split; [rewrite (alive_lookup _ _ _ Ho); reflexivity|].
  split.
  { pose proof (starving_emigrates 0) as E. cbv zeta in E.
    replace (set_totalDeaths 0 (fst (settled 10 100))) with (fst (settled 10 100)) in E.
    - rewrite E. cbn [snd].
      set (g1 := snd (withRandom Math_random starving)).
      assert (Ho1 : objects g1 !! 0%nat
                    = Some (set_energy 10 (set_speciesId (Some sid) (newborn 10 100)))) by exact Ho.
      unfold alive. rewrite (call_objects 0 die g1 _ Ho1). cbn [objects set_objects].
      rewrite lookup_insert_eq. reflexivity.
    - rewrite <- Htd. destruct (fst (settled 10 100)). reflexivity. }
  split; [exact Htd|].
  split; apply emigrationTick_totalDeaths.
Qed.

End LifeFacts.

(** ** The accounts of the species registry *)

Section AccountsFacts.

Import config math genetics creature world.

Import species.

Lemma speciesGet_Some (key : nat) (m : list Species) (s : Species) :
  speciesGet key m = Some s -> s ∈ m /\ species.id s = key.
Proof.
  unfold speciesGet. intros H. apply find_some in H. destruct H as [Hin Heq].
  apply Nat.eqb_eq in Heq. split; [apply list_elem_of_In, Hin | exact Heq].
Qed.

Lemma speciesGet_None (key : nat) (m : list Species) :
  speciesGet key m = None -> key ∉ map species.id m.
Proof.
  unfold speciesGet. intros H Hin. apply list_elem_of_In, in_map_iff in Hin.
  destruct Hin as (s & Hid & Hs).
  pose proof (find_none _ _ H s Hs) as Hn. cbn in Hn.
  apply Nat.eqb_neq in Hn. congruence.
Qed.

Lemma elem_of_map_id (s : Species) (m : list Species) :
  s ∈ m -> species.id s ∈ map species.id m.
Proof. intros H. apply list_elem_of_In, in_map, list_elem_of_In, H. Qed.

Lemma elem_of_map_id_inv (key : nat) (m : list Species) :
  key ∈ map species.id m -> exists s, s ∈ m /\ species.id s = key.
Proof.
  intros H. apply list_elem_of_In, in_map_iff in H. destruct H as (s & Hid & Hs).
  exists s. split; [apply list_elem_of_In, Hs | exact Hid].
Qed.

Lemma speciesSet_fresh (key : nat) (s : Species) (m : list Species) :
  key ∉ map species.id m -> speciesSet key s m = m ++ [s].
Proof.
  induction m as [|s0 m IH]; intros H; cbn; [reflexivity|].
  cbn in H. apply not_elem_of_cons in H. destruct H as [Hne Hm].
  destruct (Nat.eqb_spec (species.id s0) key); [congruence|].
  rewrite IH by assumption. reflexivity.
Qed.

Lemma speciesSet_ids (key : nat) (s : Species) (m : list Species) :
  species.id s = key -> key ∈ map species.id m ->
  map species.id (speciesSet key s m) = map species.id m.
Proof.
  intros Hs. induction m as [|s0 m IH]; intros H; cbn in *.
  - apply elem_of_nil in H. destruct H.
  - destruct (Nat.eqb_spec (species.id s0) key) as [E|E]; cbn.
    + congruence.
    + apply elem_of_cons in H. destruct H as [H|H]; [congruence|].
      rewrite IH by assumption. reflexivity.
Qed.

Lemma speciesSet_elem (key : nat) (s : Species) (m : list Species) (s1 : Species) :
  species.id s = key -> NoDup (map species.id m) -> key ∈ map species.id m ->
  s1 ∈ speciesSet key s m <-> s1 = s \/ (s1 ∈ m /\ species.id s1 <> key).
Proof.
  intros Hs. induction m as [|s0 m IH]; intros Hnd H; cbn in *.
  - apply elem_of_nil in H. destruct H.
  - apply NoDup_cons in Hnd. destruct Hnd as [Hnotin Hnd].
    destruct (Nat.eqb_spec (species.id s0) key) as [E|E].
    + rewrite !elem_of_cons. split.
      * intros [->|Hin]; [auto|]. right. split; [auto|].
        intros Heq. apply Hnotin. rewrite E, <- Heq.
        apply elem_of_map_id, Hin.
      * intros [->|[[->|Hin] Hne]]; [auto | congruence | auto].
    + apply elem_of_cons in H. destruct H as [H|H]; [congruence|].
      rewrite !elem_of_cons, (IH Hnd H). split.
      * intros [->|[->|[Hin Hne]]]; auto.
      * intros [->|[[->|Hin] Hne]]; auto.
Qed.

Lemma speciesGet_present (key : nat) (m : list Species) :
  key ∈ map species.id m -> exists s, speciesGet key m = Some s.
Proof.
  intros H. destruct (speciesGet key m) as [s|] eqn:E; [eauto|].
  apply speciesGet_None in E. contradiction.
Qed.

Lemma countIn_nil (cs : gmap nat nat) (sid : nat) : countIn cs sid [] = 0%nat.
Proof. reflexivity. Qed.

Lemma countIn_cons (cs : gmap nat nat) (sid : nat) (ref : nat) (l : list nat) :
  countIn cs sid (ref :: l)
  = ((if decide (cs !! ref = Some sid) then 1 else 0) + countIn cs sid l)%nat.
Proof.
  unfold countIn. rewrite filter_cons. destruct (decide _); reflexivity.
Qed.

Lemma countIn_app (cs : gmap nat nat) (sid : nat) (l1 l2 : list nat) :
  countIn cs sid (l1 ++ l2) = (countIn cs sid l1 + countIn cs sid l2)%nat.
Proof. unfold countIn. rewrite filter_app, length_app. reflexivity. Qed.

Lemma countIn_ext (cs cs' : gmap nat nat) (sid : nat) (l : list nat) :
  (forall ref, ref ∈ l -> (cs !! ref = Some sid <-> cs' !! ref = Some sid)) ->
  countIn cs sid l = countIn cs' sid l.
Proof.
  induction l as [|r l IH]; intros H; [reflexivity|].
  rewrite !countIn_cons. rewrite IH.
  - destruct (decide (cs !! r = Some sid)) as [E|E];
      destruct (decide (cs' !! r = Some sid)) as [E'|E']; try reflexivity.
    + exfalso. apply E', (H r); [left | exact E].
    + exfalso. apply E, (H r); [left | exact E'].
  - intros ref Hin. apply H. right. exact Hin.
Qed.

Lemma countIn_delete_other (cs : gmap nat nat) (sid ref : nat) (l : list nat) :
  cs !! ref <> Some sid ->
  countIn (delete ref cs) sid l = countIn cs sid l.
Proof.
  intros H. apply countIn_ext. intros r _.
  destruct (decide (ref = r)) as [->|Hne].
  - rewrite lookup_delete_eq. split; [discriminate | contradiction].
  - rewrite lookup_delete_ne by assumption. reflexivity.
Qed.

Lemma countIn_delete_same (cs : gmap nat nat) (sid ref : nat) (l : list nat) :
  cs !! ref = Some sid -> ref ∈ l -> NoDup l ->
  countIn cs sid l = S (countIn (delete ref cs) sid l).
Proof.
  intros H. induction l as [|r l IH]; intros Hin Hnd.
  - apply elem_of_nil in Hin. destruct Hin.
  - apply NoDup_cons in Hnd. destruct Hnd as [Hr Hnd].
    rewrite !countIn_cons.
    destruct (decide (r = ref)) as [->|Hne].
    + rewrite lookup_delete_eq. rewrite decide_True by assumption.
      rewrite decide_False by discriminate.
      f_equal. symmetry. apply countIn_ext. intros r' Hr'.
      rewrite lookup_delete_ne; [reflexivity|]. intros ->. contradiction.
    + apply elem_of_cons in Hin. destruct Hin as [->|Hin]; [congruence|].
      rewrite lookup_delete_ne by congruence.
      rewrite (IH Hin Hnd). lia.
Qed.

Lemma countIn_insert_fresh (cs : gmap nat nat) (sid sid' ref : nat) (l : list nat) :
  ref ∉ l ->
  countIn (<[ref := sid]> cs) sid' (l ++ [ref])
  = (countIn cs sid' l + (if decide (sid = sid') then 1 else 0))%nat.
Proof.
  intros H. rewrite countIn_app. f_equal.
  - apply countIn_ext. intros r Hr. rewrite lookup_insert_ne; [reflexivity|].
    intros ->. contradiction.
  - rewrite countIn_cons, countIn_nil, lookup_insert_eq.
    destruct (decide (sid = sid')) as [->|Hne].
    + rewrite decide_True by reflexivity. reflexivity.
    + rewrite decide_False by congruence. reflexivity.
Qed.

Lemma countIn_filter (cs : gmap nat nat) (sid : nat) (P : nat -> Prop)
    `{forall x, Decision (P x)} (l : list nat) :
  (forall ref, ref ∈ l -> cs !! ref = Some sid -> P ref) ->
  countIn cs sid (filter P l) = countIn cs sid l.
Proof.
  induction l as [|r l IH]; intros Hp; [reflexivity|].
  rewrite filter_cons. destruct (decide (P r)) as [Hr|Hr].
  - rewrite !countIn_cons, IH; [reflexivity|].
    intros ref Hin. apply Hp. right. exact Hin.
  - rewrite countIn_cons, IH.
    + rewrite decide_False; [reflexivity|]. intros E. apply Hr, Hp; [left | exact E].
    + intros ref Hin. apply Hp. right. exact Hin.
Qed.

Lemma extends_sameLives (g g' : Globals) : extends g g' -> sameLives g g'.
Proof.
  intros E. split; [apply (ext_registry _ _ E) | | apply (ext_wf _ _ E)].
  intros ref c H. destruct (ext_old _ _ E ref c H) as (c' & H' & _ & A & S & _). eauto.
Qed.

Lemma sameLives_accounted (l : list nat) (g g' : Globals) :
  sameLives g g' -> accounted l g -> accounted l g'.
Proof.
  intros [R O W] A. split; rewrite ?R.
  - exact W.
  - apply (acc_nodup _ _ A).
  - intros ref Hin. destruct (acc_stored _ _ A ref Hin) as [c Hc].
    destruct (O ref c Hc) as (c' & Hc' & _). eauto.
  - intros ref sid H. destruct (acc_mapped _ _ A ref sid H) as (Hin & (c & Hc & Ha & Hs) & Hid).
    split; [exact Hin|]. split; [|exact Hid].
    destruct (O ref c Hc) as (c' & Hc' & Ha' & Hs'). exists c'. repeat split; congruence.
  - intros ref c' Hin Hc' Ha'. destruct (acc_stored _ _ A ref Hin) as [c Hc].
    destruct (O ref c Hc) as (c2 & Hc2 & Ha2 & _).
    apply (acc_alive _ _ A ref c Hin Hc). congruence.
  - apply (acc_ids _ _ A).
  - apply (acc_fresh _ _ A).
  - apply (acc_population _ _ A).
Qed.

Lemma insert_sameLives (g g' : Globals) (this : nat) (c c' : Creature) :
  objects g' = <[this := c']> (objects g) ->
  nextCreatureId g' = nextCreatureId g ->
  speciesRegistry g' = speciesRegistry g ->
  objects g !! this = Some c -> keepsLife c c' ->
  storeWellFormed g -> sameLives g g'.
Proof.
  intros Ho Hn Hr Hc (Hi & Ha & Hs) Hwf. split.
  - exact Hr.
  - intros ref c0 H. rewrite Ho. destruct (decide (this = ref)) as [->|Hne].
    + rewrite lookup_insert_eq. exists c'. rewrite Hc in H. inversion H; subst c0. auto.
    + rewrite lookup_insert_ne by assumption. eauto.
  - eapply insert_storeWellFormed; eassumption.
Qed.

Lemma sameLives_refl (g : Globals) : storeWellFormed g -> sameLives g g.
Proof. intros H. split; eauto. Qed.

Lemma assign_sameLives (this : nat) (f : Creature -> Creature) (g : Globals) :
  (forall c, keepsLife c (f c)) -> storeWellFormed g ->
  sameLives g (snd (assign this f g)).
Proof.
  intros Hf Hwf. destruct (objects g !! this) as [c|] eqn:E.
  - rewrite (assign_objects this f g c E).
    eapply insert_sameLives; try reflexivity; eauto.
  - rewrite assign_missing by assumption. apply sameLives_refl, Hwf.
Qed.

Lemma callRandom_sameLives (this : nat) (body : Creature -> State RandomSource Creature)
    (g : Globals) :
  (forall c r, keepsLife c (fst (body c r))) -> storeWellFormed g ->
  sameLives g (snd (callRandom this body g)).
Proof.
  intros Hf Hwf. destruct (objects g !! this) as [c|] eqn:E.
  - rewrite (callRandom_objects this body g c E).
    eapply insert_sameLives; try reflexivity; eauto.
  - rewrite callRandom_missing by assumption. apply sameLives_refl, Hwf.
Qed.

(** The registry after [recordDeath] of a creature of a known species *)
Lemma recordDeath_mapped (ref sid : nat) (reg : SpeciesRegistry) (sp : Species) :
  creatureSpecies reg !! ref = Some sid ->
  speciesGet sid (species reg) = Some sp ->
  snd (recordDeath ref reg)
  = {| species :=
         speciesSet sid
           {| species.id := species.id sp; prototypeTraits := prototypeTraits sp;
              population := (population sp - 1)%Z; totalBirths := totalBirths sp;
              totalDeaths := (totalDeaths sp + 1)%Z;
              species.generation := species.generation sp;
              createdAt := createdAt sp |} (species reg);
       creatureSpecies := delete ref (creatureSpecies reg);
       nextSpeciesId := nextSpeciesId reg |}.
Proof. intros H1 H2. unfold recordDeath. rewrite H1, H2. reflexivity. Qed.

Lemma recordDeath_unmapped (ref : nat) (reg : SpeciesRegistry) :
  creatureSpecies reg !! ref = None -> snd (recordDeath ref reg) = reg.
Proof. intros H. unfold recordDeath. rewrite H. reflexivity. Qed.

(** A death: the object at [ref] is replaced by a dead one of the same
    identity and species, and the registry records the death. *)
Lemma death_accounted (l : list nat) (g : Globals) (ref : nat) (c c1 : Creature) :
  accounted l g ->
  objects g !! ref = Some c ->
  creature.id c1 = creature.id c -> speciesId c1 = speciesId c ->
  accounted l
    (set_objects (<[ref := fst (die c1 (speciesRegistry g))]> (objects g))
       (set_speciesRegistry (snd (die c1 (speciesRegistry g))) g)).
Proof.
  intros A Hc Hid Hsp.
  destruct (die_fields c1 (speciesRegistry g)) as [-> ->].
  destruct (acc_wf _ _ A ref c Hc) as [Hlt Hidc].
  rewrite Hid, Hidc.
  set (dead := set_energy 0 (set_isAlive false c1)).
  assert (Hwf' : forall reg', storeWellFormed
            (set_objects (<[ref := dead]> (objects g)) (set_speciesRegistry reg' g))).
  { intros reg'. apply (insert_storeWellFormed g _ ref c dead);
      [reflexivity | reflexivity | exact Hc | exact Hid | apply (acc_wf _ _ A)]. }
  assert (Hstored : forall r, r ∈ l -> is_Some (<[ref := dead]> (objects g) !! r)).
  { intros r Hin. destruct (decide (ref = r)) as [->|Hne].
    - rewrite lookup_insert_eq. eauto.
    - rewrite lookup_insert_ne by assumption. apply (acc_stored _ _ A r Hin). }
  destruct (creatureSpecies (speciesRegistry g) !! ref) as [sid|] eqn:Hmap.
  - destruct (acc_mapped _ _ A ref sid Hmap) as (Hin & _ & Hsid).
    destruct (speciesGet_present sid _ Hsid) as [sp Hget].
    destruct (speciesGet_Some _ _ _ Hget) as [Hspin Hspid].
    rewrite (recordDeath_mapped ref sid _ sp Hmap Hget).
    set (sp' := {| species.id := species.id sp; population := (population sp - 1)%Z |}).
    assert (Hsp' : species.id sp' = sid) by exact Hspid.
    split; cbn [speciesRegistry set_speciesRegistry set_objects objects species
                creatureSpecies nextSpeciesId].
    + apply Hwf'.
    + apply (acc_nodup _ _ A).
    + exact Hstored.
    + intros r s2 H. destruct (decide (ref = r)) as [->|Hne].
      { rewrite lookup_delete_eq in H. discriminate. }
      rewrite lookup_delete_ne in H by assumption.
      destruct (acc_mapped _ _ A r s2 H) as (Hrin & Hobj & Hs2).
      split; [exact Hrin|]. split.
      * rewrite lookup_insert_ne by assumption. exact Hobj.
      * rewrite speciesSet_ids; assumption.
    + intros r c' Hrin Hc' Ha'. destruct (decide (ref = r)) as [->|Hne].
      { rewrite lookup_insert_eq in Hc'. inversion Hc'; subst c'. discriminate Ha'. }
      rewrite lookup_insert_ne in Hc' by assumption.
      rewrite lookup_delete_ne by assumption.
      apply (acc_alive _ _ A r c' Hrin Hc' Ha').
    + rewrite speciesSet_ids by assumption. apply (acc_ids _ _ A).
    + intros s Hs. apply speciesSet_elem in Hs;
        [|assumption | apply (acc_ids _ _ A) | assumption].
      destruct Hs as [->|[Hs Hne]].
      * apply (acc_fresh _ _ A sp Hspin).
      * apply (acc_fresh _ _ A s Hs).
    + intros s Hs. apply speciesSet_elem in Hs;
        [|assumption | apply (acc_ids _ _ A) | assumption].
      destruct Hs as [->|[Hs Hne]].
      * subst sp'. cbn [population species.id]. rewrite (acc_population _ _ A sp Hspin).
        rewrite Hspid.
        rewrite (countIn_delete_same _ sid ref l Hmap Hin (acc_nodup _ _ A)). lia.
      * rewrite (acc_population _ _ A s Hs).
        rewrite countIn_delete_other; [reflexivity|]. congruence.
  - rewrite (recordDeath_unmapped ref _ Hmap).
    split; cbn [speciesRegistry set_speciesRegistry set_objects objects].
    + apply Hwf'.
    + apply (acc_nodup _ _ A).
    + exact Hstored.
    + intros r s2 H. destruct (acc_mapped _ _ A r s2 H) as (Hrin & Hobj & Hs2).
      split; [exact Hrin|]. split; [|exact Hs2].
      rewrite lookup_insert_ne; [exact Hobj|]. intros ->. congruence.
    + intros r c' Hrin Hc' Ha'. destruct (decide (ref = r)) as [->|Hne].
      { rewrite lookup_insert_eq in Hc'. inversion Hc'; subst c'. discriminate Ha'. }
      rewrite lookup_insert_ne in Hc' by assumption.
      apply (acc_alive _ _ A r c' Hrin Hc' Ha').
    + apply (acc_ids _ _ A).
    + apply (acc_fresh _ _ A).
    + apply (acc_population _ _ A).
Qed.

Lemma findMatching_fold_elem (traits : Traits) (M m : list Species)
    (best : option (Species * R)) :
  (forall s d, best = Some (s, d) -> s ∈ M) ->
  (forall s, s ∈ m -> s ∈ M) ->
  forall s d, fold_left (findMatchingStep traits) m best = Some (s, d) -> s ∈ M.
Proof.
  revert best. induction m as [|s0 m IH]; intros best Hb Hm s d H; cbn in H.
  - eapply Hb, H.
  - eapply IH; [| |exact H].
    + intros s1 d1 H1. unfold findMatchingStep in H1.
      destruct (Z.eqb (population s0) 0); [eapply Hb, H1|].
      destruct (_ && _).
      * inversion H1; subst. apply Hm. left.
      * eapply Hb, H1.
    + intros s1 Hs1. apply Hm. right. exact Hs1.
Qed.

Lemma findMatchingSpecies_elem (traits : Traits) (reg : SpeciesRegistry) (sp : Species) :
  findMatchingSpecies traits reg = Some sp -> sp ∈ species reg.
Proof.
  unfold findMatchingSpecies. intros H.
  destruct (fold_left _ _ _) as [[s d]|] eqn:E; [|discriminate].
  cbn in H. inversion H; subst.
  eapply findMatching_fold_elem; [| |exact E]; [discriminate | auto].
Qed.

Lemma countIn_zero (cs : gmap nat nat) (sid : nat) (l : list nat) :
  (forall ref, ref ∈ l -> cs !! ref <> Some sid) -> countIn cs sid l = 0%nat.
Proof.
  induction l as [|r l IH]; intros H; [reflexivity|].
  rewrite countIn_cons, IH.
  - rewrite decide_False; [reflexivity|]. apply H. left.
  - intros ref Hin. apply H. right. exact Hin.
Qed.

(** [createSpecies] keeps the accounts. *)
Lemma createSpecies_accounted (l : list nat) (g : Globals) (traits : Traits) (t : R) :
  accounted l g ->
  accounted l (set_speciesRegistry (snd (createSpecies traits t (speciesRegistry g))) g)
  /\ fst (createSpecies traits t (speciesRegistry g))
       ∈ species (snd (createSpecies traits t (speciesRegistry g)))
  /\ creatureSpecies (snd (createSpecies traits t (speciesRegistry g)))
     = creatureSpecies (speciesRegistry g).
Proof.
  intros A. unfold createSpecies. cbn [fst snd].
  set (reg := speciesRegistry g) in *.
  set (sp0 := {| species.id := nextSpeciesId reg; population := 0 |}).
  assert (Hfresh : nextSpeciesId reg ∉ map species.id (species reg)).
  { intros Hin. apply elem_of_map_id_inv in Hin. destruct Hin as (s & Hs & Hid).
    pose proof (acc_fresh _ _ A s Hs). fold reg in H. lia. }
  rewrite (speciesSet_fresh _ sp0 _ Hfresh).
  split; [|split; [cbn; apply elem_of_app; right; left | reflexivity]].
  split; cbn [speciesRegistry set_speciesRegistry objects species creatureSpecies nextSpeciesId].
  - apply (acc_wf _ _ A).
  - apply (acc_nodup _ _ A).
  - apply (acc_stored _ _ A).
  - intros ref sid H. destruct (acc_mapped _ _ A ref sid H) as (Hin & Hobj & Hsid).
    split; [exact Hin|]. split; [exact Hobj|].
    rewrite map_app. apply elem_of_app. left. exact Hsid.
  - apply (acc_alive _ _ A).
  - rewrite map_app. apply NoDup_app. split; [apply (acc_ids _ _ A)|]. split.
    + intros x Hx Hx'. cbn in Hx'. apply list_elem_of_singleton in Hx'. subst x. contradiction.
    + cbn. apply NoDup_singleton.
  - intros s Hs. apply elem_of_app in Hs. destruct Hs as [Hs|Hs].
    + pose proof (acc_fresh _ _ A s Hs). fold reg in H. lia.
    + apply list_elem_of_singleton in Hs. subst s. cbn. lia.
  - intros s Hs. apply elem_of_app in Hs. destruct Hs as [Hs|Hs].
    + apply (acc_population _ _ A s Hs).
    + apply list_elem_of_singleton in Hs. subst s. cbn [population sp0 species.id].
      rewrite countIn_zero; [reflexivity|].
      intros ref Hin Hmap. destruct (acc_mapped _ _ A ref _ Hmap) as (_ & _ & Hsid).
      contradiction.
Qed.

(** A living creature that is not in the world yet joins a species of the
    registry and the world. *)
Lemma enroll_accounted (l : list nat) (g : Globals) (ref : nat) (c : Creature)
    (sp0 sp' : Species) :
  accounted l g ->
  objects g !! ref = Some c -> isAlive c = true -> ref ∉ l ->
  sp0 ∈ species (speciesRegistry g) ->
  species.id sp' = species.id sp0 ->
  population sp' = (population sp0 + 1)%Z ->
  accounted (l ++ [ref])
    (set_objects (<[ref := set_speciesId (Some (species.id sp0)) c]> (objects g))
       (set_speciesRegistry
          {| species := speciesSet (species.id sp0) sp' (species (speciesRegistry g));
             creatureSpecies := <[ref := species.id sp0]> (creatureSpecies (speciesRegistry g));
             nextSpeciesId := nextSpeciesId (speciesRegistry g) |} g)).
Proof.
  intros A Hc Ha Hnotin Hsp0 Hid Hpop.
  set (reg := speciesRegistry g) in *.
  assert (Hsid : species.id sp0 ∈ map species.id (species reg)) by (apply elem_of_map_id, Hsp0).
  assert (Hunmapped : creatureSpecies reg !! ref = None).
  { destruct (creatureSpecies reg !! ref) eqn:E; [|reflexivity].
    destruct (acc_mapped _ _ A ref _ E) as (Hin & _). contradiction. }
  split; cbn [speciesRegistry set_speciesRegistry set_objects objects species
              creatureSpecies nextSpeciesId].
  - apply (insert_storeWellFormed g _ ref c (set_speciesId (Some (species.id sp0)) c));
      [reflexivity | reflexivity | exact Hc | reflexivity | apply (acc_wf _ _ A)].
  - apply NoDup_app. split; [apply (acc_nodup _ _ A)|]. split.
    + intros x Hx Hx'. apply list_elem_of_singleton in Hx'. subst x. contradiction.
    + apply NoDup_singleton.
  - intros r Hr. destruct (decide (ref = r)) as [->|Hne].
    + rewrite lookup_insert_eq. eauto.
    + rewrite lookup_insert_ne by assumption.
      apply elem_of_app in Hr. destruct Hr as [Hr|Hr]; [apply (acc_stored _ _ A r Hr)|].
      apply list_elem_of_singleton in Hr. congruence.
  - intros r sid H. destruct (decide (ref = r)) as [->|Hne].
    + rewrite lookup_insert_eq in H. inversion H; subst sid.
      split; [apply elem_of_app; right; left|]. split.
      * rewrite lookup_insert_eq. eexists. split; [reflexivity|]. split; [exact Ha | reflexivity].
      * rewrite speciesSet_ids; assumption.
    + rewrite lookup_insert_ne in H by assumption.
      destruct (acc_mapped _ _ A r sid H) as (Hin & Hobj & Hs).
      split; [apply elem_of_app; left; exact Hin|]. split.
      * rewrite lookup_insert_ne by assumption. exact Hobj.
      * rewrite speciesSet_ids by assumption. exact Hs.
  - intros r c' Hr Hc' Ha'. destruct (decide (ref = r)) as [->|Hne].
    + rewrite lookup_insert_eq. eauto.
    + rewrite lookup_insert_ne by assumption. rewrite lookup_insert_ne in Hc' by assumption.
      apply elem_of_app in Hr. destruct Hr as [Hr|Hr]; [apply (acc_alive _ _ A r c' Hr Hc' Ha')|].
      apply list_elem_of_singleton in Hr. congruence.
  - rewrite speciesSet_ids by assumption. apply (acc_ids _ _ A).
  - intros s Hs. apply speciesSet_elem in Hs;
      [|assumption | apply (acc_ids _ _ A) | assumption].
    destruct Hs as [->|[Hs Hne]].
    + rewrite Hid. apply (acc_fresh _ _ A sp0 Hsp0).
    + apply (acc_fresh _ _ A s Hs).
  - intros s Hs. apply speciesSet_elem in Hs;
      [|assumption | apply (acc_ids _ _ A) | assumption].
    destruct Hs as [->|[Hs Hne]].
    + rewrite Hpop, Hid, (acc_population _ _ A sp0 Hsp0).
      rewrite countIn_insert_fresh by assumption.
      rewrite decide_True by reflexivity. fold reg. lia.
    + rewrite (acc_population _ _ A s Hs).
      rewrite countIn_insert_fresh by assumption.
      rewrite decide_False by congruence. fold reg. lia.
Qed.

Lemma assignSpecies_accounted (l : list nat) (g : Globals) (ref : nat) (c : Creature)
    (traits : Traits) (generation : nat) (t : R) :
  accounted l g ->
  objects g !! ref = Some c -> isAlive c = true -> ref ∉ l ->
  accounted (l ++ [ref])
    (set_objects
       (<[ref := set_speciesId
                   (Some (species.id (fst (assignSpecies (creature.id c) traits generation t
                                             (speciesRegistry g))))) c]> (objects g))
       (set_speciesRegistry
          (snd (assignSpecies (creature.id c) traits generation t (speciesRegistry g))) g)).
Proof.
  intros A Hc Ha Hnotin.
  destruct (acc_wf _ _ A ref c Hc) as [_ Hid]. rewrite Hid.
  unfold assignSpecies.
  destruct (findMatchingSpecies traits (speciesRegistry g)) as [sp|] eqn:Hfind;
    cbn [fst snd species.id].
  - apply findMatchingSpecies_elem in Hfind.
    apply (enroll_accounted l g ref c sp); auto.
  - destruct (createSpecies_accounted l g traits t A) as (A0 & Hin0 & Hcs0).
    set (r0 := createSpecies traits t (speciesRegistry g)) in *.
    pose proof (enroll_accounted l (set_speciesRegistry (snd r0) g) ref c (fst r0)
                  {| species.id := species.id (fst r0);
                     prototypeTraits :=
                       fold_left
                         (fun proto key =>
                            setTrait key
                              (getTrait key proto * (1 - 1 / IZR (population (fst r0) + 1))
                               + getTrait key traits * (1 / IZR (population (fst r0) + 1)))%R
                              proto)
                         traitKeys (prototypeTraits (fst r0));
                     population := (population (fst r0) + 1)%Z;
                     totalBirths := (totalBirths (fst r0) + 1)%Z;
                     totalDeaths := totalDeaths (fst r0);
                     species.generation :=
                       if (species.generation (fst r0) <? generation)%nat
                       then generation else species.generation (fst r0);
                     createdAt := createdAt (fst r0) |}
                  A0 Hc Ha Hnotin Hin0 eq_refl eq_refl) as H.
    exact H.
Qed.

(** [addCreature] of a living creature that is not in the world yet *)
Lemma addCreature_accounted (CONFIG : Config) (ref : nat) (w : World) (g : Globals) :
  alive g ref = true -> ref ∉ creatures w ->
  accounted (creatures w) g ->
  accounted (creatures (fst (addCreature CONFIG ref w g))) (snd (addCreature CONFIG ref w g)).
Proof.
  intros Ha Hnotin A.
  destruct (Nat.lt_ge_cases (length (creatures w)) (MAX_CREATURES CONFIG)) as [Hlt|Hge].
  - unfold alive in Ha. destruct (objects g !! ref) as [c|] eqn:Hc; [|discriminate].
    rewrite (addCreature_run CONFIG ref w g c Hlt Hc). cbn [fst snd].
    replace (creatures _) with (creatures w ++ [ref]) by (destruct (_ <? _)%nat; reflexivity).
    apply assignSpecies_accounted; assumption.
  - rewrite addCreature_full by assumption. exact A.
Qed.

Lemma call_accounted (l : list nat) (this : nat)
    (body : Creature -> State SpeciesRegistry Creature) (g : Globals) :
  (forall c reg,
      (keepsLife c (fst (body c reg)) /\ snd (body c reg) = reg)
      \/ (exists c1, creature.id c1 = creature.id c /\ speciesId c1 = speciesId c
                     /\ body c reg = die c1 reg)) ->
  accounted l g -> accounted l (snd (call this body g)).
Proof.
  intros Hb A. destruct (objects g !! this) as [c|] eqn:Hc.
  - rewrite (call_objects this body g c Hc).
    destruct (Hb c (speciesRegistry g)) as [[Hk Hr]|(c1 & Hid & Hsp & Hd)].
    + eapply sameLives_accounted; [|exact A].
      eapply insert_sameLives; [reflexivity | reflexivity | exact Hr | exact Hc | exact Hk
                               | apply (acc_wf _ _ A)].
    + rewrite Hd. apply (death_accounted l g this c c1); assumption.
  - rewrite call_missing by assumption. exact A.
Qed.

Lemma update_accounted (CONFIG : Config) (l : list nat) (this : nat) (dt t : R) (g : Globals) :
  accounted l g -> accounted l (snd (call this (update CONFIG dt t) g)).
Proof.
  apply call_accounted. intros c reg.
  destruct (update_cases CONFIG dt t c reg) as [[_ ->]|[[_ ->]|[_ ->]]].
  - left. cbn. repeat split.
  - right. exists (updateVitals CONFIG dt c).
    destruct (updateVitals_fields CONFIG dt c) as (H1 & _ & H3). auto.
  - left. cbn [fst snd]. split; [|reflexivity].
    destruct (updateVitals_fields CONFIG dt c) as (H1 & H2 & H3).
    destruct (updatePosition_fields CONFIG dt (updateVitals CONFIG dt c)) as (H4 & H5 & H6 & _).
    repeat split; congruence.
Qed.

Lemma takeDamage_accounted (l : list nat) (this : nat) (amount : R) (g : Globals) :
  accounted l g -> accounted l (snd (call this (takeDamage amount) g)).
Proof.
  apply call_accounted. intros c reg.
  destruct (takeDamage_cases amount c reg) as [[_ ->]|[_ ->]].
  - right. exists (set_energy (energy c - amount) c). auto.
  - left. cbn. repeat split.
Qed.

Lemma die_accounted (l : list nat) (this : nat) (g : Globals) :
  accounted l g -> accounted l (snd (call this die g)).
Proof.
  apply call_accounted. intros c reg. right. exists c. auto.
Qed.

(** Every creature call keeps the accounts of any list of creatures. *)
Lemma creatureCall_accounted (CONFIG : Config) (l : list nat) (g g' : Globals) :
  creatureCall CONFIG anyCall g g' -> accounted l g -> accounted l g'.
Proof.
  intros Hcall A. pose proof (acc_wf _ _ A) as Hwf.
  destruct Hcall as [px py traits generation|this dt t|this target dt|this target dt
                    |this dt|this threat dt|this amount H|this amount H
                    |this currentTime mutationRate|this partner currentTime mutationRate
                    |this].
  - eapply sameLives_accounted; [|exact A].
    apply extends_sameLives, new_Creature_extends, Hwf.
  - apply update_accounted, A.
  - eapply sameLives_accounted; [|exact A]. apply assign_sameLives; [|exact Hwf].
    intros c. destruct (seekTarget_fields target dt c) as (H1 & H2 & _).
    unfold seekTarget. cbv zeta. repeat split; case_ifs; reflexivity.
  - eapply sameLives_accounted; [|exact A]. apply assign_sameLives; [|exact Hwf].
    intros c. unfold huntTarget. cbv zeta. repeat split; case_ifs; reflexivity.
  - eapply sameLives_accounted; [|exact A]. apply callRandom_sameLives; [|exact Hwf].
    intros c r. unfold wander, bind, ret. cbn. repeat split; case_ifs; reflexivity.
  - eapply sameLives_accounted; [|exact A]. apply assign_sameLives; [|exact Hwf].
    intros c. unfold fleeFrom. cbv zeta. repeat split; case_ifs; reflexivity.
  - eapply sameLives_accounted; [|exact A]. apply assign_sameLives; [|exact Hwf].
    intros c. repeat split.
  - apply takeDamage_accounted, A.
  - eapply sameLives_accounted; [|exact A].
    apply extends_sameLives, reproduceAsexual_keeps, Hwf.
  - eapply sameLives_accounted; [|exact A].
    apply extends_sameLives, reproduceSexual_keeps, Hwf.
  - apply die_accounted, A.
Qed.

Lemma frame_sameLives (g g' : Globals) :
  objects g' = objects g -> nextCreatureId g' = nextCreatureId g ->
  speciesRegistry g' = speciesRegistry g ->
  storeWellFormed g -> sameLives g g'.
Proof.
  intros Ho Hn Hr Hwf. split; [exact Hr | | ].
  - intros ref c H. rewrite Ho. eauto.
  - intros ref c H. rewrite Ho in H. rewrite Hn. apply (Hwf ref c H).
Qed.

Lemma createCorpses_framed (refs : list nat) (w : World) (g : Globals) :
  framed w g (createCorpses refs w g).
Proof.
  revert w g. induction refs as [|ref rest IH]; intros w g; cbn [createCorpses].
  - repeat split.
  - unfold bind at 1. cbn [get fst snd].
    destruct (objects g !! ref) as [c|]; [|apply IH].
    destruct (negb (isAlive c) && _); [|apply IH].
    destruct (_ <? _)%nat; [|apply IH].
    unfold bind at 1.
    match goal with
    | |- framed _ _ (createCorpses rest ?w' ?g') =>
        destruct (IH w' g') as (H1 & H2 & H3 & H4)
    end.
    split; [exact H1|]. split; [exact H2|]. split; [exact H3|exact H4].
Qed.

Lemma createCorpses_frame (refs : list nat) (w : World) (g : Globals) :
  creatures (fst (createCorpses refs w g)) = creatures w
  /\ objects (snd (createCorpses refs w g)) = objects g
  /\ nextCreatureId (snd (createCorpses refs w g)) = nextCreatureId g
  /\ speciesRegistry (snd (createCorpses refs w g)) = speciesRegistry g.
Proof. apply createCorpses_framed. Qed.

Lemma filter_alive_accounted (l : list nat) (g : Globals) :
  accounted l g -> accounted (filter (fun ref => alive g ref = true) l) g.
Proof.
  intros A. split.
  - apply (acc_wf _ _ A).
  - apply NoDup_filter, (acc_nodup _ _ A).
  - intros ref Hin. apply list_elem_of_filter in Hin. apply (acc_stored _ _ A), Hin.
  - intros ref sid H. destruct (acc_mapped _ _ A ref sid H) as (Hin & (c & Hc & Ha & Hs) & Hsid).
    split; [|split; [eauto | exact Hsid]].
    apply list_elem_of_filter. split; [|exact Hin]. unfold alive. rewrite Hc. exact Ha.
  - intros ref c Hin Hc Ha. apply list_elem_of_filter in Hin.
    apply (acc_alive _ _ A ref c); [apply Hin | exact Hc | exact Ha].
  - apply (acc_ids _ _ A).
  - apply (acc_fresh _ _ A).
  - intros s Hs. rewrite (acc_population _ _ A s Hs). f_equal. symmetry.
    apply countIn_filter. intros ref Hin Hmap.
    destruct (acc_mapped _ _ A ref _ Hmap) as (_ & (c & Hc & Ha & _) & _).
    unfold alive. rewrite Hc. exact Ha.
Qed.

Lemma cleanup_accounted (w : World) (g : Globals) :
  accounted (creatures w) g ->
  accounted (creatures (fst (cleanup w g))) (snd (cleanup w g)).
Proof.
  intros A. unfold cleanup, bind, get, ret. cbn [fst snd creatures set_corpses set_food
                                                 set_creatures set_totalDeaths].
  destruct (createCorpses_frame (creatures w) w g) as (H1 & H2 & H3 & H4).
  rewrite H1.
  apply filter_alive_accounted.
  eapply sameLives_accounted; [|exact A].
  apply frame_sameLives; auto. apply (acc_wf _ _ A).
Qed.

Lemma withRandom_sameLives {A : Type} (m : State RandomSource A) (g : Globals) :
  storeWellFormed g -> sameLives g (snd (withRandom m g)).
Proof.
  intros Hwf. apply frame_sameLives; try reflexivity. exact Hwf.
Qed.

Lemma emigrate_keepsAccounts (CONFIG : Config) (l : list nat) (dt : R) (ref : nat)
    (w : World) (g : Globals) :
  accounted l g -> keepsAccounts l w (emigrate CONFIG dt ref w g).
Proof.
  intros A. unfold emigrate. unfold bind at 1. cbn [get fst snd].
  destruct (objects g !! ref) as [c|]; [|split; [reflexivity|exact A]].
  destruct (negb (isAlive c)); [split; [reflexivity|exact A]|].
  cbv zeta.
  destruct (negb _ && negb _ && negb _ && negb _); [split; [reflexivity|exact A]|].
  destruct (_ && existsb _ _); [split; [reflexivity|exact A]|].
  destruct (_ >? 0)%R; [|split; [reflexivity|exact A]].
  unfold bind at 1.
  pose proof (sameLives_accounted l _ _
                (withRandom_sameLives Math_random g (acc_wf _ _ A)) A) as A1.
  destruct (_ <? _)%R; [|split; [reflexivity|exact A1]].
  unfold bind, ret. cbn [fst snd]. split; [reflexivity|].
  apply die_accounted, A1.
Qed.

Lemma emigrate_accounted (CONFIG : Config) (l : list nat) (dt : R) (ref : nat)
    (w : World) (g : Globals) :
  accounted l g ->
  creatures (fst (emigrate CONFIG dt ref w g)) = creatures w
  /\ accounted l (snd (emigrate CONFIG dt ref w g)).
Proof. apply emigrate_keepsAccounts. Qed.

Lemma emigrateAll_accounted (CONFIG : Config) (l : list nat) (dt : R) (refs : list nat)
    (w : World) (g : Globals) :
  accounted l g ->
  creatures (fst (emigrateAll CONFIG dt refs w g)) = creatures w
  /\ accounted l (snd (emigrateAll CONFIG dt refs w g)).
Proof.
  revert w g. induction refs as [|ref rest IH]; intros w g A; cbn [emigrateAll].
  - split; [reflexivity|exact A].
  - unfold bind.
    destruct (emigrate_accounted CONFIG l dt ref w g A) as [E1 A1].
    destruct (IH (fst (emigrate CONFIG dt ref w g)) _ A1) as [E2 A2].
    split; [congruence|exact A2].
Qed.

Lemma processEmigration_accounted (CONFIG : Config) (dt : R) (w : World) (g : Globals) :
  accounted (creatures w) g ->
  accounted (creatures (fst (processEmigration CONFIG dt w g)))
            (snd (processEmigration CONFIG dt w g)).
Proof.
  intros A. unfold processEmigration.
  destruct (emigrateAll_accounted CONFIG (creatures w) dt (creatures w) w g A) as [E A'].
  rewrite E. exact A'.
Qed.

Lemma draw_then {A : Type} (Q : World * Globals -> Prop) (l : list nat)
    (m : State RandomSource A) (k : A -> State Globals World) (g : Globals) :
  accounted l g ->
  (forall a g', accounted l g' -> Q (k a g')) ->
  Q ((a <- withRandom m ;; k a) g).
Proof.
  intros A0 H. unfold bind. apply H.
  eapply sameLives_accounted; [|exact A0]. apply withRandom_sameLives, (acc_wf _ _ A0).
Qed.

Lemma accounted_fresh (l : list nat) (g : Globals) :
  accounted l g -> nextCreatureId g ∉ l.
Proof.
  intros A Hin. destruct (acc_stored _ _ A _ Hin) as [c Hc].
  destruct (acc_wf _ _ A _ _ Hc) as [Hlt _]. lia.
Qed.

Lemma spawnFounder_accounted (CONFIG : Config) (w : World) (g : Globals) :
  accounted (creatures w) g -> accountedWorld (spawnFounder CONFIG w g).
Proof.
  intros A. unfold spawnFounder.
  apply (draw_then accountedWorld (creatures w)); [exact A|]. clear g A. intros r1 g A.
  cbv beta zeta.
  apply (draw_then accountedWorld (creatures w)); [exact A|]. clear g A. intros r2 g A.
  cbv beta zeta.
  apply (draw_then accountedWorld (creatures w)); [exact A|]. clear g A. intros t1 g A.
  apply (draw_then accountedWorld (creatures w)); [exact A|]. clear g A. intros t2 g A.
  cbv beta zeta.
  apply (draw_then accountedWorld (creatures w)); [exact A|]. clear g A. intros r3 g A.
  cbv beta zeta.
  match goal with
  | |- context [new_Creature CONFIG ?x ?y ?t ?n] =>
      destruct (new_Creature_result CONFIG x y t n g)
        as (c & r & Hfst & Hsnd & Hid & Halive & Hsp & _);
      pose proof (sameLives_accounted _ _ _
                    (extends_sameLives _ _
                       (new_Creature_extends CONFIG x y t n g (acc_wf _ _ A))) A) as A1
  end.
  pose proof (accounted_fresh _ _ A) as Hfresh.
  unfold bind at 1. rewrite Hfst. rewrite Hsnd in A1 |- *.
  set (gb := set_objects _ _) in *.
  assert (Hc : objects gb !! nextCreatureId g = Some c) by apply lookup_insert_eq.
  unfold bind at 1. cbn [get fst snd]. rewrite Hc.
  unfold bind, withRegistry, assign, ret. cbn [fst snd].
  change (objects (set_speciesRegistry ?r gb)) with (objects gb). rewrite Hc.
  unfold accountedWorld. cbn [fst snd].
  apply (assignSpecies_accounted (creatures w) gb (nextCreatureId g) c); assumption.
Qed.

Lemma spawnFounders_accounted (CONFIG : Config) (n : nat) (w : World) (g : Globals) :
  accounted (creatures w) g -> accountedWorld (spawnFounders CONFIG n w g).
Proof.
  revert w g. induction n as [|n IH]; intros w g A; cbn [spawnFounders].
  - exact A.
  - unfold bind. apply IH. apply spawnFounder_accounted, A.
Qed.

Lemma spawnRandomFood_sameLives (CONFIG : Config) (g : Globals) :
  storeWellFormed g -> sameLives g (snd (food.spawnRandomFood CONFIG g)).
Proof.
  intros Hwf. apply frame_sameLives; try exact Hwf.
  - unfold food.spawnRandomFood, food.new_Food, bind, withRandom, get, modify, ret. cbn.
    repeat (case_ifs; cbn); reflexivity.
  - unfold food.spawnRandomFood, food.new_Food, bind, withRandom, get, modify, ret. cbn.
    repeat (case_ifs; cbn); reflexivity.
  - unfold food.spawnRandomFood, food.new_Food, bind, withRandom, get, modify, ret. cbn.
    repeat (case_ifs; cbn); reflexivity.
Qed.

Lemma spawnInitialFood_accounted (CONFIG : Config) (n : nat) (l : list nat)
    (w : World) (g : Globals) :
  creatures w = l -> accounted l g ->
  accountedWorld (spawnInitialFood CONFIG n w g).
Proof.
  revert w g. induction n as [|n IH]; intros w g Hl A; cbn [spawnInitialFood].
  - unfold accountedWorld, ret. cbn. rewrite Hl. exact A.
  - unfold bind. apply IH; [exact Hl|].
    eapply sameLives_accounted; [|exact A].
    apply spawnRandomFood_sameLives, (acc_wf _ _ A).
Qed.

Lemma reset_accounted (g : Globals) :
  storeWellFormed g -> accounted [] (snd (withRegistry species.reset g)).
Proof.
  intros Hwf. split; cbn.
  - exact Hwf.
  - constructor.
  - intros ref H. inversion H.
  - intros ref sid H. rewrite lookup_empty in H. discriminate.
  - intros ref c H. inversion H.
  - constructor.
  - intros s H. inversion H.
  - intros s H. inversion H.
Qed.

Lemma initialize_accounted (CONFIG : Config) (n : option nat) (w : World) (g : Globals) :
  storeWellFormed g -> accountedWorld (initialize CONFIG n w g).
Proof.
  intros Hwf. unfold initialize. cbv zeta. unfold bind at 1. unfold bind.
  match goal with
  | |- accountedWorld (spawnInitialFood _ _ (fst ?r) (snd ?r)) =>
      assert (A : accountedWorld r)
  end.
  { apply spawnFounders_accounted. cbn [creatures set_creatures set_food set_corpses
      set_totalBirths set_totalDeaths set_generationMax set_simulationTime].
    apply reset_accounted, Hwf. }
  apply (spawnInitialFood_accounted CONFIG _ _ _ _ eq_refl A).
Qed.

Lemma initial_accounted (rnd : nat -> R) : accounted [] (initialGlobals rnd).
Proof.
  split; cbn.
  - apply initialGlobals_wf.
  - constructor.
  - intros ref H. inversion H.
  - intros ref sid H. rewrite lookup_empty in H. discriminate.
  - intros ref c H. inversion H.
  - constructor.
  - intros s H. inversion H.
  - intros s H. inversion H.
Qed.

Lemma worldStep_accounted (CONFIG : Config) (w w' : World) (g g' : Globals) :
  worldStep CONFIG asSimulated w g w' g' ->
  accounted (creatures w) g -> accounted (creatures w') g'.
Proof.
  intros Hstep A. destruct Hstep as [n|ref [Ha Hn]|g' Hcall|dt| | |dt].
  - apply initialize_accounted, (acc_wf _ _ A).
  - apply addCreature_accounted; assumption.
  - eapply creatureCall_accounted; eassumption.
  - apply processEmigration_accounted, A.
  - apply cleanup_accounted, A.
  - exact A.
  - exact A.
Qed.

Lemma worldReachable_accounted (CONFIG : Config) (w : World) (g : Globals) :
  worldReachable CONFIG asSimulated w g -> accounted (creatures w) g.
Proof.
  induction 1 as [rnd|w g w' g' _ IH Hstep].
  - apply initial_accounted.
  - eapply worldStep_accounted; eassumption.
Qed.

Lemma totalPopulation_from (l : list Species) (n : Z) :
  fold_left (fun n s => (n + population s)%Z) l n = (n + totalPopulation l)%Z.
Proof.
  unfold totalPopulation. revert n. induction l as [|s l IH]; intros n; cbn.
  - lia.
  - rewrite (IH (n + population s)%Z), (IH (0 + population s)%Z). lia.
Qed.

Lemma totalPopulation_cons (s : Species) (l : list Species) :
  totalPopulation (s :: l) = (population s + totalPopulation l)%Z.
Proof. unfold totalPopulation at 1. cbn. apply totalPopulation_from. Qed.

Lemma totalPopulation_active (l : list Species) :
  (forall s, s ∈ l -> (0 <= population s)%Z) ->
  totalPopulation (filter (fun s => (0 <? population s)%Z = true) l) = totalPopulation l.
Proof.
  induction l as [|s l IH]; intros H; [reflexivity|].
  assert (Hs : (0 <= population s)%Z) by (apply H; left).
  assert (Hl : forall s0, s0 ∈ l -> (0 <= population s0)%Z) by (intros; apply H; right; assumption).
  rewrite filter_cons. destruct (decide _) as [Hp|Hp].
  - rewrite !totalPopulation_cons, IH by exact Hl. reflexivity.
  - rewrite totalPopulation_cons, IH by exact Hl.
    destruct (Z.ltb_spec 0 (population s)); [congruence|lia].
Qed.

(** Each mapped creature is counted by the one species it is mapped to. *)
Lemma sum_countIn (cs : gmap nat nat) (sp : list Species) (l : list nat) :
  NoDup (map species.id sp) ->
  (forall ref sid, ref ∈ l -> cs !! ref = Some sid -> sid ∈ map species.id sp) ->
  fold_right (fun s n => (countIn cs (species.id s) l + n)%nat) 0%nat sp = mappedCount cs l.
Proof.
  intros Hnd. revert l. induction sp as [|s sp IH]; intros l Hin.
  - cbn. unfold mappedCount. induction l as [|r l IHl]; [reflexivity|].
    rewrite filter_cons. destruct (decide _) as [[sid Hs]|_].
    + exfalso. specialize (Hin r sid (ltac:(left)) Hs). inversion Hin.
    + apply IHl. intros ref sid Hr. apply Hin. right. exact Hr.
  - cbn [fold_right]. cbn [map] in Hnd. apply NoDup_cons in Hnd as [Hnotin Hnd'].
    (* the creatures of [s] apart, the others are mapped into [sp] *)
    set (others := filter (fun ref => cs !! ref <> Some (species.id s)) l).
    assert (Ho : fold_right (fun s0 n => (countIn cs (species.id s0) l + n)%nat) 0%nat sp
                 = mappedCount cs others).
    { rewrite <- (IH Hnd' others).
      - clear IH Hin. induction sp as [|s0 sp IHsp]; [reflexivity|].
        cbn [fold_right]. cbn [map] in Hnotin, Hnd'.
        apply not_elem_of_cons in Hnotin as [Hne Hnotin].
        apply NoDup_cons in Hnd' as [_ Hnd'].
        rewrite (IHsp Hnotin Hnd'). f_equal. symmetry. unfold others.
        apply countIn_filter. intros ref _ Hs. rewrite Hs. congruence.
      - intros ref sid Hr Hs. apply list_elem_of_filter in Hr as [Hne Hr].
        specialize (Hin ref sid Hr Hs). cbn [map] in Hin.
        apply elem_of_cons in Hin as [->|Hin]; [contradiction|exact Hin]. }
    rewrite Ho. unfold others, mappedCount, countIn. clear.
    induction l as [|r l IHl]; [reflexivity|].
    rewrite !filter_cons.
    destruct (decide (cs !! r = Some (species.id s))) as [Hs|Hs];
      destruct (decide (is_Some (cs !! r))) as [Hm|Hm];
      destruct (decide (cs !! r <> Some (species.id s))) as [Hn|Hn];
      try contradiction; try (exfalso; apply Hm; eauto; fail).
    + cbn [length]. rewrite <- IHl. lia.
    + rewrite filter_cons. destruct (decide _); [|contradiction]. cbn [length].
      rewrite <- IHl. lia.
    + rewrite filter_cons. destruct (decide _); [contradiction|]. exact IHl.
Qed.

Lemma totalPopulation_countIn (cs : gmap nat nat) (sp : list Species) (l : list nat) :
  (forall s, s ∈ sp -> population s = Z.of_nat (countIn cs (species.id s) l)) ->
  totalPopulation sp
  = Z.of_nat (fold_right (fun s n => (countIn cs (species.id s) l + n)%nat) 0%nat sp).
Proof.
  induction sp as [|s sp IH]; intros H; [reflexivity|].
  rewrite totalPopulation_cons. cbn [fold_right].
  rewrite IH by (intros; apply H; right; assumption).
  rewrite (H s) by left. lia.
Qed.

Lemma mappedCount_living (l : list nat) (w : World) (g : Globals) :
  creatures w = l -> accounted l g ->
  mappedCount (creatureSpecies (speciesRegistry g)) l = countLiving w g.
Proof.
  intros Hl A. unfold mappedCount, countLiving. rewrite Hl.
  assert (H : forall ref, ref ∈ l ->
            (is_Some (creatureSpecies (speciesRegistry g) !! ref)
             <-> livingWithSpecies g ref = true)).
  { intros ref Hin. unfold livingWithSpecies. split.
    - intros [sid Hs]. destruct (acc_mapped _ _ A ref sid Hs) as (_ & (c & Hc & Ha & Hsp) & _).
      rewrite Hc, Ha, Hsp. reflexivity.
    - intros H. destruct (objects g !! ref) as [c|] eqn:Hc; [|discriminate].
      apply andb_true_iff in H as [Ha _]. apply (acc_alive _ _ A ref c); assumption. }
  clear Hl A. induction l as [|r l IH]; [reflexivity|].
  rewrite !filter_cons.
  assert (Hr := H r (ltac:(left))).
  assert (IH' := IH (fun ref Hin => H ref (ltac:(right; exact Hin)))).
  destruct (decide (is_Some _)) as [H1|H1]; destruct (decide (livingWithSpecies g r = true)) as [H2|H2].
  - cbn [length]. rewrite IH'. reflexivity.
  - exfalso. apply H2, Hr, H1.
  - exfalso. apply H1, Hr, H2.
  - exact IH'.
Qed.

Lemma accounted_sum (w : World) (g : Globals) :
  accounted (creatures w) g ->
  totalPopulation (getActiveSpecies (speciesRegistry g)) = Z.of_nat (countLiving w g).
Proof.
  intros A. unfold getActiveSpecies.
  rewrite totalPopulation_active.
  - rewrite (totalPopulation_countIn (creatureSpecies (speciesRegistry g)) _ (creatures w))
      by apply (acc_population _ _ A).
    rewrite sum_countIn.
    + f_equal. apply mappedCount_living; [reflexivity|exact A].
    + apply (acc_ids _ _ A).
    + intros ref sid _ Hs. apply (acc_mapped _ _ A ref sid Hs).
  - intros s Hs. rewrite (acc_population _ _ A s Hs). lia.
Qed.


Lemma hatched_alive (x y : R) : alive (hatched x y) 0 = true.
Proof. unfold alive. rewrite hatched_object. reflexivity. Qed.

Lemma settled_reachable (x y : R) :
  worldReachable DEFAULT_CONFIG asSimulated (fst (settled x y)) (snd (settled x y)).
Proof.
  eapply world_step.
  - eapply world_step; [apply (world_start _ _ (fun _ => 0%R))|].
    apply step_creature, (call_new _ _ _ x y (Some sampleTraits) 0%nat).
  - apply (step_addCreature _ _ _ _ 0%nat). split.
    + apply hatched_alive.
    + apply not_elem_of_nil.
Qed.



End AccountsFacts.

(** ** Vectors, generated traits and mutation *)

Section TraitsFacts.

Local Open Scope R_scope.

Import config math genetics.

Lemma magnitude_nonneg (v : Vector2) : 0 <= magnitude v.
Proof. apply sqrt_pos. Qed.

Lemma magnitude_scale (v : Vector2) (k : R) :
  0 <= k -> magnitude {| x := x v * k; y := y v * k |} = k * magnitude v.
Proof.
  intros Hk. unfold magnitude. cbn [x y].
  replace ((x v * k) ^ 2 + (y v * k) ^ 2) with (k * k * (x v ^ 2 + y v ^ 2)) by ring.
  rewrite sqrt_mult_alt by nra. rewrite sqrt_square by exact Hk. reflexivity.
Qed.

Lemma magnitude_zero (v : Vector2) : magnitude v = 0 <-> x v = 0 /\ y v = 0.
Proof.
  unfold magnitude. split.
  - intros H. apply sqrt_eq_0 in H; [|nra]. split; nra.
  - intros [-> ->]. replace (0 ^ 2 + 0 ^ 2) with 0 by ring. apply sqrt_0.
Qed.



Lemma Reqb_true (a b : R) : Reqb a b = true <-> a = b.
Proof. unfold Reqb. destruct (Req_dec_T a b); split; intros; congruence. Qed.

Lemma Reqb_false (a b : R) : Reqb a b = false <-> a <> b.
Proof. unfold Reqb. destruct (Req_dec_T a b); split; intros; congruence. Qed.

(** The zero vector is normalized to itself and every other vector to one of
    magnitude 1; in both cases [normalize v] scaled by the magnitude of [v] is
    [v]. *)
Lemma normalize_unit (v : Vector2) :
  (x v = 0 /\ y v = 0 -> normalize v = {| x := 0; y := 0 |})
  /\ (~ (x v = 0 /\ y v = 0) -> magnitude (normalize v) = 1)
  /\ x (normalize v) * magnitude v = x v
  /\ y (normalize v) * magnitude v = y v.
Proof.
  unfold normalize. cbv zeta.
  destruct (Req_dec_T (magnitude v) 0) as [E|N].
  - rewrite (proj2 (Reqb_true _ _) E).
    pose proof (proj1 (magnitude_zero v) E) as [Hx Hy].
    repeat split; intros; cbn [x y]; try tauto; lra.
  - rewrite (proj2 (Reqb_false _ _) N).
    pose proof (magnitude_nonneg v).
    split; [intros H0; exfalso; apply N, magnitude_zero, H0|].
    split; [|split; cbn [x y]; field; exact N].
    intros _.
    replace {| x := x v / magnitude v; y := y v / magnitude v |}
      with {| x := x v * / magnitude v; y := y v * / magnitude v |} by reflexivity.
    rewrite (magnitude_scale v (/ magnitude v)).
    + field. exact N.
    + apply Rlt_le, Rinv_0_lt_compat. lra.
Qed.

Lemma distance_nonneg (x1 y1 x2 y2 : R) : 0 <= distance x1 y1 x2 y2.
Proof. apply sqrt_pos. Qed.

Lemma distance_sym (x1 y1 x2 y2 : R) : distance x1 y1 x2 y2 = distance x2 y2 x1 y1.
Proof. unfold distance. cbv zeta. f_equal. ring. Qed.

(** [distance] is never negative, symmetric, and 0 exactly between a point and
    itself; [distanceVec] is [distance] on the coordinates. *)
Lemma distance_metric (x1 y1 x2 y2 : R) :
  0 <= distance x1 y1 x2 y2
  /\ distance x1 y1 x2 y2 = distance x2 y2 x1 y1
  /\ (distance x1 y1 x2 y2 = 0 <-> x1 = x2 /\ y1 = y2)
  /\ distanceVec {| x := x1; y := y1 |} {| x := x2; y := y2 |} = distance x1 y1 x2 y2.
Proof.
  split; [apply distance_nonneg|]. split; [apply distance_sym|]. split; [|reflexivity].
  unfold distance. cbv zeta. split.
  - intros H.
    assert (H0 : 0 <= (x2 - x1) * (x2 - x1) + (y2 - y1) * (y2 - y1))
      by (apply Rplus_le_le_0_compat; apply Rle_0_sqr).
    apply (sqrt_eq_0 _ H0) in H.
    destruct (Rplus_sqr_eq_0 (x2 - x1) (y2 - y1) H) as [Hx Hy]. split; lra.
  - intros [-> ->]. replace ((x2 - x2) * (x2 - x2) + (y2 - y2) * (y2 - y2)) with 0 by ring.
    apply sqrt_0.
Qed.

Lemma hoare_pure {S A : Type} (F : Prop) (P : S -> Prop) (m : State S A)
    (Q : A -> S -> Prop) :
  (F -> hoare P m Q) -> hoare (fun s => F /\ P s) m Q.
Proof. intros H s [HF HP]. apply H; assumption. Qed.

Lemma Math_random_hoare :
  hoare unitSource Math_random (fun r s => 0 <= r < 1 /\ unitSource s).
Proof. intros s H. split; [apply H | exact H]. Qed.

Lemma randomTrait_hoare (traitName : TraitName) :
  hoare unitSource (randomTrait traitName) (fun v s => 0 <= v <= 1 /\ unitSource s).
Proof.
  unfold randomTrait. eapply hoare_bind; [apply Math_random_hoare|].
  intros r. cbv beta. apply hoare_pure. intros Hr. apply hoare_ret. intros s Hs.
  split; [|exact Hs]. destruct traitName; cbn; lra.
Qed.

(** One more draw, named, with its bounds *)
Ltac draw_trait :=
  eapply hoare_bind; [apply randomTrait_hoare|];
  let v := fresh "v" in let Hv := fresh "Hv" in
  intros v; cbv beta; apply hoare_pure; intros Hv.

Ltac draw_number :=
  eapply hoare_bind; [apply Math_random_hoare|];
  let r := fresh "r" in let Hr := fresh "Hr" in
  intros r; cbv beta; apply hoare_pure; intros Hr; cbv zeta.

Lemma generateRandomTraits_hoare :
  hoare unitSource generateRandomTraits (fun t s => validTraits t /\ unitSource s).
Proof.
  unfold generateRandomTraits. do 14 draw_trait.
  apply hoare_ret. intros s Hs. split; [|exact Hs].
  intros key; destruct key; cbn [getTrait speed size visionRange metabolism heatTolerance
    coldTolerance aggression camouflage lifespan reproductionRate socialBehavior
    dietPreference strength stamina]; assumption.
Qed.

Ltac trait_bounds Ht :=
  pose proof (Ht k_speed); pose proof (Ht k_size); pose proof (Ht k_visionRange);
  pose proof (Ht k_metabolism); pose proof (Ht k_heatTolerance);
  pose proof (Ht k_coldTolerance); pose proof (Ht k_aggression);
  pose proof (Ht k_camouflage); pose proof (Ht k_lifespan);
  pose proof (Ht k_reproductionRate); pose proof (Ht k_socialBehavior);
  pose proof (Ht k_dietPreference); pose proof (Ht k_strength); pose proof (Ht k_stamina);
  cbn [getTrait] in *.

(** The biased generators start from [generateRandomTraits]. *)
Ltac from_random_traits :=
  eapply hoare_bind; [apply generateRandomTraits_hoare|];
  let t := fresh "t" in let Ht := fresh "Ht" in
  intros t; cbv beta; apply hoare_pure; intros Ht; trait_bounds Ht.

Ltac finish_traits :=
  apply hoare_ret; let s := fresh "s" in intros s _;
  split; [intros key; destruct key; cbn; lra | cbn; lra].

Lemma generateHerbivoreTraits_hoare :
  hoare unitSource generateHerbivoreTraits
    (fun t _ => validTraits t /\ dietPreference t < 0.35).
Proof. unfold generateHerbivoreTraits. from_random_traits. do 4 draw_number. finish_traits. Qed.

Lemma generateCarnivoreTraits_hoare :
  hoare unitSource generateCarnivoreTraits
    (fun t _ => validTraits t /\ 0.65 < dietPreference t).
Proof. unfold generateCarnivoreTraits. from_random_traits. do 7 draw_number. finish_traits. Qed.

Lemma generateOmnivoreTraits_hoare :
  hoare unitSource generateOmnivoreTraits
    (fun t _ => validTraits t /\ 0.35 <= dietPreference t <= 0.65).
Proof. unfold generateOmnivoreTraits. from_random_traits. do 8 draw_number. finish_traits. Qed.

(** X2.  When every Math.random() draw lies in [0,1), generateRandomTraits,
    generateHerbivoreTraits, generateCarnivoreTraits and
    generateOmnivoreTraits return traits whose 14 fields lie in [0,1]; the
    herbivore generator gives dietPreference < 0.35, the carnivore generator
    dietPreference > 0.65, and the omnivore generator 0.35 <= dietPreference
    <= 0.65. *)
Theorem generated_traits_classified (s : RandomSource) :
  unitSource s ->
  validTraits (fst (generateRandomTraits s))
  /\ (validTraits (fst (generateHerbivoreTraits s))
      /\ dietPreference (fst (generateHerbivoreTraits s)) < 0.35)
  /\ (validTraits (fst (generateCarnivoreTraits s))
      /\ 0.65 < dietPreference (fst (generateCarnivoreTraits s)))
  /\ (validTraits (fst (generateOmnivoreTraits s))
      /\ 0.35 <= dietPreference (fst (generateOmnivoreTraits s)) <= 0.65).
Proof.
  intros H. split; [apply (generateRandomTraits_hoare s H)|].
  split; [apply (generateHerbivoreTraits_hoare s H)|].
  split; [apply (generateCarnivoreTraits_hoare s H) | apply (generateOmnivoreTraits_hoare s H)].
Qed.

Lemma constantSource_unit (r : R) : 0 <= r < 1 -> unitSource (constantSource r).
Proof. intros H n. exact H. Qed.

(** The four generators on the random source whose every draw is 0.5 *)
Lemma generated_traits_classified_witness :
  validTraits (fst (generateRandomTraits (constantSource 0.5)))
  /\ (validTraits (fst (generateHerbivoreTraits (constantSource 0.5)))
      /\ dietPreference (fst (generateHerbivoreTraits (constantSource 0.5))) < 0.35)
  /\ (validTraits (fst (generateCarnivoreTraits (constantSource 0.5)))
      /\ 0.65 < dietPreference (fst (generateCarnivoreTraits (constantSource 0.5))))
  /\ (validTraits (fst (generateOmnivoreTraits (constantSource 0.5)))
      /\ 0.35 <= dietPreference (fst (generateOmnivoreTraits (constantSource 0.5))) <= 0.65).
Proof.
  apply (generated_traits_classified (constantSource 0.5)).
  intros n. cbn. lra.
Defined.

(** X3.  With the default configuration and traits in [0,1]: getCreatureSize
    lies in [3,32], getCreatureSpeed in [25,195], getVisionRange in [80,280],
    getAttackDamage in [15,60], getEnergyDrain is at least 0.3, getMaxLifespan
    at least 18.9, and getReproductionThreshold lies in [0.5,0.95] and is
    exactly 0.5 for every herbivore (dietPreference < 0.35). *)
Theorem derived_statistics_bounds (t : Traits) :
  validTraits t ->
  3 <= getCreatureSize DEFAULT_CONFIG t <= 32
  /\ 25 <= getCreatureSpeed DEFAULT_CONFIG t <= 195
  /\ 80 <= getVisionRange DEFAULT_CONFIG t <= 280
  /\ 15 <= getAttackDamage t <= 60
  /\ 0.3 <= getEnergyDrain DEFAULT_CONFIG t
  /\ 18.9 <= getMaxLifespan DEFAULT_CONFIG t
  /\ 0.5 <= getReproductionThreshold DEFAULT_CONFIG t <= 0.95
  /\ (dietPreference t < 0.35 -> getReproductionThreshold DEFAULT_CONFIG t = 0.5).
Proof.
  intros Ht. trait_bounds Ht.
  unfold getCreatureSize, getCreatureSpeed, getVisionRange, getAttackDamage,
    getEnergyDrain, getMaxLifespan, getReproductionThreshold.
  cbn [DEFAULT_CONFIG CREATURE_MIN_SIZE CREATURE_MAX_SIZE CREATURE_BASE_SPEED
       CARNIVORE_SPEED_SIZE_PENALTY HERBIVORE_SPEED_SIZE_PENALTY OMNIVORE_SPEED_SIZE_PENALTY
       CREATURE_VISION_BASE CREATURE_VISION_MAX HERBIVORE_BIG_ENERGY_PENALTY
       OMNIVORE_ENERGY_DRAIN_MULT OMNIVORE_BIG_ENERGY_PENALTY CREATURE_ENERGY_DRAIN_BASE
       CARNIVORE_LIFESPAN_MULT HERBIVORE_LIFESPAN_MULT OMNIVORE_LIFESPAN_MULT
       REPRODUCTION_ENERGY_THRESHOLD CARNIVORE_REPRO_THRESHOLD_OFFSET
       HERBIVORE_REPRO_THRESHOLD_OFFSET OMNIVORE_REPRO_THRESHOLD_OFFSET].
  cbv zeta.
  split; [nra|]. split.
  { Rcases; nra. }
  split; [nra|]. split; [nra|]. split.
  { Rcases; cbn [andb]; nra. }
  split.
  { Rcases; nra. }
  split.
  { unfold Rmin, Rmax. Rcases; repeat destruct (Rle_dec _ _); lra. }
  intros Hd. unfold Rmin, Rmax. Rcases; repeat destruct (Rle_dec _ _); lra.
Qed.

(** The statistics of the sample traits *)
Lemma derived_statistics_bounds_witness :
  3 <= getCreatureSize DEFAULT_CONFIG sampleTraits <= 32
  /\ 25 <= getCreatureSpeed DEFAULT_CONFIG sampleTraits <= 195
  /\ 80 <= getVisionRange DEFAULT_CONFIG sampleTraits <= 280
  /\ 15 <= getAttackDamage sampleTraits <= 60
  /\ 0.3 <= getEnergyDrain DEFAULT_CONFIG sampleTraits
  /\ 18.9 <= getMaxLifespan DEFAULT_CONFIG sampleTraits
  /\ 0.5 <= getReproductionThreshold DEFAULT_CONFIG sampleTraits <= 0.95
  /\ (dietPreference sampleTraits < 0.35 ->
      getReproductionThreshold DEFAULT_CONFIG sampleTraits = 0.5).
Proof.
  apply (derived_statistics_bounds sampleTraits). intros key; destruct key; cbn; lra.
Defined.

Lemma clamp01_step (v d : R) : 0 <= v <= 1 -> Rabs (clamp01 (v + d) - v) <= Rabs d.
Proof.
  intros Hv. unfold clamp01, Rmax, Rmin, Rabs.
  repeat destruct (Rle_dec _ _); repeat destruct (Rcase_abs _); lra.
Qed.

Lemma mutateTrait_hoare (CONFIG : Config) (mutationRate : option R) (v : R) :
  0 <= default (MUTATION_RATE CONFIG) mutationRate ->
  0 <= MUTATION_LARGE_AMOUNT CONFIG ->
  0 <= v <= 1 ->
  hoare unitSource (mutateTrait CONFIG v mutationRate)
    (fun v' s => (0 <= v' <= 1 /\ Rabs (v' - v) <= mutationReach CONFIG mutationRate)
                 /\ unitSource s).
Proof.
  intros rate_nonneg large_nonneg Hv. unfold mutateTrait. cbv zeta. draw_number.
  assert (Hreach1 : default (MUTATION_RATE CONFIG) mutationRate
                    <= mutationReach CONFIG mutationRate) by apply Rmax_l.
  assert (Hreach2 : MUTATION_LARGE_AMOUNT CONFIG <= mutationReach CONFIG mutationRate)
    by apply Rmax_r.
  destruct (r <? MUTATION_LARGE_CHANCE CONFIG).
  - draw_number. draw_number. apply hoare_ret. intros s Hs. split; [|exact Hs].
    split; [apply clamp01_range|].
    eapply Rle_trans; [apply clamp01_step, Hv|].
    destruct (r0 <? 0.5); unfold Rabs; destruct (Rcase_abs _); nra.
  - draw_number. apply hoare_ret. intros s Hs. split; [|exact Hs].
    split; [apply clamp01_range|].
    eapply Rle_trans; [apply clamp01_step, Hv|].
    unfold Rabs; destruct (Rcase_abs _); nra.
Qed.

Ltac mutate_field Hr Hl Ht :=
  eapply hoare_bind; [apply (mutateTrait_hoare _ _ _ Hr Hl Ht)|];
  let v := fresh "v" in let Hv := fresh "Hv" in
  intros v; cbv beta; apply hoare_pure; intros Hv.

Lemma mutateTraits_hoare (CONFIG : Config) (mutationRate : option R) (t : Traits) :
  0 <= default (MUTATION_RATE CONFIG) mutationRate ->
  0 <= MUTATION_LARGE_AMOUNT CONFIG ->
  validTraits t ->
  hoare unitSource (mutateTraits CONFIG t mutationRate)
    (fun t' _ => forall key,
         Rabs (getTrait key t' - getTrait key t) <= mutationReach CONFIG mutationRate).
Proof.
  intros Hr Hl Ht. unfold mutateTraits.
  mutate_field Hr Hl (Ht k_speed). mutate_field Hr Hl (Ht k_size).
  mutate_field Hr Hl (Ht k_visionRange). mutate_field Hr Hl (Ht k_metabolism).
  mutate_field Hr Hl (Ht k_heatTolerance). mutate_field Hr Hl (Ht k_coldTolerance).
  mutate_field Hr Hl (Ht k_aggression). mutate_field Hr Hl (Ht k_camouflage).
  mutate_field Hr Hl (Ht k_lifespan). mutate_field Hr Hl (Ht k_reproductionRate).
  mutate_field Hr Hl (Ht k_socialBehavior). mutate_field Hr Hl (Ht k_dietPreference).
  mutate_field Hr Hl (Ht k_strength). mutate_field Hr Hl (Ht k_stamina).
  apply hoare_ret. intros s _ key.
  destruct key; cbn [getTrait speed size visionRange metabolism heatTolerance
    coldTolerance aggression camouflage lifespan reproductionRate socialBehavior
    dietPreference strength stamina] in *; tauto.
Qed.

(** X4.  For traits in [0,1], a mutation rate (given, or the default
    MUTATION_RATE) that is not negative, a MUTATION_LARGE_AMOUNT that is not
    negative and random draws in [0,1), mutateTraits changes each trait by at
    most max(mutationRate, MUTATION_LARGE_AMOUNT). *)
Theorem mutateTraits_step (CONFIG : Config) (mutationRate : option R) (t : Traits)
    (s : RandomSource) (key : TraitName) :
  0 <= default (MUTATION_RATE CONFIG) mutationRate ->
  0 <= MUTATION_LARGE_AMOUNT CONFIG ->
  validTraits t -> unitSource s ->
  Rabs (getTrait key (fst (mutateTraits CONFIG t mutationRate s)) - getTrait key t)
  <= Rmax (default (MUTATION_RATE CONFIG) mutationRate) (MUTATION_LARGE_AMOUNT CONFIG).
Proof.
  intros Hr Hl Ht Hs.
  apply (mutateTraits_hoare CONFIG mutationRate t Hr Hl Ht s Hs key).
Qed.

(** The size of the sample traits after a mutation with every draw at 0.5 *)
Lemma mutateTraits_step_witness :
  Rabs (getTrait k_size (fst (mutateTraits DEFAULT_CONFIG sampleTraits None (constantSource 0.5)))
        - getTrait k_size sampleTraits)
  <= Rmax (default (MUTATION_RATE DEFAULT_CONFIG) None) (MUTATION_LARGE_AMOUNT DEFAULT_CONFIG).
Proof.
  apply (mutateTraits_step DEFAULT_CONFIG None sampleTraits (constantSource 0.5) k_size).
  - cbn. lra.
  - cbn. lra.
  - intros key; destruct key; cbn; lra.
  - intros n. cbn. lra.
Defined.




End TraitsFacts.

(** ** Crossover *)

Section CrossoverFacts.

Local Open Scope R_scope.

Import config math genetics.

(** Two trait names are equal or different. *)
Lemma TraitName_eq_dec (a b : TraitName) : {a = b} + {a <> b}.
Proof. decide equality. Qed.

Lemma getTrait_setTrait_same (key : TraitName) (v : R) (t : Traits) :
  getTrait key (setTrait key v t) = v.
Proof. destruct key; reflexivity. Qed.

Lemma getTrait_setTrait_other (key key' : TraitName) (v : R) (t : Traits) :
  key' <> key -> getTrait key' (setTrait key v t) = getTrait key' t.
Proof. intros Hne. destruct key, key'; try congruence; reflexivity. Qed.

Lemma crossoverLoop_between (parent1 parent2 : Traits) (traitNames : list TraitName) :
  forall (child : Traits) (s : RandomSource),
    unitSource s ->
    unitSource (snd (crossoverLoop parent1 parent2 traitNames child s))
    /\ forall key, In key traitNames \/ between parent1 parent2 key child ->
                   between parent1 parent2 key
                     (fst (crossoverLoop parent1 parent2 traitNames child s)).
Proof.
  induction traitNames as [|trait rest IH]; intros child s Hs; cbn [crossoverLoop].
  - split; [exact Hs|]. intros key [[]|H]. exact H.
  - unfold bind at 1. cbn [Math_random fst snd]. cbv zeta.
    set (s1 := {| samples := samples s; consumed := S (consumed s) |}).
    assert (Hs1 : unitSource s1) by exact Hs.
    match goal with
    | |- context [crossoverLoop parent1 parent2 rest ?c s1] =>
        destruct (IH c s1 Hs1) as [U B]; set (child1 := c) in *
    end.
    split; [exact U|]. intros key Hkey. apply B.
    destruct (TraitName_eq_dec key trait) as [->|Hne].
    + right. unfold between. subst child1.
      set (a := getTrait trait parent1). set (b := getTrait trait parent2).
      destruct (_ <? 0.4); [|destruct (_ <? 0.8)];
        rewrite getTrait_setTrait_same;
        unfold Rmin, Rmax; destruct (Rle_dec a b); lra.
    + destruct Hkey as [[Heq|Hin]|Hb]; [congruence | left; exact Hin | right].
      unfold between in *. subst child1.
      destruct (_ <? 0.4); [|destruct (_ <? 0.8)];
        rewrite getTrait_setTrait_other by exact Hne; exact Hb.
Qed.

Lemma traitKeys_all (key : TraitName) : In key traitKeys.
Proof. destruct key; cbn; tauto. Qed.

Lemma between_valid (parent1 parent2 child : Traits) :
  validTraits parent1 -> validTraits parent2 ->
  (forall key, between parent1 parent2 key child) -> validTraits child.
Proof.
  intros H1 H2 B key. specialize (H1 key). specialize (H2 key). specialize (B key).
  unfold between, Rmin, Rmax in B. repeat destruct (Rle_dec _ _); lra.
Qed.

(** X5.  For parents with traits in [0,1], a mutation rate and a
    MUTATION_LARGE_AMOUNT that are not negative and random draws in [0,1),
    each trait of the child returned by crossoverTraits lies in [0,1] and
    between the smaller and the larger of the two parents' values of that
    trait, widened on both sides by one mutation step max(mutationRate,
    MUTATION_LARGE_AMOUNT). *)
Theorem crossoverTraits_between (CONFIG : Config) (parent1 parent2 : Traits)
    (mutationRate : option R) (s : RandomSource) (key : TraitName) :
  validTraits parent1 -> validTraits parent2 ->
  0 <= default (MUTATION_RATE CONFIG) mutationRate ->
  0 <= MUTATION_LARGE_AMOUNT CONFIG ->
  unitSource s ->
  let child := fst (crossoverTraits CONFIG parent1 parent2 mutationRate s) in
  Rmin (getTrait key parent1) (getTrait key parent2)
  - Rmax (default (MUTATION_RATE CONFIG) mutationRate) (MUTATION_LARGE_AMOUNT CONFIG)
  <= getTrait key child
  <= Rmax (getTrait key parent1) (getTrait key parent2)
     + Rmax (default (MUTATION_RATE CONFIG) mutationRate) (MUTATION_LARGE_AMOUNT CONFIG)
  /\ 0 <= getTrait key child <= 1.
Proof.
  intros H1 H2 Hr Hl Hs. cbv zeta. unfold crossoverTraits. unfold bind.
  destruct (crossoverLoop_between parent1 parent2 traitKeys zeroTraits s Hs) as [U B].
  set (crossed := fst (crossoverLoop parent1 parent2 traitKeys zeroTraits s)) in *.
  set (s1 := snd (crossoverLoop parent1 parent2 traitKeys zeroTraits s)) in *.
  assert (Bk : forall k, between parent1 parent2 k crossed).
  { intros k. apply B. left. apply traitKeys_all. }
  pose proof (between_valid parent1 parent2 crossed H1 H2 Bk) as Hv.
  pose proof (mutateTraits_hoare CONFIG mutationRate crossed Hr Hl Hv s1 U key) as M.
  cbv beta in M. unfold mutationReach in M.
  pose proof (mutateTraits_valid CONFIG crossed mutationRate s1 key) as V.
  specialize (Bk key). unfold between in Bk.
  split; [|exact V].
  unfold Rabs in M. destruct (Rcase_abs _) in M; lra.
Qed.

(** The size of a child of the sample traits and of the same traits with size
    0.9 *)
Lemma crossoverTraits_between_witness :
  let child := fst (crossoverTraits DEFAULT_CONFIG sampleTraits
                      (setTrait k_size 0.9 sampleTraits) None (constantSource 0.5)) in
  Rmin (getTrait k_size sampleTraits) (getTrait k_size (setTrait k_size 0.9 sampleTraits))
  - Rmax (default (MUTATION_RATE DEFAULT_CONFIG) None) (MUTATION_LARGE_AMOUNT DEFAULT_CONFIG)
  <= getTrait k_size child
  <= Rmax (getTrait k_size sampleTraits) (getTrait k_size (setTrait k_size 0.9 sampleTraits))
     + Rmax (default (MUTATION_RATE DEFAULT_CONFIG) None) (MUTATION_LARGE_AMOUNT DEFAULT_CONFIG)
  /\ 0 <= getTrait k_size child <= 1.
Proof.
  apply (crossoverTraits_between DEFAULT_CONFIG sampleTraits
           (setTrait k_size 0.9 sampleTraits) None (constantSource 0.5) k_size).
  - intros key; destruct key; cbn; lra.
  - intros key; destruct key; cbn; lra.
  - cbn. lra.
  - cbn. lra.
  - intros n. cbn. lra.
Defined.

End CrossoverFacts.

(** ** The species registry *)

Section RegistryFacts.

Local Open Scope R_scope.

Import config genetics species.

Lemma geneticDistance_sqrt (t1 t2 : Traits) :
  geneticDistance t1 t2 = sqrt (squaredDifferences t1 t2 / 14).
Proof.
  unfold geneticDistance, squaredDifferences. cbv zeta. f_equal. f_equal.
  cbn [traitKeys length]. cbn [INR]. lra.
Qed.

Lemma squaredDifferences_sym (t1 t2 : Traits) :
  squaredDifferences t1 t2 = squaredDifferences t2 t1.
Proof. unfold squaredDifferences. cbn [fold_left traitKeys]. cbv zeta. ring. Qed.

Lemma squaredDifferences_self (t : Traits) : squaredDifferences t t = 0.
Proof. unfold squaredDifferences. cbn [fold_left traitKeys]. cbv zeta. ring. Qed.

Lemma squaredDifferences_bounds (t1 t2 : Traits) :
  0 <= squaredDifferences t1 t2
  /\ (validTraits t1 -> validTraits t2 -> squaredDifferences t1 t2 <= 14).
Proof.
  unfold squaredDifferences. cbn [fold_left traitKeys]. cbv zeta.
  assert (sq : forall a b : R, 0 <= (a - b) * (a - b))
    by (intros a b; apply (Rle_0_sqr (a - b))).
  assert (unit : forall a b : R, 0 <= a <= 1 -> 0 <= b <= 1 -> (a - b) * (a - b) <= 1).
  { intros a b Ha Hb.
    assert (H : 0 <= (1 - (a - b)) * (1 + (a - b))) by (apply Rmult_le_pos; lra).
    nra. }
  split.
  - repeat (apply Rplus_le_le_0_compat; [|apply sq]). lra.
  - intros H1 H2.
    pose proof (fun k => unit _ _ (H1 k) (H2 k)) as Hk.
    pose proof (Hk k_speed); pose proof (Hk k_size); pose proof (Hk k_visionRange);
    pose proof (Hk k_metabolism); pose proof (Hk k_heatTolerance);
    pose proof (Hk k_coldTolerance); pose proof (Hk k_aggression);
    pose proof (Hk k_camouflage); pose proof (Hk k_lifespan);
    pose proof (Hk k_reproductionRate); pose proof (Hk k_socialBehavior);
    pose proof (Hk k_dietPreference); pose proof (Hk k_strength); pose proof (Hk k_stamina).
    lra.
Qed.

(** X7.  geneticDistance is never negative, is symmetric in its two arguments
    and is 0 between a trait vector and itself; between two trait vectors with
    all fields in [0,1] it is at most 1. *)
Theorem geneticDistance_metric (t1 t2 : Traits) :
  0 <= geneticDistance t1 t2
  /\ geneticDistance t1 t2 = geneticDistance t2 t1
  /\ geneticDistance t1 t1 = 0
  /\ (validTraits t1 -> validTraits t2 -> geneticDistance t1 t2 <= 1).
Proof.
  rewrite !geneticDistance_sqrt. split; [apply sqrt_pos|].
  split; [rewrite squaredDifferences_sym; reflexivity|].
  split.
  - rewrite squaredDifferences_self. replace (0 / 14) with 0 by lra. apply sqrt_0.
  - intros H1 H2. destruct (squaredDifferences_bounds t1 t2) as [H0 H14].
    specialize (H14 H1 H2). rewrite <- sqrt_1. apply sqrt_le_1_alt. lra.
Qed.

Lemma findMatchingStep_bestAmong (traits : Traits) (seen : list Species)
    (best : option (Species * R)) (s : Species) :
  bestAmong traits seen best ->
  bestAmong traits (seen ++ [s]) (findMatchingStep traits best s).
Proof.
  intros Hb. unfold findMatchingStep.
  destruct (Z.eqb_spec (population s) 0) as [Hz|Hz].
  { destruct best as [[sp d]|]; cbn in *.
    - destruct Hb as (Hin & Hc & Hd & Hmin).
      split; [apply elem_of_app; auto|]. split; [exact Hc|]. split; [exact Hd|].
      intros s1 H1 Hc1. apply elem_of_app in H1 as [H1|H1]; [auto|].
      apply list_elem_of_singleton in H1. subst s1. destruct Hc1. contradiction.
    - intros s1 H1 Hc1. apply elem_of_app in H1 as [H1|H1]; [eapply Hb; eauto|].
      apply list_elem_of_singleton in H1. subst s1. destruct Hc1. contradiction. }
  cbv zeta.
  set (dist := geneticDistance traits (prototypeTraits s)).
  destruct (Rlt_dec dist SPECIES_THRESHOLD) as [Hth|Hth].
  - rewrite (proj2 (Rltb_true _ _) Hth). cbn [andb].
    destruct best as [[sp d]|]; cbn in *.
    + destruct Hb as (Hin & Hc & Hd & Hmin).
      destruct (Rlt_dec dist d) as [Hlt|Hge].
      * rewrite (proj2 (Rltb_true _ _) Hlt). cbn.
        split; [apply elem_of_app; right; apply list_elem_of_singleton; reflexivity|].
        split; [split; assumption|]. split; [reflexivity|].
        intros s1 H1 Hc1. apply elem_of_app in H1 as [H1|H1].
        -- specialize (Hmin s1 H1 Hc1). fold dist. lra.
        -- apply list_elem_of_singleton in H1. subst s1. fold dist. lra.
      * rewrite (proj2 (Rltb_false _ _)) by lra. cbn.
        split; [apply elem_of_app; auto|]. split; [exact Hc|]. split; [exact Hd|].
        intros s1 H1 Hc1. apply elem_of_app in H1 as [H1|H1]; [auto|].
        apply list_elem_of_singleton in H1. subst s1. fold dist. lra.
    + split; [apply elem_of_app; right; apply list_elem_of_singleton; reflexivity|].
      split; [split; assumption|]. split; [reflexivity|].
      intros s1 H1 Hc1. apply elem_of_app in H1 as [H1|H1].
      * exfalso. eapply Hb; eauto.
      * apply list_elem_of_singleton in H1. subst s1. fold dist. lra.
  - rewrite (proj2 (Rltb_false _ _)) by lra. cbn [andb].
    destruct best as [[sp d]|]; cbn in *.
    + destruct Hb as (Hin & Hc & Hd & Hmin).
      split; [apply elem_of_app; auto|]. split; [exact Hc|]. split; [exact Hd|].
      intros s1 H1 Hc1. apply elem_of_app in H1 as [H1|H1]; [auto|].
      apply list_elem_of_singleton in H1. subst s1. destruct Hc1 as [_ Hc1].
      fold dist in Hc1. lra.
    + intros s1 H1 Hc1. apply elem_of_app in H1 as [H1|H1]; [eapply Hb; eauto|].
      apply list_elem_of_singleton in H1. subst s1. destruct Hc1 as [_ Hc1].
      fold dist in Hc1. lra.
Qed.

Lemma findMatching_fold_bestAmong (traits : Traits) (rest seen : list Species)
    (best : option (Species * R)) :
  bestAmong traits seen best ->
  bestAmong traits (seen ++ rest) (fold_left (findMatchingStep traits) rest best).
Proof.
  revert seen best. induction rest as [|s rest IH]; intros seen best Hb; cbn [fold_left].
  - rewrite app_nil_r. exact Hb.
  - replace (seen ++ s :: rest) with ((seen ++ [s]) ++ rest)
      by (rewrite <- app_assoc; reflexivity).
    apply IH, findMatchingStep_bestAmong, Hb.
Qed.

(** X8.  When findMatchingSpecies(traits) returns a species, it is a species
    of the registry that is not extinct (population != 0) and lies closer than
    SPECIES_THRESHOLD (0.15) to the traits, and no species of the registry
    that is not extinct lies closer; when it returns null, every species of
    the registry is extinct or at distance at least SPECIES_THRESHOLD. *)
Theorem findMatchingSpecies_closest (traits : Traits) (reg : SpeciesRegistry) :
  match findMatchingSpecies traits reg with
  | Some sp =>
      sp ∈ species reg
      /\ population sp <> 0%Z
      /\ geneticDistance traits (prototypeTraits sp) < SPECIES_THRESHOLD
      /\ forall s, s ∈ species reg -> population s <> 0%Z ->
                   geneticDistance traits (prototypeTraits sp)
                   <= geneticDistance traits (prototypeTraits s)
  | None =>
      forall s, s ∈ species reg ->
                population s = 0%Z
                \/ SPECIES_THRESHOLD <= geneticDistance traits (prototypeTraits s)
  end.
Proof.
  unfold findMatchingSpecies.
  pose proof (findMatching_fold_bestAmong traits (species reg) [] None) as H.
  cbn [app] in H.
  assert (H0 : bestAmong traits [] None) by (intros s Hs; inversion Hs).
  specialize (H H0).
  destruct (fold_left _ _ _) as [[sp d]|]; cbn in *.
  - destruct H as (Hin & [Hp Hd] & -> & Hmin). repeat split; try assumption.
    intros s Hs Hps.
    destruct (Rlt_dec (geneticDistance traits (prototypeTraits s)) SPECIES_THRESHOLD)
      as [Hlt|Hge].
    + apply Hmin; [exact Hs | split; assumption].
    + lra.
  - intros s Hs.
    destruct (Z.eq_dec (population s) 0%Z) as [Hz|Hz]; [left; exact Hz|].
    right.
    destruct (Rlt_dec (geneticDistance traits (prototypeTraits s)) SPECIES_THRESHOLD)
      as [Hlt|Hge]; [|lra].
    exfalso. apply (H s Hs). split; assumption.
Qed.

Lemma speciesGet_set_same (key : nat) (s : Species) (m : list Species) :
  species.id s = key -> speciesGet key (speciesSet key s m) = Some s.
Proof.
  intros Hs. unfold speciesGet. induction m as [|s0 m IH]; cbn.
  - rewrite Hs, Nat.eqb_refl. reflexivity.
  - destruct (Nat.eqb_spec (species.id s0) key) as [E|E]; cbn.
    + rewrite Hs, Nat.eqb_refl. reflexivity.
    + destruct (Nat.eqb_spec (species.id s0) key); [contradiction|]. exact IH.
Qed.

Lemma speciesGet_set_other (key k : nat) (s : Species) (m : list Species) :
  species.id s = key -> k <> key ->
  speciesGet k (speciesSet key s m) = speciesGet k m.
Proof.
  intros Hs Hk. unfold speciesGet. induction m as [|s0 m IH]; cbn.
  - destruct (Nat.eqb_spec (species.id s) k); [congruence|]. reflexivity.
  - destruct (Nat.eqb_spec (species.id s0) key) as [E|E]; cbn.
    + destruct (Nat.eqb_spec (species.id s) k); [congruence|].
      destruct (Nat.eqb_spec (species.id s0) k); [congruence|]. reflexivity.
    + destruct (Nat.eqb_spec (species.id s0) k); [reflexivity|]. exact IH.
Qed.

Lemma speciesSet_length (key : nat) (s : Species) (m : list Species) :
  key ∈ map species.id m -> length (speciesSet key s m) = length m.
Proof.
  induction m as [|s0 m IH]; intros H; cbn in *.
  - inversion H.
  - destruct (Nat.eqb_spec (species.id s0) key) as [E|E]; [reflexivity|].
    cbn. f_equal. apply IH. apply elem_of_cons in H as [H|H]; [congruence|exact H].
Qed.

Lemma speciesGet_elem (s : Species) (m : list Species) :
  NoDup (map species.id m) -> s ∈ m -> speciesGet (species.id s) m = Some s.
Proof.
  unfold speciesGet. induction m as [|s0 m IH]; intros Hnd Hin; cbn in *.
  - inversion Hin.
  - apply NoDup_cons in Hnd as [Hnotin Hnd].
    apply elem_of_cons in Hin as [->|Hin].
    + rewrite Nat.eqb_refl. reflexivity.
    + destruct (Nat.eqb_spec (species.id s0) (species.id s)) as [E|E]; [|auto].
      exfalso. apply Hnotin. rewrite E. apply elem_of_map_id, Hin.
Qed.

Lemma assignSpecies_lookup (creatureId : nat) (traits : Traits) (generation : nat)
    (currentTime : R) (reg : SpeciesRegistry) :
  let sp := fst (assignSpecies creatureId traits generation currentTime reg) in
  let reg' := snd (assignSpecies creatureId traits generation currentTime reg) in
  getCreatureSpecies creatureId reg' = Some sp
  /\ creatureSpecies reg' !! creatureId = Some (species.id sp)
  /\ areSameSpecies creatureId creatureId reg' = true
  /\ forall other, other <> creatureId ->
                   creatureSpecies reg' !! other = creatureSpecies reg !! other.
Proof.
  cbv zeta. unfold assignSpecies. cbv zeta. cbn [fst snd].
  set (found := match findMatchingSpecies traits reg with
                | Some sp => (sp, reg)
                | None => createSpecies traits currentTime reg
                end).
  unfold getCreatureSpecies, areSameSpecies. cbn [creatureSpecies species species.id].
  rewrite lookup_insert_eq. rewrite speciesGet_set_same by reflexivity.
  rewrite Nat.eqb_refl. repeat split.
  intros other Hne. rewrite lookup_insert_ne by congruence.
  subst found. destruct (findMatchingSpecies traits reg); reflexivity.
Qed.

(** X9.  After assignSpecies(creatureId, ...), getCreatureSpecies(creatureId)
    is the species that assignSpecies returned, areSameSpecies(creatureId,
    creatureId) is true, and every other creature id is mapped to the species
    it was mapped to before. *)
Theorem assignSpecies_registers (creatureId : nat) (traits : Traits) (generation : nat)
    (currentTime : R) (reg : SpeciesRegistry) :
  let sp := fst (assignSpecies creatureId traits generation currentTime reg) in
  let reg' := snd (assignSpecies creatureId traits generation currentTime reg) in
  getCreatureSpecies creatureId reg' = Some sp
  /\ creatureSpecies reg' !! creatureId = Some (species.id sp)
  /\ areSameSpecies creatureId creatureId reg' = true
  /\ forall other, other <> creatureId ->
                   creatureSpecies reg' !! other = creatureSpecies reg !! other.
Proof. apply assignSpecies_lookup. Qed.

(** X10.  After recordDeath(creatureId), getCreatureSpecies(creatureId) is
    undefined and areSameSpecies is false for every pair with creatureId on
    either side; every other creature id is mapped as before; a second
    recordDeath(creatureId) changes nothing, recordDeath of an id that the
    registry does not map changes nothing, and the registry has as many
    species as before. *)
Theorem recordDeath_forgets (creatureId : nat) (reg : SpeciesRegistry) :
  let reg' := snd (recordDeath creatureId reg) in
  getCreatureSpecies creatureId reg' = None
  /\ (forall other, areSameSpecies creatureId other reg' = false
                    /\ areSameSpecies other creatureId reg' = false)
  /\ (forall other, other <> creatureId ->
                    creatureSpecies reg' !! other = creatureSpecies reg !! other)
  /\ snd (recordDeath creatureId reg') = reg'
  /\ (creatureSpecies reg !! creatureId = None -> reg' = reg)
  /\ length (species reg') = length (species reg).
Proof.
  cbv zeta.
  assert (Hnone : creatureSpecies (snd (recordDeath creatureId reg)) !! creatureId = None).
  { unfold recordDeath. destruct (creatureSpecies reg !! creatureId) eqn:E; cbn.
    - apply lookup_delete_eq.
    - exact E. }
  split; [unfold getCreatureSpecies; rewrite Hnone; reflexivity|].
  split.
  { intros other. unfold areSameSpecies. rewrite Hnone.
    destruct (creatureSpecies _ !! other); auto. }
  split.
  { intros other Hne. unfold recordDeath.
    destruct (creatureSpecies reg !! creatureId) eqn:E; cbn; [|reflexivity].
    apply lookup_delete_ne. congruence. }
  split; [apply recordDeath_unmapped, Hnone|].
  split; [apply recordDeath_unmapped|].
  unfold recordDeath. destruct (creatureSpecies reg !! creatureId) as [sid|] eqn:E; cbn;
    [|reflexivity].
  destruct (speciesGet sid (species reg)) as [sp|] eqn:G; [|reflexivity].
  apply speciesSet_length. apply speciesGet_Some in G as [Hin <-].
  apply elem_of_map_id, Hin.
Qed.

Lemma speciesSet_wellFormed (key next : nat) (s : Species) (m : list Species) :
  species.id s = key -> key ∈ map species.id m ->
  NoDup (map species.id m) -> (forall s0, s0 ∈ m -> (species.id s0 < next)%nat) ->
  NoDup (map species.id (speciesSet key s m))
  /\ forall s0, s0 ∈ speciesSet key s m -> (species.id s0 < next)%nat.
Proof.
  intros Hs Hin Hnd Hlt. rewrite speciesSet_ids by assumption. split; [exact Hnd|].
  intros s0 H0. apply (speciesSet_elem key s m s0 Hs Hnd Hin) in H0.
  destruct H0 as [->|[H0 _]]; [|auto].
  apply elem_of_map_id_inv in Hin as (s1 & H1 & E1). rewrite Hs, <- E1. auto.
Qed.

Lemma createSpecies_wellFormed (traits : Traits) (t : R) (reg : SpeciesRegistry) :
  registryWellFormed reg ->
  registryWellFormed (snd (createSpecies traits t reg))
  /\ fst (createSpecies traits t reg) ∈ species (snd (createSpecies traits t reg)).
Proof.
  intros [Hnd Hlt]. unfold createSpecies. cbn [fst snd].
  assert (Hfresh : nextSpeciesId reg ∉ map species.id (species reg)).
  { intros Hin. apply elem_of_map_id_inv in Hin as (s & Hs & E).
    specialize (Hlt s Hs). lia. }
  unfold registryWellFormed. cbn [species nextSpeciesId].
  rewrite speciesSet_fresh by exact Hfresh. split; [split|].
  - rewrite map_app. cbn. apply NoDup_app. split; [exact Hnd|]. split.
    + intros x Hx Hx'. apply list_elem_of_singleton in Hx'. subst x. contradiction.
    + apply NoDup_singleton.
  - intros s Hs. apply elem_of_app in Hs as [Hs|Hs].
    + specialize (Hlt s Hs). lia.
    + apply list_elem_of_singleton in Hs. subst s. cbn. lia.
  - apply elem_of_app. right. apply list_elem_of_singleton. reflexivity.
Qed.

Lemma initialRegistry_wellFormed : registryWellFormed initialRegistry.
Proof. split; cbn; [constructor | intros s H; inversion H]. Qed.

Lemma assignSpecies_wellFormed (reg : SpeciesRegistry) (creatureId : nat)
    (traits : Traits) (generation : nat) (currentTime : R) :
  registryWellFormed reg ->
  registryWellFormed (snd (assignSpecies creatureId traits generation currentTime reg)).
Proof.
  intros Hwf. unfold assignSpecies. cbv zeta. cbn [fst snd].
  set (found := match findMatchingSpecies traits reg with
                | Some sp => (sp, reg)
                | None => createSpecies traits currentTime reg
                end).
  assert (Hf : registryWellFormed (snd found) /\ fst found ∈ species (snd found)).
  { subst found. destruct (findMatchingSpecies traits reg) as [sp|] eqn:E.
    - split; [exact Hwf|]. apply findMatchingSpecies_elem in E. exact E.
    - apply createSpecies_wellFormed, Hwf. }
  destruct Hf as [[Hnd Hlt] Hin]. unfold registryWellFormed. cbn [species nextSpeciesId].
  apply speciesSet_wellFormed; [reflexivity | apply elem_of_map_id, Hin | exact Hnd | exact Hlt].
Qed.

(** X11.  If the ids of the species of the registry are pairwise distinct and
    below nextSpeciesId, they still are after assignSpecies, after recordDeath
    and after reset; the registry at program start has the property. *)
Theorem registry_wellFormed_kept (reg : SpeciesRegistry) (creatureId : nat)
    (traits : Traits) (generation : nat) (currentTime : R) :
  registryWellFormed reg ->
  registryWellFormed (snd (assignSpecies creatureId traits generation currentTime reg))
  /\ registryWellFormed (snd (recordDeath creatureId reg))
  /\ registryWellFormed (snd (species.reset reg))
  /\ registryWellFormed initialRegistry.
Proof.
  intros Hwf. split; [apply assignSpecies_wellFormed, Hwf|]. split; [|split].
  - destruct Hwf as [Hnd Hlt]. unfold recordDeath.
    destruct (creatureSpecies reg !! creatureId) as [sid|]; [|split; assumption].
    cbn [snd]. unfold registryWellFormed. cbn [species nextSpeciesId].
    destruct (speciesGet sid (species reg)) as [sp|] eqn:G; [|split; assumption].
    apply speciesGet_Some in G as [Hin E].
    apply speciesSet_wellFormed; [exact E | rewrite <- E; apply elem_of_map_id, Hin
                                 | exact Hnd | exact Hlt].
  - split; cbn; [constructor | intros s H; inversion H].
  - apply initialRegistry_wellFormed.
Qed.

(** The three operations on the registry at program start *)
Lemma registry_wellFormed_kept_witness :
  registryWellFormed (snd (assignSpecies 0 sampleTraits 0 0 initialRegistry))
  /\ registryWellFormed (snd (recordDeath 0 initialRegistry))
  /\ registryWellFormed (snd (species.reset initialRegistry))
  /\ registryWellFormed initialRegistry.
Proof.
  apply (registry_wellFormed_kept initialRegistry 0 sampleTraits 0 0).
  apply initialRegistry_wellFormed.
Defined.

(** X12.  In a registry whose species ids are pairwise distinct and below
    nextSpeciesId, assignSpecies for a creature raises the population of a
    species that existed before by at most 1 and lowers none, and recordDeath
    of the same creature right after brings the population of every such
    species back to its value before; the creature is then no longer mapped to
    a species. *)
Theorem assign_then_death_restores (reg : SpeciesRegistry) (creatureId : nat)
    (traits : Traits) (generation : nat) (currentTime : R) (key : nat) (s : Species) :
  registryWellFormed reg ->
  speciesGet key (species reg) = Some s ->
  let reg1 := snd (assignSpecies creatureId traits generation currentTime reg) in
  let reg2 := snd (recordDeath creatureId reg1) in
  (exists s1, speciesGet key (species reg1) = Some s1
              /\ (population s <= population s1 <= population s + 1)%Z)
  /\ (exists s2, speciesGet key (species reg2) = Some s2
                 /\ population s2 = population s)
  /\ creatureSpecies reg2 !! creatureId = None.
Proof.
  intros [Hnd Hlt] Hget. cbv zeta.
  pose proof (assignSpecies_lookup creatureId traits generation currentTime reg) as R1.
  cbv zeta in R1. destruct R1 as (Hlook & Hmap & _ & _).
  set (reg1 := snd (assignSpecies creatureId traits generation currentTime reg)) in *.
  set (sp1 := fst (assignSpecies creatureId traits generation currentTime reg)) in *.
  assert (Hget1 : speciesGet (species.id sp1) (species reg1) = Some sp1).
  { unfold getCreatureSpecies in Hlook. rewrite Hmap in Hlook. exact Hlook. }
  rewrite (recordDeath_mapped creatureId (species.id sp1) reg1 sp1 Hmap Hget1).
  cbn [species creatureSpecies]. rewrite lookup_delete_eq.
  (* the species the creature joined *)
  assert (Hjoin : (key = species.id sp1 /\ population sp1 = (population s + 1)%Z)
                  \/ (key <> species.id sp1
                      /\ speciesGet key (species reg1) = Some s)).
  { subst reg1 sp1. unfold assignSpecies. cbv zeta. cbn [fst snd species species.id population].
    destruct (findMatchingSpecies traits reg) as [sp|] eqn:E.
    - cbn [fst snd].
      destruct (Nat.eq_dec key (species.id sp)) as [Ek|Ek].
      + left. split; [exact Ek|].
        apply findMatchingSpecies_elem in E.
        rewrite Ek, (speciesGet_elem sp (species reg) Hnd E) in Hget.
        inversion Hget. reflexivity.
      + right. split; [exact Ek|].
        rewrite speciesGet_set_other by (reflexivity || exact Ek). exact Hget.
    - unfold createSpecies. cbn [fst snd species species.id population].
      apply speciesGet_Some in Hget as Hs. destruct Hs as [Hin Hid].
      specialize (Hlt s Hin).
      right. split; [lia|].
      rewrite !speciesGet_set_other by (reflexivity || lia). exact Hget. }
  split; [|split; [|reflexivity]].
  - destruct Hjoin as [[-> Hp]|[_ H1]]; [exists sp1 | exists s]; split; auto; lia.
  - destruct Hjoin as [[-> Hp]|[Hne H1]].
    + eexists. split; [apply speciesGet_set_same; reflexivity|]. cbn [population]. lia.
    + exists s. split; [|reflexivity].
      rewrite speciesGet_set_other by (reflexivity || exact Hne). exact H1.
Qed.

(** A second creature joins the one species of a registry and dies. *)
Lemma assign_then_death_restores_witness :
  let s := fst (assignSpecies 0 sampleTraits 0 0 initialRegistry) in
  let reg1 := snd (assignSpecies 7 sampleTraits 0 5 oneSpecies) in
  let reg2 := snd (recordDeath 7 reg1) in
  (exists s1, speciesGet 1 (species reg1) = Some s1
              /\ (population s <= population s1 <= population s + 1)%Z)
  /\ (exists s2, speciesGet 1 (species reg2) = Some s2
                 /\ population s2 = population s)
  /\ creatureSpecies reg2 !! 7%nat = None.
Proof.
  cbv zeta.
  apply (assign_then_death_restores oneSpecies 7 sampleTraits 0 5 1
           (fst (assignSpecies 0 sampleTraits 0 0 initialRegistry))).
  - apply assignSpecies_wellFormed, initialRegistry_wellFormed.
  - reflexivity.
Defined.

End RegistryFacts.

(** ** The diet, the death and the movement of a creature *)

Section CreatureFacts.

Local Open Scope R_scope.

Import config math genetics creature.

(** Every creature is exactly one of herbivore, omnivore and carnivore. *)
Lemma diet_classes_partition (c : Creature) :
  (isHerbivore c = true /\ isOmnivore c = false /\ isCarnivore c = false)
  \/ (isHerbivore c = false /\ isOmnivore c = true /\ isCarnivore c = false)
  \/ (isHerbivore c = false /\ isOmnivore c = false /\ isCarnivore c = true).
Proof.
  unfold isOmnivore, isHerbivore, isCarnivore.
  destruct (Rlt_dec (dietPreference (traits c)) 0.35) as [H1|H1];
    destruct (Rlt_dec 0.65 (dietPreference (traits c))) as [H2|H2]; try lra.
  - left. rewrite (proj2 (Rltb_true _ _) H1), (proj2 (Rltb_false _ _)) by lra. auto.
  - right; right. rewrite (proj2 (Rltb_true _ _) H2), (proj2 (Rltb_false _ _)) by lra. auto.
  - right; left. rewrite !(proj2 (Rltb_false _ _)) by lra. auto.
Qed.

Lemma die_twice (c : Creature) (reg : species.SpeciesRegistry) :
  die (fst (die c reg)) (snd (die c reg)) = die c reg.
Proof.
  destruct (die_fields c reg) as [Hc Hr].
  destruct (die_fields (fst (die c reg)) (snd (die c reg))) as [Hc2 Hr2].
  apply injective_projections.
  - rewrite Hc2, Hc. destruct c. reflexivity.
  - rewrite Hr2, Hr, Hc. cbn [creature.id set_energy set_isAlive].
    apply recordDeath_unmapped.
    unfold species.recordDeath.
    destruct (species.creatureSpecies reg !! creature.id c) eqn:E; cbn.
    + apply lookup_delete_eq.
    + exact E.
Qed.

(** X13.  On a dead creature (isAlive = false), update changes neither the
    creature nor the species registry, canReproduce is false,
    getReproductionReadiness is 0 and shouldSeekMate is false; and die()
    called a second time leaves the creature and the registry as the first
    call left them. *)
Theorem dead_creatures_inert (CONFIG : Config) (c : Creature)
    (reg : species.SpeciesRegistry) (dt t : R) :
  isAlive c = false ->
  update CONFIG dt t c reg = (c, reg)
  /\ canReproduce CONFIG t c = false
  /\ getReproductionReadiness CONFIG t c = 0
  /\ shouldSeekMate CONFIG t c = false
  /\ die (fst (die c reg)) (snd (die c reg)) = die c reg.
Proof.
  intros H. split.
  { unfold update. rewrite H. reflexivity. }
  split; [unfold canReproduce; rewrite H; reflexivity|].
  split; [unfold getReproductionReadiness; rewrite H; reflexivity|].
  split; [unfold shouldSeekMate; rewrite H; reflexivity|].
  apply die_twice.
Qed.

(** The sample creature after [die()] *)
Lemma dead_creatures_inert_witness :
  let c := fst (die sampleCreature species.initialRegistry) in
  update DEFAULT_CONFIG 1 2 c species.initialRegistry = (c, species.initialRegistry)
  /\ canReproduce DEFAULT_CONFIG 2 c = false
  /\ getReproductionReadiness DEFAULT_CONFIG 2 c = 0
  /\ shouldSeekMate DEFAULT_CONFIG 2 c = false
  /\ die (fst (die c species.initialRegistry)) (snd (die c species.initialRegistry))
     = die c species.initialRegistry.
Proof.
  cbv zeta.
  apply (dead_creatures_inert DEFAULT_CONFIG
           (fst (die sampleCreature species.initialRegistry)) species.initialRegistry 1 2).
  reflexivity.
Defined.

Lemma updatePosition_inside (CONFIG : Config) (dt : R) (c : Creature) :
  _size c <= WORLD_WIDTH CONFIG - _size c ->
  _size c <= WORLD_HEIGHT CONFIG - _size c ->
  let c' := updatePosition CONFIG dt c in
  _size c <= x (position c') <= WORLD_WIDTH CONFIG - _size c
  /\ _size c <= y (position c') <= WORLD_HEIGHT CONFIG - _size c
  /\ magnitude (velocity c') = magnitude (velocity c).
Proof.
  intros Hw Hh. cbv zeta. unfold updatePosition. cbv zeta.
  cbn [position velocity _size set_position set_velocity x y].
  assert (flip : forall a b, magnitude {| x := a; y := b |} = magnitude {| x := a * -1; y := b |}
                             /\ magnitude {| x := a; y := b |} = magnitude {| x := a; y := b * -1 |}
                             /\ magnitude {| x := a; y := b |}
                                = magnitude {| x := a * -1; y := b * -1 |}).
  { intros a b. unfold magnitude. cbn [x y]. repeat split; f_equal; ring. }
  destruct (flip (x (velocity c)) (y (velocity c))) as (F1 & F2 & F3).
  assert (V : velocity c = {| x := x (velocity c); y := y (velocity c) |})
    by (destruct (velocity c); reflexivity).
  set (px := x (position c) + x (velocity c) * dt).
  set (py := y (position c) + y (velocity c) * dt).
  unfold Rltb.
  destruct (Rlt_dec px (_size c)); [|destruct (Rlt_dec (WORLD_WIDTH CONFIG - _size c) px)];
    cbn [position velocity _size set_position set_velocity x y];
    (destruct (Rlt_dec py (_size c));
     [|destruct (Rlt_dec (WORLD_HEIGHT CONFIG - _size c) py)]);
    cbn [position velocity _size set_position set_velocity x y];
    (split; [lra|]); (split; [lra|]);
    first [ reflexivity
          | rewrite V at 2; symmetry; first [exact F1 | exact F2 | exact F3] ].
Qed.

Lemma updateVitals_size (CONFIG : Config) (dt : R) (c : Creature) :
  _size (updateVitals CONFIG dt c) = _size c.
Proof. unfold updateVitals. cbv zeta. case_ifs; reflexivity. Qed.

(** X14.  For a living creature whose size is at most half of WORLD_WIDTH and
    of WORLD_HEIGHT, after update the creature is dead or its position lies
    within the walls: size <= x <= WORLD_WIDTH - size and size <= y <=
    WORLD_HEIGHT - size. *)
Theorem update_inside (CONFIG : Config) (dt t : R) (c : Creature)
    (reg : species.SpeciesRegistry) :
  isAlive c = true ->
  _size c <= WORLD_WIDTH CONFIG - _size c ->
  _size c <= WORLD_HEIGHT CONFIG - _size c ->
  let c' := fst (update CONFIG dt t c reg) in
  isAlive c' = false
  \/ (_size c <= x (position c') <= WORLD_WIDTH CONFIG - _size c
      /\ _size c <= y (position c') <= WORLD_HEIGHT CONFIG - _size c).
Proof.
  intros Ha Hw Hh. cbv zeta.
  destruct (update_cases CONFIG dt t c reg) as [[Hd _]|[[_ ->]|[_ ->]]].
  - congruence.
  - left. destruct (die_fields (updateVitals CONFIG dt c) reg) as [-> _]. reflexivity.
  - right. cbn [fst].
    pose proof (updateVitals_size CONFIG dt c) as Hs.
    pose proof (updatePosition_inside CONFIG dt (updateVitals CONFIG dt c)) as H.
    rewrite Hs in H. specialize (H Hw Hh). cbv zeta in H. tauto.
Qed.

Lemma sample_size : _size sampleCreature = 17.5.
Proof.
  unfold sampleCreature, construct. cbn [_size]. unfold getCreatureSize.
  cbn [DEFAULT_CONFIG CREATURE_MIN_SIZE CREATURE_MAX_SIZE sampleTraits genetics.size]. lra.
Qed.

(** One tick of 0.1 s of the sample creature *)
Lemma update_inside_witness :
  let c' := fst (update DEFAULT_CONFIG 0.1 0 sampleCreature species.initialRegistry) in
  isAlive c' = false
  \/ (_size sampleCreature <= x (position c') <= WORLD_WIDTH DEFAULT_CONFIG - _size sampleCreature
      /\ _size sampleCreature <= y (position c')
         <= WORLD_HEIGHT DEFAULT_CONFIG - _size sampleCreature).
Proof.
  apply (update_inside DEFAULT_CONFIG 0.1 0 sampleCreature species.initialRegistry).
  - reflexivity.
  - rewrite sample_size. cbn [DEFAULT_CONFIG WORLD_WIDTH]. lra.
  - rewrite sample_size. cbn [DEFAULT_CONFIG WORLD_HEIGHT]. lra.
Defined.




(** For a vision range that is not negative, [canSee(point)] is true exactly
    when [distanceTo] the point is at most the vision range. *)
Lemma canSee_within_vision (c : Creature) (point : Vector2) :
  0 <= _visionRange c ->
  (canSee point c = true <-> distanceTo c point <= _visionRange c).
Proof.
  intros Hv. unfold canSee, distanceTo, distance. cbv zeta.
  set (dx := x point - x (position c)). set (dy := y point - y (position c)).
  assert (Hsq : 0 <= dx * dx + dy * dy).
  { apply Rplus_le_le_0_compat; apply Rle_0_sqr. }
  rewrite Rleb_true. split; intros H.
  - rewrite <- (sqrt_square (_visionRange c)) by exact Hv.
    apply sqrt_le_1_alt, H.
  - apply sqrt_le_0; [exact Hsq | apply Rle_0_sqr|].
    rewrite (sqrt_square (_visionRange c)) by exact Hv. exact H.
Qed.

(** The sample creature and the point (130, 140) *)
Lemma canSee_within_vision_witness :
  canSee {| x := 130; y := 140 |} sampleCreature = true
  <-> distanceTo sampleCreature {| x := 130; y := 140 |} <= _visionRange sampleCreature.
Proof.
  apply (canSee_within_vision sampleCreature {| x := 130; y := 140 |}).
  unfold sampleCreature, construct. cbn [_visionRange]. unfold getVisionRange.
  cbn. lra.
Defined.






End CreatureFacts.

(** ** Reproduction *)

Section ReproductionFacts.

Local Open Scope R_scope.

Import config math genetics creature.





Lemma bind_apply {S A B : Type} (m : State S A) (k : A -> State S B) (s : S) :
  bind m k s = k (fst (m s)) (snd (m s)).
Proof. reflexivity. Qed.











End ReproductionFacts.

(** ** Hunting and mating *)

Section EncountersFacts.

Local Open Scope R_scope.

Import config math genetics creature.

(** X18.  Whenever canHunt(target) is true: the hunter is not a herbivore; the
    target is another creature; the target's size is at least 15% of the
    hunter's when the hunter's energy is below 40%, and at least 25%
    otherwise; a carnivore target is hunted only by a hunter below 20% energy
    that has more than 1.5 times its strength or its size; an omnivore target
    only by a hunter below 50% energy that has more than 1.2 times its
    strength or 1.1 times its size; a target more than 1.5 times the hunter's
    size only with aggression > 0.8 and strength > 0.7, and any other target
    only with size > 0.8 * target size, aggression > 0.6 or strength > 1.2 *
    target strength. *)
Theorem canHunt_conditions (CONFIG : Config) (this target : Creature) :
  canHunt CONFIG this target = true ->
  isHerbivore this = false
  /\ creature.id target <> creature.id this
  /\ _size this * (if energyPercent CONFIG this <? 0.4 then 0.15 else 0.25) <= _size target
  /\ (isCarnivore target = true ->
      energyPercent CONFIG this < 0.2
      /\ (strength (traits this) > strength (traits target) * 1.5
          \/ _size this > _size target * 1.5))
  /\ (isOmnivore target = true ->
      energyPercent CONFIG this < 0.5
      /\ (strength (traits this) > strength (traits target) * 1.2
          \/ _size this > _size target * 1.1))
  /\ (_size target > _size this * 1.5 ->
      aggression (traits this) > 0.8 /\ strength (traits this) > 0.7)
  /\ (_size target <= _size this * 1.5 ->
      _size this > _size target * 0.8
      \/ aggression (traits this) > 0.6
      \/ strength (traits this) > strength (traits target) * 1.2).
Proof.
  unfold canHunt, size. cbv zeta. intros H.
  destruct (negb (isCarnivore this) && negb (isOmnivore this)) eqn:Ediet;
    cbv iota in H; [discriminate|].
  destruct (Nat.eqb (creature.id target) (creature.id this)) eqn:Eid;
    cbv iota in H; [discriminate|].
  match type of H with (if ?b then _ else _) = _ => destruct b eqn:Esmall; cbv iota in H; [discriminate|] end.
  match type of H with (if ?b then _ else _) = _ => destruct b eqn:Ecarn; cbv iota in H; [discriminate|] end.
  match type of H with (if ?b then _ else _) = _ => destruct b eqn:Eomni; cbv iota in H; [discriminate|] end.
  split.
  { unfold isOmnivore, isHerbivore, isCarnivore in *. apply Rltb_false.
    destruct (Rlt_dec (dietPreference (traits this)) 0.35) as [Hd|Hd]; [|lra].
    rewrite (proj2 (Rltb_true _ _) Hd) in Ediet.
    rewrite (proj2 (Rltb_false 0.65 _)) in Ediet by lra. discriminate. }
  split; [apply Nat.eqb_neq, Eid|].
  split; [apply Rltb_false, Esmall|].
  split.
  { intros Ht. rewrite Ht in Ecarn. cbn [andb] in Ecarn.
    apply orb_false_iff in Ecarn. destruct Ecarn as [E1 E2].
    apply negb_false_iff, Rltb_true in E1. split; [exact E1|].
    apply andb_false_iff in E2.
    destruct E2 as [E2|E2]; apply negb_false_iff, Rltb_true in E2; [left|right]; lra. }
  split.
  { intros Ht. rewrite Ht in Eomni. cbn [andb] in Eomni.
    apply orb_false_iff in Eomni. destruct Eomni as [E1 E2].
    apply negb_false_iff, Rltb_true in E1. split; [exact E1|].
    apply andb_false_iff in E2.
    destruct E2 as [E2|E2]; apply negb_false_iff, Rltb_true in E2; [left|right]; lra. }
  split.
  - intros Hbig. rewrite (proj2 (Rltb_true _ _)) in H by lra.
    apply andb_true_iff in H. destruct H as [H1 H2].
    apply Rltb_true in H1, H2. lra.
  - intros Hle. rewrite (proj2 (Rltb_false _ _)) in H by lra.
    apply orb_true_iff in H. destruct H as [H|H]; [apply orb_true_iff in H; destruct H as [H|H]|];
      apply Rltb_true in H; [left|right; left|right; right]; lra.
Qed.

Lemma sampleHunter_hunts : canHunt DEFAULT_CONFIG sampleHunter sampleCreature = true.
Proof.
  unfold canHunt, size, isCarnivore, isOmnivore, isHerbivore, energyPercent, maxEnergy.
  cbv zeta. unfold sampleHunter, sampleCreature, construct, getCreatureSize.
  cbn [traits creature.id _size energy setTrait sampleTraits dietPreference genetics.size
       strength aggression DEFAULT_CONFIG CREATURE_BASE_ENERGY CREATURE_MAX_ENERGY
       CREATURE_MIN_SIZE CREATURE_MAX_SIZE Nat.eqb].
  Rdecide. cbn [negb andb orb]. Rdecide. reflexivity.
Qed.

(** The sample hunter and the sample creature, which it may hunt *)
Lemma canHunt_conditions_witness :
  let this := sampleHunter in
  let target := sampleCreature in
  isHerbivore this = false
  /\ creature.id target <> creature.id this
  /\ _size this * (if energyPercent DEFAULT_CONFIG this <? 0.4 then 0.15 else 0.25)
     <= _size target
  /\ (isCarnivore target = true ->
      energyPercent DEFAULT_CONFIG this < 0.2
      /\ (strength (traits this) > strength (traits target) * 1.5
          \/ _size this > _size target * 1.5))
  /\ (isOmnivore target = true ->
      energyPercent DEFAULT_CONFIG this < 0.5
      /\ (strength (traits this) > strength (traits target) * 1.2
          \/ _size this > _size target * 1.1))
  /\ (_size target > _size this * 1.5 ->
      aggression (traits this) > 0.8 /\ strength (traits this) > 0.7)
  /\ (_size target <= _size this * 1.5 ->
      _size this > _size target * 0.8
      \/ aggression (traits this) > 0.6
      \/ strength (traits this) > strength (traits target) * 1.2).
Proof.
  cbv zeta.
  apply (canHunt_conditions DEFAULT_CONFIG sampleHunter sampleCreature).
  exact sampleHunter_hunts.
Defined.

Lemma getReproductionThreshold_range (CONFIG : Config) (t : Traits) :
  0.5 <= getReproductionThreshold CONFIG t <= 0.95.
Proof.
  unfold getReproductionThreshold. cbv zeta.
  match goal with |- _ <= Rmin 0.95 (Rmax 0.5 ?v) <= _ => generalize v end.
  intros v. unfold Rmin, Rmax.
  destruct (Rle_dec 0.5 v); destruct (Rle_dec 0.95 _); lra.
Qed.

(** X19.  For a creature whose reproduction cooldown and maxEnergy are not 0,
    getReproductionReadiness is at most 1; for a creature that canReproduce
    and whose reproduction cooldown is positive it is exactly 1, and
    shouldSeekMate is then true unless the creature prefers asexual
    reproduction. *)
Theorem reproduction_readiness (CONFIG : Config) (t : R) (c : Creature) :
  (getReproductionCooldown CONFIG c <> 0 -> maxEnergy CONFIG c <> 0 ->
   getReproductionReadiness CONFIG t c <= 1)
  /\ (canReproduce CONFIG t c = true ->
      0 < getReproductionCooldown CONFIG c ->
      getReproductionReadiness CONFIG t c = 1
      /\ (prefersAsexual CONFIG (traits c) = false -> shouldSeekMate CONFIG t c = true)).
Proof.
  split.
  - intros _ _. unfold getReproductionReadiness. destruct (isAlive c); cbn [negb]; [|lra].
    cbv zeta. eapply Rle_trans; [apply Rmin_l | apply Rmin_l].
  - intros Hcan Hcool.
    assert (Hr : getReproductionReadiness CONFIG t c = 1).
    { unfold canReproduce in Hcan. unfold getReproductionReadiness.
      destruct (isAlive c); cbn [negb] in *; [|discriminate]. cbv zeta in *.
      apply andb_true_iff in Hcan. destruct Hcan as [He Ht].
      apply Rleb_true in He. apply Rltb_true in Ht.
      pose proof (getReproductionThreshold_range CONFIG (traits c)) as Hth.
      assert (H1 : 1 <= (t - lastReproduction c) / getReproductionCooldown CONFIG c).
      { apply Rmult_le_reg_r with (getReproductionCooldown CONFIG c); [exact Hcool|].
        unfold Rdiv. rewrite Rmult_assoc, Rinv_l by lra. lra. }
      assert (H2 : 1 <= energyPercent CONFIG c / getReproductionThreshold CONFIG (traits c)).
      { apply Rmult_le_reg_r with (getReproductionThreshold CONFIG (traits c)); [lra|].
        unfold Rdiv. rewrite Rmult_assoc, Rinv_l by lra. lra. }
      rewrite (Rmin_left 1 _ H1), (Rmin_left 1 _ H2). apply Rmin_left. lra. }
    split; [exact Hr|]. intros Hp. unfold shouldSeekMate.
    rewrite (canReproduce_alive _ _ _ Hcan), Hp. cbn [negb]. cbv zeta.
    rewrite Hr. apply Rleb_true. lra.
Qed.

(** [getReproductionChance] lies in [0.1, 1] and does not grow with the number
    of neighbours. *)
Lemma getReproductionChance_range (c : Creature) (n1 n2 : R) :
  0.1 <= getReproductionChance n1 c <= 1
  /\ (n1 <= n2 -> getReproductionChance n2 c <= getReproductionChance n1 c).
Proof.
  unfold getReproductionChance. cbv zeta.
  destruct (isOmnivore c); unfold Rleb, Rmax;
    repeat match goal with
           | |- context [Rle_dec ?a ?b] => destruct (Rle_dec a b)
           end; split; try lra; intros H; lra.
Qed.

(** A compatible mate is another creature and alive; between two living
    creatures, [isCompatibleMate] is symmetric. *)
Lemma isCompatibleMate_symmetric (this other : Creature)
    (reg : species.SpeciesRegistry) :
  (isCompatibleMate this other reg = true ->
   creature.id other <> creature.id this /\ isAlive other = true)
  /\ (isAlive this = true -> isAlive other = true ->
      isCompatibleMate this other reg = isCompatibleMate other this reg).
Proof.
  split.
  - unfold isCompatibleMate. intros H.
    destruct (Nat.eqb (creature.id other) (creature.id this)) eqn:E; [discriminate|].
    destruct (isAlive other); [|discriminate]. split; [apply Nat.eqb_neq, E | reflexivity].
  - intros Ha Hb. unfold isCompatibleMate. rewrite Ha, Hb. cbn [negb].
    rewrite (Nat.eqb_sym (creature.id this) (creature.id other)).
    destruct (Nat.eqb (creature.id other) (creature.id this)); [reflexivity|].
    rewrite (Rabs_minus_sym (dietPreference (traits other))),
            (Rabs_minus_sym (socialBehavior (traits other))).
    destruct (speciesId this), (speciesId other); try reflexivity.
    unfold species.areSameSpecies.
    destruct (species.creatureSpecies reg !! creature.id this) as [s1|],
             (species.creatureSpecies reg !! creature.id other) as [s2|]; try reflexivity.
    apply Nat.eqb_sym.
Qed.

End EncountersFacts.

(** ** Food and corpses *)

Section BitesFacts.

Local Open Scope R_scope.

Import config math creature.

(** The bite [Math.min(energy, biteSize)] of a positive energy and a positive
    bite size *)
Lemma bite_cases (e bite : R) :
  0 < e -> 0 < bite ->
  0 < Rmin e bite <= e /\ Rmin e bite <= bite /\ 0 <= e - Rmin e bite
  /\ (e - Rmin e bite <= 0 <-> e <= bite).
Proof.
  intros He Hb. unfold Rmin. destruct (Rle_dec e bite); repeat split; try lra.
Qed.

(** X20.  For a creature size between CREATURE_MIN_SIZE and CREATURE_MAX_SIZE
    (with MIN < MAX): Food.consume returns exactly the energy it takes from
    the food, an amount between 0 and 25; food that is consumed or has no
    energy gives 0 and is left unchanged; from food that is not consumed and
    has energy e > 0 it takes more than 0 and at most e (at least 1 when e >=
    1), leaves an energy that is not negative, and marks the food consumed
    exactly when its energy has reached 0. *)
Theorem food_consume_bite (CONFIG : Config) (creatureSize : R) (f : food.Food) :
  CREATURE_MIN_SIZE CONFIG <= creatureSize <= CREATURE_MAX_SIZE CONFIG ->
  CREATURE_MIN_SIZE CONFIG < CREATURE_MAX_SIZE CONFIG ->
  let r := food.consume CONFIG (Some creatureSize) f in
  food.energy (snd r) = food.energy f - fst r
  /\ 0 <= fst r <= 25
  /\ (food.isConsumed f = true \/ food.energy f <= 0 -> r = (0, f))
  /\ (food.isConsumed f = false -> 0 < food.energy f ->
      0 < fst r <= food.energy f
      /\ 0 <= food.energy (snd r)
      /\ (food.isConsumed (snd r) = true <-> food.energy (snd r) = 0)
      /\ (1 <= food.energy f -> 1 <= fst r)).
Proof.
  intros Hsize Hcfg. cbv zeta. unfold food.consume.
  change (default 1 (Some creatureSize)) with creatureSize. cbv zeta.
  set (n := (creatureSize - CREATURE_MIN_SIZE CONFIG)
            / (CREATURE_MAX_SIZE CONFIG - CREATURE_MIN_SIZE CONFIG)).
  assert (Hn : 0 <= n <= 1).
  { subst n. split.
    - apply Rmult_le_pos; [lra|]. apply Rlt_le, Rinv_0_lt_compat. lra.
    - apply Rmult_le_reg_r with (CREATURE_MAX_SIZE CONFIG - CREATURE_MIN_SIZE CONFIG); [lra|].
      unfold Rdiv. rewrite Rmult_assoc, Rinv_l by lra. lra. }
  assert (Hm : 0.2 <= food.getFoodSizeMultiplier n f <= 1).
  { unfold food.getFoodSizeMultiplier. destruct (food.foodSize f); lra. }
  set (m := food.getFoodSizeMultiplier n f) in *.
  assert (Hbite : 1 <= (5 + n * 20) * m <= 25) by nra.
  set (bite := (5 + n * 20) * m) in *.
  destruct (food.isConsumed f) eqn:Ec; cbn [orb].
  { cbn [fst snd]. split; [lra|]. split; [lra|]. split; [reflexivity|discriminate]. }
  destruct (Rle_dec (food.energy f) 0) as [Hle|Hgt].
  { rewrite (proj2 (Rleb_true _ _) Hle). cbn [fst snd].
    split; [lra|]. split; [lra|]. split; [reflexivity|]. intros; lra. }
  rewrite (proj2 (Rleb_false _ _)) by lra. cbv zeta.
  destruct (bite_cases (food.energy f) bite) as (B1 & B2 & B3 & B4); [lra|lra|].
  cbn [fst snd food.energy food.set_energy].
  split.
  { destruct (_ <=? 0); reflexivity. }
  split; [lra|]. split; [intros [H|H]; [discriminate|lra]|].
  intros _ _. split; [lra|]. split.
  { destruct (_ <=? 0); cbn; lra. }
  split.
  - destruct (Rle_dec (food.energy f - Rmin (food.energy f) bite) 0) as [H0|H0].
    + rewrite (proj2 (Rleb_true _ _) H0). cbn. split; [intros _; lra | reflexivity].
    + rewrite (proj2 (Rleb_false _ _)) by lra. cbn. rewrite Ec.
      split; [discriminate | intros; lra].
  - intros H1. unfold Rmin. destruct (Rle_dec _ _); lra.
Qed.

(** A creature of size 17.5 at a medium food *)
Lemma food_consume_bite_witness :
  let r := food.consume DEFAULT_CONFIG (Some 17.5) sampleFood in
  food.energy (snd r) = food.energy sampleFood - fst r
  /\ 0 <= fst r <= 25
  /\ (food.isConsumed sampleFood = true \/ food.energy sampleFood <= 0 -> r = (0, sampleFood))
  /\ (food.isConsumed sampleFood = false -> 0 < food.energy sampleFood ->
      0 < fst r <= food.energy sampleFood
      /\ 0 <= food.energy (snd r)
      /\ (food.isConsumed (snd r) = true <-> food.energy (snd r) = 0)
      /\ (1 <= food.energy sampleFood -> 1 <= fst r)).
Proof.
  apply (food_consume_bite DEFAULT_CONFIG 17.5 sampleFood).
  - cbn [DEFAULT_CONFIG CREATURE_MIN_SIZE CREATURE_MAX_SIZE]. lra.
  - cbn [DEFAULT_CONFIG CREATURE_MIN_SIZE CREATURE_MAX_SIZE]. lra.
Defined.

(** X21.  For a creature size between CREATURE_MIN_SIZE and CREATURE_MAX_SIZE
    (with MIN < MAX): Corpse.consume returns exactly the energy it takes from
    the corpse, an amount between 0 and 30; a corpse that is consumed or has
    no energy gives 0 and is left unchanged; from a corpse that is not
    consumed and has energy e > 0 it takes more than 0 and at most e (at least
    8 when e >= 8), leaves an energy that is not negative, and marks the
    corpse consumed exactly when its energy has reached 0; a bite changes
    neither isDecayed nor getDecayProgress. *)
Theorem corpse_consume_bite (CONFIG : Config) (creatureSize t : R) (k : corpse.Corpse) :
  CREATURE_MIN_SIZE CONFIG <= creatureSize <= CREATURE_MAX_SIZE CONFIG ->
  CREATURE_MIN_SIZE CONFIG < CREATURE_MAX_SIZE CONFIG ->
  let r := corpse.consume CONFIG creatureSize k in
  corpse.energy (snd r) = corpse.energy k - fst r
  /\ 0 <= fst r <= 30
  /\ (corpse.isConsumed k = true \/ corpse.energy k <= 0 -> r = (0, k))
  /\ (corpse.isConsumed k = false -> 0 < corpse.energy k ->
      0 < fst r <= corpse.energy k
      /\ 0 <= corpse.energy (snd r)
      /\ (corpse.isConsumed (snd r) = true <-> corpse.energy (snd r) = 0)
      /\ (8 <= corpse.energy k -> 8 <= fst r))
  /\ corpse.getDecayProgress t (snd r) = corpse.getDecayProgress t k
  /\ corpse.isDecayed t (snd r) = corpse.isDecayed t k.
Proof.
  intros Hsize Hcfg. cbv zeta. unfold corpse.consume. cbv zeta.
  set (n := (creatureSize - CREATURE_MIN_SIZE CONFIG)
            / (CREATURE_MAX_SIZE CONFIG - CREATURE_MIN_SIZE CONFIG)).
  assert (Hn : 0 <= n <= 1).
  { subst n. split.
    - apply Rmult_le_pos; [lra|]. apply Rlt_le, Rinv_0_lt_compat. lra.
    - apply Rmult_le_reg_r with (CREATURE_MAX_SIZE CONFIG - CREATURE_MIN_SIZE CONFIG); [lra|].
      unfold Rdiv. rewrite Rmult_assoc, Rinv_l by lra. lra. }
  assert (Hbite : 8 <= 8 + n * 22 <= 30) by lra.
  set (bite := 8 + n * 22) in *.
  destruct (corpse.isConsumed k) eqn:Ec; cbn [orb].
  { cbn [fst snd]. split; [lra|]. split; [lra|]. split; [reflexivity|].
    split; [discriminate|]. split; reflexivity. }
  destruct (Rle_dec (corpse.energy k) 0) as [Hle|Hgt].
  { rewrite (proj2 (Rleb_true _ _) Hle). cbn [fst snd].
    split; [lra|]. split; [lra|]. split; [reflexivity|].
    split; [intros; lra|]. split; reflexivity. }
  rewrite (proj2 (Rleb_false _ _)) by lra.
  destruct (bite_cases (corpse.energy k) bite) as (B1 & B2 & B3 & B4); [lra|lra|].
  cbn [fst snd corpse.energy corpse.set_energy].
  split.
  { destruct (_ <=? 0); reflexivity. }
  split; [lra|]. split; [intros [H|H]; [discriminate|lra]|].
  split.
  - intros _ _. split; [lra|]. split.
    { destruct (_ <=? 0); cbn; lra. }
    split.
    + destruct (Rle_dec (corpse.energy k - Rmin (corpse.energy k) bite) 0) as [H0|H0].
      * rewrite (proj2 (Rleb_true _ _) H0). cbn. split; [intros _; lra | reflexivity].
      * rewrite (proj2 (Rleb_false _ _)) by lra. cbn. rewrite Ec.
        split; [discriminate | intros; lra].
    + intros H1. unfold Rmin. destruct (Rle_dec _ _); lra.
  - split; destruct (_ <=? 0); reflexivity.
Qed.

(** A creature of size 17.5 at a corpse with 60 of energy *)
Lemma corpse_consume_bite_witness :
  let k := sampleCorpse in
  let r := corpse.consume DEFAULT_CONFIG 17.5 k in
  corpse.energy (snd r) = corpse.energy k - fst r
  /\ 0 <= fst r <= 30
  /\ (corpse.isConsumed k = true \/ corpse.energy k <= 0 -> r = (0, k))
  /\ (corpse.isConsumed k = false -> 0 < corpse.energy k ->
      0 < fst r <= corpse.energy k
      /\ 0 <= corpse.energy (snd r)
      /\ (corpse.isConsumed (snd r) = true <-> corpse.energy (snd r) = 0)
      /\ (8 <= corpse.energy k -> 8 <= fst r))
  /\ corpse.getDecayProgress 12 (snd r) = corpse.getDecayProgress 12 k
  /\ corpse.isDecayed 12 (snd r) = corpse.isDecayed 12 k.
Proof.
  apply (corpse_consume_bite DEFAULT_CONFIG 17.5 12 sampleCorpse).
  - cbn [DEFAULT_CONFIG CREATURE_MIN_SIZE CREATURE_MAX_SIZE]. lra.
  - cbn [DEFAULT_CONFIG CREATURE_MIN_SIZE CREATURE_MAX_SIZE]. lra.
Defined.

(** [getDecayProgress] is at most 1 and reaches 1 from the age 30 on;
    [isDecayed] holds from any age above 30, so that a decayed corpse has
    progress 1. *)
Lemma corpse_decay (t : R) (k : corpse.Corpse) :
  corpse.getDecayProgress t k <= 1
  /\ (corpse.getDecayProgress t k = 1 <-> 30 <= t - corpse.createdAt k)
  /\ (corpse.isDecayed t k = true <-> 30 < t - corpse.createdAt k)
  /\ (corpse.isDecayed t k = true -> corpse.getDecayProgress t k = 1)
  /\ (t - corpse.createdAt k <= 30 ->
      corpse.getDecayProgress t k = (t - corpse.createdAt k) / 30).
Proof.
  unfold corpse.getDecayProgress, corpse.isDecayed, corpse.CORPSE_DECAY_TIME.
  set (a := t - corpse.createdAt k). rewrite Rltb_true.
  unfold Rmin. destruct (Rle_dec 1 (a / 30)) as [H|H].
  - repeat split; intros; lra.
  - repeat split; intros; lra.
Qed.

End BitesFacts.

(** ** [cleanup] *)

Section CleanupFacts.

Local Open Scope R_scope.

Import config math creature world.

Lemma createCorpses_corpsesAdded (refs : list nat) (w : World) (g : Globals) :
  corpsesAdded w (createCorpses refs w g).
Proof.
  revert w g. induction refs as [|ref rest IH]; intros w g; cbn [createCorpses].
  - unfold corpsesAdded, ret. cbn [fst snd]. repeat split.
    exists []. rewrite app_nil_r. repeat split; [constructor | lia].
  - rewrite bind_apply. cbn [get fst snd].
    destruct (objects g !! ref) as [c|]; [|apply IH].
    destruct (negb (isAlive c) && (creature.energy c >? 5)) eqn:E; [|apply IH].
    destruct (Nat.ltb_spec (length (corpses w)) 500); [|apply IH].
    rewrite bind_apply.
    unfold corpse.createCorpse, corpse.new_Corpse.
    rewrite !bind_apply. cbn [get modify ret fst snd].
    match goal with
    | |- corpsesAdded _ (createCorpses rest ?w' ?g') =>
        destruct (IH w' g') as (F & D & T & new & C & Fr & L)
    end.
    cbn [food totalDeaths simulationTime corpses set_corpses] in F, D, T, C, Fr, L.
    split; [exact F|]. split; [exact D|]. split; [exact T|].
    eexists (_ :: new). split; [rewrite C, <- app_assoc; reflexivity|]. split.
    + constructor; [|exact Fr]. unfold freshCorpse.
      cbn [corpse.isConsumed corpse.createdAt corpse.energy corpse.maxEnergy].
      apply andb_true_iff in E. destruct E as [_ E]. apply Rltb_true in E.
      repeat split. lra.
    + rewrite <- app_assoc in L. cbn [app] in L.
      rewrite !length_app in L. cbn [length] in L. rewrite length_app. cbn [length]. lia.
Qed.

Lemma filter_alive_split (g : Globals) (l : list nat) :
  (length (filter (fun ref => alive g ref = false) l)
   + length (filter (fun ref => alive g ref = true) l) = length l)%nat.
Proof.
  induction l as [|ref l IH]; [reflexivity|].
  rewrite !filter_cons. destruct (alive g ref) eqn:E.
  - destruct (decide (true = false)) as [H|_]; [discriminate|].
    destruct (decide (true = true)) as [_|H]; [|congruence]. cbn [length]. lia.
  - destruct (decide (false = false)) as [_|H]; [|congruence].
    destruct (decide (false = true)) as [H|_]; [discriminate|]. cbn [length]. lia.
Qed.

Lemma filter_alive_twice (g : Globals) (l : list nat) :
  filter (fun ref => alive g ref = true) (filter (fun ref => alive g ref = true) l)
  = filter (fun ref => alive g ref = true) l
  /\ filter (fun ref => alive g ref = false) (filter (fun ref => alive g ref = true) l) = [].
Proof.
  induction l as [|ref l [IH1 IH2]]; [split; reflexivity|].
  rewrite filter_cons. destruct (decide (alive g ref = true)) as [E|E].
  - rewrite !filter_cons. destruct (decide (alive g ref = true)); [|congruence].
    destruct (decide (alive g ref = false)); [congruence|]. rewrite IH1, IH2. auto.
  - auto.
Qed.

Lemma alive_frame (g g' : Globals) :
  objects g' = objects g -> forall ref, alive g' ref = alive g ref.
Proof. intros H ref. unfold alive. rewrite H. reflexivity. Qed.

Lemma cleanup_cleaned (w : World) (g : Globals) : cleaned w g (cleanup w g).
Proof.
  unfold cleanup. rewrite bind_apply.
  destruct (createCorpses_framed (creatures w) w g) as (C1 & O1 & N1 & R1).
  destruct (createCorpses_corpsesAdded (creatures w) w g)
    as (F & D & T & new & C & Fr & L).
  set (w1 := fst (createCorpses (creatures w) w g)) in *.
  set (g1 := snd (createCorpses (creatures w) w g)) in *.
  rewrite bind_apply. unfold get, ret. cbn [fst snd]. unfold cleaned.
  cbn [fst snd creatures food corpses totalDeaths simulationTime
       set_creatures set_food set_corpses set_totalDeaths].
  assert (Ha : forall b, filter (fun ref => alive g1 ref = b) (creatures w1)
                         = filter (fun ref => alive g ref = b) (creatures w)).
  { intros b. rewrite C1. apply list_filter_iff. intros ref.
    rewrite (alive_frame g g1 O1). reflexivity. }
  rewrite !Ha, D, F, T, C.
  split; [reflexivity|]. split.
  { pose proof (filter_alive_split g (creatures w)). lia. }
  split.
  { intros f. rewrite list_elem_of_filter. tauto. }
  split.
  { intros k Hk. apply list_elem_of_filter in Hk. tauto. }
  split.
  { intros k Hk H1 H2. apply list_elem_of_filter. split; [auto|].
    apply elem_of_app. left. exact Hk. }
  split.
  { etransitivity; [apply length_filter|]. exact L. }
  auto.
Qed.

(** X22.  After cleanup(): the creatures of the world are the living ones of
    before, in their order; totalDeaths has grown by the number of creatures
    removed; the food is exactly the food of before that is not consumed;
    every corpse is neither consumed nor decayed, and every corpse of before
    that is neither is still there; there are at most max(500, number of
    corpses before) corpses; no creature object and not the species registry
    change; and a second cleanup() right after removes no creature and counts
    no death. *)
Theorem cleanup_outcome (w : World) (g : Globals) :
  let r := cleanup w g in
  creatures (fst r) = filter (fun ref => alive g ref = true) (creatures w)
  /\ (forall ref, ref ∈ creatures (fst r) -> alive (snd r) ref = true)
  /\ (totalDeaths (fst r)
      = totalDeaths w + Z.of_nat (length (creatures w) - length (creatures (fst r))))%Z
  /\ (forall f, f ∈ food (fst r) <-> f ∈ food w /\ food.isConsumed f = false)
  /\ (forall k, k ∈ corpses (fst r) ->
                corpse.isConsumed k = false
                /\ corpse.isDecayed (simulationTime w) k = false)
  /\ (forall k, k ∈ corpses w -> corpse.isConsumed k = false ->
                corpse.isDecayed (simulationTime w) k = false -> k ∈ corpses (fst r))
  /\ (length (corpses (fst r)) <= Nat.max (length (corpses w)) 500)%nat
  /\ objects (snd r) = objects g
  /\ speciesRegistry (snd r) = speciesRegistry g
  /\ creatures (fst (cleanup (fst r) (snd r))) = creatures (fst r)
  /\ totalDeaths (fst (cleanup (fst r) (snd r))) = totalDeaths (fst r).
Proof.
  cbv zeta.
  destruct (cleanup_cleaned w g) as (Cr & De & Fo & Co & Ck & Le & Ob & Re & Ti).
  destruct (cleanup_cleaned (fst (cleanup w g)) (snd (cleanup w g)))
    as (Cr2 & De2 & _).
  assert (Hal : forall ref, alive (snd (cleanup w g)) ref = alive g ref)
    by (apply alive_frame, Ob).
  assert (Hsame : creatures (fst (cleanup (fst (cleanup w g)) (snd (cleanup w g))))
                  = creatures (fst (cleanup w g))).
  { rewrite Cr2. rewrite Cr at 1 2.
    erewrite list_filter_iff; [apply (filter_alive_twice g)|].
    intros ref. rewrite Hal. reflexivity. }
  split; [exact Cr|]. split.
  { intros ref Hin. rewrite Hal. rewrite Cr in Hin.
    apply list_elem_of_filter in Hin. tauto. }
  repeat (split; [assumption|]). rewrite De2, Hsame. lia.
Qed.

End CleanupFacts.

(** ** [addCreature] and [initialize] *)

Section FoundingFacts.

Local Open Scope R_scope.

Import config math genetics creature world.

(** X23.  With MAX_CREATURES or more creatures in the world, addCreature
    changes nothing. Below the cap it appends the creature at the end of the
    list, adds 1 to totalBirths, raises generationMax to the creature's
    generation if that is larger, sets the creature's speciesId to the id of
    the species that getCreatureSpecies then returns for it, and changes no
    other creature. In both cases the list is afterwards no longer than
    max(its length before, MAX_CREATURES). *)
Theorem addCreature_outcome (CONFIG : Config) (ref : nat) (w : World) (g : Globals) :
  let r := addCreature CONFIG ref w g in
  ((MAX_CREATURES CONFIG <= length (creatures w))%nat -> r = (w, g))
  /\ (forall c, (length (creatures w) < MAX_CREATURES CONFIG)%nat ->
                objects g !! ref = Some c ->
        creatures (fst r) = creatures w ++ [ref]
        /\ totalBirths (fst r) = (totalBirths w + 1)%Z
        /\ generationMax (fst r) = Nat.max (generationMax w) (generation c)
        /\ exists sp,
             objects (snd r) !! ref = Some (set_speciesId (Some (species.id sp)) c)
             /\ species.getCreatureSpecies (creature.id c) (speciesRegistry (snd r)) = Some sp
             /\ (forall other, other <> ref ->
                               objects (snd r) !! other = objects g !! other))
  /\ (length (creatures (fst r)) <= Nat.max (length (creatures w)) (MAX_CREATURES CONFIG))%nat.
Proof.
  cbv zeta. split; [apply addCreature_full|]. split.
  - intros c Hlen Hc. rewrite (addCreature_run CONFIG ref w g c Hlen Hc). cbv zeta.
    cbn [fst snd]. split; [|split; [|split]].
    + destruct (_ <? _)%nat; reflexivity.
    + destruct (_ <? _)%nat; reflexivity.
    + destruct (Nat.ltb_spec (generationMax w) (generation c)); cbn; lia.
    + eexists. cbn [objects set_objects speciesRegistry set_speciesRegistry].
      split; [apply lookup_insert_eq|]. split.
      * apply assignSpecies_lookup.
      * intros other Hne. apply lookup_insert_ne. congruence.
  - destruct (Nat.ltb_spec (length (creatures w)) (MAX_CREATURES CONFIG)) as [Hlt|Hge].
    + destruct (objects g !! ref) as [c|] eqn:Hc.
      * rewrite (addCreature_run CONFIG ref w g c Hlt Hc). cbv zeta. cbn [fst].
        assert (E : forall w', creatures w' = creatures w ++ [ref] ->
                               (length (creatures w') <= Nat.max (length (creatures w))
                                                           (MAX_CREATURES CONFIG))%nat).
        { intros w' ->. rewrite length_app. cbn. lia. }
        destruct (_ <? _)%nat; apply E; reflexivity.
      * unfold addCreature. destruct (_ <? _)%nat; [|cbn; lia].
        rewrite bind_apply. cbn [get fst snd]. rewrite Hc. cbn. lia.
    + rewrite addCreature_full by exact Hge. cbn. lia.
Qed.

Lemma withRandom_frame {A : Type} (m : State RandomSource A) (g : Globals) :
  objects (snd (withRandom m g)) = objects g
  /\ nextCreatureId (snd (withRandom m g)) = nextCreatureId g.
Proof. split; reflexivity. Qed.

(** One draw: the rest runs in a store with the same objects and counter. *)
Ltac draw g O N :=
  rewrite bind_apply;
  match goal with
  | |- context [withRandom ?m g] =>
      let d := fresh "d" in
      let O' := fresh "O" in
      let N' := fresh "N" in
      destruct (withRandom_frame m g) as [O' N'];
      set (d := withRandom m g) in *; clearbody d;
      rewrite O in O'; rewrite N in N'; clear O N;
      destruct d as [? ?]; cbn [fst snd] in *
  end.

Lemma spawnFounder_founded_from (CONFIG : Config) (w : World) (g0 g : Globals) :
  objects g = objects g0 -> nextCreatureId g = nextCreatureId g0 ->
  founded CONFIG 1 w g0 (spawnFounder CONFIG w g).
Proof.
  intros O N. unfold spawnFounder.
  draw g O N. cbv zeta.
  match goal with |- context [bind (withRandom _) _ ?s] => draw s O0 N0 end. cbv zeta.
  match goal with |- context [bind (withRandom _) _ ?s] => draw s O N end.
  match goal with |- context [bind (withRandom _) _ ?s] => draw s O0 N0 end. cbv zeta.
  match goal with |- context [bind (withRandom _) _ ?s] => draw s O N end. cbv zeta.
  rewrite bind_apply, new_Creature_given. cbn [fst snd].
  rewrite bind_apply. cbn [get fst snd objects set_objects].
  rewrite lookup_insert_eq.
  unfold bind, withRegistry, assign, ret. cbn [fst snd objects set_objects set_speciesRegistry].
  rewrite lookup_insert_eq. cbn [fst snd].
  unfold founded.
  cbn [fst snd creatures set_creatures food nextCreatureId objects seq set_objects
       set_speciesRegistry set_random set_nextCreatureId].
  rewrite N0.
  split; [reflexivity|]. split; [reflexivity|]. split; [repeat split|].
  split; [lia|]. split.
  - intros ref Href. rewrite insert_insert_eq, lookup_insert_ne by lia.
    rewrite O0. reflexivity.
  - intros ref Href. assert (ref = nextCreatureId g0) as -> by lia.
    rewrite insert_insert_eq, lookup_insert_eq. eexists. split; [reflexivity|].
    unfold founder, isHerbivore, construct.
    cbn [creature.id isAlive generation energy speciesId traits set_speciesId setTrait
         dietPreference].
    repeat split; eauto.
    apply Rltb_true. eapply Rle_lt_trans; [apply Rmin_r|lra].
Qed.

Lemma sameCounters_refl (w : World) : sameCounters w w.
Proof. repeat split. Qed.

Lemma sameCounters_trans (w1 w2 w3 : World) :
  sameCounters w1 w2 -> sameCounters w2 w3 -> sameCounters w1 w3.
Proof.
  intros (A1 & A2 & A3 & A4 & A5) (B1 & B2 & B3 & B4 & B5).
  repeat split; congruence.
Qed.

Lemma spawnFounders_founded (CONFIG : Config) (count : nat) (w : World) (g : Globals) :
  founded CONFIG count w g (spawnFounders CONFIG count w g).
Proof.
  revert w g. induction count as [|n IH]; intros w g; cbn [spawnFounders].
  - unfold founded, ret. cbn [fst snd seq]. rewrite app_nil_r, Nat.add_0_r.
    split; [reflexivity|]. split; [reflexivity|]. split; [apply sameCounters_refl|].
    split; [reflexivity|]. split; [auto|]. intros ref H. lia.
  - rewrite bind_apply.
    destruct (spawnFounder_founded_from CONFIG w g g eq_refl eq_refl)
      as (C1 & F1 & S1 & N1 & O1 & B1).
    destruct (IH (fst (spawnFounder CONFIG w g)) (snd (spawnFounder CONFIG w g)))
      as (C2 & F2 & S2 & N2 & O2 & B2).
    split; [|split; [|split; [|split; [|split]]]].
    + rewrite C2, C1, N1, <- app_assoc, Nat.add_1_r. reflexivity.
    + congruence.
    + eapply sameCounters_trans; eassumption.
    + rewrite N2, N1. lia.
    + intros ref Href. rewrite O2 by lia. apply O1. exact Href.
    + intros ref Href. destruct (decide (ref = nextCreatureId g)) as [->|Hne].
      * rewrite O2 by lia. apply B1. lia.
      * apply B2. lia.
Qed.

Lemma spawnRandomFood_frame (CONFIG : Config) (g : Globals) :
  let r := food.spawnRandomFood CONFIG g in
  objects (snd r) = objects g
  /\ nextCreatureId (snd r) = nextCreatureId g
  /\ speciesRegistry (snd r) = speciesRegistry g
  /\ food.isConsumed (fst r) = false
  /\ food.energy (fst r) = food.maxEnergy (fst r).
Proof.
  cbv zeta.
  unfold food.spawnRandomFood, food.new_Food, bind, withRandom, get, modify, ret.
  cbn [fst snd]. repeat split.
Qed.

Lemma spawnInitialFood_fed (CONFIG : Config) (count : nat) (w : World) (g : Globals) :
  fed count w g (spawnInitialFood CONFIG count w g).
Proof.
  revert w g. induction count as [|n IH]; intros w g; cbn [spawnInitialFood].
  - unfold fed, ret. cbn [fst snd]. split; [reflexivity|].
    split; [apply sameCounters_refl|]. repeat (split; [reflexivity|]).
    exists []. rewrite app_nil_r. repeat split. constructor.
  - rewrite bind_apply.
    destruct (spawnRandomFood_frame CONFIG g) as (O1 & N1 & R1 & F1 & F2).
    match goal with
    | |- fed _ _ _ (spawnInitialFood _ _ ?w' ?g') =>
        destruct (IH w' g') as (C & S & O & N & R & new & Fd & L & Fr)
    end.
    cbn [creatures food set_food] in C, Fd.
    split; [exact C|]. split.
    { destruct S as (S1 & S2 & S3 & S4 & S5). repeat split; assumption. }
    split; [congruence|]. split; [congruence|]. split; [congruence|].
    eexists (_ :: new). split; [rewrite Fd, <- app_assoc; reflexivity|].
    split; [cbn; lia|]. constructor; [split; assumption | exact Fr].
Qed.

Lemma countLiving_all (w : World) (g : Globals) :
  (forall ref, ref ∈ creatures w -> livingWithSpecies g ref = true) ->
  countLiving w g = length (creatures w).
Proof.
  unfold countLiving. induction (creatures w) as [|ref l IH]; intros H.
  - reflexivity.
  - rewrite filter_cons. destruct (decide _) as [_|Hn].
    + cbn [length]. f_equal. apply IH. intros r Hr. apply H. right. exact Hr.
    + exfalso. apply Hn, H. left.
Qed.

(** X24.  After initialize(n) (n defaulting to INITIAL_CREATURE_COUNT),
    started where every creature object is filed under its own id below the id
    counter: the world lists exactly n creatures, with the next n creature
    ids, each alive, a herbivore, of generation 0, with CREATURE_BASE_ENERGY
    and a species; older creature objects are unchanged; there are
    INITIAL_FOOD_COUNT pieces of food, none consumed and each at full energy,
    and no corpse; totalBirths, totalDeaths, generationMax and simulationTime
    are 0; and the populations of the active species add up to n. *)
Theorem initialize_outcome (CONFIG : Config) (count : option nat) (w : World) (g : Globals) :
  storeWellFormed g ->
  let n := default (INITIAL_CREATURE_COUNT CONFIG) count in
  let r := initialize CONFIG count w g in
  creatures (fst r) = seq (nextCreatureId g) n
  /\ (forall ref, ref ∈ creatures (fst r) ->
        exists c, objects (snd r) !! ref = Some c
                  /\ creature.id c = ref
                  /\ isAlive c = true
                  /\ isHerbivore c = true
                  /\ generation c = 0%nat
                  /\ energy c = CREATURE_BASE_ENERGY CONFIG
                  /\ is_Some (speciesId c))
  /\ (forall ref, (ref < nextCreatureId g)%nat -> objects (snd r) !! ref = objects g !! ref)
  /\ length (food (fst r)) = INITIAL_FOOD_COUNT CONFIG
  /\ Forall (fun f => food.isConsumed f = false /\ food.energy f = food.maxEnergy f)
            (food (fst r))
  /\ corpses (fst r) = []
  /\ totalBirths (fst r) = 0%Z
  /\ totalDeaths (fst r) = 0%Z
  /\ generationMax (fst r) = 0%nat
  /\ simulationTime (fst r) = 0
  /\ totalPopulation (species.getActiveSpecies (speciesRegistry (snd r))) = Z.of_nat n.
Proof.
  intros Hwf. cbv zeta.
  pose proof (initialize_accounted CONFIG count w g Hwf) as Acc.
  unfold accountedWorld in Acc. apply accounted_sum in Acc.
  revert Acc. unfold initialize. cbv zeta. rewrite !bind_apply.
  set (w0 := set_simulationTime 0 _).
  set (g0 := snd (withRegistry species.reset g)).
  set (n := default (INITIAL_CREATURE_COUNT CONFIG) count).
  destruct (spawnFounders_founded CONFIG n w0 g0) as (C1 & F1 & S1 & N1 & O1 & B1).
  set (r1 := spawnFounders CONFIG n w0 g0) in *.
  destruct (spawnInitialFood_fed CONFIG (INITIAL_FOOD_COUNT CONFIG) (fst r1) (snd r1))
    as (C2 & S2 & O2 & N2 & R2 & new & Fd & L & Fr).
  set (r2 := spawnInitialFood CONFIG (INITIAL_FOOD_COUNT CONFIG) (fst r1) (snd r1)) in *.
  intros Acc.
  assert (Hc : creatures (fst r2) = seq (nextCreatureId g) n).
  { rewrite C2, C1. reflexivity. }
  assert (Hf : forall ref, ref ∈ creatures (fst r2) ->
                 exists c, objects (snd r2) !! ref = Some c /\ founder CONFIG ref c).
  { intros ref Href. rewrite Hc in Href. apply elem_of_seq in Href.
    rewrite O2. apply B1. exact Href. }
  destruct (sameCounters_trans _ _ _ S1 S2) as (K1 & K2 & K3 & K4 & K5).
  split; [exact Hc|]. split.
  { intros ref Href. destruct (Hf ref Href) as (c & Hl & F). exists c. split; [exact Hl|exact F]. }
  split; [intros ref Href; rewrite O2; apply O1; exact Href|].
  split; [rewrite Fd, F1; cbn; exact L|].
  split; [rewrite Fd, F1; cbn; exact Fr|].
  split; [rewrite K1; reflexivity|]. split; [rewrite K2; reflexivity|].
  split; [rewrite K3; reflexivity|]. split; [rewrite K4; reflexivity|].
  split; [rewrite K5; reflexivity|].
  rewrite Acc, countLiving_all.
  - rewrite Hc, length_seq. reflexivity.
  - intros ref Href. destruct (Hf ref Href) as (c & Hl & _ & Ha & _ & _ & _ & Hs).
    unfold livingWithSpecies. rewrite Hl, Ha. destruct Hs as [sid ->]. reflexivity.
Qed.

(** A new world at program start, initialized with 3 creatures *)
Lemma initialize_outcome_witness :
  let g := initialGlobals (fun _ => 0) in
  let r := initialize DEFAULT_CONFIG (Some 3%nat) (new_World DEFAULT_CONFIG) g in
  creatures (fst r) = seq (nextCreatureId g) 3
  /\ (forall ref, ref ∈ creatures (fst r) ->
        exists c, objects (snd r) !! ref = Some c
                  /\ creature.id c = ref
                  /\ isAlive c = true
                  /\ isHerbivore c = true
                  /\ generation c = 0%nat
                  /\ energy c = CREATURE_BASE_ENERGY DEFAULT_CONFIG
                  /\ is_Some (speciesId c))
  /\ (forall ref, (ref < nextCreatureId g)%nat -> objects (snd r) !! ref = objects g !! ref)
  /\ length (food (fst r)) = INITIAL_FOOD_COUNT DEFAULT_CONFIG
  /\ Forall (fun f => food.isConsumed f = false /\ food.energy f = food.maxEnergy f)
            (food (fst r))
  /\ corpses (fst r) = []
  /\ totalBirths (fst r) = 0%Z
  /\ totalDeaths (fst r) = 0%Z
  /\ generationMax (fst r) = 0%nat
  /\ simulationTime (fst r) = 0
  /\ totalPopulation (species.getActiveSpecies (speciesRegistry (snd r))) = Z.of_nat 3.
Proof.
  apply (initialize_outcome DEFAULT_CONFIG (Some 3%nat) (new_World DEFAULT_CONFIG)
           (initialGlobals (fun _ => 0))).
  apply initialGlobals_wf.
Defined.

End FoundingFacts.

(** ** Temperature *)

Section TemperatureFacts.

Local Open Scope R_scope.

Import config math genetics creature world.

Lemma temperatureFrom_bounds (x y lo hi : R) (zones : list TemperatureZone) :
  lo <= 0 <= hi ->
  Forall (fun z => lo <= temperature z <= hi) zones ->
  forall temp,
    temp + INR (length zones) * lo <= temperatureFrom x y zones temp
    <= temp + INR (length zones) * hi.
Proof.
  intros Hb HF. induction HF as [|z zones Hz _ IH]; intros temp.
  - cbn. lra.
  - unfold temperatureFrom in *. cbn [fold_left]. cbv zeta.
    change (length (z :: zones)) with (S (length zones)). rewrite S_INR.
    set (d := distance x y (zone_x z) (zone_y z)).
    assert (Hd : 0 <= d) by apply distance_nonneg.
    destruct (Rlt_dec d (radius z)) as [Hin|Hout].
    + rewrite (proj2 (Rltb_true _ _) Hin).
      assert (Hi : 0 <= 1 - d / radius z <= 1).
      { assert (0 <= d / radius z < 1); [|lra]. split.
        - apply Rmult_le_pos; [exact Hd|]. apply Rlt_le, Rinv_0_lt_compat. lra.
        - apply Rmult_lt_reg_r with (radius z); [lra|].
          unfold Rdiv. rewrite Rmult_assoc, Rinv_l by lra. lra. }
      specialize (IH (temp + temperature z * (1 - d / radius z))).
      set (i := 1 - d / radius z) in *.
      assert (lo <= temperature z * i <= hi) by nra.
      lra.
    + rewrite (proj2 (Rltb_false _ _)) by lra.
      specialize (IH temp). lra.
Qed.

Lemma temperatureFrom_outside (x y : R) (zones : list TemperatureZone) :
  Forall (fun z => radius z <= distance x y (zone_x z) (zone_y z)) zones ->
  forall temp, temperatureFrom x y zones temp = temp.
Proof.
  intros HF. induction HF as [|z zones Hz _ IH]; intros temp; [reflexivity|].
  unfold temperatureFrom in *. cbn [fold_left]. cbv zeta.
  rewrite (proj2 (Rltb_false _ _)) by exact Hz. apply IH.
Qed.

(** X25.  If the temperature of every zone lies in [lo, hi] with lo <= 0 <=
    hi, then with n zones getTemperatureAt(x, y) lies between
    globalTemperature + n * lo and globalTemperature + n * hi (so heat zones
    never cool a point and cold zones never warm it); at a point that lies in
    no zone (its distance to every centre is at least the radius) it is
    globalTemperature. *)
Theorem getTemperatureAt_bounds (w : World) (x y lo hi : R) :
  lo <= 0 <= hi ->
  Forall (fun z => lo <= temperature z <= hi) (temperatureZones w) ->
  globalTemperature w + INR (length (temperatureZones w)) * lo
  <= getTemperatureAt w x y
  <= globalTemperature w + INR (length (temperatureZones w)) * hi
  /\ (Forall (fun z => radius z <= distance x y (zone_x z) (zone_y z)) (temperatureZones w) ->
      getTemperatureAt w x y = globalTemperature w).
Proof.
  intros Hb HF. split.
  - apply (temperatureFrom_bounds x y lo hi (temperatureZones w) Hb HF).
  - intros Hout. apply (temperatureFrom_outside x y (temperatureZones w) Hout).
Qed.

(** The heated world, whose one zone has temperature 30 *)
Lemma getTemperatureAt_bounds_witness :
  globalTemperature heatedWorld + INR (length (temperatureZones heatedWorld)) * 0
  <= getTemperatureAt heatedWorld 120 100
  <= globalTemperature heatedWorld + INR (length (temperatureZones heatedWorld)) * 30
  /\ (Forall (fun z => radius z <= distance 120 100 (zone_x z) (zone_y z))
        (temperatureZones heatedWorld) ->
      getTemperatureAt heatedWorld 120 100 = globalTemperature heatedWorld).
Proof.
  apply (getTemperatureAt_bounds heatedWorld 120 100 0 30).
  - lra.
  - repeat constructor; cbn [temperature]; lra.
Defined.

(** X26.  getTemperatureDamage is never negative; it is 0 when the temperature
    at the creature lies in [10, 30], and 0 for a creature whose heat and cold
    tolerance are both at least 1; for tolerances that are not negative it is
    at most half the number of degrees by which the temperature is above 30 or
    below 10. *)
Theorem getTemperatureDamage_range (w : World) (c : Creature) :
  let temp := getTemperatureAt w (x (creature.position c)) (y (creature.position c)) in
  0 <= getTemperatureDamage w c
  /\ (10 <= temp <= 30 -> getTemperatureDamage w c = 0)
  /\ (1 <= heatTolerance (traits c) -> 1 <= coldTolerance (traits c) ->
      getTemperatureDamage w c = 0)
  /\ (0 <= heatTolerance (traits c) -> 0 <= coldTolerance (traits c) ->
      getTemperatureDamage w c <= Rmax 0 (Rmax (temp - 30) (10 - temp)) * 0.5).
Proof.
  cbv zeta. unfold getTemperatureDamage. cbv zeta.
  set (temp := getTemperatureAt w _ _).
  assert (Hm : 0 <= Rmax 0 (Rmax (temp - 30) (10 - temp))) by apply Rmax_l.
  assert (Hh : temp - 30 <= Rmax 0 (Rmax (temp - 30) (10 - temp))).
  { eapply Rle_trans; [apply Rmax_l | apply Rmax_r]. }
  assert (Hc : 10 - temp <= Rmax 0 (Rmax (temp - 30) (10 - temp))).
  { eapply Rle_trans; [apply Rmax_r | apply Rmax_r]. }
  set (m := Rmax 0 (Rmax (temp - 30) (10 - temp))) in *.
  destruct (Rlt_dec 30 temp) as [Hhot|Hhot].
  - rewrite (proj2 (Rltb_true _ _) Hhot).
    split; [apply Rmax_l|]. split; [intros; lra|]. split.
    + intros H1 _. apply Rmax_left. nra.
    + intros H1 _. apply Rmax_lub; nra.
  - rewrite (proj2 (Rltb_false _ _)) by lra.
    destruct (Rlt_dec temp 10) as [Hcold|Hcold].
    + rewrite (proj2 (Rltb_true _ _) Hcold).
      split; [apply Rmax_l|]. split; [intros; lra|]. split.
      * intros _ H1. apply Rmax_left. nra.
      * intros _ H1. apply Rmax_lub; nra.
    + rewrite (proj2 (Rltb_false _ _)) by lra.
      split; [lra|]. split; [reflexivity|]. split; [reflexivity|].
      intros _ _. lra.
Qed.

End TemperatureFacts.

(** ** The cells of the spatial hash *)

Section CellsFacts.

Local Open Scope R_scope.

Import config math genetics creature world.

Lemma getKey_cellOf {T : Type} (h : SpatialHash T) (p : Vector2) :
  getKey h (x p) (y p) = cellOf (cellSize h) p.
Proof. reflexivity. Qed.

Lemma insert_cellAt {T : Type} (position : T -> Vector2) (e : T) (h : SpatialHash T)
    (key : Z * Z) :
  cellAt (insert position e h) key
  = cellAt h key ++ (if decide (cellOf (cellSize h) (position e) = key) then [e] else []).
Proof.
  unfold cellAt, insert. rewrite getKey_cellOf.
  set (k := cellOf (cellSize h) (position e)).
  destruct (decide (k = key)) as [->|Hne].
  - destruct (grid h !! key) as [cell|]; cbn [grid]; rewrite lookup_insert_eq; reflexivity.
  - destruct (grid h !! k) as [cell|]; cbn [grid]; rewrite lookup_insert_ne by exact Hne;
      rewrite app_nil_r; reflexivity.
Qed.

Lemma insertAll_snoc {T : Type} (position : T -> Vector2) (cs : R) (l : list T) (e : T) :
  insertAll position cs (l ++ [e]) = insert position e (insertAll position cs l).
Proof. unfold insertAll. rewrite fold_left_app. reflexivity. Qed.

(** Every cell holds the inserted entities of that cell, in the order of
    insertion. *)
Lemma insertAll_cellAt {T : Type} (position : T -> Vector2) (cs : R) (l : list T)
    (key : Z * Z) :
  cellAt (insertAll position cs l) key
  = filter (fun e => cellOf cs (position e) = key) l.
Proof.
  induction l as [|e l IH] using rev_ind.
  - unfold cellAt, insertAll. cbn. rewrite lookup_empty. reflexivity.
  - rewrite insertAll_snoc, insert_cellAt, IH, insertAll_cellSize, filter_app.
    reflexivity.
Qed.

Lemma nearbyCell_cellAt {T : Type} (h : SpatialHash T) (centerCol centerRow dc dr : Z) :
  nearbyCell h centerCol centerRow dc dr
  = if ((centerCol + dc <? 0) || (centerRow + dr <? 0))%Z then []
    else cellAt h ((centerCol + dc)%Z, (centerRow + dr)%Z).
Proof.
  unfold nearbyCell, cellAt. cbv zeta.
  destruct (_ || _); [reflexivity|]. destruct (grid h !! _); reflexivity.
Qed.

Lemma getNearby_insertAll {T : Type} (position : T -> Vector2) (cs : R) (l : list T)
    (qx qy r : R) (e : T) :
  In e (getNearby (insertAll position cs l) qx qy r)
  <-> In e l /\ visited cs qx qy r (cellOf cs (position e)).
Proof.
  unfold getNearby. rewrite insertAll_cellSize. cbv zeta.
  set (R0 := (Zceil (r / cs) + 1)%Z).
  set (cc := Zfloor (qx / cs)). set (cr := Zfloor (qy / cs)).
  rewrite in_flat_map. split.
  - intros (dc & Hdc & H). apply in_flat_map in H. destruct H as (dr & Hdr & H).
    rewrite nearbyCell_cellAt in H.
    destruct (Z.ltb_spec (cc + dc) 0); [destruct H|].
    destruct (Z.ltb_spec (cr + dr) 0); [destruct H|]. cbn [orb] in H.
    rewrite insertAll_cellAt in H. apply list_elem_of_In, list_elem_of_filter in H.
    destruct H as [Hk Hin]. split; [apply list_elem_of_In, Hin|].
    apply In_seqZ in Hdc, Hdr. unfold visited. rewrite Hk. cbn [fst snd].
    fold cc cr R0. lia.
  - intros (Hin & H0 & H1 & H2 & H3). fold cc cr R0 in H2, H3.
    destruct (cellOf cs (position e)) as [col row] eqn:Ek. cbn [fst snd] in *.
    exists (col - cc)%Z. split; [apply In_seqZ; lia|].
    apply in_flat_map. exists (row - cr)%Z. split; [apply In_seqZ; lia|].
    rewrite nearbyCell_cellAt.
    replace (cc + (col - cc))%Z with col by lia.
    replace (cr + (row - cr))%Z with row by lia.
    destruct (Z.ltb_spec col 0); [lia|]. destruct (Z.ltb_spec row 0); [lia|]. cbn [orb].
    rewrite insertAll_cellAt. apply list_elem_of_In, list_elem_of_filter.
    split; [exact Ek | apply list_elem_of_In, Hin].
Qed.

Lemma elem_of_flat_map {A B : Type} (f : A -> list B) (l : list A) (b : B) :
  b ∈ flat_map f l <-> exists a, a ∈ l /\ b ∈ f a.
Proof.
  rewrite list_elem_of_In, in_flat_map. split; intros (a & H1 & H2); exists a.
  - split; [apply list_elem_of_In, H1 | apply list_elem_of_In, H2].
  - split; [apply list_elem_of_In, H1 | apply list_elem_of_In, H2].
Qed.

Lemma NoDup_flat_map {A B : Type} (f : A -> list B) (l : list A) :
  NoDup l ->
  (forall a, a ∈ l -> NoDup (f a)) ->
  (forall a a' b, a ∈ l -> a' ∈ l -> b ∈ f a -> b ∈ f a' -> a = a') ->
  NoDup (flat_map f l).
Proof.
  induction 1 as [|a l Hnotin Hnd IH]; intros Hf Hdisj; cbn [flat_map].
  - constructor.
  - apply NoDup_app. split; [apply Hf; left|]. split.
    + intros b Hb Hb'. apply elem_of_flat_map in Hb'. destruct Hb' as (a' & Ha' & Hb').
      assert (a = a') as <- by (apply (Hdisj a a' b); [left | right; exact Ha' | exact Hb | exact Hb']).
      contradiction.
    + apply IH.
      * intros a' Ha'. apply Hf. right. exact Ha'.
      * intros a1 a2 b H1 H2. apply Hdisj; right; assumption.
Qed.

Lemma nearbyCell_insertAll {T : Type} (position : T -> Vector2) (cs : R) (l : list T)
    (cc cr dc dr : Z) (e : T) :
  e ∈ nearbyCell (insertAll position cs l) cc cr dc dr ->
  cellOf cs (position e) = ((cc + dc)%Z, (cr + dr)%Z).
Proof.
  rewrite nearbyCell_cellAt. destruct (_ || _); [intros H; inversion H|].
  rewrite insertAll_cellAt. intros H. apply list_elem_of_filter in H. tauto.
Qed.

Lemma nearbyCell_NoDup {T : Type} (position : T -> Vector2) (cs : R) (l : list T)
    (cc cr dc dr : Z) :
  NoDup l -> NoDup (nearbyCell (insertAll position cs l) cc cr dc dr).
Proof.
  intros Hnd. rewrite nearbyCell_cellAt. destruct (_ || _); [constructor|].
  rewrite insertAll_cellAt. apply NoDup_filter, Hnd.
Qed.

Lemma getNearby_NoDup {T : Type} (position : T -> Vector2) (cs : R) (l : list T)
    (qx qy r : R) :
  NoDup l -> NoDup (getNearby (insertAll position cs l) qx qy r).
Proof.
  intros Hnd. unfold getNearby. cbv zeta.
  apply NoDup_flat_map; [apply NoDup_seqZ| |].
  - intros dc _. apply NoDup_flat_map; [apply NoDup_seqZ| |].
    + intros dr _. apply nearbyCell_NoDup, Hnd.
    + intros dr dr' e _ _ H1 H2.
      apply nearbyCell_insertAll in H1, H2. rewrite H1 in H2. inversion H2. lia.
  - intros dc dc' e _ _ H1 H2.
    apply elem_of_flat_map in H1, H2.
    destruct H1 as (dr & _ & H1), H2 as (dr' & _ & H2).
    apply nearbyCell_insertAll in H1, H2. rewrite H1 in H2. inversion H2. lia.
Qed.

(** X27.  For a hash of a cell size cs other than 0, filled by insert of the
    entities of a list: getNearby(qx, qy, r) returns exactly the entities of
    the list whose cell (floor(x / cs), floor(y / cs)) has no negative index
    and lies within ceil(r / cs) + 1 columns and rows of the cell of the query
    point; if the list has no duplicates, neither has the result; and after
    clear() getNearby returns []. *)
Theorem getNearby_exact {T : Type} (position : T -> Vector2) (cs : R) (l : list T)
    (qx qy r : R) :
  cs <> 0 ->
  (forall e, In e (getNearby (insertAll position cs l) qx qy r)
             <-> In e l
                 /\ (0 <= Zfloor (x (position e) / cs))%Z
                 /\ (0 <= Zfloor (y (position e) / cs))%Z
                 /\ (Z.abs (Zfloor (x (position e) / cs) - Zfloor (qx / cs))
                     <= Zceil (r / cs) + 1)%Z
                 /\ (Z.abs (Zfloor (y (position e) / cs) - Zfloor (qy / cs))
                     <= Zceil (r / cs) + 1)%Z)
  /\ (NoDup l -> NoDup (getNearby (insertAll position cs l) qx qy r))
  /\ getNearby (clear (insertAll position cs l)) qx qy r = [].
Proof.
  intros _. split; [|split].
  - intros e. apply (getNearby_insertAll position cs l qx qy r e).
  - apply getNearby_NoDup.
  - apply getNearby_empty. reflexivity.
Qed.

(** Entities at (10, 10) and (260, 10) in cells of size 50, queried from (5,
    10) with radius 20 *)
Lemma getNearby_exact_witness :
  let position := fun v : Vector2 => v in
  let l := [ {| x := 10; y := 10 |}; {| x := 260; y := 10 |} ] in
  (forall e, In e (getNearby (insertAll position 50 l) 5 10 20)
             <-> In e l
                 /\ (0 <= Zfloor (x (position e) / 50))%Z
                 /\ (0 <= Zfloor (y (position e) / 50))%Z
                 /\ (Z.abs (Zfloor (x (position e) / 50) - Zfloor (5 / 50))
                     <= Zceil (20 / 50) + 1)%Z
                 /\ (Z.abs (Zfloor (y (position e) / 50) - Zfloor (10 / 50))
                     <= Zceil (20 / 50) + 1)%Z)
  /\ (NoDup l -> NoDup (getNearby (insertAll position 50 l) 5 10 20))
  /\ getNearby (clear (insertAll position 50 l)) 5 10 20 = [].
Proof.
  cbv zeta.
  apply (getNearby_exact (fun v : Vector2 => v) 50
           [ {| x := 10; y := 10 |}; {| x := 260; y := 10 |} ] 5 10 20).
  lra.
Defined.

(** A loop that inserts the entities that pass a test inserts the filtered
    list. *)
Lemma fold_insert_filter {T : Type} (position : T -> Vector2) (p : T -> bool)
    (l : list T) (h : SpatialHash T) :
  fold_left (fun h e => if p e then insert position e h else h) l h
  = fold_left (fun h e => insert position e h) (filter (fun e => p e = true) l) h.
Proof.
  revert h. induction l as [|e l IH]; intros h; [reflexivity|].
  cbn [fold_left]. rewrite filter_cons. destruct (p e) eqn:E.
  - destruct (decide (true = true)); [|congruence]. cbn [fold_left]. apply IH.
  - destruct (decide (false = true)); [discriminate|]. apply IH.
Qed.

Lemma within_visited (cs qx qy r : R) (p : Vector2) :
  0 < cs -> 0 <= x p -> 0 <= y p ->
  distance (x p) (y p) qx qy <= r ->
  visited cs qx qy r (cellOf cs p).
Proof.
  intros Hcs Hx Hy Hd.
  destruct (distance_bounds _ _ _ _ _ Hd) as [Dx Dy].
  assert (Hdiv : forall a b, Rabs (a - b) <= r -> Rabs (a / cs - b / cs) <= r / cs).
  { intros a b H. replace (a / cs - b / cs) with ((a - b) * / cs) by (field; lra).
    rewrite Rabs_mult, (Rabs_pos_eq (/ cs)).
    - apply Rmult_le_compat_r; [|exact H]. apply Rlt_le, Rinv_0_lt_compat, Hcs.
    - apply Rlt_le, Rinv_0_lt_compat, Hcs. }
  unfold visited, cellOf. cbn [fst snd]. repeat split.
  - apply (Zfloor_lub 0). apply Rmult_le_pos; [exact Hx|]. apply Rlt_le, Rinv_0_lt_compat, Hcs.
  - apply (Zfloor_lub 0). apply Rmult_le_pos; [exact Hy|]. apply Rlt_le, Rinv_0_lt_compat, Hcs.
  - apply floor_difference, Hdiv, Dx.
  - apply floor_difference, Hdiv, Dy.
Qed.

Lemma updateSpatialHashes_hashes (w : World) (g : Globals) :
  let w' := fst (updateSpatialHashes w g) in
  snd (updateSpatialHashes w g) = g
  /\ creatures w' = creatures w /\ food w' = food w /\ corpses w' = corpses w
  /\ creatureHash w'
     = insertAll (positionOf g) (cellSize (creatureHash w))
         (filter (fun ref => alive g ref = true) (creatures w))
  /\ foodHash w'
     = insertAll food.position (cellSize (foodHash w))
         (filter (fun f => negb (food.isConsumed f) = true) (food w))
  /\ corpseHash w'
     = insertAll corpse.position (cellSize (corpseHash w))
         (filter (fun k => negb (corpse.isConsumed k) = true) (corpses w)).
Proof.
  cbv zeta. unfold updateSpatialHashes. rewrite bind_apply. unfold get, ret.
  cbn [fst snd creatures food corpses creatureHash foodHash corpseHash set_hashes].
  rewrite !fold_insert_filter. repeat split.
Qed.

(** X28.  updateSpatialHashes changes no creature and not the lists of
    creatures, food and corpses of the world; right after it, getCreaturesNear
    returns only living creatures of the world, without duplicates if the list
    of the world has none, and (for a positive cell size) every living
    creature of the world whose coordinates are not negative and whose
    distance to the query point is at most the radius; getFoodNear returns
    only food of the world that is not consumed, and getCorpsesNear only
    corpses of the world that are not consumed. *)
Theorem getCreaturesNear_after_update (w : World) (g : Globals) (qx qy r : R) :
  let w' := fst (updateSpatialHashes w g) in
  snd (updateSpatialHashes w g) = g
  /\ creatures w' = creatures w /\ food w' = food w /\ corpses w' = corpses w
  /\ (forall ref, ref ∈ getCreaturesNear w' g qx qy r ->
                  ref ∈ creatures w /\ alive g ref = true)
  /\ (forall ref c,
        0 < cellSize (creatureHash w) ->
        ref ∈ creatures w -> objects g !! ref = Some c -> isAlive c = true ->
        0 <= x (creature.position c) -> 0 <= y (creature.position c) ->
        distance (x (creature.position c)) (y (creature.position c)) qx qy <= r ->
        ref ∈ getCreaturesNear w' g qx qy r)
  /\ (NoDup (creatures w) -> NoDup (getCreaturesNear w' g qx qy r))
  /\ (forall f, f ∈ getFoodNear w' qx qy r -> f ∈ food w /\ food.isConsumed f = false)
  /\ (forall k, k ∈ getCorpsesNear w' qx qy r ->
                k ∈ corpses w /\ corpse.isConsumed k = false).
Proof.
  cbv zeta.
  destruct (updateSpatialHashes_hashes w g) as (Hg & Hc & Hf & Hk & Hch & Hfh & Hkh).
  unfold getCreaturesNear, getFoodNear, getCorpsesNear. rewrite Hch, Hfh, Hkh.
  split; [exact Hg|]. split; [exact Hc|]. split; [exact Hf|]. split; [exact Hk|]. split.
  { intros ref H. apply list_elem_of_filter in H. destruct H as [Ha H].
    apply list_elem_of_In, getNearby_insertAll in H. destruct H as [H _].
    apply list_elem_of_In, list_elem_of_filter in H. tauto. }
  split.
  { intros ref c Hcs Hin Hl Ha Hx Hy Hd.
    assert (Hal : alive g ref = true) by (unfold alive; rewrite Hl; exact Ha).
    apply list_elem_of_filter. split; [exact Hal|].
    apply list_elem_of_In, getNearby_insertAll. split.
    - apply list_elem_of_In, list_elem_of_filter. split; assumption.
    - unfold positionOf. rewrite Hl. apply within_visited; assumption. }
  split.
  { intros Hnd. apply NoDup_filter, getNearby_NoDup, NoDup_filter, Hnd. }
  split.
  - intros f H. apply list_elem_of_filter in H. destruct H as [Ha H].
    apply list_elem_of_In, getNearby_insertAll in H. destruct H as [H _].
    apply list_elem_of_In, list_elem_of_filter in H. tauto.
  - intros k H. apply list_elem_of_filter in H. destruct H as [Ha H].
    apply list_elem_of_In, getNearby_insertAll in H. destruct H as [H _].
    apply list_elem_of_In, list_elem_of_filter in H. tauto.
Qed.

End CellsFacts.

(** ** The nearest food and the nearest corpse *)

Section NearestFacts.

Local Open Scope R_scope.

Import config math genetics creature world physics.

Lemma nearestStep_nearestOf {T : Type} (isConsumed : T -> bool) (position : T -> Vector2)
    (c : Creature) (seen : list T) (nearest : option (T * R)) (item : T) :
  nearestOf isConsumed position c seen nearest ->
  nearestOf isConsumed position c (seen ++ [item])
    (nearestStep isConsumed position c nearest item).
Proof.
  intros H. unfold nearestStep. destruct (isConsumed item) eqn:Ec.
  - destruct nearest as [[best dist]|]; cbn in *.
    + destruct H as (Hd & Hin & Hb & Hmin). repeat split; auto.
      * apply elem_of_app. left. exact Hin.
      * intros x Hx Hxc. apply elem_of_app in Hx. destruct Hx as [Hx|Hx]; [auto|].
        apply list_elem_of_singleton in Hx. congruence.
    + intros x Hx. apply elem_of_app in Hx. destruct Hx as [Hx|Hx]; [auto|].
      apply list_elem_of_singleton in Hx. congruence.
  - cbv zeta. destruct nearest as [[best dist]|]; cbn in *.
    + destruct H as (Hd & Hin & Hb & Hmin).
      destruct (Rlt_dec (distanceTo c (position item)) dist) as [Hlt|Hge].
      * rewrite (proj2 (Rltb_true _ _) Hlt). repeat split; auto.
        -- apply elem_of_app. right. apply list_elem_of_singleton. reflexivity.
        -- intros x Hx Hxc. apply elem_of_app in Hx. destruct Hx as [Hx|Hx].
           ++ specialize (Hmin x Hx Hxc). lra.
           ++ apply list_elem_of_singleton in Hx. subst x. lra.
      * rewrite (proj2 (Rltb_false _ _)) by lra. repeat split; auto.
        -- apply elem_of_app. left. exact Hin.
        -- intros x Hx Hxc. apply elem_of_app in Hx. destruct Hx as [Hx|Hx]; [auto|].
           apply list_elem_of_singleton in Hx. subst x. lra.
    + repeat split; auto.
      * apply elem_of_app. right. apply list_elem_of_singleton. reflexivity.
      * intros x Hx Hxc. apply elem_of_app in Hx. destruct Hx as [Hx|Hx].
        -- rewrite (H x Hx) in Hxc. discriminate.
        -- apply list_elem_of_singleton in Hx. subst x. lra.
Qed.

Lemma fold_nearestOf {T : Type} (isConsumed : T -> bool) (position : T -> Vector2)
    (c : Creature) (l seen : list T) (nearest : option (T * R)) :
  nearestOf isConsumed position c seen nearest ->
  nearestOf isConsumed position c (seen ++ l)
    (fold_left (nearestStep isConsumed position c) l nearest).
Proof.
  revert seen nearest. induction l as [|item l IH]; intros seen nearest H; cbn [fold_left].
  - rewrite app_nil_r. exact H.
  - replace (seen ++ item :: l) with ((seen ++ [item]) ++ l)
      by (rewrite <- app_assoc; reflexivity).
    apply IH, nearestStep_nearestOf, H.
Qed.

(** X29.  findNearestFood returns null exactly when every food of the list is
    consumed; otherwise it returns a food of the list that is not consumed,
    and no food of the list that is not consumed is nearer to the creature.
    The same holds of findNearestCorpse and the corpses of its list. *)
Theorem findNearest_nearest (c : Creature) (foods : list food.Food)
    (corpses : list corpse.Corpse) :
  match findNearestFood c foods with
  | None => forall f, f ∈ foods -> food.isConsumed f = true
  | Some best =>
      best ∈ foods
      /\ food.isConsumed best = false
      /\ forall f, f ∈ foods -> food.isConsumed f = false ->
                   distanceTo c (food.position best) <= distanceTo c (food.position f)
  end
  /\ match findNearestCorpse c corpses with
     | None => forall k, k ∈ corpses -> corpse.isConsumed k = true
     | Some best =>
         best ∈ corpses
         /\ corpse.isConsumed best = false
         /\ forall k, k ∈ corpses -> corpse.isConsumed k = false ->
                      distanceTo c (corpse.position best)
                      <= distanceTo c (corpse.position k)
     end.
Proof.
  split.
  - unfold findNearestFood.
    pose proof (fold_nearestOf food.isConsumed food.position c foods [] None) as H.
    cbn [app] in H. specialize (H (fun item Hin => match not_elem_of_nil item Hin with end)).
    destruct (fold_left _ foods None) as [[best dist]|]; cbn in *.
    + destruct H as (Hd & Hin & Hb & Hmin). subst dist. auto.
    + exact H.
  - unfold findNearestCorpse.
    pose proof (fold_nearestOf corpse.isConsumed corpse.position c corpses [] None) as H.
    cbn [app] in H. specialize (H (fun item Hin => match not_elem_of_nil item Hin with end)).
    destruct (fold_left _ corpses None) as [[best dist]|]; cbn in *.
    + destruct H as (Hd & Hin & Hb & Hmin). subst dist. auto.
    + exact H.
Qed.

End NearestFacts.

(** ** The invariants of a simulated world *)

Section BooksFacts.

Local Open Scope R_scope.

Import config math genetics creature world.

(** X30.  In every state reached from a new world at the start of the program
    by initialize, addCreature of a living creature that is not in the world
    yet, calls of the methods of creatures, updateSpatialHashes, updateTime,
    processEmigration and cleanup: no creature is listed twice; every listed
    creature is filed under its own id, below the id counter; every living
    listed creature is mapped to a species by the registry; the registry maps
    only living listed creatures, each to the species named in its speciesId,
    which is in the registry; species ids are pairwise distinct and below
    nextSpeciesId; and the population of every species is the number of listed
    creatures mapped to it. *)
Theorem world_invariants (CONFIG : Config) (w : World) (g : Globals) :
  worldReachable CONFIG asSimulated w g ->
  let reg := speciesRegistry g in
  NoDup (creatures w)
  /\ (forall ref, ref ∈ creatures w ->
        exists c, objects g !! ref = Some c /\ creature.id c = ref
                  /\ (ref < nextCreatureId g)%nat)
  /\ (forall ref c, ref ∈ creatures w -> objects g !! ref = Some c -> isAlive c = true ->
        exists sid, species.creatureSpecies reg !! ref = Some sid)
  /\ (forall ref sid, species.creatureSpecies reg !! ref = Some sid ->
        ref ∈ creatures w
        /\ (exists c, objects g !! ref = Some c /\ isAlive c = true
                      /\ speciesId c = Some sid)
        /\ exists sp, sp ∈ species.species reg /\ species.id sp = sid)
  /\ NoDup (map species.id (species.species reg))
  /\ (forall sp, sp ∈ species.species reg ->
        species.population sp
        = Z.of_nat (length (filter (fun ref => species.creatureSpecies reg !! ref
                                               = Some (species.id sp))
                                   (creatures w)))
        /\ (species.id sp < species.nextSpeciesId reg)%nat).
Proof.
  intros H. cbv zeta. apply worldReachable_accounted in H.
  destruct H as [Hwf Hnd Hst Hmap Hal Hids Hfresh Hpop].
  split; [exact Hnd|]. split.
  { intros ref Hin. destruct (Hst ref Hin) as [c Hc]. exists c.
    destruct (Hwf ref c Hc). auto. }
  split.
  { intros ref c Hin Hc Ha. destruct (Hal ref c Hin Hc Ha) as [sid Hs]. eauto. }
  split.
  { intros ref sid Hs. destruct (Hmap ref sid Hs) as (Hin & Hc & Hsid).
    split; [exact Hin|]. split; [exact Hc|].
    apply list_elem_of_fmap in Hsid. destruct Hsid as (sp & -> & Hsp). eauto. }
  split; [exact Hids|].
  intros sp Hsp. split; [apply (Hpop sp Hsp) | apply (Hfresh sp Hsp)].
Qed.

(** The world of one creature that was constructed and added *)
Lemma world_invariants_witness :
  let w := fst (settled 100 100) in
  let g := snd (settled 100 100) in
  let reg := speciesRegistry g in
  NoDup (creatures w)
  /\ (forall ref, ref ∈ creatures w ->
        exists c, objects g !! ref = Some c /\ creature.id c = ref
                  /\ (ref < nextCreatureId g)%nat)
  /\ (forall ref c, ref ∈ creatures w -> objects g !! ref = Some c -> isAlive c = true ->
        exists sid, species.creatureSpecies reg !! ref = Some sid)
  /\ (forall ref sid, species.creatureSpecies reg !! ref = Some sid ->
        ref ∈ creatures w
        /\ (exists c, objects g !! ref = Some c /\ isAlive c = true
                      /\ speciesId c = Some sid)
        /\ exists sp, sp ∈ species.species reg /\ species.id sp = sid)
  /\ NoDup (map species.id (species.species reg))
  /\ (forall sp, sp ∈ species.species reg ->
        species.population sp
        = Z.of_nat (length (filter (fun ref => species.creatureSpecies reg !! ref
                                               = Some (species.id sp))
                                   (creatures w)))
        /\ (species.id sp < species.nextSpeciesId reg)%nat).
Proof.
  apply (world_invariants DEFAULT_CONFIG). apply settled_reachable.
Defined.

End BooksFacts.
